(* ===== verification/_CoqProject ===== *)
-Q . S2P
Prelude.v
MemoryRange.v
MemoryRangeSpec.v
ChipsetDevice.v
Pic.v
IoApic.v
IoApicSpec.v
RingMem.v
VmbusRing.v
VmbusRingSpec.v
VmbusRingFifo.v
VmTime.v
VmTimeSpec.v
Pit.v
PitTick.v
PitSpec.v
PitSafe.v
LocalApic.v
ApicBanks.v
LocalApicSpec.v
LocalApicOps.v
LocalApicScan.v
LocalApicSystem.v
ApicRouting.v
IrqRouting.v
IrqRoutingSpec.v
IoApicWired.v
ApicProps.v
InterruptPath.v
GuestMem.v
AmdIommu.v
AmdIommuSpec.v
IommuCommon.v
IommuCommonSpec.v
AmdIommuLog.v
AmdIommuDma.v
AmdIommuRemap.v
AmdIommuSafe.v
VirtioQueue.v
VirtioQueueSpec.v
VirtioQueueOps.v
VirtioQueueSafe.v
VirtioFifo.v
VirtioKick.v
VirtioUsed.v
VirtioInOrder.v
VirtioPayload.v
VirtioDefects.v
