(* ===== verification/Prelude.v ===== *)
(** * Verification of the core of OpenVMM

    OpenVMM is a virtual machine monitor written in Rust. This development
    translates self-contained parts of it into Rocq functions and proves that
    they do what the rest of the monitor, and the guest, rely on. Paths below
    are relative to [src/].

    ** The parts and how they interact

    - Guest memory is described by sorted lists of page-aligned ranges
      ([vm/vmcore/memory_range/src/lib.rs]); the layout of every VM is computed
      with the walks and merges of that crate.
    - Paravirtual devices talk to the guest through VMBus rings
      ([vm/devices/vmbus/vmbus_ring/src/lib.rs]): a pair of pointers in a
      control page shared with the guest, and a circular data area.
    - Emulated devices implement register accesses and raise lines
      ([vm/chipset_device/src/io.rs] has their errors). Of those the interrupt
      controllers ([vm/devices/chipset/src/pic/mod.rs] and [ioapic/mod.rs]) and
      the interval timer ([pit/mod.rs]) are modelled.
    - Every processor has a local APIC, of which
      [vmm_core/virt_support_apic/src/lib.rs] emulates a set. A line of the I/O
      APIC becomes a message through the routes of the partition
      ([vmm_core/virt/src/irqcon.rs]), which an IOMMU may translate first
      ([openvmm/openvmm_core/src/worker/dispatch/ioapic_iommu_wiring.rs]); the
      message is requested of the local APICs it selects, and the interrupts
      these end come back to the I/O APIC.
    - A device's accesses to memory and its interrupts may pass an IOMMU: memory
      seen through a translator ([vm/devices/iommu/iommu_common/src/lib.rs]) and
      the AMD IOMMU ([vm/devices/iommu/amd_iommu/src/lib.rs] and [spec/]), with
      its page tables, interrupt tables, command buffer and event log in guest
      memory. The I/O APIC is one such device.
    - Virtio devices share queues with the guest's driver
      ([vm/devices/virtio/virtio/src/queue.rs], [queue/split.rs],
      [queue/packed.rs], [common.rs]): chains of descriptors that the driver
      offers and the device completes, with suppression of notifications both
      ways. Devices that must complete in order do so through a tracker
      ([in_order.rs]).
    - Timers run on VM time ([vm/vmcore/src/vmtime.rs]), a clock that stops
      with the VM, with one host timer shared by all waiters of a source. The
      interval timer uses it through an accessor.

    ** Files

    - [Prelude]: outcomes, machine words, record update, tactics and hints.
    - [MemoryRange]: [MemoryRange], [TryFrom], alignment, [walk_ranges],
      [flatten_ranges], [merge_adjacent_ranges], [subtract_ranges],
      [overlapping_ranges], [AlignedSubranges]. An iterator is the list of its
      items. [MemoryRangeSpec]: these functions against the sets of addresses
      (or maps from addresses to tags) that lists of ranges denote.
    - [ChipsetDevice]: [IoError] and the statistics counters.
    - [Pic]: [Pic] and [DualPic], with the theorems about them.
    - [IoApic]: the redirection table, the routes and the message formats of
      [vm/x86/x86defs/src/msi.rs]. [IoApicSpec]: its theorems.
    - [RingMem]: the trait [RingMem] as the class of that name, with the
      contract of its documentation in [RingMemOk], and the flat, mapped and
      paged memories as instances.
    - [VmbusRing]: [IncomingRing], [OutgoingRing], the packet formats and
      the control page, generic in the memory. [VmbusRingSpec]: pointer
      arithmetic and safety on arbitrary shared memory. [VmbusRingFifo]: the
      ring with both endpoints refines a transactional stream of packets.
    - [VmTime]: [VmTime], [TimerState] and [VmTimeAccess], whose operations are
      the class [TimeAccess]. [VmTimeSpec]: a time source as a transition
      system; [TimeAccessLaws] states what a device may assume of its
      accessor and [accessor_laws] discharges it.
    - [Pit]: [Timer] and [PitDevice], generic in the accessor. [PitTick]: one
      channel against a reference that counts one tick at a time. [PitSpec]:
      programmed waveforms and termination. [PitSafe]: the whole device.
    - [LocalApic]: [LocalApicSet], [SharedState], [ApicSlot] and [LocalApic],
      with the formats of [vm/x86/x86defs/src/apic.rs]. [ApicBanks]: the eight
      words of 32 bits that hold a bit per vector. [LocalApicSpec]: the
      invariant and what a step may change for the other processors.
      [LocalApicOps]: each operation keeps it. [LocalApicScan]: scans.
      [LocalApicSystem]: the set with its processors as a transition system.
      [ApicRouting]: what a request does to every processor. [ApicProps]:
      taking and ending interrupts, and the timer.
    - [IrqRouting]: [MsiRequest], [IrqRoutes] and [IoApicRoutingInner], with the
      traits [IoApicRouting] and [InterruptRemapper] as classes.
      [IrqRoutingSpec]: their laws, which the partition and the remapped
      routing satisfy. [IoApicWired]: the I/O APIC over any routing with these
      laws, and its histories with the interrupts not yet ended.
      [InterruptPath]: I/O APIC, routes and local APICs together.
    - [GuestMem]: guest memory as a map from addresses to bytes.
    - [IommuCommon]: [AssignedBusRange], [TranslatingMemory] and
      [RetranslateInterruptsList], with the trait [IommuTranslator] as a class.
      [IommuCommonSpec]: accesses over any translator with its laws.
    - [AmdIommu]: [IommuSharedState], [AmdIommuDevice] and the layouts of
      [spec/]. [AmdIommuSpec]: the page-table walk against the accesses that
      the tables grant. [AmdIommuLog]: the event log and the command buffer.
      [AmdIommuDma]: the IOMMU is a translator with the laws. [AmdIommuRemap]:
      it is an [InterruptRemapper] with the laws, and the I/O APIC behind it.
      [AmdIommuSafe]: the device as a transition system.
    - [VirtioQueue]: [VirtioQueue] with its two sides, [QueueCoreGetWork] and
      [QueueCoreCompleteWork], over the modules [SplitGet], [SplitComplete],
      [PackedGet] and [PackedComplete]; [DescriptorChain]; [InOrder] for
      [InOrderCompletion]. An operation is a function on guest memory and the
      queue; a [QueueError] is a value, and the state before it remains.
      [VirtioQueueSpec]: a calculus of weakest preconditions for these
      functions, and chains as lists of descriptors in memory.
      [VirtioQueueOps]: what the two kinds of queue do at every operation.
      [VirtioQueueSafe]: a queue, its outstanding work and a guest as a
      transition system. [VirtioFifo]: with a driver that publishes.
      [VirtioKick]: notifications of the device. [VirtioUsed]: the used ring and
      notifications of the driver. [VirtioInOrder]: the tracker.
      [VirtioPayload]: the buffers of a chain. [VirtioDefects]: runs that show
      defects.

    ** Conventions

    A function that can return an error or panic has a result in [res E A]: a
    panic is a failed assertion, an index out of range, or an arithmetic
    overflow (overflow checks are on). A [u8], [u32] or [u64] is a [Z] whose
    range is part of the invariants, and wrapping or truncating operations are
    written out. Mutable state is passed explicitly. What a device drives (its
    line, its routes, its wakers) is kept as the last value driven or as the
    log of the calls. Readings of the host clock are arguments.

    ** What the theorems show

    - Rings ([ring_refines_stream], [delivery], [read_safe],
      [paged_refines_flat], [can_write_decides], [packet_size_exact]): what
      one endpoint commits the other receives, in order, once and unaltered;
      a ring full of arbitrary bytes never makes the reader panic or leave the
      ring; the paged memory behaves as the flat one.
    - Interrupt controllers ([pic_reachable_safe],
      [acknowledge_highest_priority], [edge_delivered_once],
      [ioapic_reachable_safe], [set_irq_delivers], [eoi_redelivers] and the
      round trips of save and restore): every sequence of guest accesses and
      line changes keeps the invariants, and the operations that panic are
      known exactly; priorities are honoured, edges are delivered once, levels
      until they are lowered, and no level-triggered interrupt is lost.
    - VM time ([no_lost_wakeup], [expired_waiter_woken],
      [vmtime_never_panics], [poll_timeout_exact], [vmtime_add_sub]): the host
      timer is never set later than the earliest waiter needs, an expired
      waiter is woken, and a poll is ready exactly when its time has come.
    - Interval timer ([evaluate_counts_ticks], [next_wakeup_exact],
      [programmed_waveform], [pit_reachable_safe], [pit_wakeup_armed],
      [evaluate_terminates], [pit_save_restore]): advancing a channel by any
      number of ticks equals counting them one by one; the output follows the
      waveform of the mode; the next wakeup is the tick of the next change.
    - Local APICs ([apic_reachable_safe], [apic_request_kept],
      [apic_request_reported], [routing_exact], [msi_requests],
      [taken_then_ended], [lazy_eoi_sound], [timer_counts_ticks],
      [timer_reads_exact]): an operation of a processor panics only if it
      writes an unknown destination format; a request does to every processor
      exactly what its destination and mode say; a requested interrupt is
      neither lost nor stranded, and is taken and ended once.
    - Routing ([remapped_delivery], [line_sends_message], [msi_roundtrip]) and
      the path of an interrupt ([platform_safe], [line_requests],
      [level_interrupt_again]): a due line requests its interrupt of the
      processors that its entry, as translated, selects, and a level-triggered
      one again when it is ended while the line is high.
    - IOMMU ([translate_exact], [mode7_roundtrip], [dma_read_exact],
      [dma_write_exact], [dma_confined], [signal_msi_exact],
      [irte_message_decoded], [invalidation_takes_effect], [event_log_queue],
      [commands_processed], [iommu_reachable_safe]): an address is translated
      exactly if the guest's tables grant the access; an access split at pages
      is the access to every byte; a device changes only memory that the IOMMU
      lets it write at that time; faults are queued in order; whatever the guest puts into tables,
      rings and registers, every operation ends without a panic; and an
      invalidation command takes effect on the lines of the I/O APIC.
    - Virtio queues ([virtqueue_safe], [split_fifo], [kick_not_lost],
      [chain_exact], [in_order_exact], [split_used], [payload_exact],
      [virtqueue_save_restore]):
      whatever the guest has in memory, and however it changes it between two
      operations, no operation panics or leaves the rings; work is fetched in
      the order it was offered and published as it was completed, or in the
      order it was fetched; a chain is read exactly, but for one kind of table
      that should be refused, and its buffers are one sequence of bytes; neither side sleeps through
      work of the other; and the cursors are all that needs to be saved. Safety,
      chains, kicks, saving and in-order completion are shown for split and
      packed queues, the order of fetching and the used ring for split ones.
    - Memory ranges ([walk_ranges_correct], [set_operations_correct],
      [flatten_ranges_correct], [merge_adjacent_correct],
      [aligned_subranges_correct] and the alignment theorems).
    - Defects that modelling showed: [poll_then_acknowledge_panics],
      [count_rewrite_stale], [pit_time_drift], [maximum_size_rejected],
      [skip_keeps_null_count], [mmio_read_long_panics],
      [aligned_subrange_overflows], [dfr_write_panics], [timer_reads_drift],
      [restore_forgets_auto_eoi], [irte_message_decoded],
      [upper_half_acknowledges], [halted_runs_again], [packed_event_crossed],
      [packed_mixed_fetched_twice], [double_indirect_first].

    ** Bounds and fuel

    Loops that are not structural take fuel, and the theorems are about the
    functions with the fuel they are given in the definitions, never
    conditional on termination. The walk of two lists has one step per
    boundary; the aligned subranges of a range one per page; the evaluation of
    a channel one per tick and one more ([evaluate_terminates] shows that it
    is enough). A page-table walk has one step per level, as the levels fall;
    the command buffer one per entry of the ring, as the head moves on to a
    tail that does not; a translated access one per byte, as every chunk has
    one. A chain of descriptors has at most one step per slot of the queue and
    one more, where it is too long. Rings are below 2 GB, as [2 * size] must fit a [u32]. VM times
    stay below [2^56] units of 100 ns (228 years) and host times below [2^62]
    ns, so that relative comparisons are comparisons of integers.

    ** Not modelled

    Concurrent accesses to a ring's control page and to the shared words of a
    local APIC are sequential, each operation a step, as are the methods of the
    IOMMU, which hold its lock; the PCI configuration space of the IOMMU, the
    other IOMMUs and the mapping shortcut of guest memory are left out. The
    operations of a virtio queue are steps too, between which, and not within
    which, the guest changes memory, so that the fences in them have no model;
    the devices over the queues and the virtio transports are left out. Tracing,
    inspection and formatting have no model. The keeper tasks of VM time and
    [VmTimerPeriodic] are asynchronous tasks over channels. The remaining parts
    of the monitor are listed with the reason in the manifest: backends that
    only call the host's hypervisor, asynchronous protocol tasks (VMBus
    server and client, storage, networking, mesh), unsafe memory access, the
    instruction emulators, whose decoder is a third-party library, and build
    and test tooling.

    ** Vocabulary of this file

    - [res E A]: the outcome of a Rust computation, a value, an error of type
      [E] returned through [Result], or a panic (a failed [assert!], an index
      out of range, an arithmetic overflow with overflow checks on).
    - unsigned machine words as [Z] with an explicit width, the checked
      operations on them, and the bit lemmas the device models share.
    - record update [r <| field := v |>], and the tactics and hint databases
      ([word], [bits]) of the development. *)

From stdpp Require Export base tactics list option numbers.
From Stdlib Require Export Lia.

#[global] Open Scope Z_scope.

#[global] Arguments Z.testbit : simpl never.
#[global] Arguments Z.land : simpl never.
#[global] Arguments Z.lor : simpl never.
#[global] Arguments Z.ldiff : simpl never.
#[global] Arguments Z.shiftl : simpl never.
#[global] Arguments Z.shiftr : simpl never.
#[global] Arguments Z.pow : simpl never.

(** * Outcomes *)

Inductive res (E A : Type) : Type :=
| Ok (a : A)
| Err (e : E)
| Panic.
Arguments Ok {E A} a.
Arguments Err {E A} e.
Arguments Panic {E A}.

Definition res_bind {E A B} (m : res E A) (k : A -> res E B) : res E B :=
  match m with
  | Ok a => k a
  | Err e => Err e
  | Panic => Panic
  end.

Declare Scope vmm_scope.
Delimit Scope vmm_scope with vmm.
#[global] Open Scope vmm_scope.

Notation "'let!' x := m 'in' k" := (res_bind m (fun x => k))
  (at level 10, x pattern, m at level 100, k at level 200,
   format "'[v' 'let!'  x  :=  m  'in' '/' k ']'") : vmm_scope.

Notation "'assert!' b 'in' k" := (if b then k else Panic)
  (at level 10, b at level 100, k at level 200,
   format "'[v' 'assert!'  b  'in' '/' k ']'") : vmm_scope.

(** The error type of an operation that returns no [Result]. *)
Definition void : Type := Empty_set.

Definition is_ok {E A} (m : res E A) : bool :=
  match m with Ok _ => true | _ => false end.

Lemma res_bind_Ok {E A B} (m : res E A) (k : A -> res E B) b :
  res_bind m k = Ok b <-> exists a, m = Ok a /\ k a = Ok b.
Proof. destruct m; simpl; naive_solver. Qed.

Lemma res_bind_Err {E A B} (m : res E A) (k : A -> res E B) e :
  res_bind m k = Err e <-> m = Err e \/ exists a, m = Ok a /\ k a = Err e.
Proof. destruct m; simpl; naive_solver. Qed.

(** * Record update *)

(** A record type whose fields can be updated by name: its eta-expansion. *)
Class Settable (R : Type) := record_eta : R -> R.
Class Setter {R T : Type} (field : R -> T) := set_field : (T -> T) -> R -> R.

Ltac derive_setter R field :=
  let inst := constr:(ltac:(typeclasses eauto) : Settable R) in
  let eta := eval hnf in inst in
  let upd := fresh "upd" in
  let r := fresh "r" in
  refine (fun upd r => _);
  let body := eval cbv beta in (eta r) in
  match body with
  | context C [field r] => let b := context C [upd (field r)] in exact b
  end.

#[global] Hint Extern 1 (@Setter ?R _ ?field) =>
  derive_setter R field : typeclass_instances.

Notation "r <| field := v |>" := (set_field (field := field) (fun _ => v) r)
  (at level 12, left associativity, field at level 9, v at level 99,
   format "r  <| field  :=  v |>") : vmm_scope.

(** * Unsigned machine words

    A [w]-bit unsigned integer is a [Z] in [0, 2^w). The checked operations
    are the ones of a build with overflow checks: they panic on overflow.
    Where a theorem shows that an operation does not panic, the wrapping
    arithmetic of a release build computes the same value. *)

Definition is_u (w x : Z) : Prop := 0 <= x < 2 ^ w.

Definition is_ub (w x : Z) : bool := (0 <=? x) && (x <? 2 ^ w).

Definition uadd {E} (w a b : Z) : res E Z :=
  if a + b <? 2 ^ w then Ok (a + b) else Panic.

Definition usub {E} (a b : Z) : res E Z :=
  if b <=? a then Ok (a - b) else Panic.

Definition umul {E} (w a b : Z) : res E Z :=
  if a * b <? 2 ^ w then Ok (a * b) else Panic.

(** [a << n] on a [w]-bit word: the shift amount is checked, the bits shifted
    out are lost. *)
Definition ushl {E} (w a n : Z) : res E Z :=
  if n <? w then Ok (Z.shiftl a n mod 2 ^ w) else Panic.

(** [a >> n] on a [w]-bit word. *)
Definition ushr {E} (w a n : Z) : res E Z := if n <? w then Ok (Z.shiftr a n) else Panic.

(** An [as] cast to a [w]-bit word. *)
Definition ucast (w a : Z) : Z := a mod 2 ^ w.

Definition wrapping_add (w a b : Z) : Z := (a + b) mod 2 ^ w.
Definition wrapping_sub (w a b : Z) : Z := (a - b) mod 2 ^ w.
Definition wrapping_neg (w a : Z) : Z := (- a) mod 2 ^ w.

(** [!a] on a [w]-bit word. *)
Definition unot (w a : Z) : Z := Z.ldiff (Z.ones w) a.

Definition b2z (b : bool) : Z := if b then 1 else 0.

(** The field of [w] bits of [x] from bit [off] on. *)
Definition bits (x off w : Z) : Z := Z.land (Z.shiftr x off) (Z.ones w).

(** [x] with bit [n] set to [b]. *)
Definition with_bit (n : Z) (b : bool) (x : Z) : Z :=
  if b then Z.lor x (2 ^ n) else Z.ldiff x (2 ^ n).

Fixpoint pos_trailing_zeros (p : positive) : Z :=
  match p with
  | xO q => 1 + pos_trailing_zeros q
  | _ => 0
  end.

(** [trailing_zeros]; the width is its value at zero. *)
Definition trailing_zeros (w x : Z) : Z :=
  match x with
  | Zpos p => pos_trailing_zeros p
  | _ => w
  end.

Lemma uadd_ok {E} w a b : a + b < 2 ^ w -> uadd w a b = Ok (E:=E) (a + b).
Proof. intros. unfold uadd. by destruct (Z.ltb_spec (a + b) (2 ^ w)); [|lia]. Qed.

Lemma usub_ok {E} a b : b <= a -> usub a b = Ok (E:=E) (a - b).
Proof. intros. unfold usub. by destruct (Z.leb_spec b a); [|lia]. Qed.

Lemma umul_ok {E} w a b : a * b < 2 ^ w -> umul w a b = Ok (E:=E) (a * b).
Proof. intros. unfold umul. by destruct (Z.ltb_spec (a * b) (2 ^ w)); [|lia]. Qed.

Lemma ushr_ok {E} w a n : n < w -> ushr w a n = Ok (E:=E) (Z.shiftr a n).
Proof. intros. unfold ushr. by destruct (Z.ltb_spec n w); [|lia]. Qed.

(** Linear arithmetic with division and modulo by constants. *)
Ltac div_lia := Z.to_euclidean_division_equations; lia.

(** ** Bit reasoning *)

Lemma is_ub_spec w x : is_ub w x = true <-> is_u w x.
Proof. unfold is_ub, is_u. rewrite andb_true_iff, Z.leb_le, Z.ltb_lt. tauto. Qed.

Lemma is_u_testbit_high w x i : is_u w x -> w <= i -> Z.testbit x i = false.
Proof.
  intros [H0 H1] Hi. destruct (Z.ltb_spec w 0).
  { rewrite Z.pow_neg_r in H1 by done. lia. }
  rewrite <-(Z.mod_small x (2 ^ w)) by done. apply Z.mod_pow2_bits_high. lia.
Qed.

Lemma is_u_bits w x :
  0 <= w -> 0 <= x -> (forall i, w <= i -> Z.testbit x i = false) -> is_u w x.
Proof.
  intros Hw Hx Hb. split; [done|]. destruct (Z.eq_dec x 0) as [->|Hne].
  { apply Z.pow_pos_nonneg; lia. }
  apply Z.log2_lt_pow2; [lia|]. destruct (Z.ltb_spec (Z.log2 x) w); [done|].
  pose proof (Z.bit_log2 x). rewrite Hb in * by done. naive_solver lia.
Qed.

Lemma is_u_mono w w' x : is_u w x -> w <= w' -> is_u w' x.
Proof.
  unfold is_u. intros [? ?] ?. split; [done|].
  destruct (Z.ltb_spec w 0). { rewrite Z.pow_neg_r in * by done. lia. }
  pose proof (Z.pow_le_mono_r 2 w w'). lia.
Qed.

Lemma is_u_land_l w a b : 0 <= w -> is_u w a -> is_u w (Z.land a b).
Proof.
  intros Hw Ha. apply is_u_bits; [done|apply Z.land_nonneg; left; apply Ha|].
  intros i Hi. rewrite Z.land_spec, (is_u_testbit_high w a) by done. done.
Qed.

Lemma is_u_land_r w a b : 0 <= w -> is_u w b -> is_u w (Z.land a b).
Proof. rewrite Z.land_comm. apply is_u_land_l. Qed.

Lemma is_u_lor w a b : 0 <= w -> is_u w a -> is_u w b -> is_u w (Z.lor a b).
Proof.
  intros Hw Ha Hb. apply is_u_bits; [done|apply Z.lor_nonneg; split; [apply Ha|apply Hb]|].
  intros i Hi. rewrite Z.lor_spec, !(is_u_testbit_high w) by done. done.
Qed.

Lemma is_u_ldiff w a b : 0 <= w -> is_u w a -> is_u w (Z.ldiff a b).
Proof.
  intros Hw Ha. apply is_u_bits; [done|apply Z.ldiff_nonneg; left; apply Ha|].
  intros i Hi. rewrite Z.ldiff_spec, (is_u_testbit_high w a) by done. done.
Qed.

Lemma is_u_ones w : 0 <= w -> is_u w (Z.ones w).
Proof. unfold is_u. intros. rewrite Z.ones_equiv. pose proof (Z.pow_pos_nonneg 2 w). lia. Qed.

Lemma is_u_unot w a : 0 <= w -> is_u w (unot w a).
Proof. intros. unfold unot. apply is_u_ldiff, is_u_ones; done. Qed.

Lemma is_u_mod w a : 0 <= w -> is_u w (a mod 2 ^ w).
Proof. intros. apply Z.mod_pos_bound, Z.pow_pos_nonneg; lia. Qed.

Lemma is_u_ucast w a : 0 <= w -> is_u w (ucast w a).
Proof. apply is_u_mod. Qed.

Lemma is_u_shiftr w a n : 0 <= n -> is_u w a -> is_u w (Z.shiftr a n).
Proof.
  intros Hn [H0 H1]. rewrite Z.shiftr_div_pow2 by done.
  pose proof (Z.pow_pos_nonneg 2 n). split; [apply Z.div_pos; lia|].
  apply Z.div_lt_upper_bound; [lia|]. nia.
Qed.

Lemma is_u_pow2 w n : 0 <= n < w -> is_u w (2 ^ n).
Proof.
  intros. split; [apply Z.pow_nonneg; lia|]. apply Z.pow_lt_mono_r; lia.
Qed.

Lemma ushl_1 {E} w n : 0 <= n < w -> ushl w 1 n = Ok (E:=E) (2 ^ n).
Proof.
  intros. unfold ushl. destruct (Z.ltb_spec n w); [|lia].
  rewrite Z.shiftl_1_l, Z.mod_small; [done|]. apply is_u_pow2. lia.
Qed.

Lemma bits_bound x off w : 0 <= w -> is_u w (bits x off w).
Proof. intros. apply is_u_land_r; [done|]. by apply is_u_ones. Qed.

Lemma testbit_pow2 n i : 0 <= n -> Z.testbit (2 ^ n) i = (n =? i).
Proof.
  intros. destruct (Z.eqb_spec n i) as [->|]; [by apply Z.pow2_bits_true|].
  by apply Z.pow2_bits_false.
Qed.

Lemma testbit_ones w i : 0 <= w -> Z.testbit (Z.ones w) i = (0 <=? i) && (i <? w).
Proof. apply Z.testbit_ones. Qed.

Lemma testbit_unot w a i :
  0 <= w -> Z.testbit (unot w a) i = (0 <=? i) && (i <? w) && negb (Z.testbit a i).
Proof. intros. unfold unot. by rewrite Z.ldiff_spec, testbit_ones. Qed.

Lemma testbit_ucast w a i :
  0 <= w -> Z.testbit (ucast w a) i = (i <? w) && Z.testbit a i.
Proof.
  intros. unfold ucast. destruct (Z.ltb_spec i w).
  - destruct (Z.ltb_spec i 0); [by rewrite !Z.testbit_neg_r|].
    by rewrite Z.mod_pow2_bits_low.
  - by rewrite Z.mod_pow2_bits_high.
Qed.

Lemma land_pow2_testbit a n : 0 <= n -> (Z.land a (2 ^ n) =? 0) = negb (Z.testbit a n).
Proof.
  intros. destruct (Z.testbit a n) eqn:E; simpl; [apply Z.eqb_neq|apply Z.eqb_eq].
  - intros H0. assert (Z.testbit (Z.land a (2 ^ n)) n = false) by (rewrite H0; apply Z.testbit_0_l).
    rewrite Z.land_spec, E, testbit_pow2, Z.eqb_refl in * by done. done.
  - apply Z.bits_inj'. intros i Hi. rewrite Z.land_spec, testbit_pow2, Z.testbit_0_l by done.
    destruct (Z.eqb_spec n i) as [->|]; [by rewrite E|apply andb_false_r].
Qed.

Create HintDb word.
#[export] Hint Resolve is_u_land_l is_u_land_r is_u_lor is_u_ldiff is_u_unot
  is_u_mod is_u_ucast is_u_shiftr is_u_pow2 is_u_ones : word.
#[export] Hint Extern 2 (0 <= _) => lia : word.
#[export] Hint Extern 2 (0 <= _ < _) => lia : word.
#[export] Hint Extern 3 (is_u _ (Zpos _)) => (split; [lia|reflexivity]) : word.
#[export] Hint Extern 3 (is_u _ Z0) => (split; [lia|reflexivity]) : word.
#[export] Hint Extern 3 (is_u _ (b2z _)) =>
  (unfold b2z; case_match; split; [lia|reflexivity|lia|reflexivity]) : word.

#[export] Hint Extern 3 (is_u _ ?c) =>
  (is_const c; split; vm_compute; congruence) : word.

Create Rewrite HintDb bits.
#[export] Hint Rewrite Z.land_spec Z.lor_spec Z.lxor_spec Z.ldiff_spec Z.testbit_0_l
  : bits.
#[export] Hint Rewrite testbit_pow2 testbit_unot testbit_ucast testbit_ones
  Z.shiftr_spec Z.shiftl_spec using lia : bits.

(** Reduces an equation between words to the same equation at every bit. *)
Ltac bitwise i Hi :=
  apply Z.bits_inj'; intros i Hi; autorewrite with bits.

(** ** Lowest set bit *)

Lemma land_neg_pos (p : positive) :
  Z.land (Zpos p) (- Zpos p) = 2 ^ pos_trailing_zeros p.
Proof.
  induction p as [p _|p IH|]; cbn [pos_trailing_zeros]; [| |reflexivity].
  - replace (- Z.pos p~1) with (Z.lnot (Z.pos p~0)) by (unfold Z.lnot; lia).
    bitwise i Hi. rewrite Z.lnot_spec by done.
    destruct (Z.eqb_spec 0 i) as [<-|]; [reflexivity|].
    replace i with (Z.succ (i - 1)) by lia.
    change (Z.pos p~1) with (2 * Z.pos p + 1). change (Z.pos p~0) with (2 * Z.pos p).
    rewrite Z.testbit_odd_succ, Z.testbit_even_succ by lia. apply andb_negb_r.
  - assert (0 <= pos_trailing_zeros p) by (clear; induction p; simpl; lia).
    rewrite Z.pow_add_r by lia. rewrite <-IH.
    replace (- Z.pos p~0) with (2 * - Z.pos p) by lia. change (Z.pos p~0) with (2 * Z.pos p).
    change (2 ^ 1) with 2. bitwise i Hi.
    destruct (Z.eqb_spec 0 i) as [<-|]; [by rewrite !Z.testbit_even_0|].
    replace i with (Z.succ (i - 1)) by lia.
    rewrite !Z.testbit_even_succ, Z.land_spec by lia. done.
Qed.

Lemma trailing_zeros_nonneg w x : 0 <= w -> 0 <= trailing_zeros w x.
Proof. intros. destruct x as [|p|]; simpl; [done| |done]. induction p; simpl; lia. Qed.

Lemma trailing_zeros_testbit w x : 0 < x -> Z.testbit x (trailing_zeros w x) = true.
Proof.
  intros. destruct x as [|p|]; try lia. cbn.
  assert (Z.testbit (Z.land (Zpos p) (- Zpos p)) (pos_trailing_zeros p) = true) as Hb.
  { rewrite land_neg_pos. apply Z.pow2_bits_true. apply (trailing_zeros_nonneg 0 (Zpos p)). lia. }
  rewrite Z.land_spec in Hb. by apply andb_true_iff in Hb as [? _].
Qed.

Lemma trailing_zeros_low w x i :
  0 < x -> i < trailing_zeros w x -> Z.testbit x i = false.
Proof.
  intros Hx. destruct x as [|p|]; try lia. cbn. clear Hx. revert i.
  induction p as [p IH|p IH|]; cbn; intros i Hi;
    destruct (Z.ltb_spec i 0); try (by apply Z.testbit_neg_r); try lia.
  change (Z.pos p~0) with (2 * Z.pos p).
  destruct (Z.eqb_spec 0 i) as [<-|]; [by apply Z.testbit_even_0|].
  replace i with (Z.succ (i - 1)) by lia. rewrite Z.testbit_even_succ by lia.
  apply IH. lia.
Qed.

Lemma trailing_zeros_bound w x : 0 < x -> is_u w x -> trailing_zeros w x < w.
Proof.
  intros Hx Hu. destruct (Z.ltb_spec (trailing_zeros w x) w); [done|].
  pose proof (trailing_zeros_testbit w x Hx).
  rewrite (is_u_testbit_high w x) in * by done. done.
Qed.

Lemma lowest_bit w x :
  0 < x -> is_u w x -> Z.land x (wrapping_neg w x) = 2 ^ trailing_zeros w x.
Proof.
  intros Hx Hu. assert (0 <= w).
  { destruct (Z.ltb_spec w 0); [|done]. destruct Hu. rewrite Z.pow_neg_r in * by done. lia. }
  assert (Z.land x (wrapping_neg w x) = Z.land x (- x)) as ->.
  { bitwise i Hi. unfold wrapping_neg. destruct (Z.ltb_spec i w).
    - by rewrite Z.mod_pow2_bits_low.
    - by rewrite (is_u_testbit_high w x). }
  destruct x as [|p|]; try lia. apply land_neg_pos.
Qed.

(** * Slices and vectors *)

(** [v[i]] and [v[i] = x], which panic out of range. *)
Definition vec_get {E A} (l : list A) (i : Z) : res E A :=
  match l !! Z.to_nat i with
  | Some a => if 0 <=? i then Ok a else Panic
  | None => Panic
  end.

Definition vec_set {E A} (l : list A) (i : Z) (a : A) : res E (list A) :=
  if (0 <=? i) && (i <? Z.of_nat (length l)) then Ok (<[Z.to_nat i := a]> l) else Panic.

Lemma vec_get_ok {E A} (l : list A) i :
  0 <= i < Z.of_nat (length l) -> exists a, vec_get l i = Ok (E:=E) a /\ l !! Z.to_nat i = Some a.
Proof.
  intros. destruct (lookup_lt_is_Some_2 l (Z.to_nat i)) as [a Ha]; [lia|].
  exists a. unfold vec_get. rewrite Ha. by destruct (Z.leb_spec 0 i); [|lia].
Qed.

Lemma vec_set_ok {E A} (l : list A) i a :
  0 <= i < Z.of_nat (length l) -> vec_set l i a = Ok (E:=E) (<[Z.to_nat i := a]> l).
Proof.
  intros. unfold vec_set. destruct (Z.leb_spec 0 i), (Z.ltb_spec i (Z.of_nat (length l))); done || lia.
Qed.

(** [&v[a..b]] and [v[a..].copy_from(data)] on a slice. *)
Definition slice_get {E A} (l : list A) (a b : Z) : res E (list A) :=
  if (0 <=? a) && (a <=? b) && (b <=? Z.of_nat (length l))
  then Ok (take (Z.to_nat (b - a)) (drop (Z.to_nat a) l)) else Panic.

Definition slice_set {E A} (l : list A) (a : Z) (data : list A) : res E (list A) :=
  if (0 <=? a) && (a + Z.of_nat (length data) <=? Z.of_nat (length l))
  then Ok (list_inserts (Z.to_nat a) data l) else Panic.

Lemma slice_get_ok {E A} (l : list A) a b :
  0 <= a <= b -> b <= Z.of_nat (length l) ->
  slice_get l a b = Ok (E:=E) (take (Z.to_nat (b - a)) (drop (Z.to_nat a) l)).
Proof.
  intros. unfold slice_get.
  destruct (Z.leb_spec 0 a), (Z.leb_spec a b), (Z.leb_spec b (Z.of_nat (length l))); done || lia.
Qed.

Lemma slice_set_ok {E A} (l : list A) a data :
  0 <= a -> a + Z.of_nat (length data) <= Z.of_nat (length l) ->
  slice_set l a data = Ok (E:=E) (list_inserts (Z.to_nat a) data l).
Proof.
  intros. unfold slice_set.
  destruct (Z.leb_spec 0 a), (Z.leb_spec (a + Z.of_nat (length data)) (Z.of_nat (length l))); done || lia.
Qed.

(** * Little-endian bytes *)

Fixpoint le_bytes (n : nat) (x : Z) : list Z :=
  match n with
  | O => []
  | S n => x mod 256 :: le_bytes n (x / 256)
  end.

Fixpoint le_value (bs : list Z) : Z :=
  match bs with
  | [] => 0
  | b :: bs => b + 256 * le_value bs
  end.

Lemma length_le_bytes n x : length (le_bytes n x) = n.
Proof. revert x. induction n; simpl; auto. Qed.

Lemma le_value_bytes n x : 0 <= x < 256 ^ Z.of_nat n -> le_value (le_bytes n x) = x.
Proof.
  revert x. induction n as [|n IH]; simpl; intros x Hx.
  - change (256 ^ Z.of_nat 0) with 1 in Hx. lia.
  - rewrite IH.
    + pose proof (Z.div_mod x 256). lia.
    + rewrite Nat2Z.inj_succ, Z.pow_succ_r in Hx by lia.
      split; [apply Z.div_pos; lia|apply Z.div_lt_upper_bound; lia].
Qed.

Lemma le_value_bound bs :
  Forall (is_u 8) bs -> 0 <= le_value bs < 256 ^ Z.of_nat (length bs).
Proof.
  induction 1 as [|b bs Hb _ IH]; simpl; [done|].
  rewrite Nat2Z.inj_succ, Z.pow_succ_r by lia. destruct Hb. change (2 ^ 8) with 256 in *. lia.
Qed.

Lemma le_bytes_u8 n x : Forall (is_u 8) (le_bytes n x).
Proof.
  revert x. induction n as [|n IH]; simpl; intros x; constructor; [|done].
  apply (is_u_mod 8). lia.
Qed.

(** * Masks *)

Lemma land_mask a k : 0 <= k -> Z.land a (2 ^ k - 1) = a mod 2 ^ k.
Proof. intros. rewrite <-Z.land_ones by done. f_equal. rewrite Z.ones_equiv. lia. Qed.

Lemma land_not_mask w a k :
  0 <= k <= w -> is_u w a -> Z.land a (unot w (2 ^ k - 1)) = a / 2 ^ k * 2 ^ k.
Proof.
  intros Hk Ha. replace (2 ^ k - 1) with (Z.ones k) by (rewrite Z.ones_equiv; lia).
  rewrite <-Z.shiftl_mul_pow2, <-Z.shiftr_div_pow2 by lia. rewrite <-Z.ldiff_ones_r by lia.
  bitwise i Hi. destruct (Z.ltb_spec i w) as [Hlt|Hge].
  - destruct (Z.leb_spec 0 i); [done|lia].
  - by rewrite (is_u_testbit_high w a).
Qed.

Lemma align_down_le a n : 0 < n -> a - n < a / n * n <= a.
Proof. intros. pose proof (Z.div_mod a n). pose proof (Z.mod_pos_bound a n). lia. Qed.

Lemma lor_shiftl_add w hi lo : 0 <= w -> is_u w lo -> Z.lor (Z.shiftl hi w) lo = hi * 2 ^ w + lo.
Proof.
  intros Hw Hlo. rewrite <-Z.shiftl_mul_pow2, <-Z.add_lor_land by done.
  replace (Z.land _ lo) with 0; [lia|]. symmetry. apply Z.bits_inj'. intros i Hi.
  rewrite Z.land_spec, Z.shiftl_spec, Z.bits_0 by done. destruct (Z.ltb_spec i w).
  - by rewrite Z.testbit_neg_r by lia.
  - by rewrite (is_u_testbit_high w lo), andb_false_r by done.
Qed.

(** * Iterators *)

(** The items an iterator yields, given its [next]; [fuel] bounds their number. *)
Fixpoint collect {E S A} (next : S -> res E (option (A * S))) (fuel : nat) (s : S) : res E (list A) :=
  match fuel with
  | O => Panic
  | Datatypes.S fuel =>
      let! o := next s in
      match o with
      | None => Ok []
      | Some (a, s) =>
          let! l := collect next fuel s in
          Ok (a :: l)
      end
  end.

(** Every item of a run decreases a measure and keeps an invariant; [Q] is what
    a state promises of the items still to come. *)
Lemma collect_ok {E S A} (next : S -> res E (option (A * S))) (I : S -> Prop) (mu : S -> nat)
    (Q : S -> list A -> Prop) :
  (forall s, I s ->
    next s = Ok None /\ Q s [] \/
    exists a s', next s = Ok (Some (a, s')) /\ I s' /\ (mu s' < mu s)%nat /\
      (forall l, Q s' l -> Q s (a :: l))) ->
  forall fuel s, I s -> (mu s < fuel)%nat -> exists l, collect next fuel s = Ok l /\ Q s l.
Proof.
  intros Hnext. induction fuel as [|fuel IH]; intros s HI Hmu; [lia|]. cbn [collect].
  destruct (Hnext s HI) as [[-> HQ]|(a & s' & -> & HI' & Hmu' & HQ)]; cbn [res_bind]; [eauto|].
  destruct (IH s' HI') as (l & -> & Hl); [lia|]. cbn [res_bind]. eauto.
Qed.
