(* ===== verification/MemoryRange.v ===== *)
(** Page-aligned memory ranges and the algorithms on sorted lists of them
    ([vm/vmcore/memory_range/src/lib.rs]).

    Iterators are lists, and an adapter is its [next] run by [collect]. *)

From S2P Require Import Prelude.

Definition PAGE_SIZE : Z := 4096.
Definition TWO_MB : Z := 0x200000.
Definition ONE_GB : Z := 0x40000000.

(** * Ranges *)

Record MemoryRange : Type := mkRange { start : Z; end_ : Z }.

#[global] Instance MemoryRange_eq_dec : EqDecision MemoryRange.
Proof. solve_decision. Defined.

Inductive InvalidMemoryRange : Type :=
| InvalidRange (start end_ : Z).

Definition MAX_ADDRESS : Z := unot 64 (PAGE_SIZE - 1).

Definition new {E} (s e : Z) : res E MemoryRange :=
  assert! Z.land s (PAGE_SIZE - 1) =? 0 in
  assert! Z.land e (PAGE_SIZE - 1) =? 0 in
  assert! s <=? e in
  Ok (mkRange s e).

Definition try_new (s e : Z) : res InvalidMemoryRange MemoryRange :=
  if negb (Z.land s (PAGE_SIZE - 1) =? 0) || negb (Z.land e (PAGE_SIZE - 1) =? 0) || (e <? s)
  then Err (InvalidRange s e)
  else Ok (mkRange s e).

Definition is_power_of_two (a : Z) : bool := (0 <? a) && (2 ^ Z.log2 a =? a).

Definition U64_MAX : Z := 2 ^ 64 - 1.

Definition bounding_aligned {E} (s e alignment : Z) : res E MemoryRange :=
  assert! s <=? e in
  assert! is_power_of_two alignment in
  assert! e <=? U64_MAX - (alignment - 1) in
  let s := Z.land s (unot 64 (alignment - 1)) in
  let! e := uadd 64 e (alignment - 1) in
  new s (Z.land e (unot 64 (alignment - 1))).

Definition bounding {E} (s e : Z) : res E MemoryRange := bounding_aligned s e PAGE_SIZE.

Definition from_4k_gpn_range {E} (s e : Z) : res E MemoryRange :=
  assert! s <=? U64_MAX / PAGE_SIZE in
  assert! e <=? U64_MAX / PAGE_SIZE in
  let! s := umul 64 s PAGE_SIZE in
  let! e := umul 64 e PAGE_SIZE in
  new s e.

Definition EMPTY : MemoryRange := mkRange 0 0.

Definition start_4k_gpn (r : MemoryRange) : Z := start r / PAGE_SIZE.

Definition end_4k_gpn (r : MemoryRange) : Z := end_ r / PAGE_SIZE.

Definition len {E} (r : MemoryRange) : res E Z := usub (end_ r) (start r).

Definition page_count_4k {E} (r : MemoryRange) : res E Z :=
  let! l := usub (end_ r) (start r) in
  Ok (l / PAGE_SIZE).

Definition page_count_2m {E} (r : MemoryRange) : res E Z :=
  let! l := usub (end_ r) (start r) in
  Ok ((l + TWO_MB - 1) / TWO_MB).

Definition is_empty (r : MemoryRange) : bool := start r =? end_ r.

Definition alignment {E} (r : MemoryRange) (base : Z) : res E Z :=
  let! s := uadd 64 base (start r) in
  let! e := uadd 64 base (end_ r) in
  ushl 64 1 (trailing_zeros 64 (Z.lor s e)).

Definition aligned_subrange {E} (r : MemoryRange) (alignment : Z) : res E MemoryRange :=
  assert! is_power_of_two alignment in
  let! s := uadd 64 (start r) alignment in
  let! s := usub s 1 in
  let s := Z.land s (unot 64 (alignment - 1)) in
  let e := Z.land (end_ r) (unot 64 (alignment - 1)) in
  if s <=? e then new s e else Ok EMPTY.

Definition overlaps (r other : MemoryRange) : bool :=
  (start other <? end_ r) && (start r <? end_ other).

Definition contains (r other : MemoryRange) : bool :=
  (start r <=? start other) && (end_ other <=? end_ r).

Definition contains_addr (r : MemoryRange) (addr : Z) : bool :=
  (start r <=? addr) && (addr <? end_ r).

Definition offset_of {E} (r : MemoryRange) (addr : Z) : res E (option Z) :=
  if contains_addr r addr
  then let! o := usub addr (start r) in Ok (Some o)
  else Ok None.

Definition intersection {E} (r other : MemoryRange) : res E MemoryRange :=
  let s := Z.max (start r) (start other) in
  let e := Z.min (end_ r) (end_ other) in
  if s <=? e then new s e else Ok EMPTY.

Definition split_at_offset {E} (r : MemoryRange) (offset : Z) : res E (MemoryRange * MemoryRange) :=
  let! l := len r in
  assert! offset <=? l in
  assert! offset mod PAGE_SIZE =? 0 in
  let! m := uadd 64 (start r) offset in
  Ok (mkRange (start r) m, mkRange m (end_ r)).

(** * Aligned subranges *)

Record AlignedSubranges : Type := mkAligned {
  range : MemoryRange;
  offset : Z;
  max_len : Z;
}.

#[global] Instance AlignedSubranges_settable : Settable AlignedSubranges := fun s =>
  mkAligned (range s) (offset s) (max_len s).

Definition aligned_new (r : MemoryRange) : AlignedSubranges := mkAligned r 0 U64_MAX.

Definition with_offset (s : AlignedSubranges) (o : Z) : AlignedSubranges := s <| offset := o |>.

Definition with_max_range_len (s : AlignedSubranges) (l : Z) : AlignedSubranges := s <| max_len := l |>.

(** The closure [align] of [next]: the new end. *)
Definition align {E} (start end_ page_size : Z) : res E Z :=
  let page_mask := page_size - 1 in
  let! up := uadd 64 start page_mask in
  let up := Z.land up (unot 64 page_mask) in
  if Z.land end_ (unot 64 page_mask) <=? up then Ok end_
  else if negb (Z.land start page_mask =? 0) then Ok (Z.min end_ up)
  else Ok (Z.land end_ (unot 64 page_mask)).

Definition aligned_next {E} (s : AlignedSubranges) : res E (option (MemoryRange * AlignedSubranges)) :=
  if is_empty (range s) then Ok None
  else
    let! st := uadd 64 (start (range s)) (offset s) in
    let! e := uadd 64 (end_ (range s)) (offset s) in
    let! l := usub e st in
    let! e := if max_len s <? l then uadd 64 st (max_len s) else Ok e in
    let! e := align st e TWO_MB in
    let! e := align st e ONE_GB in
    let! st := usub st (offset s) in
    let! e := usub e (offset s) in
    let! rest := new e (end_ (range s)) in
    let! r := new st e in
    Ok (Some (r, s <| range := rest |>)).

(** * Walking two sorted lists *)

Inductive RangeWalkResult (T U : Type) : Type :=
| Neither
| Left (t : T)
| Right (u : U)
| Both (t : T) (u : U).
Arguments Neither {T U}.
Arguments Left {T U} t.
Arguments Right {T U} u.
Arguments Both {T U} t u.

(** [item] remembers the item peeked at, [Some None] that there is none left. *)
Record PeekableSorted (T : Type) : Type := mkPeekable {
  iter : list (MemoryRange * T);
  item : option (option (MemoryRange * T));
}.
Arguments mkPeekable {T} iter item.
Arguments iter {T} _.
Arguments item {T} _.

Definition peekable_new {T} (l : list (MemoryRange * T)) : PeekableSorted T := mkPeekable l None.

Definition in_range (pos : Z) (r : MemoryRange) : bool := negb (is_empty r) && (pos <? end_ r).

(** The loop of [peek_in_range_ensure_sorted] from an empty [item]. *)
Fixpoint peek_fetch {E T} (pos : Z) (l : list (MemoryRange * T))
  : res E (PeekableSorted T * option (MemoryRange * T)) :=
  match l with
  | [] => Ok (mkPeekable [] (Some None), None)
  | r :: l =>
      assert! pos <=? start r.1 in
      if in_range pos r.1 then Ok (mkPeekable l (Some (Some r)), Some r)
      else peek_fetch pos l
  end.

Definition peek_in_range_ensure_sorted {E T} (pos : Z) (p : PeekableSorted T)
  : res E (PeekableSorted T * option (MemoryRange * T)) :=
  match item p with
  | None => peek_fetch pos (iter p)
  | Some None => Ok (p, None)
  | Some (Some r) => if in_range pos r.1 then Ok (p, Some r) else peek_fetch pos (iter p)
  end.

Record RangeWalkIter (T U : Type) : Type := mkWalk {
  pos : Z;
  left : PeekableSorted T;
  right : PeekableSorted U;
}.
Arguments mkWalk {T U} pos left right.
Arguments pos {T U} _.
Arguments left {T U} _.
Arguments right {T U} _.

Definition walk_item {T U} (pos : Z) (l : option (MemoryRange * T)) (r : option (MemoryRange * U))
  : Z * RangeWalkResult T U :=
  match l, r with
  | Some (l, t), Some (r, u) =>
      if pos <? start l then
        if pos <? start r then (Z.min (start l) (start r), Neither)
        else (Z.min (start l) (end_ r), Right u)
      else if pos <? start r then (Z.min (start r) (end_ l), Left t)
      else (Z.min (end_ l) (end_ r), Both t u)
  | Some (l, t), None => if pos <? start l then (start l, Neither) else (end_ l, Left t)
  | None, Some (r, u) => if pos <? start r then (start r, Neither) else (end_ r, Right u)
  | None, None => (MAX_ADDRESS, Neither)
  end.

Definition walk_next {E T U} (w : RangeWalkIter T U)
  : res E (option ((MemoryRange * RangeWalkResult T U) * RangeWalkIter T U)) :=
  if pos w =? MAX_ADDRESS then Ok None
  else
    let! pl := peek_in_range_ensure_sorted (pos w) (left w) in
    let! pr := peek_in_range_ensure_sorted (pos w) (right w) in
    let '(e, c) := walk_item (pos w) pl.2 pr.2 in
    let! r := new (pos w) e in
    Ok (Some ((r, c), mkWalk e pl.1 pr.1)).

(** Every item ends at a bound of one of the ranges or at [MAX_ADDRESS]. *)
Definition walk_fuel {T U} (l : list (MemoryRange * T)) (r : list (MemoryRange * U)) : nat :=
  2 * (length l + length r) + 2.

Definition walk_ranges {E T U} (l : list (MemoryRange * T)) (r : list (MemoryRange * U))
  : res E (list (MemoryRange * RangeWalkResult T U)) :=
  collect walk_next (walk_fuel l r) (mkWalk 0 (peekable_new l) (peekable_new r)).

Definition untagged (l : list MemoryRange) : list (MemoryRange * unit) := map (fun r => (r, tt)) l.

Definition overlapping_ranges {E} (l r : list MemoryRange) : res E (list MemoryRange) :=
  let! w := walk_ranges (untagged l) (untagged r) in
  Ok (omap (fun rc => match rc.2 with Both tt tt => Some rc.1 | _ => None end) w).

Definition subtract_ranges {E} (l r : list MemoryRange) : res E (list MemoryRange) :=
  let! w := walk_ranges (untagged l) (untagged r) in
  Ok (omap (fun rc => match rc.2 with Left tt => Some rc.1 | _ => None end) w).

(** * Flattening and merging *)

(** The [while let] loop of [FlattenIter::next]: the final end and what is
    left of the iterator. *)
Fixpoint flatten_loop {E} (s e : Z) (l : list MemoryRange) : res E (Z * list MemoryRange) :=
  match l with
  | [] => Ok (e, [])
  | r :: rest =>
      assert! s <=? start r in
      if start r <=? e then flatten_loop (start r) (Z.max e (end_ r)) rest
      else Ok (e, l)
  end.

Definition flatten_next {E} (l : list MemoryRange) : res E (option (MemoryRange * list MemoryRange)) :=
  match l with
  | [] => Ok None
  | first :: l =>
      let! el := flatten_loop (start first) (end_ first) l in
      let! r := new (start first) el.1 in
      Ok (Some (r, el.2))
  end.

Definition flatten_ranges {E} (l : list MemoryRange) : res E (list MemoryRange) :=
  collect flatten_next (S (length l)) l.

Section merge.
Context {T : Type} `{EqDecision T}.

Fixpoint merge_loop {E} (typ : T) (s e : Z) (l : list (MemoryRange * T))
  : res E (Z * list (MemoryRange * T)) :=
  match l with
  | [] => Ok (e, [])
  | (r, t) :: rest =>
      assert! s <=? start r in
      assert! e <=? start r in
      if (start r =? e) && bool_decide (typ = t) then merge_loop typ (start r) (Z.max e (end_ r)) rest
      else Ok (e, l)
  end.

Definition merge_next {E} (l : list (MemoryRange * T))
  : res E (option ((MemoryRange * T) * list (MemoryRange * T))) :=
  match l with
  | [] => Ok None
  | (first, typ) :: l =>
      let! el := merge_loop typ (start first) (end_ first) l in
      let! r := new (start first) el.1 in
      Ok (Some ((r, typ), el.2))
  end.

Definition merge_adjacent_ranges {E} (l : list (MemoryRange * T)) : res E (list (MemoryRange * T)) :=
  collect merge_next (S (length l)) l.

End merge.

(** All the subranges; each one is at least a page. *)
Definition aligned_subranges {E} (s : AlignedSubranges) : res E (list MemoryRange) :=
  collect aligned_next (S (Z.to_nat ((end_ (range s) - start (range s)) / PAGE_SIZE))) s.
