(* ===== verification/MemoryRangeSpec.v ===== *)
(** Correctness of the range algorithms of MemoryRange.v, against the set of
    addresses (or the map from addresses to tags) a list of ranges denotes. *)

From stdpp Require Import sets.
From S2P Require Import Prelude MemoryRange.

Lemma Forall_elem {A} (P : A -> Prop) l x : Forall P l -> x ∈ l -> P x.
Proof. intros Hl Hx. induction Hl; set_solver. Qed.

(** * Well-formed ranges *)

Record wf (r : MemoryRange) : Prop := {
  wf_start : 0 <= start r;
  wf_order : start r <= end_ r;
  wf_end : end_ r <= MAX_ADDRESS;
  wf_start_aligned : start r mod PAGE_SIZE = 0;
  wf_end_aligned : end_ r mod PAGE_SIZE = 0;
}.

Lemma MAX_ADDRESS_eq : MAX_ADDRESS = 2 ^ 64 - 4096.
Proof. reflexivity. Qed.

Lemma page_mask a : Z.land a (PAGE_SIZE - 1) = a mod PAGE_SIZE.
Proof. by apply (land_mask a 12). Qed.

Lemma new_ok {E} s e :
  s <= e -> s mod PAGE_SIZE = 0 -> e mod PAGE_SIZE = 0 -> new s e = Ok (E:=E) (mkRange s e).
Proof.
  intros Hse Hs He. unfold new. rewrite !page_mask, Hs, He. cbn.
  by destruct (Z.leb_spec s e); [|lia].
Qed.

Lemma contains_addr_iff r a : contains_addr r a = true <-> start r <= a < end_ r.
Proof. unfold contains_addr. rewrite andb_true_iff, Z.leb_le, Z.ltb_lt. done. Qed.

(** The tag of an address in a list of tagged ranges. *)
Fixpoint tag_at {T} (l : list (MemoryRange * T)) (a : Z) : option T :=
  match l with
  | [] => None
  | (r, t) :: l => if contains_addr r a then Some t else tag_at l a
  end.

Definition covers (l : list MemoryRange) (a : Z) : Prop := exists r, r ∈ l /\ start r <= a < end_ r.

Lemma covers_cons r l a : covers (r :: l) a <-> start r <= a < end_ r \/ covers l a.
Proof. unfold covers. set_solver. Qed.

Lemma covers_nil a : ~ covers [] a.
Proof. unfold covers. set_solver. Qed.

Lemma tag_at_covers {T} (l : list (MemoryRange * T)) a : is_Some (tag_at l a) <-> covers (map fst l) a.
Proof.
  induction l as [|[r t] l IH]; simpl.
  - split; [intros [? ?]; done|by intros ?%covers_nil].
  - rewrite covers_cons, <-IH, <-contains_addr_iff. destruct (contains_addr r a); naive_solver.
Qed.

(** Sorted and disjoint, from [p] on. *)
Fixpoint sorted_from {T} (p : Z) (l : list (MemoryRange * T)) : Prop :=
  match l with
  | [] => True
  | (r, _) :: l => wf r /\ p <= start r /\ sorted_from (end_ r) l
  end.

Lemma sorted_from_mono {T} p q (l : list (MemoryRange * T)) : q <= p -> sorted_from p l -> sorted_from q l.
Proof. destruct l as [|[r t] l]; simpl; [done|]. intros ? (? & ? & ?). split_and!; done || lia. Qed.

Lemma tag_at_before {T} p (l : list (MemoryRange * T)) a : sorted_from p l -> a < p -> tag_at l a = None.
Proof.
  revert p. induction l as [|[r t] l IH]; intros p; simpl; [done|]. intros (Hr & Hp & Hl) Ha.
  destruct (contains_addr r a) eqn:Hc; [apply contains_addr_iff in Hc; lia|].
  apply (IH _ Hl). pose proof (wf_order _ Hr). lia.
Qed.

(** * The walk *)

Definition classify {T U} (a : option T) (b : option U) : RangeWalkResult T U :=
  match a, b with
  | None, None => Neither
  | Some t, None => Left t
  | None, Some u => Right u
  | Some t, Some u => Both t u
  end.

Definition remaining {T} (p : PeekableSorted T) : list (MemoryRange * T) :=
  match item p with
  | None => iter p
  | Some None => []
  | Some (Some r) => r :: iter p
  end.

Definition peek_inv {T} (pos : Z) (p : PeekableSorted T) : Prop :=
  match item p with
  | None => sorted_from pos (iter p)
  | Some None => True
  | Some (Some (r, _)) => wf r /\ pos <= end_ r /\ sorted_from (end_ r) (iter p)
  end.

(** Twice the ranges still to enter, and one for the range the walk is in. *)
Definition peek_measure {T} (pos : Z) (p : PeekableSorted T) : nat :=
  match item p with
  | None => 2 * length (iter p)
  | Some None => 0
  | Some (Some (r, _)) =>
      2 * length (iter p) + (if pos <? start r then 2 else if pos <? end_ r then 1 else 0)
  end.

(** A peekable at rest on the item it returned. *)
Definition peeked {T} (pos : Z) (p : PeekableSorted T) (o : option (MemoryRange * T)) : Prop :=
  item p = Some o /\
  match o with
  | None => True
  | Some (r, _) => wf r /\ pos < end_ r /\ sorted_from (end_ r) (iter p)
  end.

Lemma in_range_iff pos r : wf r -> in_range pos r = true -> start r < end_ r /\ pos < end_ r.
Proof.
  intros Hr. unfold in_range, is_empty. rewrite andb_true_iff, negb_true_iff, Z.eqb_neq, Z.ltb_lt.
  pose proof (wf_order _ Hr). lia.
Qed.

Lemma not_in_range pos r a : wf r -> in_range pos r = false -> pos <= a -> contains_addr r a = false.
Proof.
  intros Hr. unfold in_range, is_empty, contains_addr. pose proof (wf_order _ Hr).
  destruct (Z.eqb_spec (start r) (end_ r)), (Z.ltb_spec pos (end_ r)), (Z.leb_spec (start r) a),
    (Z.ltb_spec a (end_ r)); simpl; try done; lia.
Qed.

Lemma peek_fetch_spec {E T} pos (l : list (MemoryRange * T)) :
  sorted_from pos l ->
  exists p o, peek_fetch pos l = Ok (E:=E) (p, o) /\ peeked pos p o /\
    (forall a, pos <= a -> tag_at l a = tag_at (remaining p) a) /\
    (peek_measure pos p <= 2 * length l)%nat.
Proof.
  revert pos. induction l as [|[r t] l IH]; intros pos; simpl.
  { intros _. by exists (mkPeekable [] (Some None)), None. }
  intros (Hr & Hp & Hl). destruct (Z.leb_spec pos (start r)); [|lia].
  destruct (in_range pos r) eqn:Hin.
  - pose proof (in_range_iff _ _ Hr Hin). eexists _, _; split; [done|]. split_and!; try done.
    + split; [done|]. split_and!; [done|lia|done].
    + cbn. destruct (Z.ltb_spec pos (start r)), (Z.ltb_spec pos (end_ r)); lia.
  - destruct (IH pos) as (p & o & -> & Hpk & Htag & Hm).
    { eapply sorted_from_mono, Hl. pose proof (wf_order _ Hr). lia. }
    exists p, o. split_and!; [done|done| |lia]. intros a Ha.
    rewrite (not_in_range pos) by done. by apply Htag.
Qed.

Lemma peek_spec {E T} pos (p : PeekableSorted T) :
  peek_inv pos p ->
  exists p' o, peek_in_range_ensure_sorted pos p = Ok (E:=E) (p', o) /\ peeked pos p' o /\
    (forall a, pos <= a -> tag_at (remaining p) a = tag_at (remaining p') a) /\
    (peek_measure pos p' <= peek_measure pos p)%nat.
Proof.
  destruct p as [l [[[r t]|]|]]; unfold peek_in_range_ensure_sorted, peek_inv, remaining, peek_measure at 2; cbn.
  - intros (Hr & Hp & Hl). destruct (in_range pos r) eqn:Hin.
    + pose proof (in_range_iff _ _ Hr Hin). eexists _, _; split; [done|]. split_and!; try done.
      split; [done|]. split_and!; [done|lia|done].
    + destruct (peek_fetch_spec (E:=E) pos l) as (p & o & -> & Hpk & Htag & Hm).
      { by eapply sorted_from_mono. }
      exists p, o. split_and!; [done|done| |lia]. intros a Ha.
      rewrite (not_in_range pos) by done. by apply Htag.
  - intros _. by eexists _, _.
  - intros Hl. destruct (peek_fetch_spec (E:=E) pos l Hl) as (p & o & -> & Hpk & Htag & Hm). eauto 10.
Qed.

(** What a side contributes to the item at [pos]: its tag, and where it changes. *)
Definition side_tag {T} (pos : Z) (o : option (MemoryRange * T)) : option T :=
  match o with
  | None => None
  | Some (r, t) => if pos <? start r then None else Some t
  end.

Definition side_end {T} (pos : Z) (o : option (MemoryRange * T)) : Z :=
  match o with
  | None => MAX_ADDRESS
  | Some (r, _) => if pos <? start r then start r else end_ r
  end.

Lemma side_end_bounds {T} pos (p : PeekableSorted T) o :
  peeked pos p o -> pos < MAX_ADDRESS ->
  pos < side_end pos o <= MAX_ADDRESS /\ side_end pos o mod PAGE_SIZE = 0.
Proof.
  intros [_ Ho] Hpos. destruct o as [[r t]|]; simpl; [|split; [lia|done]].
  destruct Ho as (Hr & Hp & _). destruct Hr. destruct (Z.ltb_spec pos (start r)); split; (done || lia).
Qed.

Lemma walk_item_eq {T U} pos (p : PeekableSorted T) (q : PeekableSorted U) l r :
  peeked pos p l -> peeked pos q r ->
  walk_item pos l r = (Z.min (side_end pos l) (side_end pos r), classify (side_tag pos l) (side_tag pos r)).
Proof.
  intros [_ Hl] [_ Hr]. destruct l as [[l t]|], r as [[r u]|]; simpl; [| | |done].
  - destruct (pos <? start l), (pos <? start r); try done. by rewrite Z.min_comm.
  - destruct Hl as ([] & _ & _). destruct (pos <? start l); simpl; f_equal; lia.
  - destruct Hr as ([] & _ & _). destruct (pos <? start r); simpl; f_equal; lia.
Qed.

Lemma side_advance {T} pos e (p : PeekableSorted T) o :
  peeked pos p o -> pos < e <= side_end pos o ->
  peek_inv e p /\ (forall a, pos <= a < e -> tag_at (remaining p) a = side_tag pos o) /\
  (peek_measure e p <= peek_measure pos p)%nat /\
  (e = side_end pos o -> is_Some o -> (peek_measure e p < peek_measure pos p)%nat).
Proof.
  intros [Hi Ho] He. unfold peek_inv, peek_measure, remaining. rewrite Hi.
  destruct o as [[r t]|]; simpl in *.
  2: { split_and!; try done. }
  destruct Ho as (Hr & Hp & Hl). pose proof (wf_order _ Hr). destruct (Z.ltb_spec pos (start r)).
  - split; [split_and!; (done || lia)|]. split_and!.
    + intros a Ha. destruct (contains_addr r a) eqn:Hc; [apply contains_addr_iff in Hc; lia|].
      apply (tag_at_before (end_ r)); [done|lia].
    + destruct (e <? start r), (e <? end_ r); lia.
    + intros -> _. rewrite Z.ltb_irrefl. destruct (_ <? end_ r); lia.
  - destruct (Z.ltb_spec pos (end_ r)); [|lia].
    split; [split_and!; (done || lia)|]. split_and!.
    + intros a Ha. assert (contains_addr r a = true) as -> by (apply contains_addr_iff; lia). done.
    + destruct (Z.ltb_spec e (start r)); [lia|]. destruct (e <? end_ r); lia.
    + intros -> _. rewrite Z.ltb_irrefl. destruct (Z.ltb_spec (end_ r) (start r)); lia.
Qed.

(** Consecutive nonempty ranges from [a] to [b]. *)
Fixpoint chain (a b : Z) (l : list MemoryRange) : Prop :=
  match l with
  | [] => a = b
  | r :: l => start r = a /\ wf r /\ a < end_ r /\ chain (end_ r) b l
  end.

Section walk.
Context {T U : Type} (l0 : list (MemoryRange * T)) (r0 : list (MemoryRange * U)).

Record walk_inv (w : RangeWalkIter T U) : Prop := {
  wi_pos : 0 <= pos w <= MAX_ADDRESS;
  wi_aligned : pos w mod PAGE_SIZE = 0;
  wi_left : peek_inv (pos w) (left w);
  wi_right : peek_inv (pos w) (right w);
  wi_left_tags : forall a, pos w <= a -> tag_at l0 a = tag_at (remaining (left w)) a;
  wi_right_tags : forall a, pos w <= a -> tag_at r0 a = tag_at (remaining (right w)) a;
}.

Definition walk_measure (w : RangeWalkIter T U) : nat :=
  peek_measure (pos w) (left w) + peek_measure (pos w) (right w) +
  (if pos w =? MAX_ADDRESS then 0 else 1).

Definition classified (rc : MemoryRange * RangeWalkResult T U) : Prop :=
  forall a, start rc.1 <= a < end_ rc.1 -> rc.2 = classify (tag_at l0 a) (tag_at r0 a).

Definition walk_promise (w : RangeWalkIter T U) (out : list (MemoryRange * RangeWalkResult T U)) : Prop :=
  chain (pos w) MAX_ADDRESS (map fst out) /\ Forall classified out.

Lemma walk_next_spec {E} w :
  walk_inv w ->
  walk_next w = Ok (E:=E) None /\ walk_promise w [] \/
  exists rc w', walk_next w = Ok (E:=E) (Some (rc, w')) /\ walk_inv w' /\
    (walk_measure w' < walk_measure w)%nat /\
    (forall out, walk_promise w' out -> walk_promise w (rc :: out)).
Proof.
  intros [Hpos Hal Hl Hr Htl Htr]. unfold walk_next.
  destruct (Z.eqb_spec (pos w) MAX_ADDRESS) as [Hmax|Hmax]; [by left|right].
  destruct (peek_spec (E:=E) (pos w) (left w) Hl) as (p & ol & -> & Hpl & Htl' & Hml).
  destruct (peek_spec (E:=E) (pos w) (right w) Hr) as (q & or & -> & Hpr & Htr' & Hmr).
  cbn [res_bind fst snd]. rewrite (walk_item_eq _ p q) by done.
  destruct (side_end_bounds _ _ _ Hpl ltac:(lia)) as [Hel Hel8].
  destruct (side_end_bounds _ _ _ Hpr ltac:(lia)) as [Her Her8].
  set (e := Z.min (side_end (pos w) ol) (side_end (pos w) or)).
  assert (e mod PAGE_SIZE = 0) as He8 by (unfold e; by destruct (Z.min_spec (side_end (pos w) ol) (side_end (pos w) or)) as [[_ ->]|[_ ->]]).
  assert (pos w < e <= MAX_ADDRESS) as He by lia.
  rewrite new_ok by (done || lia). cbn [res_bind].
  destruct (side_advance (pos w) e p ol Hpl ltac:(lia)) as (Hil & Htagl & Hdl & Hsl).
  destruct (side_advance (pos w) e q or Hpr ltac:(lia)) as (Hir & Htagr & Hdr & Hsr).
  eexists _, _; split; [done|]. split_and!.
  - constructor; cbn; try done; [lia|..]; intros a Ha; rewrite ?Htl, ?Htr by lia; auto with lia.
  - unfold walk_measure. cbn [pos left right]. destruct (Z.eqb_spec (pos w) MAX_ADDRESS); [lia|].
    destruct (Z.eqb_spec e MAX_ADDRESS); [lia|].
    assert (is_Some ol /\ e = side_end (pos w) ol \/ is_Some or /\ e = side_end (pos w) or) as [[? ?]|[? ?]].
    { destruct (Z.min_spec (side_end (pos w) ol) (side_end (pos w) or)) as [[_ Hm]|[_ Hm]].
      - left. destruct ol; [eauto|]. simpl in Hm. unfold e in *. simpl in *. lia.
      - right. destruct or; [eauto|]. simpl in Hm. unfold e in *. simpl in *. lia. }
    + specialize (Hsl ltac:(done) ltac:(done)). lia.
    + specialize (Hsr ltac:(done) ltac:(done)). lia.
  - intros out [Hc Hf]. split; cbn.
    + split_and!; try (done || lia). constructor; cbn; (done || lia).
    + constructor; [|done]. intros a Ha. cbn in Ha |- *.
      by rewrite Htl, Htl', Htagl, Htr, Htr', Htagr by lia.
Qed.

Lemma walk_ranges_ok {E} :
  sorted_from 0 l0 -> sorted_from 0 r0 ->
  exists out, walk_ranges l0 r0 = Ok (E:=E) out /\ chain 0 MAX_ADDRESS (map fst out) /\ Forall classified out.
Proof.
  intros Hl Hr.
  apply (collect_ok walk_next walk_inv walk_measure walk_promise walk_next_spec).
  - constructor; cbn; try done.
  - change (2 * length l0 + 2 * length r0 + 1 < 2 * (length l0 + length r0) + 2)%nat. lia.
Qed.

End walk.

(** * Set operations *)

Definition sorted (l : list MemoryRange) : Prop := sorted_from 0 (untagged l).

Lemma map_fst_untagged l : map fst (untagged l) = l.
Proof. unfold untagged. rewrite map_map. apply map_id. Qed.

Lemma untagged_covers l a : tag_at (untagged l) a = Some tt <-> covers l a.
Proof.
  rewrite <-(map_fst_untagged l) at 2. rewrite <-tag_at_covers.
  unfold is_Some. destruct (tag_at (untagged l) a) as [[]|]; naive_solver.
Qed.

Lemma chain_covers a b l x : chain a b l -> a <= x < b -> covers l x.
Proof.
  revert a. induction l as [|r l IH]; intros a; simpl; [lia|]. intros (Hs & Hr & He & Hc) Hx.
  apply covers_cons. destruct (decide (x < end_ r)); [left; lia|right; apply (IH _ Hc); lia].
Qed.

(** A selection of a chain is sorted. *)
Lemma chain_omap_sorted {A} (f : MemoryRange * A -> option MemoryRange) p a b l :
  (forall rc r, f rc = Some r -> r = rc.1) -> p <= a -> chain a b (map fst l) ->
  sorted_from p (untagged (omap f l)).
Proof.
  intros Hf. revert p a. induction l as [|rc l IH]; intros p a Hp; [done|].
  cbn [map chain]. intros (Hs & Hr & He & Hc). cbn [omap list_omap].
  destruct (f rc) as [r|] eqn:Hfr.
  - apply Hf in Hfr as ->. cbn. split_and!; [done|lia|]. by eapply IH.
  - eapply IH, Hc. lia.
Qed.

Lemma classified_at {T U} (l0 : list (MemoryRange * T)) (r0 : list (MemoryRange * U)) out a :
  chain 0 MAX_ADDRESS (map fst out) -> Forall (classified l0 r0) out -> 0 <= a < MAX_ADDRESS ->
  exists rc, rc ∈ out /\ start rc.1 <= a < end_ rc.1 /\ rc.2 = classify (tag_at l0 a) (tag_at r0 a).
Proof.
  intros Hc Hf Ha. destruct (chain_covers _ _ _ a Hc Ha) as (r & Hr & Hra).
  apply list_elem_of_fmap in Hr as (rc & -> & Hrc). exists rc. split; [done|]. split; [done|].
  by apply (Forall_elem _ _ _ Hf Hrc).
Qed.

(** The addresses of the ranges a walk selects. *)
Lemma walk_select_covers (l r : list MemoryRange) out (f : MemoryRange * RangeWalkResult unit unit -> option MemoryRange)
    (P : RangeWalkResult unit unit -> Prop) a :
  chain 0 MAX_ADDRESS (map fst out) -> Forall (classified (untagged l) (untagged r)) out ->
  (forall rc, f rc = Some rc.1 /\ P rc.2 \/ f rc = None /\ ~ P rc.2) -> 0 <= a < MAX_ADDRESS ->
  covers (omap f out) a <-> P (classify (tag_at (untagged l) a) (tag_at (untagged r) a)).
Proof.
  intros Hc Hf HP Ha. split.
  - intros (x & Hx & Hax). apply list_elem_of_omap in Hx as (rc & Hrc & Hfx).
    destruct (HP rc) as [[Hs HPrc]|[Hs _]]; [|congruence]. rewrite Hs in Hfx. injection Hfx as <-.
    by rewrite <-(Forall_elem _ _ _ Hf Hrc a Hax).
  - intros HPa. destruct (classified_at _ _ _ _ Hc Hf Ha) as (rc & Hrc & Hra & Heq).
    exists rc.1. split; [|done]. apply list_elem_of_omap. exists rc. split; [done|].
    destruct (HP rc) as [[-> _]|[_ Hn]]; [done|]. by rewrite Heq in Hn.
Qed.

(** C32: the walk of two sorted lists of disjoint ranges runs to its end without
    a panic, its items are consecutive nonempty ranges from address zero to
    [MAX_ADDRESS], and each item carries, for every address of its range, the
    tags the two lists have there. *)
Theorem walk_ranges_correct {T U} (l : list (MemoryRange * T)) (r : list (MemoryRange * U)) :
  sorted_from 0 l -> sorted_from 0 r ->
  exists out, walk_ranges l r = Ok (E:=void) out /\ chain 0 MAX_ADDRESS (map fst out) /\
    forall rc a, rc ∈ out -> start rc.1 <= a < end_ rc.1 -> rc.2 = classify (tag_at l a) (tag_at r a).
Proof.
  intros Hl Hr. destruct (walk_ranges_ok l r (E:=void) Hl Hr) as (out & Hw & Hc & Hf).
  exists out. split_and!; [done|done|]. intros rc a Hrc. by apply (Forall_elem _ _ _ Hf Hrc).
Qed.

(** On sorted lists, [overlapping_ranges] is the intersection and
    [subtract_ranges] the difference of the sets of addresses, and both results
    are sorted lists of disjoint ranges. *)
Theorem set_operations_correct l r :
  sorted l -> sorted r ->
  exists both only, overlapping_ranges l r = Ok (E:=void) both /\ subtract_ranges l r = Ok (E:=void) only /\
    sorted both /\ sorted only /\
    (forall a, 0 <= a < MAX_ADDRESS -> (covers both a <-> covers l a /\ covers r a)) /\
    (forall a, 0 <= a < MAX_ADDRESS -> (covers only a <-> covers l a /\ ~ covers r a)).
Proof.
  intros Hl Hr. unfold overlapping_ranges, subtract_ranges.
  destruct (walk_ranges_ok (untagged l) (untagged r) (E:=void) Hl Hr) as (out & -> & Hc & Hf).
  cbn [res_bind]. eexists _, _; split_and!; [done|done|..].
  - eapply chain_omap_sorted; [|done|exact Hc]. by intros [? [|[]|[]|[] []]] ? [= <-].
  - eapply chain_omap_sorted; [|done|exact Hc]. by intros [? [|[]|[]|[] []]] ? [= <-].
  - intros a Ha. rewrite (walk_select_covers l r out _ (fun c => c = Both tt tt) a Hc Hf); [|by intros [? [|[]|[]|[] []]]; [right..|left]|done].
    rewrite <-!untagged_covers.
    destruct (tag_at (untagged l) a) as [[]|], (tag_at (untagged r) a) as [[]|]; simpl; naive_solver.
  - intros a Ha. rewrite (walk_select_covers l r out _ (fun c => c = Left tt) a Hc Hf); [|by intros [? [|[]|[]|[] []]]; [right|left|right..]|done].
    rewrite <-!untagged_covers.
    destruct (tag_at (untagged l) a) as [[]|], (tag_at (untagged r) a) as [[]|]; simpl; naive_solver.
Qed.

(** * Flattening *)

(** Sorted by start address, overlaps allowed. *)
Fixpoint starts_from (s : Z) (l : list MemoryRange) : Prop :=
  match l with
  | [] => True
  | r :: l => wf r /\ s <= start r /\ starts_from (start r) l
  end.

(** Sorted with a gap before each range. *)
Fixpoint separated_from (p : Z) (l : list MemoryRange) : Prop :=
  match l with
  | [] => True
  | r :: l => wf r /\ p < start r /\ separated_from (end_ r) l
  end.

Lemma flatten_loop_ok {E} l s e :
  starts_from s l -> s <= e <= MAX_ADDRESS -> e mod PAGE_SIZE = 0 ->
  exists e' l', flatten_loop s e l = Ok (E:=E) (e', l') /\ e <= e' <= MAX_ADDRESS /\
    e' mod PAGE_SIZE = 0 /\ (length l' <= length l)%nat /\ starts_from (e' + 1) l' /\
    forall b a, b <= s -> (b <= a < e' \/ covers l' a <-> b <= a < e \/ covers l a).
Proof.
  revert s e. induction l as [|r l IH]; intros s e; simpl.
  { intros _ He Hal. exists e, []. split_and!; try (done || lia). }
  intros (Hr & Hs & Hl) He Hal. destruct Hr as [Hr0 Hro Hre Hra Hrb].
  destruct (Z.leb_spec s (start r)); [|lia]. destruct (Z.leb_spec (start r) e).
  - destruct (IH (start r) (Z.max e (end_ r)) Hl) as (e' & l' & -> & He' & Hal' & Hlen & Hst & Hcov).
    { lia. }
    { by destruct (Z.max_spec e (end_ r)) as [[_ ->]|[_ ->]]. }
    exists e', l'. split_and!; try (done || lia). intros b a Hb. rewrite Hcov, covers_cons by lia.
    assert (b <= a < Z.max e (end_ r) <-> b <= a < e \/ start r <= a < end_ r) as -> by lia. tauto.
  - exists e, (r :: l). split_and!; try (done || lia). simpl. split_and!; try (done || lia).
Qed.

Lemma starts_from_mono s t l : t <= s -> starts_from s l -> starts_from t l.
Proof. destruct l; simpl; [done|]. intros ? (? & ? & ?). split_and!; done || lia. Qed.

Definition flatten_promise (l out : list MemoryRange) : Prop :=
  (forall a, covers out a <-> covers l a) /\ forall p, starts_from (p + 1) l -> separated_from p out.

Lemma flatten_next_spec {E} l :
  starts_from 0 l ->
  flatten_next l = Ok (E:=E) None /\ flatten_promise l [] \/
  exists r l', flatten_next l = Ok (E:=E) (Some (r, l')) /\ starts_from 0 l' /\ (length l' < length l)%nat /\
    forall out, flatten_promise l' out -> flatten_promise l (r :: out).
Proof.
  destruct l as [|r l]; simpl; intros Hl; [by left|right]. destruct Hl as (Hr & _ & Hl).
  pose proof Hr as [Hr0 Hro Hre Hra Hrb].
  destruct (flatten_loop_ok (E:=E) l (start r) (end_ r)) as (e' & l' & -> & He' & Hal' & Hlen & Hst & Hcov);
    [done|lia|done|].
  cbn [res_bind fst snd]. rewrite new_ok by (done || lia). cbn [res_bind].
  eexists _, _; split; [done|]. split_and!; [|lia|].
  { eapply starts_from_mono, Hst. lia. }
  intros out [Hc Hsep]. split.
  - intros a. rewrite !covers_cons, Hc. cbn [start end_]. apply Hcov. lia.
  - intros p (_ & Hp & _). cbn. split_and!; [constructor; cbn; (done || lia)|lia|by apply Hsep].
Qed.

(** On a list sorted by start address, [flatten_ranges] gives the same set
    of addresses as a list of ranges with a gap before each one: overlapping
    and adjacent ranges are merged. *)
Theorem flatten_ranges_correct l :
  starts_from 0 l ->
  exists out, flatten_ranges l = Ok (E:=void) out /\ separated_from (-1) out /\
    forall a, covers out a <-> covers l a.
Proof.
  intros Hl.
  destruct (collect_ok (flatten_next (E:=void)) (starts_from 0) length flatten_promise flatten_next_spec
    (S (length l)) l Hl ltac:(lia)) as (out & Hout & Hc & Hsep).
  exists out. split_and!; [done|by apply Hsep|done].
Qed.

(** * Merging *)

Section merge_spec.
Context {T : Type} `{EqDecision T}.

(** No two neighbours touch with the same tag. *)
Fixpoint maximal (l : list (MemoryRange * T)) : Prop :=
  match l with
  | (r, t) :: ((r', t') :: _) as l => ~ (end_ r = start r' /\ t = t') /\ maximal l
  | _ => True
  end.

Lemma merge_loop_ok {E} (l : list (MemoryRange * T)) typ s e :
  sorted_from e l -> s <= e <= MAX_ADDRESS -> e mod PAGE_SIZE = 0 ->
  exists e' l', merge_loop typ s e l = Ok (E:=E) (e', l') /\ e <= e' <= MAX_ADDRESS /\
    e' mod PAGE_SIZE = 0 /\ (length l' <= length l)%nat /\ sorted_from e' l' /\
    match l' with [] => True | (r, t) :: _ => ~ (e' = start r /\ typ = t) end /\
    forall b a, b <= s -> tag_at ((mkRange b e', typ) :: l') a = tag_at ((mkRange b e, typ) :: l) a.
Proof.
  revert s e. induction l as [|[r t] l IH]; intros s e.
  { intros _ He Hal. exists e, []. split_and!; try (done || lia). }
  cbn [sorted_from merge_loop]. intros (Hr & Hs & Hl) He Hal. pose proof Hr as [Hr0 Hro Hre Hra Hrb].
  destruct (Z.leb_spec s (start r)); [|lia]. destruct (Z.leb_spec e (start r)); [|lia].
  destruct (Z.eqb_spec (start r) e) as [Heq|Hne]; cbn [andb].
  2: { exists e, ((r, t) :: l). split_and!; try (done || lia). }
  case_bool_decide as Ht.
  2: { exists e, ((r, t) :: l). split_and!; try (done || lia). naive_solver. }
  rewrite Z.max_r by lia. subst t.
  destruct (IH (start r) (end_ r) Hl) as (e' & l' & -> & He' & Hal' & Hlen & Hst & Hhd & Htag); [lia|done|].
  exists e', l'. split_and!; try (done || simpl; lia). intros b a Hb. rewrite Htag by lia. cbn [tag_at].
  unfold contains_addr. cbn [start end_].
  destruct (Z.leb_spec b a), (Z.ltb_spec a (end_ r)), (Z.ltb_spec a e), (Z.leb_spec (start r) a); simpl; done || lia.
Qed.

Definition merge_promise (l out : list (MemoryRange * T)) : Prop :=
  (forall a, tag_at out a = tag_at l a) /\ maximal out /\ (forall p, sorted_from p l -> sorted_from p out) /\
  match l, out with
  | [], [] => True
  | (r, t) :: _, (r', t') :: _ => start r' = start r /\ t' = t
  | _, _ => False
  end.

Lemma merge_next_spec {E} (l : list (MemoryRange * T)) :
  sorted_from 0 l ->
  merge_next l = Ok (E:=E) None /\ merge_promise l [] \/
  exists r l', merge_next l = Ok (E:=E) (Some (r, l')) /\ sorted_from 0 l' /\ (length l' < length l)%nat /\
    forall out, merge_promise l' out -> merge_promise l (r :: out).
Proof.
  destruct l as [|[r t] l]; cbn [sorted_from merge_next]; intros Hl; [by left|right].
  destruct Hl as (Hr & _ & Hl). pose proof Hr as [Hr0 Hro Hre Hra Hrb].
  destruct (merge_loop_ok (E:=E) l t (start r) (end_ r)) as (e' & l' & -> & He' & Hal' & Hlen & Hst & Hhd & Htag);
    [done|lia|done|].
  cbn [res_bind fst snd]. rewrite new_ok by (done || lia). cbn [res_bind].
  eexists _, _; split; [done|]. split_and!; [|simpl; lia|].
  { eapply sorted_from_mono, Hst. lia. }
  intros out (Hc & Hmax & Hsort & Hhead). split_and!; [..|done|done].
  - intros a. specialize (Htag (start r) a ltac:(lia)). cbn [tag_at] in *. rewrite Hc, Htag. by destruct r.
  - destruct l' as [|[r1 t1] l1], out as [|[r2 t2] out]; try done. destruct Hhead as [Hs ->].
    split; [|done]. cbn [end_]. rewrite Hs. done.
  - intros p (_ & Hp & _). cbn. split_and!; [constructor; cbn; (done || lia)|lia|by apply Hsort].
Qed.

(** On a sorted list of disjoint tagged ranges, [merge_adjacent_ranges]
    gives every address the tag it had, and no two neighbours of the result
    touch with the same tag. *)
Theorem merge_adjacent_correct (l : list (MemoryRange * T)) :
  sorted_from 0 l ->
  exists out, merge_adjacent_ranges l = Ok (E:=void) out /\ sorted_from 0 out /\ maximal out /\
    forall a, tag_at out a = tag_at l a.
Proof.
  intros Hl.
  destruct (collect_ok (merge_next (E:=void)) (sorted_from 0) length merge_promise merge_next_spec
    (S (length l)) l Hl ltac:(lia)) as (out & Hout & Hc & Hmax & Hsort & _).
  exists out. split_and!; [done|by apply Hsort|done|done].
Qed.

End merge_spec.

(** * Aligned subranges *)

Lemma mod_max a b : a mod PAGE_SIZE = 0 -> b mod PAGE_SIZE = 0 -> Z.max a b mod PAGE_SIZE = 0.
Proof. intros. by destruct (Z.max_spec a b) as [[_ ->]|[_ ->]]. Qed.

Lemma mod_min a b : a mod PAGE_SIZE = 0 -> b mod PAGE_SIZE = 0 -> Z.min a b mod PAGE_SIZE = 0.
Proof. intros. by destruct (Z.min_spec a b) as [[_ ->]|[_ ->]]. Qed.

Definition up (p a : Z) : Z := (a + (p - 1)) / p * p.
Definition down (p a : Z) : Z := a / p * p.

Lemma up_bounds p a : 0 < p -> a <= up p a < a + p.
Proof. intros. unfold up. pose proof (align_down_le (a + (p - 1)) p). lia. Qed.

Lemma down_bounds p a : 0 < p -> a - p < down p a <= a.
Proof. intros. by apply align_down_le. Qed.

Lemma mult_le_down p q a : 0 < p -> q mod p = 0 -> q <= a -> q <= down p a.
Proof.
  intros Hp Hq Ha. unfold down. pose proof (Z.div_mod q p). pose proof (Z.div_le_mono q a p). nia.
Qed.

Lemma up_le_mult p q a : 0 < p -> q mod p = 0 -> a <= q -> up p a <= q.
Proof.
  intros Hp Hq Ha. unfold up. pose proof (Z.div_mod q p).
  assert ((a + (p - 1)) / p < q / p + 1); [|nia]. apply Z.div_lt_upper_bound; lia.
Qed.

Lemma up_strict p a : 0 < p -> a mod p <> 0 -> a < up p a.
Proof.
  intros Hp Ha. pose proof (up_bounds p a Hp). destruct (decide (a = up p a)) as [Heq|]; [|lia].
  destruct Ha. rewrite Heq. unfold up. apply Z_mod_mult.
Qed.

(** The new end [align] computes. *)
Definition align_end (p s e : Z) : Z :=
  if down p e <=? up p s then e else if s mod p =? 0 then down p e else up p s.

Lemma align_ok {E} k s e :
  0 <= k <= 63 -> 0 <= s -> s + 2 ^ k <= 2 ^ 64 -> 0 <= e < 2 ^ 64 ->
  align s e (2 ^ k) = Ok (E:=E) (align_end (2 ^ k) s e).
Proof.
  intros Hk Hs Hm He. pose proof (Z.pow_pos_nonneg 2 k). unfold align, align_end.
  rewrite uadd_ok by lia. cbn [res_bind].
  rewrite !(land_not_mask 64) by (split; lia). rewrite land_mask by lia.
  fold (up (2 ^ k) s). fold (down (2 ^ k) e).
  destruct (Z.leb_spec (down (2 ^ k) e) (up (2 ^ k) s)); [done|].
  destruct (s mod 2 ^ k =? 0); [done|]. simpl. f_equal.
  pose proof (down_bounds (2 ^ k) e). lia.
Qed.

Lemma align_end_bounds p s e : 0 < p -> s < e -> s < align_end p s e <= e.
Proof.
  intros Hp Hse. unfold align_end. pose proof (up_bounds p s Hp). pose proof (down_bounds p e Hp).
  destruct (Z.leb_spec (down p e) (up p s)); [lia|].
  destruct (Z.eqb_spec (s mod p) 0); [lia|]. pose proof (up_strict p s Hp). lia.
Qed.

Lemma mod_mult_trans a p q : 0 < q -> 0 < p -> p mod q = 0 -> a mod p = 0 -> a mod q = 0.
Proof.
  intros Hq Hp Hpq Ha. apply Z.mod_divide; [lia|]. apply Z.mod_divide in Hpq, Ha; [|lia..].
  by transitivity p.
Qed.

Lemma align_end_mod p s e q :
  0 < p -> 0 < q -> p mod q = 0 -> e mod q = 0 -> align_end p s e mod q = 0.
Proof.
  intros Hp Hq Hpq He. unfold align_end. destruct (_ <=? _); [done|].
  destruct (_ =? 0); apply (mod_mult_trans _ p); try done; apply Z_mod_mult.
Qed.

(** The end of the next subrange of [s, e). *)
Definition piece_end (s e : Z) : Z := align_end ONE_GB s (align_end TWO_MB s e).

Lemma piece_end_bounds s e : s < e -> s < piece_end s e <= e.
Proof.
  intros Hse. unfold piece_end. destruct (align_end_bounds TWO_MB s e); [done|done|].
  destruct (align_end_bounds ONE_GB s (align_end TWO_MB s e)); [done|done|]. lia.
Qed.

Lemma piece_end_mod s e : e mod PAGE_SIZE = 0 -> piece_end s e mod PAGE_SIZE = 0.
Proof. intros He. unfold piece_end. by repeat apply align_end_mod. Qed.

(** No large page is split: one that lies in the range lies in the subrange or
    after it. *)
Lemma piece_end_large p q s e :
  p = TWO_MB \/ p = ONE_GB -> q mod p = 0 -> s <= q -> q + p <= e ->
  q + p <= piece_end s e \/ piece_end s e <= q.
Proof.
  intros Hp Hq Hs He. assert (0 < p) as Hp0 by (by destruct Hp as [-> | ->]).
  assert (q mod TWO_MB = 0) as Hq2.
  { destruct Hp as [-> | ->]; [done|]. by apply (mod_mult_trans _ ONE_GB). }
  assert ((q + p) mod TWO_MB = 0) as Hqp2.
  { rewrite Zplus_mod, Hq2. by destruct Hp as [-> | ->]. }
  pose proof (up_le_mult TWO_MB q s ltac:(done) Hq2 Hs) as Hup.
  pose proof (mult_le_down TWO_MB (q + p) e ltac:(done) Hqp2 He) as Hdown.
  unfold piece_end. set (e2 := align_end TWO_MB s e).
  assert (e2 = if s mod TWO_MB =? 0 then down TWO_MB e else up TWO_MB s) as He2.
  { unfold e2, align_end. by destruct (Z.leb_spec (down TWO_MB e) (up TWO_MB s)); [lia|]. }
  assert (e2 mod TWO_MB = 0) as He2m by (rewrite He2; destruct (_ =? 0); apply Z_mod_mult).
  destruct Hp as [-> | ->].
  - assert (align_end ONE_GB s e2 mod TWO_MB = 0) as Hm by (by apply align_end_mod).
    destruct (decide (align_end ONE_GB s e2 <= q)) as [|Hgt]; [by right|left].
    pose proof (mult_le_down TWO_MB q (align_end ONE_GB s e2)). pose proof (Z.div_mod q TWO_MB).
    pose proof (Z.div_mod (align_end ONE_GB s e2) TWO_MB). unfold TWO_MB in *. lia.
  - destruct (decide (e2 <= q)) as [|Hgt].
    { right. destruct (align_end_bounds ONE_GB s e2); [done| |lia].
      unfold e2. destruct (align_end_bounds TWO_MB s e); [done|unfold ONE_GB in *; lia|done]. }
    assert (q + ONE_GB <= e2) as Hge.
    { rewrite He2 in Hgt |- *. destruct (s mod TWO_MB =? 0); [done|lia]. }
    pose proof (up_le_mult ONE_GB q s ltac:(done) Hq Hs) as Hup1.
    pose proof (mult_le_down ONE_GB (q + ONE_GB) e2 ltac:(done)) as Hdown1.
    specialize (Hdown1 ltac:(by rewrite <-(Z.mul_1_l ONE_GB) at 1; rewrite Z_mod_plus_full) Hge).
    unfold align_end. destruct (Z.leb_spec (down ONE_GB e2) (up ONE_GB s)); [unfold ONE_GB in *; lia|].
    destruct (s mod ONE_GB =? 0); lia.
Qed.

(** The iterations that run without a panic: page-aligned parameters, and no
    address of the range within a gigabyte of the end of the 64-bit space. *)
Record aligned_ok (s : AlignedSubranges) : Prop := {
  al_range : wf (range s);
  al_offset : 0 <= offset s /\ offset s mod PAGE_SIZE = 0;
  al_room : end_ (range s) + offset s + ONE_GB <= 2 ^ 64;
  al_max_len : 0 < max_len s /\ (end_ (range s) - start (range s) <= max_len s \/ max_len s mod PAGE_SIZE = 0);
}.

(** The range holds the page of size [p] at [q], offset by [o]. *)
Definition holds_page (o p q : Z) (r : MemoryRange) : Prop := start r <= q - o /\ q + p - o <= end_ r.

Definition aligned_promise (s : AlignedSubranges) (out : list MemoryRange) : Prop :=
  chain (start (range s)) (end_ (range s)) out /\
  Forall (fun r => end_ r - start r <= max_len s) out /\
  (end_ (range s) - start (range s) <= max_len s ->
    forall p q, (p = TWO_MB \/ p = ONE_GB) -> q mod p = 0 -> holds_page (offset s) p q (range s) ->
    Exists (holds_page (offset s) p q) out).

(** The end of the next subrange before alignment, in offset addresses. *)
Definition limit (s : AlignedSubranges) : Z :=
  Z.min (end_ (range s) + offset s) (start (range s) + offset s + max_len s).

Definition next_end (s : AlignedSubranges) : Z :=
  piece_end (start (range s) + offset s) (limit s) - offset s.

Lemma next_end_bounds s :
  aligned_ok s -> start (range s) < end_ (range s) ->
  start (range s) < next_end s <= end_ (range s) /\ next_end s - start (range s) <= max_len s /\
  next_end s mod PAGE_SIZE = 0.
Proof.
  intros [[] [Ho Ho8] Hroom [Hl0 Hl]] Hne.
  assert (limit s mod PAGE_SIZE = 0) as Hlm.
  { unfold limit. destruct Hl as [Hl|Hl].
    - rewrite Z.min_l by lia. by rewrite Zplus_mod, wf_end_aligned0, Ho8.
    - apply mod_min; [by rewrite Zplus_mod, wf_end_aligned0, Ho8|].
      by rewrite Zplus_mod, (Zplus_mod (start (range s))), wf_start_aligned0, Ho8, Hl. }
  pose proof (piece_end_bounds (start (range s) + offset s) (limit s) ltac:(unfold limit; lia)) as Hb.
  pose proof (piece_end_mod (start (range s) + offset s) (limit s) Hlm) as Hm.
  unfold next_end. split_and!; [unfold limit in *; lia..|]. by rewrite Zminus_mod, Hm, Ho8.
Qed.

Lemma aligned_next_eq {E} s :
  aligned_ok s -> start (range s) < end_ (range s) ->
  aligned_next s = Ok (E:=E) (Some (mkRange (start (range s)) (next_end s),
                                    s <| range := mkRange (next_end s) (end_ (range s)) |>)).
Proof.
  intros Hs Hne. destruct (next_end_bounds s Hs Hne) as (Hb & Hlen & Hm).
  destruct Hs as [[] [Ho Ho8] Hroom [Hl0 Hl]]. unfold ONE_GB in Hroom. unfold aligned_next, is_empty.
  destruct (Z.eqb_spec (start (range s)) (end_ (range s))); [lia|].
  rewrite !uadd_ok by lia. cbn [res_bind]. rewrite usub_ok by lia. cbn [res_bind].
  set (st := start (range s) + offset s).
  assert ((if max_len s <? end_ (range s) + offset s - st then uadd 64 st (max_len s)
           else Ok (end_ (range s) + offset s)) = Ok (E:=E) (limit s)) as ->.
  { unfold limit, st. destruct (Z.ltb_spec (max_len s) (end_ (range s) + offset s - (start (range s) + offset s))).
    - rewrite uadd_ok by lia. f_equal. lia.
    - f_equal. lia. }
  assert (st < limit s <= end_ (range s) + offset s) as Hlim by (unfold limit, st; lia).
  cbn [res_bind]. rewrite (align_ok 21 st (limit s)) by lia. cbn [res_bind].
  assert (st < align_end (2 ^ 21) st (limit s) <= limit s) as Ha by (apply align_end_bounds; lia).
  rewrite (align_ok 30 st) by lia. cbn [res_bind].
  change (align_end (2 ^ 30) st (align_end (2 ^ 21) st (limit s))) with (piece_end st (limit s)).
  rewrite !usub_ok by (unfold next_end in Hb; fold st in Hb; lia). cbn [res_bind].
  change (piece_end st (limit s) - offset s) with (next_end s).
  unfold st. rewrite Z.add_simpl_r. by rewrite !new_ok by (done || lia).
Qed.

Lemma aligned_next_spec {E} s :
  aligned_ok s ->
  aligned_next s = Ok (E:=E) None /\ aligned_promise s [] \/
  exists r s', aligned_next s = Ok (E:=E) (Some (r, s')) /\ aligned_ok s' /\
    (Z.to_nat ((end_ (range s') - start (range s')) / PAGE_SIZE) <
     Z.to_nat ((end_ (range s) - start (range s)) / PAGE_SIZE))%nat /\
    forall out, aligned_promise s' out -> aligned_promise s (r :: out).
Proof.
  intros Hs. pose proof Hs as [[] [Ho Ho8] Hroom [Hl0 Hl]].
  destruct (decide (start (range s) = end_ (range s))) as [Heq|Hne].
  { left. split; [unfold aligned_next, is_empty; by rewrite Heq, Z.eqb_refl|]. split_and!; [done|done|].
    intros _ p q Hp _ [? ?]. destruct Hp as [-> | ->]; unfold TWO_MB, ONE_GB in *; lia. }
  destruct (next_end_bounds s Hs ltac:(lia)) as (Hb & Hlen & Hm). right.
  rewrite aligned_next_eq by (done || lia). eexists _, _; split; [done|].
  pose proof (Z.div_mod (end_ (range s) - start (range s)) PAGE_SIZE).
  pose proof (Z.div_mod (end_ (range s) - next_end s) PAGE_SIZE).
  assert ((end_ (range s) - next_end s) mod PAGE_SIZE = 0) by (by rewrite Zminus_mod, Hm, wf_end_aligned0).
  assert ((next_end s - start (range s)) mod PAGE_SIZE = 0) by (by rewrite Zminus_mod, Hm, wf_start_aligned0).
  pose proof (Z.div_mod (next_end s - start (range s)) PAGE_SIZE). split_and!.
  - constructor; cbn; [constructor; cbn; (done || lia)|done|lia|]. split; [done|]. destruct Hl; [left; lia|by right].
  - cbn. assert ((end_ (range s) - start (range s)) mod PAGE_SIZE = 0) by (by rewrite Zminus_mod, wf_start_aligned0, wf_end_aligned0).
    unfold PAGE_SIZE in *. lia.
  - intros out (Hc & Hf & Hbig). cbn in Hc, Hf, Hbig. split_and!; cbn.
    + split_and!; [done|constructor; cbn; (done || lia)|lia|done].
    + constructor; [cbn; lia|done].
    + intros Hml p q Hp Hq [Hq1 Hq2].
      assert (limit s = end_ (range s) + offset s) as Hlim by (unfold limit; lia).
      destruct (piece_end_large p q (start (range s) + offset s) (limit s) Hp Hq) as [Hin|Hafter]; [lia|lia|..].
      * apply Exists_cons_hd. unfold next_end. split; cbn; lia.
      * apply Exists_cons_tl, Hbig; [lia|done|done|]. unfold next_end. split; cbn; lia.
Qed.

(** The aligned subranges partition the range in order, none longer than
    the requested maximum, and without such a maximum no 2 MB or 1 GB page of
    the (offset) range is split between two of them. *)
Theorem aligned_subranges_correct s :
  aligned_ok s ->
  exists out, aligned_subranges s = Ok (E:=void) out /\
    chain (start (range s)) (end_ (range s)) out /\
    Forall (fun r => end_ r - start r <= max_len s) out /\
    (end_ (range s) - start (range s) <= max_len s ->
      forall p q, (p = TWO_MB \/ p = ONE_GB) -> q mod p = 0 -> holds_page (offset s) p q (range s) ->
      Exists (holds_page (offset s) p q) out).
Proof.
  intros Hs. apply (collect_ok (aligned_next (E:=void)) aligned_ok
    (fun s => Z.to_nat ((end_ (range s) - start (range s)) / PAGE_SIZE)) aligned_promise aligned_next_spec);
    [done|lia].
Qed.

(** * Rounding to an alignment *)

Lemma is_power_of_two_pow k : 0 <= k -> is_power_of_two (2 ^ k) = true.
Proof.
  intros Hk. unfold is_power_of_two. pose proof (Z.pow_pos_nonneg 2 k).
  rewrite Z.log2_pow2, Z.eqb_refl by done. by destruct (Z.ltb_spec 0 (2 ^ k)); [|lia].
Qed.

Lemma mod_page k a : 12 <= k -> a mod 2 ^ k = 0 -> a mod PAGE_SIZE = 0.
Proof.
  intros Hk. apply mod_mult_trans; [done|apply Z.pow_pos_nonneg; lia|].
  replace k with (k - 12 + 12) by lia. rewrite Z.pow_add_r by lia. apply Z_mod_mult.
Qed.

Lemma up_mod p a : up p a mod p = 0.
Proof. apply Z_mod_mult. Qed.

Lemma down_mod p a : down p a mod p = 0.
Proof. apply Z_mod_mult. Qed.

(** [bounding_aligned] returns the smallest range of the given alignment
    that contains the given addresses. *)
Theorem bounding_aligned_smallest s e k :
  0 <= s <= e -> 12 <= k <= 63 -> e + (2 ^ k - 1) < 2 ^ 64 ->
  exists r, bounding_aligned s e (2 ^ k) = Ok (E:=void) r /\
    start r mod 2 ^ k = 0 /\ end_ r mod 2 ^ k = 0 /\ start r <= s /\ e <= end_ r /\
    forall s' e', s' mod 2 ^ k = 0 -> e' mod 2 ^ k = 0 -> s' <= s -> e <= e' ->
      s' <= start r /\ end_ r <= e'.
Proof.
  intros Hse Hk He. assert (0 < 2 ^ k) by (apply Z.pow_pos_nonneg; lia). unfold bounding_aligned.
  destruct (Z.leb_spec s e); [|lia]. rewrite is_power_of_two_pow by lia. unfold U64_MAX.
  destruct (Z.leb_spec e (2 ^ 64 - 1 - (2 ^ k - 1))); [|lia].
  rewrite uadd_ok by lia. cbn [res_bind]. rewrite !(land_not_mask 64) by (split; lia).
  fold (down (2 ^ k) s). fold (up (2 ^ k) e).
  pose proof (up_bounds (2 ^ k) e). pose proof (down_bounds (2 ^ k) s).
  pose proof (down_mod (2 ^ k) s). pose proof (up_mod (2 ^ k) e).
  rewrite new_ok; [|lia|apply (mod_page k); [lia|done]..].
  eexists; split; [done|]. cbn [start end_]. split_and!; try (done || lia).
  intros s' e' Hs' He' Hss Hee. split; [by apply mult_le_down|by apply up_le_mult].
Qed.

(** [aligned_subrange] returns the largest range of the given alignment
    inside the range, or the empty range when there is none. *)
Theorem aligned_subrange_largest r k :
  wf r -> 12 <= k <= 63 -> start r + 2 ^ k < 2 ^ 64 ->
  exists r', aligned_subrange r (2 ^ k) = Ok (E:=void) r' /\
    start r' mod 2 ^ k = 0 /\ end_ r' mod 2 ^ k = 0 /\
    (r' = EMPTY \/ start r <= start r' /\ start r' <= end_ r' /\ end_ r' <= end_ r) /\
    forall s' e', s' mod 2 ^ k = 0 -> e' mod 2 ^ k = 0 -> start r <= s' -> e' <= end_ r -> s' <= e' ->
      start r' <= s' /\ e' <= end_ r'.
Proof.
  intros [Hr0 Hro Hre Hra Hrb] Hk Hs. assert (0 < 2 ^ k) by (apply Z.pow_pos_nonneg; lia). rewrite MAX_ADDRESS_eq in Hre.
  unfold aligned_subrange. rewrite is_power_of_two_pow, uadd_ok by lia. cbn [res_bind].
  rewrite usub_ok by lia. cbn [res_bind]. rewrite !(land_not_mask 64) by (split; lia).
  replace (start r + 2 ^ k - 1) with (start r + (2 ^ k - 1)) by lia.
  fold (up (2 ^ k) (start r)). fold (down (2 ^ k) (end_ r)).
  pose proof (up_bounds (2 ^ k) (start r)). pose proof (down_bounds (2 ^ k) (end_ r)).
  pose proof (up_mod (2 ^ k) (start r)). pose proof (down_mod (2 ^ k) (end_ r)).
  destruct (Z.leb_spec (up (2 ^ k) (start r)) (down (2 ^ k) (end_ r))) as [Hle|Hgt].
  - rewrite new_ok; [|lia|apply (mod_page k); [lia|done]..]. eexists; split; [done|]. cbn [start end_].
    split_and!; try done; [right; lia|]. intros s' e' Hs' He' Hss Hee Hse'.
    split; [by apply up_le_mult|by apply mult_le_down].
  - exists EMPTY. split_and!; try done; [by left|]. intros s' e' Hs' He' Hss Hee Hse'.
    pose proof (up_le_mult (2 ^ k) s' (start r)). pose proof (mult_le_down (2 ^ k) e' (end_ r)). lia.
Qed.

(** [aligned_subrange] overflows for a range in the last [alignment] bytes
    of the address space, where [MemoryRange] allows ranges and the largest
    aligned subrange is the empty one. *)
Theorem aligned_subrange_overflows r k :
  wf r -> 12 <= k <= 63 -> 2 ^ 64 <= start r + 2 ^ k -> aligned_subrange (E:=void) r (2 ^ k) = Panic.
Proof.
  intros Hr Hk Hs. unfold aligned_subrange. rewrite is_power_of_two_pow by lia. unfold uadd.
  by destruct (Z.ltb_spec (start r + 2 ^ k) (2 ^ 64)); [lia|].
Qed.

(** * The operations on one or two ranges *)

(** On well-formed ranges the set operations are exact. The intersection is
    the common addresses, the two halves of a split are adjacent and make up the
    range, and for nonempty ranges [overlaps] and [contains] decide whether
    there is a common address and whether the addresses are included. *)
Theorem range_operations_exact r o k :
  wf r -> wf o -> 0 <= k <= end_ r - start r -> k mod PAGE_SIZE = 0 ->
  (exists i, intersection r o = Ok (E:=void) i /\ wf i /\
    forall a, contains_addr i a = contains_addr r a && contains_addr o a) /\
  (exists x y, split_at_offset r k = Ok (E:=void) (x, y) /\ wf x /\ wf y /\
    start x = start r /\ end_ x = start y /\ end_ y = end_ r /\ end_ x - start x = k) /\
  (start r < end_ r -> start o < end_ o ->
    (overlaps r o = true <-> exists a, contains_addr r a = true /\ contains_addr o a = true) /\
    (contains r o = true <-> forall a, contains_addr o a = true -> contains_addr r a = true)).
Proof.
  intros [] [] Hk Hk8. split_and!.
  - unfold intersection. destruct (Z.leb_spec (Z.max (start r) (start o)) (Z.min (end_ r) (end_ o))).
    + rewrite new_ok by auto using mod_max, mod_min. eexists; split; [done|].
      split; [constructor; cbn; auto using mod_max, mod_min; lia|]. intros a. unfold contains_addr. cbn.
      apply eq_bool_prop_intro. rewrite !Is_true_true, !andb_true_iff, !Z.leb_le, !Z.ltb_lt. lia.
    + exists EMPTY. split; [done|]. split; [by constructor|]. intros a. unfold contains_addr. cbn.
      apply eq_bool_prop_intro. rewrite !Is_true_true, !andb_true_iff, !Z.leb_le, !Z.ltb_lt. lia.
  - unfold split_at_offset, len. rewrite usub_ok by lia. cbn [res_bind].
    destruct (Z.leb_spec k (end_ r - start r)); [|lia]. rewrite Hk8. cbn [Z.eqb].
    rewrite MAX_ADDRESS_eq in *. rewrite uadd_ok by lia. cbn [res_bind].
    assert ((start r + k) mod PAGE_SIZE = 0) by (rewrite Zplus_mod, Hk8, Z.add_0_r, Zmod_mod; done).
    eexists _, _; split; [done|]. cbn. split_and!; try done; try lia;
      constructor; cbn; rewrite ?MAX_ADDRESS_eq; (done || lia).
  - intros Hr Ho. unfold overlaps, contains. rewrite !andb_true_iff, !Z.ltb_lt, !Z.leb_le. split.
    + setoid_rewrite contains_addr_iff. split; [intros []; exists (Z.max (start r) (start o)); lia|].
      intros (a & ? & ?). lia.
    + setoid_rewrite contains_addr_iff. split; [intros [] a; lia|]. intros Hall.
      pose proof (Hall (start o) ltac:(lia)). pose proof (Hall (end_ o - 1) ltac:(lia)). lia.
Qed.

(** * Examples *)

Lemma range_operations_exact_witness :
  let r := mkRange 0x1000 0x5000 in
  let o := mkRange 0x3000 0x8000 in
  (exists i, intersection r o = Ok (E:=void) i /\ wf i /\
    forall a, contains_addr i a = contains_addr r a && contains_addr o a) /\
  (exists x y, split_at_offset r 0x2000 = Ok (E:=void) (x, y) /\ wf x /\ wf y /\
    start x = start r /\ end_ x = start y /\ end_ y = end_ r /\ end_ x - start x = 0x2000) /\
  (start r < end_ r -> start o < end_ o ->
    (overlaps r o = true <-> exists a, contains_addr r a = true /\ contains_addr o a = true) /\
    (contains r o = true <-> forall a, contains_addr o a = true -> contains_addr r a = true)).
Proof.
  intros r o. apply (range_operations_exact r o 0x2000).
  - repeat split; vm_compute; congruence.
  - repeat split; vm_compute; congruence.
  - vm_compute. split; congruence.
  - done.
Defined.

Definition ram : list MemoryRange := [mkRange 0 0x400000; mkRange 0x800000 0xc00000].
Definition holes : list MemoryRange := [mkRange 0x200000 0x600000; mkRange 0xa00000 0xb00000].

Ltac check_sorted := repeat split; vm_compute; congruence.

Lemma walk_ranges_correct_witness :
  exists out, walk_ranges (untagged ram) (untagged holes) = Ok (E:=void) out /\
    chain 0 MAX_ADDRESS (map fst out) /\
    forall rc a, rc ∈ out -> start rc.1 <= a < end_ rc.1 ->
      rc.2 = classify (tag_at (untagged ram) a) (tag_at (untagged holes) a).
Proof. apply (walk_ranges_correct (untagged ram) (untagged holes)); check_sorted. Defined.

Lemma set_operations_correct_witness :
  exists both only, overlapping_ranges ram holes = Ok (E:=void) both /\
    subtract_ranges ram holes = Ok (E:=void) only /\ sorted both /\ sorted only /\
    (forall a, 0 <= a < MAX_ADDRESS -> (covers both a <-> covers ram a /\ covers holes a)) /\
    (forall a, 0 <= a < MAX_ADDRESS -> (covers only a <-> covers ram a /\ ~ covers holes a)).
Proof. apply (set_operations_correct ram holes); check_sorted. Defined.

Definition overlapping : list MemoryRange :=
  [mkRange 0x1000 0x2000; mkRange 0x2000 0x5000; mkRange 0x4000 0x6000; mkRange 0x5000 0x6000;
   mkRange 0x8000 0x9000].

Lemma flatten_ranges_correct_witness :
  exists out, flatten_ranges overlapping = Ok (E:=void) out /\ separated_from (-1) out /\
    forall a, covers out a <-> covers overlapping a.
Proof. apply (flatten_ranges_correct overlapping). check_sorted. Defined.

Definition colored : list (MemoryRange * bool) :=
  [(mkRange 0x1000 0x2000, true); (mkRange 0x2000 0x5000, true); (mkRange 0x5000 0x6000, false);
   (mkRange 0x8000 0x9000, true)].

Lemma merge_adjacent_correct_witness :
  exists out, merge_adjacent_ranges colored = Ok (E:=void) out /\ sorted_from 0 out /\ maximal out /\
    forall a, tag_at out a = tag_at colored a.
Proof. apply (merge_adjacent_correct colored). check_sorted. Defined.

Lemma aligned_subranges_correct_witness :
  let s := aligned_new (mkRange 0x1ff000 0x80003000) in
  exists out, aligned_subranges s = Ok (E:=void) out /\
    chain (start (range s)) (end_ (range s)) out /\
    Forall (fun r => end_ r - start r <= max_len s) out /\
    (end_ (range s) - start (range s) <= max_len s ->
      forall p q, (p = TWO_MB \/ p = ONE_GB) -> q mod p = 0 -> holds_page (offset s) p q (range s) ->
      Exists (holds_page (offset s) p q) out).
Proof.
  intros s. apply (aligned_subranges_correct s). constructor.
  - check_sorted.
  - check_sorted.
  - vm_compute. congruence.
  - split; [done|]. left. vm_compute. congruence.
Defined.

Lemma bounding_aligned_smallest_witness :
  exists r, bounding_aligned 0x1234 0x5678 (2 ^ 12) = Ok (E:=void) r /\
    start r mod 2 ^ 12 = 0 /\ end_ r mod 2 ^ 12 = 0 /\ start r <= 0x1234 /\ 0x5678 <= end_ r /\
    forall s' e', s' mod 2 ^ 12 = 0 -> e' mod 2 ^ 12 = 0 -> s' <= 0x1234 -> 0x5678 <= e' ->
      s' <= start r /\ end_ r <= e'.
Proof. apply (bounding_aligned_smallest 0x1234 0x5678 12); lia. Defined.

Lemma aligned_subrange_largest_witness :
  let r := mkRange 0x1000 0x801000 in
  exists r', aligned_subrange r (2 ^ 21) = Ok (E:=void) r' /\
    start r' mod 2 ^ 21 = 0 /\ end_ r' mod 2 ^ 21 = 0 /\
    (r' = EMPTY \/ start r <= start r' /\ start r' <= end_ r' /\ end_ r' <= end_ r) /\
    forall s' e', s' mod 2 ^ 21 = 0 -> e' mod 2 ^ 21 = 0 -> start r <= s' -> e' <= end_ r -> s' <= e' ->
      start r' <= s' /\ e' <= end_ r'.
Proof. intros r. apply (aligned_subrange_largest r 21); [check_sorted|lia|done]. Defined.

Lemma aligned_subrange_overflows_witness :
  aligned_subrange (E:=void) (mkRange 0xfffffffffff00000 0xfffffffffffff000) (2 ^ 21) = Panic.
Proof. apply (aligned_subrange_overflows (mkRange 0xfffffffffff00000 0xfffffffffffff000) 21); [check_sorted|lia|vm_compute; congruence]. Defined.
