(* ===== verification/ChipsetDevice.v ===== *)
(** The vocabulary of [vm/chipset_device] and [support/inspect_counters] that
    the emulated devices share: I/O errors and statistics counters. *)

From S2P Require Import Prelude.

(** [chipset_device::io::IoError]. *)
Inductive IoError : Type :=
| InvalidRegister
| InvalidAccessSize
| UnalignedAccess
| NoResponse.

#[global] Instance IoError_eq_dec : EqDecision IoError.
Proof. solve_decision. Defined.

(** [inspect_counters::Counter]: a 64-bit counter that wraps. *)
Definition counter_add (c n : Z) : Z := wrapping_add 64 c n.

Definition counter_increment (c : Z) : Z := counter_add c 1.
