(* ===== verification/Pic.v ===== *)
(** The dual 8259 programmable interrupt controller
    ([vm/devices/chipset/src/pic/mod.rs]).

    [Pic] is one controller, [DualPic] the primary and secondary controllers
    cascaded through IRQ 2 of the primary. The [ready] line interrupt is kept
    as the level last driven on it; tracing has no model. *)

From S2P Require Import Prelude ChipsetDevice.

Definition PRIMARY_PIC_COMMAND_PORT : Z := 0x20.
Definition PRIMARY_PIC_DATA_PORT : Z := 0x21.
Definition SECONDARY_PIC_COMMAND_PORT : Z := 0xa0.
Definition SECONDARY_PIC_DATA_PORT : Z := 0xa1.
Definition PRIMARY_PIC_ELCR_PORT : Z := 0x4d0.
Definition SECONDARY_PIC_ELCR_PORT : Z := 0x4d1.
Definition PIC_CHAIN_COMMUNICATION_IRQ : Z := 2.
Definition IRQ_MASK : Z := 7.
Definition SPURIOUS_IRQ : Z := 7.

(** * One controller *)

Inductive InitStage : Type :=
| Uninitialized
| ExpectingIcw2
| ExpectingIcw3
| ExpectingIcw4
| Initialized.

Record Pic : Type := mkPic {
  init : InitStage;
  primary : bool;
  icw2 : Z;
  imr : Z;
  ocw3 : Z;
  isr : Z;
  elcr : Z;
  lines : Z;
  line_low_latch : Z;
}.

#[global] Instance Pic_settable : Settable Pic := fun p =>
  mkPic (init p) (primary p) (icw2 p) (imr p) (ocw3 p) (isr p) (elcr p) (lines p)
    (line_low_latch p).

Record DualPicStats : Type := mkDualPicStats {
  interrupts_per_irq : list Z;
  interrupts : Z;
}.

(** The bit fields of [Ocw2] and [Ocw3]. *)
Definition ocw2_level (data : Z) : Z := Z.land data 7.
Definition ocw2_eoi (data : Z) : bool := Z.testbit data 5.
Definition ocw2_sl (data : Z) : bool := Z.testbit data 6.
Definition ocw2_r (data : Z) : bool := Z.testbit data 7.
Definition ocw3_ris (data : Z) : bool := Z.testbit data 0.
Definition ocw3_rr (data : Z) : bool := Z.testbit data 1.
Definition ocw3_p (data : Z) : bool := Z.testbit data 2.
Definition ocw3_clear_p (data : Z) : Z := Z.ldiff data 4.

Definition pic_new (is_primary : bool) : Pic :=
  mkPic Uninitialized is_primary (if is_primary then 0 else 8) 0 0 0 0 0 (unot 8 0).

Definition pic_reset (during_icw1 : bool) (p : Pic) : Pic :=
  pic_new (primary p) <| lines := lines p |>
    <| elcr := if during_icw1 then elcr p else 0 |>.

Definition irr (p : Pic) : Z := Z.land (lines p) (Z.lor (elcr p) (line_low_latch p)).

Definition pic_set_irq {E} (n : Z) (high : bool) (p : Pic) : res E Pic :=
  let! bit := ushl 8 1 n in
  if high
  then Ok (p <| lines := Z.lor (lines p) bit |>)
  else Ok (p <| lines := Z.land (lines p) (unot 8 bit) |>
             <| line_low_latch := Z.lor (line_low_latch p) bit |>).

Definition ready_vec (p : Pic) : Z :=
  let highest_isr := Z.land (isr p) (wrapping_neg 8 (isr p)) in
  let higher_not_isr := wrapping_sub 8 highest_isr 1 in
  Z.land (Z.land (irr p) (unot 8 (imr p))) higher_not_isr.

Definition interrupt_pending (p : Pic) : bool := negb (ready_vec p =? 0).

Definition pending_line (p : Pic) : option Z :=
  let m := ready_vec p in
  if negb (m =? 0) then Some (trailing_zeros 8 m) else None.

Definition pic_acknowledge_interrupt {E} (p : Pic) (stats : DualPicStats)
  : res E (Pic * DualPicStats * (bool * Z)) :=
  let! r :=
    match pending_line p with
    | Some n =>
        let! bit := ushl 8 1 n in
        let p := p <| line_low_latch := Z.land (line_low_latch p) (unot 8 bit) |>
                   <| isr := Z.lor (isr p) bit |> in
        let i := (if primary p then 0 else 8) + n in
        let! c := vec_get (interrupts_per_irq stats) i in
        let! per := vec_set (interrupts_per_irq stats) i (counter_increment c) in
        Ok (p, mkDualPicStats per (counter_increment (interrupts stats)), (true, n))
    | None => Ok (p, stats, (false, SPURIOUS_IRQ))
    end in
  let '(p, stats, (requested, irq)) := r in
  assert! Z.land (icw2 p) IRQ_MASK =? 0 in
  Ok (p, stats, (requested, Z.lor (icw2 p) irq)).

Definition pic_eoi {E} (n : option Z) (p : Pic) : res E Pic :=
  let! bit := match n with
              | Some level => ushl 8 1 level
              | None => Ok (Z.land (isr p) (wrapping_neg 8 (isr p)))
              end in
  Ok (p <| isr := Z.land (isr p) (unot 8 bit) |>).

Definition read_command {E} (p : Pic) (stats : DualPicStats)
  : res E (Pic * DualPicStats * Z) :=
  if ocw3_p (ocw3 p) then
    let p := p <| ocw3 := ocw3_clear_p (ocw3 p) |> in
    let! r := pic_acknowledge_interrupt p stats in
    let '(p, stats, (int, irq)) := r in
    Ok (p, stats, Z.lor (ucast 8 (Z.shiftl (b2z int) 7)) (Z.land irq IRQ_MASK))
  else if ocw3_rr (ocw3 p) then
    Ok (p, stats, if ocw3_ris (ocw3 p) then isr p else irr p)
  else Ok (p, stats, 0).

Definition read_data (p : Pic) : Z := imr p.

Definition write_command {E} (data : Z) (p : Pic) : res E Pic :=
  if negb (Z.land data 16 =? 0)
  then Ok (pic_reset true p <| init := ExpectingIcw2 |>)
  else if Z.land data 8 =? 0
  then
    match ocw2_r data, ocw2_sl data, ocw2_eoi data with
    | true, _, _ | false, false, false => Ok p
    | false, true, true => pic_eoi (Some (ocw2_level data)) p
    | false, false, true => pic_eoi None p
    | false, true, false => Ok p
    end
  else Ok (p <| ocw3 := data |>).

Definition write_data (data : Z) (p : Pic) : Pic :=
  match init p with
  | Uninitialized | Initialized => p <| imr := data |>
  | ExpectingIcw2 =>
      p <| icw2 := Z.land data (unot 8 IRQ_MASK) |> <| init := ExpectingIcw3 |>
  | ExpectingIcw3 => p <| init := ExpectingIcw4 |>
  | ExpectingIcw4 => p <| init := Initialized |>
  end.

(** * The cascaded pair *)

Record DualPic : Type := mkDualPic {
  ready : bool;
  stats : DualPicStats;
  pic0 : Pic;
  pic1 : Pic;
}.

#[global] Instance DualPic_settable : Settable DualPic := fun d =>
  mkDualPic (ready d) (stats d) (pic0 d) (pic1 d).

Definition dual_new : DualPic :=
  mkDualPic false (mkDualPicStats (replicate 16 0) 0) (pic_new true) (pic_new false).

Definition sync_outputs {E} (d : DualPic) : res E DualPic :=
  let! p := pic_set_irq PIC_CHAIN_COMMUNICATION_IRQ (interrupt_pending (pic1 d)) (pic0 d) in
  Ok (d <| pic0 := p |> <| ready := interrupt_pending p |>).

Definition dual_set_irq {E} (n : Z) (high : bool) (d : DualPic) : res E DualPic :=
  let! d := if 8 <=? n
            then let! p := pic_set_irq (n - 8) high (pic1 d) in Ok (d <| pic1 := p |>)
            else let! p := pic_set_irq n high (pic0 d) in Ok (d <| pic0 := p |>) in
  sync_outputs d.

(** [LineInterruptTarget::set_irq]. *)
Definition target_set_irq {E} (n : Z) (high : bool) (d : DualPic) : res E DualPic :=
  dual_set_irq (ucast 8 n) high d.

(** [valid_lines]: IRQ 2 is the cascade. *)
Definition valid_line (n : Z) : bool :=
  ((0 <=? n) && (n <=? 1)) || ((3 <=? n) && (n <=? 15)).

Definition dual_acknowledge_interrupt {E} (d : DualPic) : res E (DualPic * option Z) :=
  let! r := pic_acknowledge_interrupt (pic0 d) (stats d) in
  let '(p, st, (requested, n)) := r in
  let d := d <| pic0 := p |> <| stats := st |> in
  let! r :=
    if requested then
      if Z.land n IRQ_MASK =? PIC_CHAIN_COMMUNICATION_IRQ then
        let! r := pic_acknowledge_interrupt (pic1 d) (stats d) in
        let '(p, st, (requested, m)) := r in
        assert! requested in
        Ok (d <| pic1 := p |> <| stats := st |>, Some m)
      else Ok (d, Some n)
    else Ok (d, None) in
  let '(d, irq) := r in
  let! d := sync_outputs d in
  Ok (d, irq).

Definition dual_reset {E} (d : DualPic) : res E DualPic :=
  sync_outputs (d <| pic0 := pic_reset false (pic0 d) |> <| pic1 := pic_reset false (pic1 d) |>).

(** [PortIoIntercept::io_read]: the buffer is [len] bytes, one byte is returned. *)
Definition io_read (io_port len : Z) (d : DualPic) : res IoError (DualPic * Z) :=
  if negb (len =? 1) then Err InvalidAccessSize
  else if io_port =? PRIMARY_PIC_COMMAND_PORT then
    let! r := read_command (pic0 d) (stats d) in
    let '(p, st, v) := r in
    Ok (d <| pic0 := p |> <| stats := st |>, v)
  else if io_port =? PRIMARY_PIC_DATA_PORT then Ok (d, read_data (pic0 d))
  else if io_port =? SECONDARY_PIC_COMMAND_PORT then
    let! r := read_command (pic1 d) (stats d) in
    let '(p, st, v) := r in
    Ok (d <| pic1 := p |> <| stats := st |>, v)
  else if io_port =? SECONDARY_PIC_DATA_PORT then Ok (d, read_data (pic1 d))
  else if io_port =? PRIMARY_PIC_ELCR_PORT then Ok (d, elcr (pic0 d))
  else if io_port =? SECONDARY_PIC_ELCR_PORT then Ok (d, elcr (pic1 d))
  else Err InvalidRegister.

Definition io_write1 (io_port b : Z) (d : DualPic) : res IoError DualPic :=
  if io_port =? PRIMARY_PIC_COMMAND_PORT then
    let! p := write_command b (pic0 d) in Ok (d <| pic0 := p |>)
  else if io_port =? PRIMARY_PIC_DATA_PORT then Ok (d <| pic0 := write_data b (pic0 d) |>)
  else if io_port =? SECONDARY_PIC_COMMAND_PORT then
    let! p := write_command b (pic1 d) in Ok (d <| pic1 := p |>)
  else if io_port =? SECONDARY_PIC_DATA_PORT then Ok (d <| pic1 := write_data b (pic1 d) |>)
  else if io_port =? PRIMARY_PIC_ELCR_PORT then
    Ok (d <| pic0 := pic0 d <| elcr := b |> |>)
  else if io_port =? SECONDARY_PIC_ELCR_PORT then
    Ok (d <| pic1 := pic1 d <| elcr := b |> |>)
  else Err InvalidRegister.

(** [PortIoIntercept::io_write]. *)
Definition io_write (io_port : Z) (data : list Z) (d : DualPic) : res IoError DualPic :=
  match data with
  | [a; b] =>
      if (io_port =? PRIMARY_PIC_COMMAND_PORT) || (io_port =? SECONDARY_PIC_COMMAND_PORT)
      then
        let '(prim, sec) := if io_port =? SECONDARY_PIC_COMMAND_PORT then (b, a) else (a, b) in
        let! p0 := write_command prim (pic0 d) in
        let d := d <| pic0 := p0 |> in
        let! p1 := write_command sec (pic1 d) in
        let d := d <| pic1 := p1 |> in
        sync_outputs d
      else Err InvalidAccessSize
  | [b] => let! d := io_write1 io_port b d in sync_outputs d
  | _ => Err InvalidAccessSize
  end.

(** * Save and restore *)

Inductive SavedInitStage : Type :=
| SavedUninitialized
| SavedExpectingIcw2
| SavedExpectingIcw3
| SavedExpectingIcw4
| SavedInitialized.

Record SavedPic : Type := mkSavedPic {
  saved_init : SavedInitStage;
  saved_icw2 : Z;
  saved_imr : Z;
  saved_ocw3 : Z;
  saved_isr : Z;
  saved_elcr : Z;
  saved_line_low_latch : Z;
}.

Record SavedState : Type := mkSavedState {
  saved_primary : SavedPic;
  saved_secondary : SavedPic;
}.

Inductive PicRestoreError : Type :=
| InvalidIcw2 (v : Z).

(** [SavedPic::save]. *)
Definition saved_pic_save (p : Pic) : SavedPic :=
  mkSavedPic
    match init p with
    | Uninitialized => SavedUninitialized
    | ExpectingIcw2 => SavedExpectingIcw2
    | ExpectingIcw3 => SavedExpectingIcw3
    | ExpectingIcw4 => SavedExpectingIcw4
    | Initialized => SavedInitialized
    end
    (icw2 p) (imr p) (ocw3 p) (isr p) (elcr p) (line_low_latch p).

(** [SavedPic::restore]: the new state, and the error if the saved vector base
    is not aligned (the initialization stage is assigned before the check). *)
Definition saved_pic_restore (s : SavedPic) (p : Pic) : Pic * option PicRestoreError :=
  let p := p <| init :=
    match saved_init s with
    | SavedUninitialized => Uninitialized
    | SavedExpectingIcw2 => ExpectingIcw2
    | SavedExpectingIcw3 => ExpectingIcw3
    | SavedExpectingIcw4 => ExpectingIcw4
    | SavedInitialized => Initialized
    end |> in
  if negb (Z.land (saved_icw2 s) IRQ_MASK =? 0)
  then (p, Some (InvalidIcw2 (saved_icw2 s)))
  else (p <| icw2 := saved_icw2 s |> <| imr := saved_imr s |> <| ocw3 := saved_ocw3 s |>
          <| isr := saved_isr s |> <| elcr := saved_elcr s |>
          <| line_low_latch := saved_line_low_latch s |>, None).

Definition dual_save (d : DualPic) : SavedState :=
  mkSavedState (saved_pic_save (pic0 d)) (saved_pic_save (pic1 d)).

Definition dual_restore {E} (s : SavedState) (d : DualPic)
  : res E (DualPic * option PicRestoreError) :=
  let '(p, err) := saved_pic_restore (saved_primary s) (pic0 d) in
  let d := d <| pic0 := p |> in
  match err with
  | Some e => Ok (d, Some e)
  | None =>
      let '(p, err) := saved_pic_restore (saved_secondary s) (pic1 d) in
      let d := d <| pic1 := p |> in
      match err with
      | Some e => Ok (d, Some e)
      | None => let! d := sync_outputs d in Ok (d, None)
      end
  end.

(** * Invariants *)

(** The type invariant of one controller: byte-wide registers and a vector
    base aligned to the eight lines. *)
Record pic_wf (p : Pic) : Prop := {
  wf_icw2 : is_u 8 (icw2 p);
  wf_imr : is_u 8 (imr p);
  wf_ocw3 : is_u 8 (ocw3 p);
  wf_isr : is_u 8 (isr p);
  wf_elcr : is_u 8 (elcr p);
  wf_lines : is_u 8 (lines p);
  wf_latch : is_u 8 (line_low_latch p);
  wf_base : Z.land (icw2 p) IRQ_MASK = 0;
}.

Definition saved_wf (s : SavedPic) : Prop :=
  is_u 8 (saved_icw2 s) /\ is_u 8 (saved_imr s) /\ is_u 8 (saved_ocw3 s) /\
  is_u 8 (saved_isr s) /\ is_u 8 (saved_elcr s) /\ is_u 8 (saved_line_low_latch s).

Record dual_wf (d : DualPic) : Prop := {
  wf_pic0 : pic_wf (pic0 d);
  wf_pic1 : pic_wf (pic1 d);
  wf_primary0 : primary (pic0 d) = true;
  wf_primary1 : primary (pic1 d) = false;
  wf_stats : length (interrupts_per_irq (stats d)) = 16%nat;
}.

(** The outputs are propagated: line 2 of the primary carries the output of the
    secondary, and the CPU sees the output of the primary. *)
Record synced (d : DualPic) : Prop := {
  synced_chain :
    Z.testbit (lines (pic0 d)) PIC_CHAIN_COMMUNICATION_IRQ = interrupt_pending (pic1 d);
  synced_ready : ready d = interrupt_pending (pic0 d);
  synced_latch :
    Z.testbit (lines (pic0 d)) PIC_CHAIN_COMMUNICATION_IRQ = false ->
    Z.testbit (line_low_latch (pic0 d)) PIC_CHAIN_COMMUNICATION_IRQ = true;
}.

#[export] Hint Resolve wf_icw2 wf_imr wf_ocw3 wf_isr wf_elcr wf_lines wf_latch wf_base
  wf_pic0 wf_pic1 : word.

(** ** Lemmas on one controller *)

Lemma pic_new_wf b : pic_wf (pic_new b).
Proof. destruct b; split; simpl; auto with word. Qed.

Lemma pic_reset_wf b p : pic_wf p -> pic_wf (pic_reset b p).
Proof.
  intros H. pose proof (pic_new_wf (primary p)) as Hn.
  destruct b; split; simpl; auto with word; apply Hn.
Qed.

Lemma pic_set_irq_ok {E} n high p :
  0 <= n < 8 ->
  pic_set_irq n high p = Ok (E:=E)
    (if high then p <| lines := Z.lor (lines p) (2 ^ n) |>
     else p <| lines := Z.land (lines p) (unot 8 (2 ^ n)) |>
            <| line_low_latch := Z.lor (line_low_latch p) (2 ^ n) |>).
Proof. intros. unfold pic_set_irq. rewrite ushl_1 by done. by destruct high. Qed.

Lemma pic_set_irq_wf {E} n high p p' :
  0 <= n < 8 -> pic_wf p -> pic_set_irq (E:=E) n high p = Ok p' -> pic_wf p'.
Proof.
  intros Hn H. rewrite pic_set_irq_ok by done. intros [= <-].
  destruct high; split; simpl; eauto with word.
Qed.

(** The lines that may interrupt: requested, not masked, and no line of the
    same or a higher priority in service. *)
Definition line_ready (p : Pic) (i : Z) : Prop :=
  0 <= i < 8 /\ Z.testbit (lines p) i = true /\
  (Z.testbit (elcr p) i = true \/ Z.testbit (line_low_latch p) i = true) /\
  Z.testbit (imr p) i = false /\
  forall j, 0 <= j <= i -> Z.testbit (isr p) j = false.

Lemma higher_not_isr_spec p i :
  pic_wf p -> 0 <= i < 8 ->
  Z.testbit (wrapping_sub 8 (Z.land (isr p) (wrapping_neg 8 (isr p))) 1) i = true <->
  forall j, 0 <= j <= i -> Z.testbit (isr p) j = false.
Proof.
  intros Hwf Hi. pose proof (wf_isr _ Hwf) as Hisr.
  destruct (Z.eq_dec (isr p) 0) as [H0|Hne].
  { rewrite H0. split; [intros _ j _; apply Z.testbit_0_l|intros _].
    change (wrapping_sub 8 _ 1) with (Z.ones 8). rewrite testbit_ones by lia.
    destruct (Z.leb_spec 0 i), (Z.ltb_spec i 8); done || lia. }
  assert (0 < isr p) as Hpos by (destruct Hisr; lia).
  rewrite lowest_bit by done.
  pose proof (trailing_zeros_bound 8 _ Hpos Hisr).
  pose proof (trailing_zeros_nonneg 8 (isr p)).
  set (t := trailing_zeros 8 (isr p)) in *.
  assert (wrapping_sub 8 (2 ^ t) 1 = Z.ones t) as ->.
  { unfold wrapping_sub. rewrite Z.ones_equiv, Z.mod_small; [lia|].
    destruct (is_u_pow2 8 t); [lia|]. pose proof (Z.pow_pos_nonneg 2 t). lia. }
  rewrite testbit_ones, andb_true_iff, Z.leb_le, Z.ltb_lt by lia. split.
  - intros [_ Hlt] j Hj. apply (trailing_zeros_low 8); [done|fold t; lia].
  - intros Hall. split; [lia|]. destruct (Z.ltb_spec i t); [done|].
    specialize (Hall t). rewrite (trailing_zeros_testbit 8) in Hall by done.
    naive_solver lia.
Qed.

Lemma ready_vec_u8 p : pic_wf p -> is_u 8 (ready_vec p).
Proof. intros. unfold ready_vec, irr. auto 8 with word. Qed.

Lemma ready_vec_spec p i :
  pic_wf p -> Z.testbit (ready_vec p) i = true <-> line_ready p i.
Proof.
  intros Hwf. unfold line_ready. destruct (decide (0 <= i < 8)) as [Hi|Hi].
  - unfold ready_vec at 1, irr. autorewrite with bits.
    rewrite !andb_true_iff, orb_true_iff, negb_true_iff, Z.leb_le, Z.ltb_lt,
      higher_not_isr_spec by done. tauto.
  - split; [|tauto]. intros H. exfalso. destruct (Z.ltb_spec i 0).
    + by rewrite Z.testbit_neg_r in H.
    + rewrite (is_u_testbit_high 8) in H; [done|by apply ready_vec_u8|lia].
Qed.

Lemma interrupt_pending_spec p :
  pic_wf p -> interrupt_pending p = true <-> exists i, line_ready p i.
Proof.
  intros Hwf. unfold interrupt_pending. rewrite negb_true_iff, Z.eqb_neq. split.
  - intros Hne. exists (trailing_zeros 8 (ready_vec p)). apply ready_vec_spec; [done|].
    apply trailing_zeros_testbit. destruct (ready_vec_u8 p Hwf). lia.
  - intros [i Hi] H0. apply ready_vec_spec in Hi; [|done].
    by rewrite H0, Z.testbit_0_l in Hi.
Qed.

Lemma pending_line_Some p n :
  pic_wf p ->
  pending_line p = Some n <-> line_ready p n /\ forall j, line_ready p j -> n <= j.
Proof.
  intros Hwf. unfold pending_line. destruct (Z.eqb_spec (ready_vec p) 0) as [H0|Hne]; simpl.
  - split; [done|]. intros [Hr _]. apply ready_vec_spec in Hr; [|done].
    by rewrite H0, Z.testbit_0_l in Hr.
  - assert (0 < ready_vec p) as Hpos by (destruct (ready_vec_u8 p Hwf); lia).
    assert (line_ready p (trailing_zeros 8 (ready_vec p))) as Hr
      by (apply ready_vec_spec, trailing_zeros_testbit; done).
    assert (forall j, line_ready p j -> trailing_zeros 8 (ready_vec p) <= j) as Hleast.
    { intros j Hj. apply ready_vec_spec in Hj; [|done].
      destruct (Z.leb_spec (trailing_zeros 8 (ready_vec p)) j); [done|].
      rewrite (trailing_zeros_low 8) in Hj; done. }
    split; [intros [= <-]; done|]. intros [Hn Hmin]. f_equal.
    apply Z.le_antisymm; auto.
Qed.

Lemma pending_line_None p :
  pic_wf p -> pending_line p = None <-> interrupt_pending p = false.
Proof. intros. unfold pending_line, interrupt_pending. by destruct (negb _). Qed.

(** The controller after line [n] has been acknowledged. *)
Definition in_service (n : Z) (p : Pic) : Pic :=
  p <| line_low_latch := Z.land (line_low_latch p) (unot 8 (2 ^ n)) |>
    <| isr := Z.lor (isr p) (2 ^ n) |>.

Lemma in_service_wf n p : 0 <= n < 8 -> pic_wf p -> pic_wf (in_service n p).
Proof. intros. split; simpl; eauto with word. Qed.

Lemma pic_acknowledge_Some {E} p st n :
  pic_wf p -> length (interrupts_per_irq st) = 16%nat -> pending_line p = Some n ->
  exists st', length (interrupts_per_irq st') = 16%nat /\
    pic_acknowledge_interrupt p st = Ok (E:=E) (in_service n p, st', (true, Z.lor (icw2 p) n)).
Proof.
  intros Hwf Hlen Hn. assert (0 <= n < 8) as Hr.
  { apply pending_line_Some in Hn; [|done]. apply Hn. }
  unfold pic_acknowledge_interrupt. rewrite Hn, ushl_1 by done.
  cbn [res_bind]. fold (in_service n p).
  change (primary (in_service n p)) with (primary p).
  set (i := (if primary p then 0 else 8) + n).
  assert (0 <= i < 16) as Hi by (subst i; destruct (primary p); lia).
  destruct (vec_get_ok (E:=E) (interrupts_per_irq st) i) as (c & -> & _); [lia|].
  cbn [res_bind]. rewrite vec_set_ok by lia. cbn [res_bind].
  change (icw2 (in_service n p)) with (icw2 p). rewrite (wf_base _ Hwf), Z.eqb_refl.
  eexists; split; [|reflexivity]. simpl. by rewrite length_insert.
Qed.

Lemma pic_acknowledge_None {E} p st :
  pic_wf p -> pending_line p = None ->
  pic_acknowledge_interrupt p st = Ok (E:=E) (p, st, (false, Z.lor (icw2 p) SPURIOUS_IRQ)).
Proof.
  intros Hwf Hn. unfold pic_acknowledge_interrupt. rewrite Hn. cbn.
  by rewrite (wf_base _ Hwf).
Qed.

Lemma pic_eoi_wf {E} n p :
  (forall l, n = Some l -> 0 <= l < 8) -> pic_wf p ->
  exists p', pic_eoi n p = Ok (E:=E) p' /\ pic_wf p' /\ primary p' = primary p.
Proof.
  intros Hn Hwf. unfold pic_eoi. destruct n as [l|].
  - rewrite ushl_1 by (by apply Hn). eexists; split_and!; [reflexivity| |done].
    split; simpl; eauto with word.
  - eexists; split_and!; [reflexivity| |done]. split; simpl; eauto with word.
Qed.

Lemma land_7_bound a : 0 <= Z.land a 7 < 8.
Proof. change 7 with (Z.ones 3). rewrite Z.land_ones by lia. apply Z.mod_pos_bound. lia. Qed.

Lemma write_command_ok {E} data p :
  is_u 8 data -> pic_wf p ->
  exists p', write_command data p = Ok (E:=E) p' /\ pic_wf p' /\ primary p' = primary p.
Proof.
  intros Hd Hwf. unfold write_command.
  destruct (negb (Z.land data 16 =? 0)).
  { eexists; split_and!; [reflexivity| |done].
    pose proof (pic_reset_wf true p Hwf) as [? ? ? ? ? ? ? ?]. by split. }
  destruct (Z.land data 8 =? 0).
  - assert (exists p', Ok (E:=E) p = Ok p' /\ pic_wf p' /\ primary p' = primary p) by eauto.
    destruct (ocw2_r data), (ocw2_sl data), (ocw2_eoi data); try done;
      apply pic_eoi_wf; try done. intros l [= <-]. apply land_7_bound.
  - eexists; split_and!; [reflexivity| |done]. split; simpl; eauto with word.
Qed.

Lemma write_data_wf data p : is_u 8 data -> pic_wf p -> pic_wf (write_data data p).
Proof.
  intros Hd Hwf. unfold write_data.
  destruct (init p); split; simpl; eauto with word.
  bitwise i Hi. by destruct (Z.testbit data i), (0 <=? i), (i <? 8), (Z.testbit IRQ_MASK i).
Qed.

(** Only the latch of the line acknowledged is cleared, and that line is high. *)
Lemma in_service_latch n p i :
  pic_wf p -> pending_line p = Some n -> 0 <= i < 8 -> Z.testbit (lines p) i = false ->
  Z.testbit (line_low_latch (in_service n p)) i = Z.testbit (line_low_latch p) i.
Proof.
  intros Hwf Hn Hi Hl. apply pending_line_Some in Hn as [(Hr & Hn & _) _]; [|done].
  assert (n <> i) as Hne by congruence. simpl. autorewrite with bits.
  destruct (Z.eqb_spec n i); [done|]. destruct (Z.ltb_spec i 8); [|lia].
  destruct (Z.leb_spec 0 i); [|lia]. apply andb_true_r.
Qed.

(** A read of the command port; it is a poll if the poll bit is set. *)
Lemma read_command_ok {E} p st :
  pic_wf p -> length (interrupts_per_irq st) = 16%nat ->
  exists p' st' v, read_command p st = Ok (E:=E) (p', st', v) /\ pic_wf p' /\
    primary p' = primary p /\ length (interrupts_per_irq st') = 16%nat /\ is_u 8 v /\
    (ocw3_p (ocw3 p) = false -> p' = p /\ st' = st) /\ lines p' = lines p /\
    forall i, 0 <= i < 8 -> Z.testbit (lines p) i = false -> Z.testbit (line_low_latch p') i = Z.testbit (line_low_latch p) i.
Proof.
  intros Hwf Hst. unfold read_command. destruct (ocw3_p (ocw3 p)) eqn:Hp.
  - set (q := p <| ocw3 := _ |>).
    assert (pic_wf q) as Hq by (split; simpl; unfold ocw3_clear_p; eauto with word).
    destruct (pending_line q) as [n|] eqn:Hn.
    + destruct (pic_acknowledge_Some (E:=E) q st n Hq Hst Hn) as (st' & Hst' & ->). simpl.
      assert (0 <= n < 8) by (apply pending_line_Some in Hn; [apply Hn|done]).
      eexists _, _, _; split_and!; [reflexivity|by apply in_service_wf|done|done|auto with word|done|done|].
      intros i Hi Hl. by apply (in_service_latch n q).
    + rewrite pic_acknowledge_None by done. simpl.
      eexists _, _, _; split_and!; [reflexivity|done|done|done|auto with word|done|done|done].
  - assert (is_u 8 (irr p)) by (unfold irr; eauto with word).
    destruct (ocw3_rr (ocw3 p)); eexists _, _, _; split_and!; try reflexivity; eauto with word.
    destruct (ocw3_ris (ocw3 p)); eauto with word.
Qed.

(** ** Lemmas on the pair *)

Lemma sync_outputs_ok {E} d :
  dual_wf d ->
  exists d', sync_outputs d = Ok (E:=E) d' /\ dual_wf d' /\ synced d' /\
    pic1 d' = pic1 d /\ stats d' = stats d /\
    pic_set_irq PIC_CHAIN_COMMUNICATION_IRQ (interrupt_pending (pic1 d)) (pic0 d)
      = Ok (E:=E) (pic0 d').
Proof.
  intros [H0 H1 Hp0 Hp1 Hst]. unfold sync_outputs, PIC_CHAIN_COMMUNICATION_IRQ.
  pose proof (pic_set_irq_ok (E:=E) 2 (interrupt_pending (pic1 d)) (pic0 d)) as Hs.
  pose proof (pic_set_irq_wf (E:=E) 2 (interrupt_pending (pic1 d)) (pic0 d)) as Hw.
  rewrite Hs in * by lia. specialize (Hw _ ltac:(lia) H0 eq_refl). cbn [res_bind].
  eexists; split_and!; [reflexivity| | |done|done|done].
  - split; simpl; [done|done| |done|done]. by destruct (interrupt_pending (pic1 d)).
  - unfold PIC_CHAIN_COMMUNICATION_IRQ in *.
    split; simpl; [|done|]; unfold PIC_CHAIN_COMMUNICATION_IRQ;
      destruct (interrupt_pending (pic1 d)); simpl; autorewrite with bits;
      rewrite Z.eqb_refl, ?orb_true_r, ?andb_false_r; done.
Qed.

(** [sync_outputs] only drives line 2 of the primary. *)
Lemma sync_outputs_fields {E} d d' :
  sync_outputs (E:=E) d = Ok d' ->
  isr (pic0 d') = isr (pic0 d) /\ imr (pic0 d') = imr (pic0 d) /\
  icw2 (pic0 d') = icw2 (pic0 d) /\ elcr (pic0 d') = elcr (pic0 d) /\
  init (pic0 d') = init (pic0 d) /\ ocw3 (pic0 d') = ocw3 (pic0 d).
Proof.
  unfold sync_outputs, PIC_CHAIN_COMMUNICATION_IRQ. rewrite pic_set_irq_ok by lia.
  cbn [res_bind]. intros [= <-]. by destruct (interrupt_pending (pic1 d)).
Qed.

(** * The device as a state machine *)

Inductive DualOp : Type :=
| OpSetIrq (n : Z) (high : bool)
| OpAcknowledge
| OpRead (io_port len : Z)
| OpWrite (io_port : Z) (data : list Z)
| OpReset
| OpRestore (s : SavedState).

(** A rejected port access leaves the device as it was. *)
Definition on_io_error {E A} (a : A) (m : res IoError A) : res E A :=
  match m with
  | Ok a' => Ok a'
  | Err _ => Ok a
  | Panic => Panic
  end.

Definition dual_step (op : DualOp) (d : DualPic) : res void DualPic :=
  match op with
  | OpSetIrq n high => target_set_irq n high d
  | OpAcknowledge => let! r := dual_acknowledge_interrupt d in Ok r.1
  | OpRead port len => on_io_error d (let! r := io_read port len d in Ok r.1)
  | OpWrite port data => on_io_error d (io_write port data d)
  | OpReset => dual_reset d
  | OpRestore s => let! r := dual_restore s d in Ok r.1
  end.

Definition aligned_base (s : SavedPic) : Prop := Z.land (saved_icw2 s) IRQ_MASK = 0.

(** What the rest of the system may ask of the device: only lines it declares
    valid, bytes on the port, and a saved state the restore accepts. *)
Definition valid_op (op : DualOp) : Prop :=
  match op with
  | OpSetIrq n _ => valid_line n = true
  | OpWrite _ data => Forall (is_u 8) data
  | OpRestore s =>
      saved_wf (saved_primary s) /\ saved_wf (saved_secondary s) /\
      aligned_base (saved_primary s) /\ aligned_base (saved_secondary s)
  | _ => True
  end.

(** A read of the command port while the controller is in poll mode. *)
Definition polls (command_port : Z) (op : DualOp) (d : DualPic) : bool :=
  match op with
  | OpRead port len =>
      (port =? command_port) && (len =? 1) &&
      ocw3_p (ocw3 (if command_port =? PRIMARY_PIC_COMMAND_PORT then pic0 d else pic1 d))
  | _ => false
  end.

(** The operation propagates the outputs. *)
Definition settles (op : DualOp) (d : DualPic) : bool :=
  match op with
  | OpRead _ _ => false
  | OpWrite port data => match io_write port data d with Ok _ => true | _ => false end
  | _ => true
  end.

(** The states that valid operations lead to, polls included; [polled0] and
    [polled1] if the primary or the secondary was polled after the outputs were
    propagated last. *)
Inductive reachable : bool -> bool -> DualPic -> Prop :=
| reachable_new : reachable false false dual_new
| reachable_step polled0 polled1 d op d' :
    reachable polled0 polled1 d -> valid_op op -> dual_step op d = Ok d' ->
    reachable (polls PRIMARY_PIC_COMMAND_PORT op d || polled0 && negb (settles op d))
      (polls SECONDARY_PIC_COMMAND_PORT op d || polled1 && negb (settles op d)) d'.

(** The cascade line of the primary is the output of the secondary. *)
Record chained (d : DualPic) : Prop := {
  chained_line :
    Z.testbit (lines (pic0 d)) PIC_CHAIN_COMMUNICATION_IRQ = interrupt_pending (pic1 d);
  chained_latch :
    Z.testbit (lines (pic0 d)) PIC_CHAIN_COMMUNICATION_IRQ = false ->
    Z.testbit (line_low_latch (pic0 d)) PIC_CHAIN_COMMUNICATION_IRQ = true;
}.

(** The primary would deliver an interrupt of the secondary, which has none. *)
Definition stuck (d : DualPic) : Prop :=
  pending_line (pic0 d) = Some PIC_CHAIN_COMMUNICATION_IRQ /\ interrupt_pending (pic1 d) = false.

(** The interrupts the pair can deliver, numbered 0 to 15 without the cascade
    line, with their priority (a lower rank is served first) and vector. *)
Definition irq_ready (d : DualPic) (k : Z) : Prop :=
  if k <? 8 then k <> PIC_CHAIN_COMMUNICATION_IRQ /\ line_ready (pic0 d) k
  else line_ready (pic1 d) (k - 8) /\ line_ready (pic0 d) PIC_CHAIN_COMMUNICATION_IRQ.

Definition irq_rank (k : Z) : Z := if k <? 8 then 8 * k else 16 + (k - 8).

Definition irq_vector (d : DualPic) (k : Z) : Z :=
  if k <? 8 then Z.lor (icw2 (pic0 d)) k else Z.lor (icw2 (pic1 d)) (k - 8).

Definition irq_in_service (d : DualPic) (k : Z) : bool :=
  if k <? 8 then Z.testbit (isr (pic0 d)) k
  else Z.testbit (isr (pic1 d)) (k - 8) &&
       Z.testbit (isr (pic0 d)) PIC_CHAIN_COMMUNICATION_IRQ.

(** ** Every operation preserves the invariants *)

(** The postcondition shared by the operations that end in [sync_outputs]. *)
Definition good {E} (m : res E DualPic) : Prop :=
  exists d', m = Ok d' /\ dual_wf d' /\ synced d'.

Lemma sync_outputs_good {E} d : dual_wf d -> good (E:=E) (sync_outputs d).
Proof.
  intros H. destruct (sync_outputs_ok (E:=E) d H) as (d' & -> & ? & ? & _). by exists d'.
Qed.

Lemma dual_wf_pic0 d p :
  dual_wf d -> pic_wf p -> primary p = primary (pic0 d) -> dual_wf (d <| pic0 := p |>).
Proof. intros [] ? Hp. split; simpl; congruence. Qed.

Lemma dual_wf_pic1 d p :
  dual_wf d -> pic_wf p -> primary p = primary (pic1 d) -> dual_wf (d <| pic1 := p |>).
Proof. intros [] ? Hp. split; simpl; congruence. Qed.

Lemma dual_wf_stats d st :
  dual_wf d -> length (interrupts_per_irq st) = 16%nat -> dual_wf (d <| stats := st |>).
Proof. intros [] ?. by split. Qed.

#[local] Hint Resolve dual_wf_pic0 dual_wf_pic1 dual_wf_stats sync_outputs_good : core.

Lemma valid_line_cast n : valid_line n = true -> ucast 8 n = n /\ (0 <= n < 2 \/ 2 < n < 16).
Proof.
  unfold valid_line. intros H. assert (0 <= n < 2 \/ 2 < n < 16).
  { apply orb_true_iff in H as [H|H]; apply andb_true_iff in H; lia. }
  split; [|done]. apply Z.mod_small. simpl. lia.
Qed.

Lemma set_irq_good {E} n high d :
  dual_wf d -> valid_line n = true -> good (E:=E) (target_set_irq n high d).
Proof.
  intros Hwf Hv. apply valid_line_cast in Hv as [Hc Hn].
  unfold target_set_irq, dual_set_irq. rewrite Hc.
  destruct (Z.leb_spec 8 n).
  - pose proof (pic_set_irq_wf (E:=E) (n - 8) high (pic1 d)) as Hw.
    rewrite pic_set_irq_ok in * by lia. specialize (Hw _ ltac:(lia) (wf_pic1 _ Hwf) eq_refl).
    apply sync_outputs_good, dual_wf_pic1; [done..|by destruct high].
  - pose proof (pic_set_irq_wf (E:=E) n high (pic0 d)) as Hw.
    rewrite pic_set_irq_ok in * by lia. specialize (Hw _ ltac:(lia) (wf_pic0 _ Hwf) eq_refl).
    apply sync_outputs_good, dual_wf_pic0; [done..|by destruct high].
Qed.

Lemma io_write1_good port b d :
  dual_wf d -> is_u 8 b ->
  io_write1 port b d = Err InvalidRegister \/
  exists d', io_write1 port b d = Ok d' /\ dual_wf d'.
Proof.
  intros Hwf Hb. unfold io_write1.
  destruct (write_command_ok (E:=IoError) b (pic0 d)) as (p0 & Hp0 & ? & ?); [done|apply Hwf|].
  destruct (write_command_ok (E:=IoError) b (pic1 d)) as (p1 & Hp1 & ? & ?); [done|apply Hwf|].
  assert (forall p, primary (write_data b p) = primary p)
    by (intros p; unfold write_data; by destruct (init p)).
  assert (forall p, pic_wf p -> pic_wf (p <| elcr := b |>)) as Helcr
    by (intros p []; by split).
  repeat case_match; rewrite ?Hp0, ?Hp1; try (by left); right;
    (eexists; split; [reflexivity|]);
    first [apply dual_wf_pic0|apply dual_wf_pic1]; try done;
    first [apply write_data_wf|apply Helcr]; try done; apply Hwf.
Qed.

Lemma io_write_good port data d :
  dual_wf d -> Forall (is_u 8) data ->
  (exists e, io_write port data d = Err e) \/ good (io_write port data d).
Proof.
  intros Hwf Hd. unfold io_write.
  destruct data as [|a [|b [|]]]; eauto.
  - destruct (io_write1_good port a d) as [->|(d' & -> & ?)]; [done|by inversion Hd|by eauto|].
    right. by apply sync_outputs_good.
  - destruct (_ || _); [|eauto]. right.
    inversion Hd as [|?? Ha Hd']; inversion Hd' as [|?? Hb _]; subst.
    set (ab := if port =? SECONDARY_PIC_COMMAND_PORT then (b, a) else (a, b)).
    assert (is_u 8 ab.1 /\ is_u 8 ab.2) as [H1 H2] by (subst ab; by case_match).
    destruct ab as [x y]. simpl in *.
    destruct (write_command_ok (E:=IoError) x (pic0 d)) as (p0 & -> & ? & ?); [done|apply Hwf|].
    simpl. destruct (write_command_ok (E:=IoError) y (pic1 d)) as (p1 & -> & ? & ?); [done|apply Hwf|].
    simpl. apply sync_outputs_good. auto.
Qed.

Lemma io_read_wf port len d :
  dual_wf d ->
  exists d', on_io_error (E:=void) d (let! r := io_read port len d in Ok r.1) = Ok d' /\ dual_wf d' /\
    (polls PRIMARY_PIC_COMMAND_PORT (OpRead port len) d = false ->
      polls SECONDARY_PIC_COMMAND_PORT (OpRead port len) d = false -> d' = d) /\
    (polls SECONDARY_PIC_COMMAND_PORT (OpRead port len) d = false -> chained d -> chained d').
Proof.
  intros Hwf. pose proof (wf_stats _ Hwf).
  unfold io_read, polls. destruct (len =? 1); [|by exists d]. cbn [negb]. rewrite !andb_true_r.
  destruct (read_command_ok (E:=IoError) (pic0 d) (stats d))
    as (p0 & st0 & v0 & Hr0 & ? & ? & ? & _ & Hs0 & HL0 & HT0); [apply Hwf|done|].
  destruct (read_command_ok (E:=IoError) (pic1 d) (stats d))
    as (p1 & st1 & v1 & Hr1 & ? & ? & ? & _ & Hs1 & _); [apply Hwf|done|].
  destruct (Z.eqb_spec port PRIMARY_PIC_COMMAND_PORT) as [->|].
  { rewrite Hr0. cbn. eexists; split_and!; [reflexivity|auto| |].
    - intros Hp _. destruct (Hs0 Hp) as [-> ->]. by destruct d.
    - intros _ [C1 C2]. split; simpl; rewrite HL0; [done|]. intros Hl. rewrite HT0; auto. by unfold PIC_CHAIN_COMMUNICATION_IRQ. }
  destruct (Z.eqb_spec port PRIMARY_PIC_DATA_PORT); [by exists d|].
  destruct (Z.eqb_spec port SECONDARY_PIC_COMMAND_PORT) as [->|].
  { rewrite Hr1. cbn. destruct (ocw3_p (ocw3 (pic1 d))).
    - eexists; split_and!; [reflexivity|auto|done|done].
    - destruct (Hs1 eq_refl) as [-> ->]. exists d. split_and!; try done. by destruct d. }
  repeat (case_match; [by exists d|]). by exists d.
Qed.

Lemma vector_irq p n : pic_wf p -> 0 <= n < 8 -> Z.land (Z.lor (icw2 p) n) IRQ_MASK = n.
Proof.
  intros Hwf Hn. rewrite Z.land_lor_distr_l, (wf_base _ Hwf), Z.lor_0_l.
  unfold IRQ_MASK. change 7 with (Z.ones 3). rewrite Z.land_ones by lia.
  apply Z.mod_small. done.
Qed.

Lemma pending_line_range p n : pic_wf p -> pending_line p = Some n -> 0 <= n < 8.
Proof. intros Hwf H. apply pending_line_Some in H; [apply H|done]. Qed.

(** An acknowledge, if the pair is not stuck: nothing to deliver, a line of the
    primary, or a line of the secondary through the cascade. *)
Lemma acknowledge_cases {E} d :
  dual_wf d -> ~ stuck d ->
  exists d' irq, dual_acknowledge_interrupt d = Ok (E:=E) (d', irq) /\ dual_wf d' /\ synced d' /\
    match pending_line (pic0 d) with
    | None => irq = None
    | Some n =>
        isr (pic0 d') = Z.lor (isr (pic0 d)) (2 ^ n) /\
        if n =? PIC_CHAIN_COMMUNICATION_IRQ
        then exists m, pending_line (pic1 d) = Some m /\ pic1 d' = in_service m (pic1 d) /\
               irq = Some (Z.lor (icw2 (pic1 d)) m)
        else irq = Some (Z.lor (icw2 (pic0 d)) n)
    end.
Proof.
  intros Hwf Hsync. unfold dual_acknowledge_interrupt.
  destruct (pending_line (pic0 d)) as [n|] eqn:Hn.
  2: { rewrite pic_acknowledge_None by (apply Hwf || done). simpl.
       destruct (sync_outputs_good (E:=E) (d <| pic0 := pic0 d |> <| stats := stats d |>))
         as (d' & -> & ? & ?); [apply dual_wf_stats, Hwf; apply dual_wf_pic0; [done|apply Hwf|done]|].
       by exists d', None. }
  pose proof (pending_line_range _ _ (wf_pic0 _ Hwf) Hn) as Hr.
  destruct (pic_acknowledge_Some (E:=E) (pic0 d) (stats d) n) as (st & Hst & ->);
    [apply Hwf|apply Hwf|done|].
  cbn [res_bind]. rewrite vector_irq by (apply Hwf || done).
  set (d1 := d <| pic0 := in_service n (pic0 d) |> <| stats := st |>).
  assert (dual_wf d1) as Hwf1
    by (apply dual_wf_stats; [apply dual_wf_pic0; [done|apply in_service_wf; auto with word|done]|done]).
  destruct (Z.eqb_spec n PIC_CHAIN_COMMUNICATION_IRQ) as [->|Hne].
  - assert (interrupt_pending (pic1 d) = true) as Hp1.
    { destruct (interrupt_pending (pic1 d)) eqn:Hp1; [done|]. by destruct Hsync. }
    destruct (pending_line (pic1 d)) as [m|] eqn:Hm.
    2: { apply pending_line_None in Hm; [congruence|apply Hwf]. }
    change (pic1 d1) with (pic1 d).
    destruct (pic_acknowledge_Some (E:=E) (pic1 d) (stats d1) m) as (st' & Hst' & ->);
      [apply Hwf|apply Hwf1|done|].
    cbn [res_bind].
    destruct (sync_outputs_ok (E:=E) (d1 <| pic1 := in_service m (pic1 d) |> <| stats := st' |>))
      as (d' & Heq & ? & ? & Hpic1 & _).
    { apply dual_wf_stats; [apply dual_wf_pic1; [done| |done]|done].
      apply in_service_wf; [by apply pending_line_range in Hm; [|apply Hwf]|apply Hwf]. }
    pose proof (sync_outputs_fields _ _ Heq) as [Hisr _]. rewrite Heq.
    eexists _, _; split_and!; [reflexivity|done|done|exact Hisr|]. by exists m.
  - cbn [res_bind].
    destruct (sync_outputs_ok (E:=E) d1 Hwf1) as (d' & Heq & ? & ? & _).
    pose proof (sync_outputs_fields _ _ Heq) as [Hisr _]. rewrite Heq.
    by eexists _, _.
Qed.

Lemma reset_good {E} d : dual_wf d -> good (E:=E) (dual_reset d).
Proof.
  intros Hwf. apply sync_outputs_good.
  apply dual_wf_pic1; [apply dual_wf_pic0|..]; try done; apply pic_reset_wf, Hwf.
Qed.

Lemma saved_pic_restore_ok s p :
  saved_wf s -> aligned_base s -> pic_wf p ->
  exists p', saved_pic_restore s p = (p', None) /\ pic_wf p' /\ primary p' = primary p.
Proof.
  intros (? & ? & ? & ? & ? & ?) Hb Hwf. unfold saved_pic_restore.
  rewrite Hb. eexists; split_and!; [reflexivity| |done]. split; simpl; auto with word.
Qed.

Lemma restore_good {E} s d :
  dual_wf d -> valid_op (OpRestore s) ->
  exists d', dual_restore s d = Ok (E:=E) (d', None) /\ dual_wf d' /\ synced d'.
Proof.
  intros Hwf (? & ? & ? & ?). unfold dual_restore.
  destruct (saved_pic_restore_ok (saved_primary s) (pic0 d)) as (p0 & -> & ? & ?); [done..|apply Hwf|].
  simpl.
  destruct (saved_pic_restore_ok (saved_secondary s) (pic1 d)) as (p1 & -> & ? & ?); [done..|apply Hwf|].
  destruct (sync_outputs_good (E:=E) (d <| pic0 := p0 |> <| pic1 := p1 |>))
    as (d' & -> & ? & ?); [auto|]. by exists d'.
Qed.

Lemma acknowledge_stuck {E} d : dual_wf d -> stuck d -> dual_acknowledge_interrupt (E:=E) d = Panic.
Proof.
  intros Hwf [H0 H1]. unfold dual_acknowledge_interrupt.
  destruct (pic_acknowledge_Some (E:=E) (pic0 d) (stats d) PIC_CHAIN_COMMUNICATION_IRQ)
    as (st' & Hst' & Heq); [apply Hwf|apply Hwf|done|].
  rewrite Heq. cbn [res_bind]. rewrite vector_irq, Z.eqb_refl by (apply Hwf || done).
  rewrite pic_acknowledge_None; [reflexivity|apply Hwf|]. apply pending_line_None; [apply Hwf|done].
Qed.

Lemma stuck_dec d : {stuck d} + {~ stuck d}.
Proof. unfold stuck. apply and_dec; [apply option_eq_dec|apply bool_eq_dec]. Qed.

Lemma chained_not_stuck d : dual_wf d -> chained d -> ~ stuck d.
Proof.
  intros Hwf Hc [H0 H1]. rewrite <-(chained_line _ Hc) in H1.
  apply pending_line_Some in H0 as [(_ & Hl & _) _]; [congruence|apply Hwf].
Qed.

Lemma synced_chained d : synced d -> chained d.
Proof. by intros [? ? ?]. Qed.

(** Every valid operation on a well-formed device completes, but for an
    acknowledge that finds it stuck; only polls leave the outputs stale, and only
    polls of the secondary the cascade. *)
Lemma dual_step_ok op d :
  dual_wf d -> valid_op op ->
  match dual_step op d with
  | Ok d' => ~ (op = OpAcknowledge /\ stuck d) /\ dual_wf d' /\ (settles op d = true -> synced d') /\
      (polls PRIMARY_PIC_COMMAND_PORT op d = false -> polls SECONDARY_PIC_COMMAND_PORT op d = false ->
        settles op d = false -> d' = d) /\
      (polls SECONDARY_PIC_COMMAND_PORT op d = false -> chained d -> chained d')
  | Err _ => False
  | Panic => op = OpAcknowledge /\ stuck d
  end.
Proof.
  intros Hwf Hv. destruct op as [n high| |port len|port data| |s]; cbn [dual_step settles].
  - destruct (set_irq_good (E:=void) n high d) as (d' & -> & ? & ?); [done..|].
    split_and!; try done; [by intros []|]. intros _ _. by apply synced_chained.
  - destruct (stuck_dec d) as [Hst|Hst]; [by rewrite acknowledge_stuck|].
    destruct (acknowledge_cases (E:=void) d) as (d' & irq & -> & ? & ? & _); [auto..|].
    cbn. split_and!; try done; [by intros []|]. intros _ _. by apply synced_chained.
  - destruct (io_read_wf port len d Hwf) as (d' & -> & ? & Hsame & Hch). split_and!; try done; [by intros []|].
    intros H0 H1 _. by apply Hsame.
  - destruct (io_write_good port data d Hwf Hv) as [[e ->]|(d' & -> & ? & ?)]; split_and!; try done;
      try (by intros []). intros _ _. by apply synced_chained.
  - destruct (reset_good (E:=void) d) as (d' & -> & ? & ?); [done|].
    split_and!; try done; [by intros []|]. intros _ _. by apply synced_chained.
  - destruct (restore_good (E:=void) s d) as (d' & -> & ? & ?); [done..|].
    cbn. split_and!; try done; [by intros []|]. intros _ _. by apply synced_chained.
Qed.

Lemma dual_new_inv : dual_wf dual_new /\ synced dual_new.
Proof. split; split; try done; apply pic_new_wf. Qed.

Lemma reachable_wf polled0 polled1 d :
  reachable polled0 polled1 d ->
  dual_wf d /\ (polled1 = false -> chained d) /\ (polled0 = false -> polled1 = false -> synced d).
Proof.
  induction 1 as [|a b d op d' _ (Hwf & Hc & Hs) Hv Hstep].
  { destruct dual_new_inv as [? ?]. split_and!; auto using synced_chained. }
  pose proof (dual_step_ok op d Hwf Hv) as HO. rewrite Hstep in HO. destruct HO as (_ & Hwf' & Hset & Hsame & Hch).
  split; [done|]. rewrite !orb_false_iff, !andb_false_iff, !negb_false_iff. split.
  - intros [Hp [Hb|Hst]]; [by apply Hch, Hc|by apply synced_chained, Hset].
  - intros [Hp0 H0] [Hp1 H1]. destruct (settles op d) eqn:Hst; [by apply Hset|].
    destruct H0 as [H0|]; [|done]. destruct H1 as [H1|]; [|done]. rewrite Hsame by done. by apply Hs.
Qed.

Lemma reachable_inv d : reachable false false d -> dual_wf d /\ synced d.
Proof. intros (Hwf & _ & Hs)%reachable_wf. auto. Qed.

(** * Properties *)

(** C22: from power-on, any sequence of valid operations keeps the register
    invariant, and no operation panics but an acknowledge of a pair that is
    stuck: its primary would deliver an interrupt of the secondary, which has
    none. That takes a poll of the secondary, by a read of its command port in
    poll mode, and no propagation of the outputs since. Without a poll of the
    secondary since the outputs were propagated last, the cascade line is the
    secondary's output; without a poll of either one, the output to the CPU is
    propagated, too. Operations other than reads propagate the outputs, if they
    are not refused. *)
Theorem pic_reachable_safe polled0 polled1 d op :
  reachable polled0 polled1 d -> valid_op op ->
  dual_wf d /\ (polled1 = false -> chained d) /\ (polled0 = false -> polled1 = false -> synced d) /\
  match dual_step op d with
  | Ok d' => ~ (op = OpAcknowledge /\ stuck d) /\ dual_wf d' /\ (settles op d = true -> synced d')
  | Err _ => False
  | Panic => op = OpAcknowledge /\ stuck d /\ polled1 = true
  end.
Proof.
  intros (Hwf & Hc & Hs)%reachable_wf Hv. split_and!; [done..|].
  pose proof (dual_step_ok op d Hwf Hv) as HO. destruct (dual_step op d) as [d'| |]; [|done|].
  - by destruct HO as (? & ? & ? & _).
  - destruct HO as [-> Hst]. split_and!; [done|done|]. destruct polled1; [done|]. by destruct (chained_not_stuck d Hwf (Hc eq_refl)).
Qed.

Lemma chain_ready_iff d :
  dual_wf d -> synced d -> line_ready (pic0 d) PIC_CHAIN_COMMUNICATION_IRQ ->
  exists m, pending_line (pic1 d) = Some m.
Proof.
  intros Hwf Hs (_ & Hl & _). rewrite (synced_chain _ Hs) in Hl.
  destruct (pending_line (pic1 d)) as [m|] eqn:Hm; [by exists m|].
  apply pending_line_None in Hm; [congruence|apply Hwf].
Qed.

(** In a synced state the CPU line is high exactly when some interrupt of the
    pair is ready. *)
Lemma ready_iff d :
  dual_wf d -> synced d -> ready d = true <-> exists k, irq_ready d k.
Proof.
  intros Hwf Hs. rewrite (synced_ready _ Hs), interrupt_pending_spec by apply Hwf. split.
  - intros [i Hi]. destruct (decide (i = PIC_CHAIN_COMMUNICATION_IRQ)) as [->|Hne].
    + destruct (chain_ready_iff d Hwf Hs Hi) as [m Hm].
      apply pending_line_Some in Hm as [Hm _]; [|apply Hwf].
      exists (m + 8). unfold irq_ready. assert (0 <= m < 8) by apply Hm.
      destruct (Z.ltb_spec (m + 8) 8); [lia|]. by replace (m + 8 - 8) with m by lia.
    + exists i. unfold irq_ready. assert (0 <= i < 8) by apply Hi.
      by destruct (Z.ltb_spec i 8); [|lia].
  - intros [k Hk]. unfold irq_ready in Hk. destruct (k <? 8); destruct Hk; eauto.
Qed.

Lemma irq_ready_range d k : irq_ready d k -> 0 <= k < 16.
Proof.
  unfold irq_ready. destruct (Z.ltb_spec k 8).
  - intros [_ [? _]]. lia.
  - intros [[? _] _]. lia.
Qed.

Lemma isr_bit_set p n : 0 <= n -> Z.testbit (Z.lor (isr p) (2 ^ n)) n = true.
Proof. intros. autorewrite with bits. rewrite Z.eqb_refl. apply orb_true_r. Qed.

(** C37: on a device whose outputs are propagated, an acknowledge returns no
    vector exactly when the CPU line is low; otherwise it returns the vector of
    the ready interrupt of the highest priority (0, 1, 8 to 15, 3 to 7), and
    that interrupt is then in service. *)
Theorem acknowledge_highest_priority d :
  dual_wf d -> synced d ->
  exists d' irq, dual_acknowledge_interrupt d = Ok (E:=void) (d', irq) /\
    (ready d = false <-> irq = None) /\
    forall v, irq = Some v ->
      exists k, irq_ready d k /\ (forall j, irq_ready d j -> irq_rank k <= irq_rank j) /\
        v = irq_vector d k /\ irq_in_service d' k = true.
Proof.
  intros Hwf Hs. pose proof (ready_iff d Hwf Hs) as Hready.
  destruct (acknowledge_cases (E:=void) d Hwf (chained_not_stuck d Hwf (synced_chained d Hs)))
    as (d' & irq & Heq & _ & _ & Hc).
  exists d', irq. split; [done|]. rewrite (synced_ready _ Hs) in *.
  destruct (pending_line (pic0 d)) as [n|] eqn:Hn.
  2: { subst irq. apply pending_line_None in Hn; [by split|apply Hwf]. }
  apply pending_line_Some in Hn as [Hn Hmin]; [|apply Hwf].
  assert (0 <= n < 8) as Hnr by apply Hn. destruct Hc as [Hisr Hc].
  assert (interrupt_pending (pic0 d) = true) as Hp
    by (apply interrupt_pending_spec; [apply Hwf|eauto]).
  assert (forall j, irq_ready d j -> n <= j /\ (8 <= j -> n <= 2)) as Hleast.
  { unfold irq_ready. intros j. destruct (Z.ltb_spec j 8).
    - intros [_ Hj]. split; [by apply Hmin|lia].
    - intros [_ Hj]. split; [lia|]. intros _. by apply Hmin. }
  assert (forall j, irq_ready d j -> j < 8 -> j <> PIC_CHAIN_COMMUNICATION_IRQ) as Hnochain.
  { unfold irq_ready. intros j Hj Hlt. destruct (Z.ltb_spec j 8); [apply Hj|lia]. }
  destruct (Z.eqb_spec n PIC_CHAIN_COMMUNICATION_IRQ) as [->|Hne].
  - destruct Hc as (m & Hm & Hpic1 & ->). split; [by rewrite Hp|]. intros v [= <-].
    apply pending_line_Some in Hm as [Hm Hmmin]; [|apply Hwf].
    assert (0 <= m < 8) by apply Hm. exists (m + 8).
    unfold irq_ready at 1, irq_vector, irq_in_service, irq_rank at 1.
    destruct (Z.ltb_spec (m + 8) 8); [lia|]. replace (m + 8 - 8) with m by lia.
    split_and!; [done|done| |done|].
    + intros j Hj. pose proof (irq_ready_range _ _ Hj). pose proof (Hleast j Hj).
      pose proof (Hnochain j Hj). unfold irq_ready in Hj. unfold irq_rank, PIC_CHAIN_COMMUNICATION_IRQ in *.
      destruct (Z.ltb_spec j 8); [lia|]. destruct Hj as [Hj _]. apply Hmmin in Hj. lia.
    + rewrite Hpic1, Hisr. cbn [in_service]. apply andb_true_iff.
      split; apply isr_bit_set; unfold PIC_CHAIN_COMMUNICATION_IRQ; lia.
  - subst irq. split; [by rewrite Hp|]. intros v [= <-]. exists n.
    unfold irq_ready at 1, irq_vector, irq_in_service, irq_rank at 1.
    destruct (Z.ltb_spec n 8); [|lia]. split_and!; [done|done| |done|].
    + intros j Hj. pose proof (irq_ready_range _ _ Hj). pose proof (Hleast j Hj).
      unfold irq_rank, PIC_CHAIN_COMMUNICATION_IRQ in *. destruct (Z.ltb_spec j 8); lia.
    + rewrite Hisr. apply isr_bit_set. lia.
Qed.

(** After an acknowledge nothing of the controller is ready: the line now in
    service blocks the others. *)
Lemma in_service_blocks p n :
  pic_wf p -> pending_line p = Some n -> interrupt_pending (in_service n p) = false.
Proof.
  intros Hwf Hn. pose proof (pending_line_range _ _ Hwf Hn) as Hr.
  apply pending_line_Some in Hn as [Hn Hmin]; [|done].
  destruct (interrupt_pending (in_service n p)) eqn:Hp; [|done].
  apply interrupt_pending_spec in Hp as [i (Hi & Hl & Htrig & Hm & Hs)];
    [|by apply in_service_wf].
  simpl in *. destruct (Z.leb_spec n i).
  - specialize (Hs n). rewrite isr_bit_set in Hs by lia. naive_solver lia.
  - enough (n <= i) by lia. apply Hmin. split_and!; [lia|lia|done| |done|].
    + autorewrite with bits in Htrig. destruct Htrig as [?|Ht]; [by left|right].
      by apply andb_true_iff in Ht as [? _].
    + intros j Hj. specialize (Hs j Hj). autorewrite with bits in Hs.
      by apply orb_false_iff in Hs as [? _].
Qed.

Lemma poll_read_ok d m :
  dual_wf d -> ocw3_p (ocw3 (pic1 d)) = true -> pending_line (pic1 d) = Some m ->
  exists p st v,
    io_read SECONDARY_PIC_COMMAND_PORT 1 d = Ok (d <| pic1 := p |> <| stats := st |>, v) /\
    pic_wf p /\ interrupt_pending p = false /\ length (interrupts_per_irq st) = 16%nat.
Proof.
  intros Hwf Hp Hm. unfold io_read. cbn [Z.eqb negb]. simpl.
  unfold read_command. rewrite Hp. set (q := pic1 d <| ocw3 := _ |>).
  assert (pic_wf q) as Hq.
  { pose proof (wf_pic1 _ Hwf). split; simpl; unfold ocw3_clear_p; eauto with word. }
  destruct (pic_acknowledge_Some (E:=IoError) q (stats d) m) as (st & Hst & ->);
    [done|apply Hwf|done|].
  cbn [res_bind]. eexists _, _, _; split_and!; [reflexivity| | |done].
  - apply in_service_wf; [|done]. by apply pending_line_range in Hm; [|apply Hwf].
  - by apply in_service_blocks.
Qed.

(** C40: a poll of the secondary acknowledges its interrupt without lowering the
    cascade line, so the CPU's next acknowledge reaches the secondary with
    nothing to deliver and its assertion fails. In every synced state in which
    the secondary is in poll mode and the cascade is the highest priority
    request, a one-byte read of port 0xa0 followed by an acknowledge panics. *)
Theorem poll_then_acknowledge_panics d :
  dual_wf d -> synced d -> ocw3_p (ocw3 (pic1 d)) = true ->
  pending_line (pic0 d) = Some PIC_CHAIN_COMMUNICATION_IRQ ->
  exists d', dual_step (OpRead SECONDARY_PIC_COMMAND_PORT 1) d = Ok d' /\
    dual_step OpAcknowledge d' = Panic.
Proof.
  intros Hwf Hs Hp H0.
  destruct (chain_ready_iff d Hwf Hs) as [m Hm].
  { apply pending_line_Some in H0; [apply H0|apply Hwf]. }
  destruct (poll_read_ok d m Hwf Hp Hm) as (p & st & v & Hr & Hpw & Hpend & Hst).
  pose proof (dual_step_ok (OpRead SECONDARY_PIC_COMMAND_PORT 1) d Hwf I) as HO. cbn [dual_step] in *. rewrite Hr in *.
  cbn [on_io_error res_bind fst] in *. eexists; split; [reflexivity|].
  rewrite (acknowledge_stuck (E:=void)); [done|apply HO|by split].
Qed.

(** ** Edge-triggered requests *)

(** Line [i] is edge triggered and has not been low since its last
    acknowledge. *)
Definition awaits_low (p : Pic) (i : Z) : Prop :=
  Z.testbit (line_low_latch p) i = false /\ Z.testbit (elcr p) i = false.

Definition irq_awaits_low (d : DualPic) (k : Z) : Prop :=
  if k <? 8 then awaits_low (pic0 d) k else awaits_low (pic1 d) (k - 8).

(** The operations that do not lower line [k], reinitialize a controller or
    change a trigger mode. *)
Definition keeps_high (k : Z) (op : DualOp) : Prop :=
  match op with
  | OpSetIrq n high => n = k -> high = true
  | OpAcknowledge | OpRead _ _ => True
  | OpWrite port data =>
      port <> PRIMARY_PIC_ELCR_PORT /\ port <> SECONDARY_PIC_ELCR_PORT /\
      (port = PRIMARY_PIC_COMMAND_PORT \/ port = SECONDARY_PIC_COMMAND_PORT ->
       Forall (fun b => Z.testbit b 4 = false) data)
  | OpReset | OpRestore _ => False
  end.

Lemma awaits_low_not_ready p i : awaits_low p i -> ~ line_ready p i.
Proof. intros [? ?] (_ & _ & [?|?] & _); congruence. Qed.

Lemma set_irq_awaits_low {E} n high p p' i :
  0 <= n < 8 -> (n = i -> high = true) -> awaits_low p i ->
  pic_set_irq (E:=E) n high p = Ok p' -> awaits_low p' i.
Proof.
  intros Hn Hh [Hl He]. rewrite pic_set_irq_ok by done. intros [= <-].
  destruct high; split; simpl; try done. autorewrite with bits. rewrite Hl. simpl.
  apply Z.eqb_neq. naive_solver.
Qed.

Lemma acknowledge_awaits_low {E} p st p' st' r i :
  awaits_low p i -> pic_acknowledge_interrupt (E:=E) p st = Ok (p', st', r) -> awaits_low p' i.
Proof.
  intros [Hl He]. unfold pic_acknowledge_interrupt. destruct (pending_line p) as [n|]; cbn.
  - intros H. apply res_bind_Ok in H as ([[q ?] [? ?]] & Hq & H).
    apply res_bind_Ok in Hq as (bit & _ & Hq).
    apply res_bind_Ok in Hq as (c & _ & Hq). apply res_bind_Ok in Hq as (per & _ & [= <- _ _ _]).
    case_match; simplify_eq. split; simpl; [|done]. by rewrite Z.land_spec, Hl.
  - case_match; [|done]. by intros [= <- _ _].
Qed.

Lemma eoi_awaits_low {E} n p p' i :
  awaits_low p i -> pic_eoi (E:=E) n p = Ok p' -> awaits_low p' i.
Proof. intros Hp H. apply res_bind_Ok in H as (? & _ & [= <-]). apply Hp. Qed.

Lemma read_command_awaits_low {E} p st p' st' v i :
  awaits_low p i -> read_command (E:=E) p st = Ok (p', st', v) -> awaits_low p' i.
Proof.
  unfold read_command. intros Hp. repeat case_match; try (by intros [= <- _ _]).
  intros H'. apply res_bind_Ok in H' as ([[q ?] [? ?]] & Hq & [= <- _ _]).
  by eapply acknowledge_awaits_low in Hq.
Qed.

Lemma write_command_awaits_low {E} b p p' i :
  Z.testbit b 4 = false -> awaits_low p i -> write_command (E:=E) b p = Ok p' -> awaits_low p' i.
Proof.
  unfold write_command. intros Hb Hp.
  change 16 with (2 ^ 4). rewrite land_pow2_testbit, Hb by lia. simpl.
  repeat case_match; try (by intros [= <-]); by apply eoi_awaits_low.
Qed.

Lemma write_data_awaits_low b p i : awaits_low p i -> awaits_low (write_data b p) i.
Proof. unfold write_data. by destruct (init p). Qed.

Lemma sync_awaits_low {E} d d' k :
  k <> PIC_CHAIN_COMMUNICATION_IRQ -> irq_awaits_low d k ->
  sync_outputs (E:=E) d = Ok d' -> irq_awaits_low d' k.
Proof.
  intros Hk Hd H. apply res_bind_Ok in H as (p & Hp & [= <-]).
  unfold irq_awaits_low in *. destruct (k <? 8); [|done]. simpl.
  eapply set_irq_awaits_low in Hp; [done|unfold PIC_CHAIN_COMMUNICATION_IRQ; lia|naive_solver|done].
Qed.

Lemma irq_awaits_low_pic0 d p k :
  (awaits_low (pic0 d) k -> awaits_low p k) ->
  irq_awaits_low d k -> irq_awaits_low (d <| pic0 := p |>) k.
Proof. unfold irq_awaits_low. destruct (k <? 8); simpl; auto. Qed.

Lemma irq_awaits_low_pic1 d p k :
  (awaits_low (pic1 d) (k - 8) -> awaits_low p (k - 8)) ->
  irq_awaits_low d k -> irq_awaits_low (d <| pic1 := p |>) k.
Proof. unfold irq_awaits_low. destruct (k <? 8); simpl; auto. Qed.

Lemma irq_awaits_low_stats d st k : irq_awaits_low d k -> irq_awaits_low (d <| stats := st |>) k.
Proof. done. Qed.

Create HintDb awaits.
#[local] Hint Resolve irq_awaits_low_pic0 irq_awaits_low_pic1 irq_awaits_low_stats
  write_data_awaits_low write_command_awaits_low read_command_awaits_low
  acknowledge_awaits_low sync_awaits_low : awaits.

Lemma step_set_irq_awaits_low {E} k n high d d' :
  k <> PIC_CHAIN_COMMUNICATION_IRQ -> valid_line n = true -> (n = k -> high = true) ->
  irq_awaits_low d k -> target_set_irq (E:=E) n high d = Ok d' -> irq_awaits_low d' k.
Proof.
  intros Hk Hv Hh Hd. apply valid_line_cast in Hv as [Hc Hn].
  unfold target_set_irq, dual_set_irq. rewrite Hc. intros H.
  apply res_bind_Ok in H as (d1 & H1 & H). eapply sync_awaits_low; [done| |done].
  destruct (Z.leb_spec 8 n); apply res_bind_Ok in H1 as (p & Hp & [= <-]).
  - apply irq_awaits_low_pic1; [|done]. intros Ha.
    eapply set_irq_awaits_low; [| |done|done]; [lia|]. intros ?. apply Hh. lia.
  - apply irq_awaits_low_pic0; [|done]. intros Ha.
    eapply set_irq_awaits_low; [| |done|done]; [lia|done].
Qed.

Lemma step_ack_awaits_low {E} k d d' irq :
  k <> PIC_CHAIN_COMMUNICATION_IRQ -> irq_awaits_low d k ->
  dual_acknowledge_interrupt (E:=E) d = Ok (d', irq) -> irq_awaits_low d' k.
Proof.
  intros Hk Hd H. apply res_bind_Ok in H as ([[p st] [req n]] & Hp & H).
  apply res_bind_Ok in H as ([d1 irq'] & H1 & H). apply res_bind_Ok in H as (d2 & H2 & [= <- <-]).
  eapply sync_awaits_low; [done| |done].
  assert (irq_awaits_low (d <| pic0 := p |> <| stats := st |>) k) as Hd1
    by (apply irq_awaits_low_stats, irq_awaits_low_pic0; eauto with awaits).
  destruct req; [|by injection H1 as <- _].
  destruct (_ =? _); [|by injection H1 as <- _].
  apply res_bind_Ok in H1 as ([[p1 st1] [req1 m]] & Hp1 & H1).
  destruct req1; [|done]. injection H1 as <- _.
  apply irq_awaits_low_stats, irq_awaits_low_pic1; eauto with awaits.
Qed.

Lemma step_read_awaits_low k port len d d' v :
  irq_awaits_low d k -> io_read port len d = Ok (d', v) -> irq_awaits_low d' k.
Proof.
  unfold io_read. intros Hd. repeat case_match; try done; try (by intros [= <- _]);
    intros H'; apply res_bind_Ok in H' as ([[p st] w] & Hp & [= <- _]);
    apply irq_awaits_low_stats; eauto with awaits.
Qed.

Lemma step_write_awaits_low k port data d d' :
  k <> PIC_CHAIN_COMMUNICATION_IRQ -> keeps_high k (OpWrite port data) ->
  irq_awaits_low d k -> io_write port data d = Ok d' -> irq_awaits_low d' k.
Proof.
  intros Hk (He0 & He1 & Hcmd) Hd. unfold io_write.
  destruct data as [|a [|b [|]]]; try done.
  - intros H. apply res_bind_Ok in H as (d1 & H1 & H). eapply sync_awaits_low; [done| |done].
    unfold io_write1 in H1. repeat (case_match; simplify_eq/=);
      rewrite ?Z.eqb_eq in *; subst; try done; eauto with awaits;
      apply res_bind_Ok in H1 as (p & Hp & [= <-]);
      (assert (Z.testbit a 4 = false) by (apply (Forall_inv (Hcmd ltac:(auto)))));
      eauto with awaits.
  - destruct ((port =? _) || _) eqn:Hport; [|done].
    assert (Forall (fun b => Z.testbit b 4 = false) [a; b]) as Hf.
    { apply Hcmd. apply orb_true_iff in Hport as [?|?]; [left|right]; by apply Z.eqb_eq. }
    inversion Hf as [|?? Ha Hf']; inversion Hf' as [|?? Hb _]; subst.
    set (ab := if port =? SECONDARY_PIC_COMMAND_PORT then (b, a) else (a, b)).
    assert (Z.testbit ab.1 4 = false /\ Z.testbit ab.2 4 = false) as [? ?]
      by (subst ab; by case_match).
    destruct ab as [x y]. intros Hw. apply res_bind_Ok in Hw as (p0 & Hp0 & Hw).
    apply res_bind_Ok in Hw as (p1 & Hp1 & Hw). eapply sync_awaits_low; [done| |done].
    eauto with awaits.
Qed.

Lemma step_awaits_low k op d d' :
  k <> PIC_CHAIN_COMMUNICATION_IRQ -> valid_op op -> keeps_high k op ->
  irq_awaits_low d k -> dual_step op d = Ok d' -> irq_awaits_low d' k.
Proof.
  intros Hk Hv Hkeep Hd. destruct op as [n high| |port len|port data| |s]; cbn [dual_step].
  - by apply step_set_irq_awaits_low.
  - intros H. apply res_bind_Ok in H as ([d1 irq] & H1 & [= <-]).
    by eapply step_ack_awaits_low.
  - destruct (io_read port len d) as [[d1 v]|e|] eqn:Hr; simpl; [|by intros [= <-]|done].
    intros [= <-]. by eapply step_read_awaits_low.
  - destruct (io_write port data d) as [d1|e|] eqn:Hw; simpl; [|by intros [= <-]|done].
    intros [= <-]. by eapply step_write_awaits_low.
  - done.
  - done.
Qed.

Fixpoint dual_run (ops : list DualOp) (d : DualPic) : res void DualPic :=
  match ops with
  | [] => Ok d
  | op :: ops => let! d := dual_step op d in dual_run ops d
  end.

Lemma run_awaits_low k ops d d' :
  k <> PIC_CHAIN_COMMUNICATION_IRQ -> Forall valid_op ops -> Forall (keeps_high k) ops ->
  irq_awaits_low d k -> dual_run ops d = Ok d' -> irq_awaits_low d' k.
Proof.
  intros Hk Hv. revert d. induction Hv as [|op ops Hop _ IH]; simpl; intros d Hkeep Hd Hrun.
  - by simplify_eq.
  - inversion Hkeep; subst. apply res_bind_Ok in Hrun as (d1 & Hstep & Hrun).
    eapply IH; [done|by eapply step_awaits_low|done].
Qed.

(** An edge-triggered request is delivered once. After the acknowledge that
    delivers line [n] of the primary, whatever the guest and the devices do
    short of lowering that line, reinitializing a controller or changing a
    trigger mode, interrupt [n] is not ready again. *)
Theorem edge_delivered_once d d' d'' n v ops :
  dual_wf d -> synced d -> pending_line (pic0 d) = Some n ->
  n <> PIC_CHAIN_COMMUNICATION_IRQ -> Z.testbit (elcr (pic0 d)) n = false ->
  dual_acknowledge_interrupt (E:=void) d = Ok (d', v) ->
  Forall valid_op ops -> Forall (keeps_high n) ops -> dual_run ops d' = Ok d'' ->
  ~ irq_ready d'' n.
Proof.
  intros Hwf Hs Hn Hne Helcr Hack Hv Hkeep Hrun.
  pose proof (pending_line_range _ _ (wf_pic0 _ Hwf) Hn) as Hr.
  assert (irq_awaits_low d' n) as Hd'.
  { unfold dual_acknowledge_interrupt in Hack.
    destruct (pic_acknowledge_Some (E:=void) (pic0 d) (stats d) n) as (st & _ & Ha);
      [apply Hwf|apply Hwf|done|]. rewrite Ha in Hack. cbn [res_bind] in Hack.
    rewrite vector_irq in Hack by (apply Hwf || done).
    rewrite (proj2 (Z.eqb_neq n _)) in Hack by done. cbn [res_bind] in Hack.
    apply res_bind_Ok in Hack as (d1 & H1 & [= <- _]).
    eapply sync_awaits_low; [done| |done]. unfold irq_awaits_low.
    rewrite (proj2 (Z.ltb_lt n 8)) by lia. split; simpl; [|done].
    autorewrite with bits. rewrite Z.eqb_refl. simpl. rewrite !andb_false_r. done. }
  eapply run_awaits_low in Hrun; [|done..].
  unfold irq_awaits_low, irq_ready in *. rewrite (proj2 (Z.ltb_lt n 8)) in * by lia.
  intros [_ Hrdy]. by eapply awaits_low_not_ready.
Qed.

(** ** Save and restore *)

Lemma saved_pic_roundtrip p q :
  pic_wf p -> primary q = primary p ->
  saved_pic_restore (saved_pic_save p) q = (p <| lines := lines q |>, None).
Proof.
  intros Hwf Hp. unfold saved_pic_restore, saved_pic_save. cbn [saved_icw2].
  rewrite (wf_base _ Hwf). destruct p as [[] ? ? ? ? ? ? ? ?], q; simpl in *; by subst.
Qed.

Lemma sync_pic0_id {E} d p :
  synced d ->
  (forall i, i <> PIC_CHAIN_COMMUNICATION_IRQ -> Z.testbit (lines p) i = Z.testbit (lines (pic0 d)) i) ->
  is_u 8 (lines (pic0 d)) ->
  pic_set_irq PIC_CHAIN_COMMUNICATION_IRQ (interrupt_pending (pic1 d))
    (pic0 d <| lines := lines p |>) = Ok (E:=E) (pic0 d).
Proof.
  intros [Hc _ Hl] Hi Hu. unfold PIC_CHAIN_COMMUNICATION_IRQ in *.
  rewrite pic_set_irq_ok by lia. rewrite <-Hc. f_equal.
  destruct (Z.testbit (lines (pic0 d)) 2) eqn:Hb; destruct (pic0 d) as [? ? ? ? ? ? ? ls la];
    unfold set_field; simpl in *; f_equal; bitwise i Hi'; destruct (Z.eqb_spec 2 i) as [<-|].
  - by rewrite orb_true_r.
  - rewrite orb_false_r. auto.
  - by rewrite !andb_false_r.
  - rewrite Hi, !andb_true_r by done. destruct (Z.leb_spec 0 i); [|lia].
    destruct (Z.ltb_spec i 8); [apply andb_true_r|]. by rewrite (is_u_testbit_high 8).
  - by rewrite orb_true_r, Hl.
  - by rewrite orb_false_r.
Qed.

(** Restoring a saved device into a fresh one whose interrupt lines carry
    the levels of the original reproduces both controllers and the output to
    the CPU (the cascade line is recomputed, not saved). *)
Theorem save_restore_roundtrip d d0 :
  dual_wf d -> synced d -> dual_wf d0 ->
  lines (pic1 d0) = lines (pic1 d) ->
  (forall i, i <> PIC_CHAIN_COMMUNICATION_IRQ ->
     Z.testbit (lines (pic0 d0)) i = Z.testbit (lines (pic0 d)) i) ->
  exists d', dual_restore (dual_save d) d0 = Ok (E:=void) (d', None) /\
    pic0 d' = pic0 d /\ pic1 d' = pic1 d /\ ready d' = ready d.
Proof.
  intros Hwf Hs Hwf0 Hl1 Hl0. unfold dual_restore, dual_save. cbn [saved_primary saved_secondary].
  rewrite !saved_pic_roundtrip by
    (apply Hwf || (rewrite (wf_primary0 _ Hwf), (wf_primary0 _ Hwf0); done) ||
     (simpl; rewrite (wf_primary1 _ Hwf), (wf_primary1 _ Hwf0); done)).
  assert (pic1 d <| lines := lines (pic1 d0) |> = pic1 d) as Hp1
    by (rewrite Hl1; by destruct (pic1 d)).
  unfold sync_outputs. cbn -[pic_set_irq]. rewrite Hp1.
  rewrite (sync_pic0_id d (pic0 d0)) by (done || apply Hwf). cbn -[interrupt_pending].
  eexists; split_and!; [reflexivity|done|done|]. symmetry. apply Hs.
Qed.

(** ** Witnesses *)

(** The initialization sequence of a Linux guest, then IRQ 8 raised. *)
Definition boot_ops : list DualOp :=
  [OpWrite 0x20 [0x11]; OpWrite 0x21 [0x30]; OpWrite 0x21 [0x04]; OpWrite 0x21 [0x01];
   OpWrite 0xa0 [0x11]; OpWrite 0xa1 [0x38]; OpWrite 0xa1 [0x02]; OpWrite 0xa1 [0x01];
   OpSetIrq 8 true].

Definition run_or_new (ops : list DualOp) : DualPic :=
  match dual_run ops dual_new with Ok d => d | _ => dual_new end.

Definition pic_irq8 : DualPic := Eval vm_compute in run_or_new boot_ops.

Definition pic_irq0 : DualPic := Eval vm_compute in run_or_new (boot_ops ++ [OpSetIrq 0 true]).

Definition pic_irq8_poll : DualPic :=
  Eval vm_compute in run_or_new (boot_ops ++ [OpWrite 0xa0 [0x0c]]).

(** After the poll. *)
Definition pic_irq8_polled : DualPic :=
  Eval vm_compute in run_or_new (boot_ops ++ [OpWrite 0xa0 [0x0c]; OpRead 0xa0 1]).

Definition not_read (op : DualOp) : Prop :=
  match op with OpRead _ _ => False | _ => True end.

Lemma run_reachable ops d d' :
  reachable false false d -> Forall valid_op ops -> Forall not_read ops -> dual_run ops d = Ok d' ->
  reachable false false d'.
Proof.
  intros Hr Hv. revert d Hr. induction Hv as [|op ops Hop _ IH]; simpl; intros d Hr Hn Hrun.
  - by simplify_eq.
  - inversion Hn; subst. apply res_bind_Ok in Hrun as (d1 & Hstep & Hrun).
    eapply IH; [|done|done]. pose proof (reachable_step _ _ d op d1 Hr Hop Hstep) as H. by destruct op.
Qed.

Lemma boot_ops_valid : Forall valid_op boot_ops /\ Forall not_read boot_ops.
Proof. split; repeat constructor; vm_compute; congruence. Qed.

Lemma boot_reachable ops d :
  dual_run (boot_ops ++ ops) dual_new = Ok d -> Forall valid_op ops -> Forall not_read ops ->
  reachable false false d.
Proof.
  intros Hrun Hv Hn. destruct boot_ops_valid as [? ?].
  apply (run_reachable (boot_ops ++ ops) dual_new d); [apply reachable_new| | |exact Hrun];
    apply Forall_app; split; assumption.
Qed.

Lemma pic_irq8_reachable : reachable false false pic_irq8.
Proof. apply (boot_reachable []); [vm_compute; reflexivity|constructor..]. Qed.

Lemma pic_irq0_reachable : reachable false false pic_irq0.
Proof. apply (boot_reachable [OpSetIrq 0 true]); [vm_compute; reflexivity|repeat constructor..]. Qed.

Lemma pic_irq8_poll_reachable : reachable false false pic_irq8_poll.
Proof.
  apply (boot_reachable [OpWrite 0xa0 [0x0c]]); [vm_compute; reflexivity| |repeat constructor].
  repeat constructor; vm_compute; congruence.
Qed.

(** With an interrupt of the secondary pending, an acknowledge delivers it; after
    a poll of the secondary it panics. *)
Lemma pic_reachable_safe_witness :
  (exists d', dual_step OpAcknowledge pic_irq8 = Ok d' /\ synced d') /\
  (exists d, reachable false true d /\ stuck d /\ dual_step OpAcknowledge d = Panic).
Proof.
  split.
  - destruct (pic_reachable_safe _ _ pic_irq8 OpAcknowledge pic_irq8_reachable I) as (_ & _ & _ & H).
    destruct (dual_step OpAcknowledge pic_irq8) as [d'| |] eqn:E; [|done|by vm_compute in E].
    exists d'. split; [done|]. by apply H.
  - pose proof (reachable_step _ _ pic_irq8_poll (OpRead 0xa0 1) pic_irq8_polled pic_irq8_poll_reachable I ltac:(by vm_compute)) as Hr.
    exists pic_irq8_polled. destruct (pic_reachable_safe _ _ _ OpAcknowledge Hr I) as (_ & _ & _ & H).
    destruct (dual_step OpAcknowledge pic_irq8_polled) as [d'| |] eqn:E; [by vm_compute in E|done|].
    destruct H as (_ & Hst & _). by split.
Defined.

Lemma acknowledge_highest_priority_witness :
  exists d' irq, dual_acknowledge_interrupt pic_irq8 = Ok (E:=void) (d', irq) /\ irq = Some 0x38.
Proof.
  destruct (acknowledge_highest_priority pic_irq8) as (d' & irq & Hack & _);
    [apply reachable_inv, pic_irq8_reachable..|].
  exists d', irq. split; [done|]. vm_compute in Hack. congruence.
Defined.

Lemma poll_then_acknowledge_panics_witness :
  exists d', dual_step (OpRead SECONDARY_PIC_COMMAND_PORT 1) pic_irq8_poll = Ok d' /\
    dual_step OpAcknowledge d' = Panic.
Proof.
  apply (poll_then_acknowledge_panics pic_irq8_poll);
    [apply reachable_inv, pic_irq8_poll_reachable..|reflexivity|reflexivity].
Defined.

(** IRQ 0 acknowledged, then its line driven high again and a non-specific EOI. *)
Definition eoi_ops : list DualOp := [OpSetIrq 0 true; OpWrite 0x20 [0x20]].

Definition pic_irq0_acked : DualPic :=
  Eval vm_compute in run_or_new (boot_ops ++ [OpSetIrq 0 true; OpAcknowledge]).

Definition pic_irq0_done : DualPic :=
  Eval vm_compute in run_or_new (boot_ops ++ [OpSetIrq 0 true; OpAcknowledge] ++ eoi_ops).

Lemma edge_delivered_once_witness :
  dual_run eoi_ops pic_irq0_acked = Ok pic_irq0_done /\ ~ irq_ready pic_irq0_done 0.
Proof.
  split; [vm_compute; reflexivity|].
  apply (edge_delivered_once pic_irq0 pic_irq0_acked pic_irq0_done 0 (Some 0x30) eoi_ops).
  - apply reachable_inv, pic_irq0_reachable.
  - apply reachable_inv, pic_irq0_reachable.
  - vm_compute; reflexivity.
  - discriminate.
  - vm_compute; reflexivity.
  - vm_compute; reflexivity.
  - repeat constructor; vm_compute; congruence.
  - repeat constructor; vm_compute; congruence.
  - vm_compute; reflexivity.
Defined.

Lemma save_restore_roundtrip_witness :
  exists d', dual_restore (dual_save pic_irq0) (pic_irq0 <| ready := false |>) = Ok (E:=void) (d', None) /\
    pic0 d' = pic0 pic_irq0 /\ pic1 d' = pic1 pic_irq0 /\ ready d' = true.
Proof.
  apply (save_restore_roundtrip pic_irq0 (pic_irq0 <| ready := false |>));
    [apply reachable_inv, pic_irq0_reachable..| |done|done].
  destruct (reachable_inv _ pic_irq0_reachable) as [[] _]. by split.
Defined.
