(* ===== verification/IoApic.v ===== *)
(** The I/O APIC ([vm/devices/chipset/src/ioapic/mod.rs], the message formats of
    [vm/x86/x86defs/src/msi.rs]).

    The hypervisor side of the device, [IoApicRouting], is the log of the calls
    made to it, oldest first; tracing has no model. *)

From S2P Require Import Prelude ChipsetDevice.

(** * Registers and layouts *)

Definition IOAPIC_DEVICE_MMIO_REGION_BASE_ADDRESS : Z := 0xfec00000.
Definition IOAPIC_DEVICE_MMIO_REGION_SIZE : Z := 0x20.
Definition IOAPIC_DEVICE_MMIO_REGION_MASK : Z := IOAPIC_DEVICE_MMIO_REGION_SIZE - 1.
Definition IO_APIC_VERSION : Z := 0x11.

Definition REGISTER_INDEX : Z := 0.
Definition REGISTER_DATA : Z := 0x10.

Definition INDEX_ID : Z := 0.
Definition INDEX_VERSION : Z := 1.
Definition INDEX_ARBITRATION_ID : Z := 2.
Definition REDIRECTION_TABLE_START : Z := 0x10.

Definition DELIVERY_FIXED : Z := 0.
Definition DELIVERY_LOWEST_PRIORITY : Z := 1.

(** A redirection entry is its 64-bit value. *)
Definition vector (e : Z) : Z := Z.land e 0xff.
Definition delivery_mode (e : Z) : Z := Z.land (Z.shiftr e 8) 7.
Definition destination_mode_logical (e : Z) : bool := Z.testbit e 11.
Definition remote_irr (e : Z) : bool := Z.testbit e 14.
Definition trigger_mode_level (e : Z) : bool := Z.testbit e 15.
Definition masked (e : Z) : bool := Z.testbit e 16.
Definition extended_destination (e : Z) : Z := Z.land (Z.shiftr e 48) 0xff.
Definition destination (e : Z) : Z := Z.land (Z.shiftr e 56) 0xff.

Definition set_remote_irr (b : bool) (e : Z) : Z :=
  if b then Z.lor e (2 ^ 14) else Z.ldiff e (2 ^ 14).

(** Vector, delivery mode, bits 11, 13, 15 and 16, and both destinations. *)
Definition REDIRECTION_WRITE_MASK : Z :=
  Z.lor (Z.lor (Z.lor 0xff (Z.shiftl 7 8)) (Z.lor (2 ^ 11) (2 ^ 13)))
    (Z.lor (Z.lor (2 ^ 15) (2 ^ 16)) (Z.lor (Z.shiftl 0xff 56) (Z.shiftl 0xff 48))).

(** [RedirectionEntry::init]. *)
Definition redirection_init : Z := Z.lor (2 ^ 11) (2 ^ 16).

(** [MsiAddress] and [MsiData]. *)
Definition MSI_ADDRESS : Z := 0xfee.

Definition msi_address (destination extended : Z) (logical hint : bool) : Z :=
  Z.lor (Z.lor (Z.shiftl MSI_ADDRESS 20) (Z.shiftl destination 12))
    (Z.lor (Z.shiftl extended 4) (Z.lor (Z.shiftl (b2z hint) 3) (Z.shiftl (b2z logical) 2))).

Definition msi_data (vector mode : Z) (logical assert level : bool) : Z :=
  Z.lor (Z.lor vector (Z.shiftl mode 8))
    (Z.lor (Z.shiftl (b2z logical) 11) (Z.lor (Z.shiftl (b2z assert) 14) (Z.shiftl (b2z level) 15))).

(** [RedirectionEntry::as_msi]. *)
Definition as_msi (e : Z) : option (Z * Z) :=
  if masked e then None
  else
    Some (msi_address (destination e) (extended_destination e) (destination_mode_logical e)
            (delivery_mode e =? DELIVERY_LOWEST_PRIORITY),
          msi_data (vector e) (delivery_mode e) (destination_mode_logical e) true
            (trigger_mode_level e)).

(** * Entries *)

Record IrqEntry : Type := mkEntry {
  redirection : Z;
  line_level : bool;
  registered_request : option (Z * Z);
}.

#[global] Instance IrqEntry_settable : Settable IrqEntry := fun e =>
  mkEntry (redirection e) (line_level e) (registered_request e).

(** The calls to [IoApicRouting]. *)
Inductive RoutingCall : Type :=
| Assert (irq : Z)
| SetRoute (irq : Z) (request : option (Z * Z)).

Record IoApicStats : Type := mkStats {
  interrupts_per_irq : list Z;
  interrupts : Z;
}.

(** What an entry's methods receive besides the entry: [routing] and [stats]. *)
Record Glue : Type := mkGlue {
  routing : list RoutingCall;
  stats : IoApicStats;
}.

Definition call (c : RoutingCall) (g : Glue) : Glue := mkGlue (routing g ++ [c]) (stats g).

Definition is_level (e : Z) : bool :=
  trigger_mode_level e &&
  ((delivery_mode e =? DELIVERY_FIXED) || (delivery_mode e =? DELIVERY_LOWEST_PRIORITY)).

Definition evaluate {E} (n : Z) (edge : bool) (e : IrqEntry) (g : Glue) : res E (IrqEntry * Glue) :=
  let level := is_level (redirection e) in
  if masked (redirection e)
     || (level && (negb (line_level e) || remote_irr (redirection e)))
     || (negb level && negb edge)
  then Ok (e, g)
  else
    let e := e <| redirection := set_remote_irr level (redirection e) |> in
    let! c := vec_get (interrupts_per_irq (stats g)) n in
    let! per := vec_set (interrupts_per_irq (stats g)) n (counter_increment c) in
    let g := mkGlue (routing g) (mkStats per (counter_increment (interrupts (stats g)))) in
    Ok (e, call (Assert n) g).

Definition entry_assert {E} (n : Z) (e : IrqEntry) (g : Glue) : res E (IrqEntry * Glue) :=
  let old_level := line_level e in
  evaluate n (negb old_level) (e <| line_level := true |>) g.

Definition entry_deassert (e : IrqEntry) : IrqEntry := e <| line_level := false |>.

Definition entry_eoi {E} (vec n : Z) (e : IrqEntry) (g : Glue) : res E (IrqEntry * Glue) :=
  if vector (redirection e) =? vec
  then evaluate n false (e <| redirection := set_remote_irr false (redirection e) |>) g
  else Ok (e, g).

(** * The device *)

Record IoApicDevice : Type := mkIoApic {
  last_line : Z;
  glue : Glue;
  irqs : list IrqEntry;
  id : Z;
  index : Z;
}.

#[global] Instance IoApicDevice_settable : Settable IoApicDevice := fun d =>
  mkIoApic (last_line d) (glue d) (irqs d) (id d) (index d).

Definition ioapic_new {E} (num_entries : Z) : res E IoApicDevice :=
  let! last := usub num_entries 1 in
  let n := Z.to_nat num_entries in
  Ok (mkIoApic last (mkGlue [] (mkStats (replicate n 0) 0))
        (replicate n (mkEntry redirection_init false None)) 0 INDEX_ID).

Definition read_redirection_register (idx : Z) (d : IoApicDevice) : Z :=
  let value := match irqs d !! Z.to_nat (idx / 2) with
               | Some irq => redirection irq
               | None => 0
               end in
  ucast 32 (if Z.land idx 1 =? 1 then Z.shiftr value 32 else value).

(** The entry after a write of one half of it, before it is evaluated. *)
Definition write_half (idx val : Z) (e : Z) : Z :=
  if Z.land idx 1 =? 1
  then Z.lor (Z.land e 0xffffffff) (Z.land (ucast 64 (Z.shiftl val 32)) REDIRECTION_WRITE_MASK)
  else Z.lor (Z.land e (unot 64 0xffffffff)) (Z.land val REDIRECTION_WRITE_MASK).

Definition request_eqb (a b : option (Z * Z)) : bool := bool_decide (a = b).

Definition update_route (n : Z) (e : IrqEntry) (g : Glue) : IrqEntry * Glue :=
  let request := as_msi (redirection e) in
  if request_eqb request (registered_request e) then (e, g)
  else (e <| registered_request := request |>, call (SetRoute n request) g).

Definition write_redirection_register {E} (idx val : Z) (d : IoApicDevice) : res E IoApicDevice :=
  let n := Z.to_nat (idx / 2) in
  match irqs d !! n with
  | None => Ok d
  | Some irq =>
      let irq := irq <| redirection := write_half idx val (redirection irq) |> in
      let '(irq, g) := update_route (ucast 8 (Z.of_nat n)) irq (glue d) in
      let! eg := evaluate (ucast 8 (Z.of_nat n)) false irq g in
      Ok (d <| irqs := <[n := eg.1]> (irqs d) |> <| glue := eg.2 |>)
  end.

Definition read_register {E} (idx : Z) (d : IoApicDevice) : res E Z :=
  if idx =? INDEX_ID then Ok (Z.shiftl (Z.land (id d) 0xf) 24)
  else if idx =? INDEX_VERSION then
    let! m := usub (Z.of_nat (length (irqs d))) 1 in
    Ok (Z.lor IO_APIC_VERSION (Z.shiftl (ucast 8 m) 16))
  else if idx =? INDEX_ARBITRATION_ID then Ok 0
  else if REDIRECTION_TABLE_START <=? index d then
    let! i := usub idx REDIRECTION_TABLE_START in
    Ok (read_redirection_register i d)
  else Ok (unot 32 0).

Definition write_register {E} (idx val : Z) (d : IoApicDevice) : res E IoApicDevice :=
  if idx =? INDEX_ID then Ok (d <| id := Z.land (Z.shiftr val 24) 0xf |>)
  else if (idx =? INDEX_VERSION) || (idx =? INDEX_ARBITRATION_ID) then Ok d
  else if REDIRECTION_TABLE_START <=? index d then
    let! i := usub idx REDIRECTION_TABLE_START in
    write_redirection_register i val d
  else Ok d.

(** [LineInterruptTarget::set_irq]. *)
Definition set_irq {E} (n : Z) (high : bool) (d : IoApicDevice) : res E IoApicDevice :=
  match irqs d !! Z.to_nat n with
  | None => Ok d
  | Some irq =>
      if high then
        let! eg := entry_assert (ucast 8 n) irq (glue d) in
        Ok (d <| irqs := <[Z.to_nat n := eg.1]> (irqs d) |> <| glue := eg.2 |>)
      else Ok (d <| irqs := <[Z.to_nat n := entry_deassert irq]> (irqs d) |>)
  end.

Fixpoint eoi_loop {E} (vec n : Z) (l : list IrqEntry) (g : Glue) : res E (list IrqEntry * Glue) :=
  match l with
  | [] => Ok ([], g)
  | e :: l =>
      let! eg := entry_eoi vec (ucast 8 n) e g in
      let! lg := eoi_loop vec (n + 1) l eg.2 in
      Ok (eg.1 :: lg.1, lg.2)
  end.

Definition handle_eoi {E} (irq_to_end : Z) (d : IoApicDevice) : res E IoApicDevice :=
  let! lg := eoi_loop irq_to_end 0 (irqs d) (glue d) in
  Ok (d <| irqs := lg.1 |> <| glue := lg.2 |>).

Fixpoint reset_loop (n : Z) (l : list IrqEntry) (g : Glue) : list IrqEntry * Glue :=
  match l with
  | [] => ([], g)
  | e :: l =>
      let e := e <| redirection := redirection_init |> <| registered_request := None |> in
      let '(l, g) := reset_loop (n + 1) l (call (SetRoute (ucast 8 n) None) g) in
      (e :: l, g)
  end.

Definition reset (d : IoApicDevice) : IoApicDevice :=
  let '(l, g) := reset_loop 0 (irqs d) (glue d) in
  d <| id := 0 |> <| index := INDEX_ID |> <| irqs := l |> <| glue := g |>.

(** * Memory-mapped access *)

Definition region_base (address : Z) : Z :=
  Z.land address (unot 64 IOAPIC_DEVICE_MMIO_REGION_MASK).

(** [MmioIntercept::mmio_read] of [len] bytes; it does not change the device. *)
Definition mmio_read (address len : Z) (d : IoApicDevice) : res IoError (list Z) :=
  assert! region_base address =? IOAPIC_DEVICE_MMIO_REGION_BASE_ADDRESS in
  let reg := Z.land address IOAPIC_DEVICE_MMIO_REGION_MASK in
  let! v := if reg =? REGISTER_INDEX then Ok (index d)
            else if reg =? REGISTER_DATA then read_register (index d) d
            else Err InvalidRegister in
  let n := Z.min len 4 in
  assert! len =? n in
  Ok (take (Z.to_nat n) (le_bytes 4 v)).

Definition mmio_write (address : Z) (data : list Z) (d : IoApicDevice) : res IoError IoApicDevice :=
  assert! region_base address =? IOAPIC_DEVICE_MMIO_REGION_BASE_ADDRESS in
  let reg := Z.land address IOAPIC_DEVICE_MMIO_REGION_MASK in
  if reg =? REGISTER_INDEX then
    let! b := vec_get data 0 in
    Ok (d <| index := b |>)
  else if reg =? REGISTER_DATA then
    if Z.of_nat (length data) =? 4 then write_register (index d) (le_value data) d
    else Err InvalidAccessSize
  else Err InvalidRegister.

(** * Save and restore *)

Record SavedState : Type := mkSaved {
  saved_id : Z;
  saved_index : Z;
  redirection_entries : list Z;
  line_levels : list bool;
}.

Inductive IoApicRestoreError : Type :=
| WrongNumberOfRedirectionEntries.

Definition save (d : IoApicDevice) : SavedState :=
  mkSaved (id d) (index d) (map redirection (irqs d)) (map line_level (irqs d)).

Fixpoint restore_loop {E} (n : Z) (states : list (Z * bool)) (l : list IrqEntry) (g : Glue)
  : res E (list IrqEntry * Glue) :=
  match states, l with
  | (state, level) :: states, irq :: l =>
      let irq := irq <| redirection := state |> <| line_level := level |> in
      let request := as_msi state in
      let g := call (SetRoute (ucast 8 n) request) g in
      let irq := irq <| registered_request := request |> in
      let! eg := evaluate (ucast 8 n) false irq g in
      let! lg := restore_loop (n + 1) states l eg.2 in
      Ok (eg.1 :: lg.1, lg.2)
  | _, _ => Ok (l, g)
  end.

Definition restore (s : SavedState) (d : IoApicDevice) : res IoApicRestoreError IoApicDevice :=
  if negb (length (redirection_entries s) =? length (irqs d))%nat
  then Err WrongNumberOfRedirectionEntries
  else
    let! levels :=
      if (length (line_levels s) =? 0)%nat then Ok (replicate (length (irqs d)) false)
      else if (length (line_levels s) =? length (irqs d))%nat then Ok (line_levels s)
      else Err WrongNumberOfRedirectionEntries in
    let! lg := restore_loop 0 (zip (redirection_entries s) levels) (irqs d) (glue d) in
    Ok (d <| irqs := lg.1 |> <| glue := lg.2 |> <| id := saved_id s |> <| index := saved_index s |>).
