(* ===== verification/IoApicSpec.v ===== *)
(** Correctness of the I/O APIC (IoApic.v): its routes mirror its redirection
    table, a level-triggered line that is high awaits its end, and edge-triggered
    interrupts are delivered once. *)

From S2P Require Import Prelude ChipsetDevice IoApic.

#[local] Arguments set_remote_irr : simpl never.

(** * Bits of an entry *)

Lemma testbit_set_remote_irr b e i :
  0 <= i -> Z.testbit (set_remote_irr b e) i = if i =? 14 then b else Z.testbit e i.
Proof.
  intros Hi. unfold set_remote_irr. destruct b; autorewrite with bits; rewrite (Z.eqb_sym 14 i);
    destruct (i =? 14); by rewrite ?orb_true_r, ?orb_false_r, ?andb_false_r, ?andb_true_r.
Qed.

Lemma remote_irr_set b e : remote_irr (set_remote_irr b e) = b.
Proof. unfold remote_irr. by rewrite testbit_set_remote_irr. Qed.

Lemma masked_set b e : masked (set_remote_irr b e) = masked e.
Proof. unfold masked. by rewrite testbit_set_remote_irr. Qed.

Lemma is_u_set_remote_irr b e : is_u 64 e -> is_u 64 (set_remote_irr b e).
Proof. intros. unfold set_remote_irr. destruct b; auto with word. Qed.

(** A field of [n] bits at [s] away from bit 14. *)
Lemma field_set b e s n :
  0 <= s -> 0 <= n -> s + n <= 14 \/ 14 < s ->
  Z.land (Z.shiftr (set_remote_irr b e) s) (Z.ones n) = Z.land (Z.shiftr e s) (Z.ones n).
Proof.
  intros Hs Hn Hd. bitwise i Hi. rewrite testbit_set_remote_irr by lia.
  destruct (Z.eqb_spec (i + s) 14); [|done].
  destruct (Z.leb_spec 0 i), (Z.ltb_spec i n); simpl; rewrite ?andb_false_r; (done || lia).
Qed.

Lemma vector_set b e : vector (set_remote_irr b e) = vector e.
Proof. unfold vector. rewrite <-(Z.shiftr_0_r (set_remote_irr b e)), <-(Z.shiftr_0_r e) at 1. by apply (field_set b e 0 8); lia. Qed.

Lemma delivery_mode_set b e : delivery_mode (set_remote_irr b e) = delivery_mode e.
Proof. apply (field_set b e 8 3); lia. Qed.

Lemma is_level_set b e : is_level (set_remote_irr b e) = is_level e.
Proof. unfold is_level, trigger_mode_level. by rewrite delivery_mode_set, testbit_set_remote_irr. Qed.

Lemma destination_set b e : destination (set_remote_irr b e) = destination e.
Proof. apply (field_set b e 56 8); lia. Qed.

Lemma extended_destination_set b e : extended_destination (set_remote_irr b e) = extended_destination e.
Proof. apply (field_set b e 48 8); lia. Qed.

Lemma as_msi_set b e : as_msi (set_remote_irr b e) = as_msi e.
Proof.
  unfold as_msi. rewrite masked_set, vector_set, delivery_mode_set, destination_set, extended_destination_set.
  unfold destination_mode_logical, trigger_mode_level. by rewrite !testbit_set_remote_irr by lia.
Qed.

Lemma set_remote_irr_id b e : remote_irr e = b -> set_remote_irr b e = e.
Proof.
  intros <-. apply Z.bits_inj'. intros i Hi. rewrite testbit_set_remote_irr by done.
  by destruct (Z.eqb_spec i 14) as [->|].
Qed.

(** * Evaluation *)

(** Whether an evaluation delivers the interrupt. *)
Definition fires (edge : bool) (e : IrqEntry) : bool :=
  negb (masked (redirection e)) &&
  (if is_level (redirection e) then line_level e && negb (remote_irr (redirection e)) else edge).

Definition delivered (e : IrqEntry) : IrqEntry :=
  e <| redirection := set_remote_irr (is_level (redirection e)) (redirection e) |>.

Lemma evaluate_spec {E} n edge e g :
  0 <= n < Z.of_nat (length (interrupts_per_irq (stats g))) ->
  exists st, length (interrupts_per_irq st) = length (interrupts_per_irq (stats g)) /\
    evaluate n edge e g = Ok (E:=E)
      (if fires edge e then (delivered e, mkGlue (routing g ++ [Assert n]) st) else (e, g)).
Proof.
  intros Hn. unfold evaluate, fires, delivered.
  destruct (vec_get_ok (E:=E) (interrupts_per_irq (stats g)) n Hn) as (c & Hc & _).
  rewrite Hc. cbn [res_bind]. rewrite vec_set_ok by done. cbn [res_bind].
  exists (mkStats (<[Z.to_nat n := counter_increment c]> (interrupts_per_irq (stats g)))
           (counter_increment (interrupts (stats g)))).
  split; [cbn; by rewrite length_insert|].
  destruct (masked (redirection e)), (is_level (redirection e)), (line_level e), (remote_irr (redirection e)), edge;
    cbn; reflexivity.
Qed.

(** * The route table of the hypervisor *)

Definition route_step (n : Z) (acc : option (Z * Z)) (c : RoutingCall) : option (Z * Z) :=
  match c with
  | SetRoute m r => if m =? n then r else acc
  | Assert _ => acc
  end.

(** The route the calls have left for [n]. *)
Definition route_of (n : Z) (log : list RoutingCall) : option (Z * Z) := foldl (route_step n) None log.

Lemma route_of_snoc n log c : route_of n (log ++ [c]) = route_step n (route_of n log) c.
Proof. unfold route_of. by rewrite foldl_app. Qed.

(** Every interrupt was asserted on a route that was set. *)
Inductive asserts_routed : list RoutingCall -> Prop :=
| routed_nil : asserts_routed []
| routed_set log n r : asserts_routed log -> asserts_routed (log ++ [SetRoute n r])
| routed_assert log n :
    asserts_routed log -> is_Some (route_of n log) -> asserts_routed (log ++ [Assert n]).

(** * Invariants *)

(** An entry between operations. The last clause is that a level-triggered
    request that is not masked has been delivered. *)
Record entry_wf (e : IrqEntry) : Prop := {
  ew_u64 : is_u 64 (redirection e);
  ew_registered : registered_request e = as_msi (redirection e);
  ew_remote : remote_irr (redirection e) = true -> is_level (redirection e) = true;
  ew_level : is_level (redirection e) = true -> masked (redirection e) = false -> line_level e = true ->
    remote_irr (redirection e) = true;
}.

Record glue_wf (num : nat) (g : Glue) : Prop := {
  gw_stats : length (interrupts_per_irq (stats g)) = num;
  gw_routed : asserts_routed (routing g);
}.

Record ioapic_inv (d : IoApicDevice) : Prop := {
  iv_count : (0 < length (irqs d) < 256)%nat;
  iv_glue : glue_wf (length (irqs d)) (glue d);
  iv_entries : Forall entry_wf (irqs d);
  iv_routes : forall n e, irqs d !! n = Some e -> route_of (Z.of_nat n) (routing (glue d)) = registered_request e;
  iv_index : is_u 8 (index d);
}.

(** Before an evaluation the last clause may fail. *)
Record entry_pre (e : IrqEntry) : Prop := {
  ep_u64 : is_u 64 (redirection e);
  ep_registered : registered_request e = as_msi (redirection e);
  ep_remote : remote_irr (redirection e) = true -> is_level (redirection e) = true;
}.

Lemma entry_wf_pre e : entry_wf e -> entry_pre e.
Proof. by intros []. Qed.

Lemma is_Some_as_msi e : masked e = false -> is_Some (as_msi e).
Proof. intros Hm. unfold as_msi. rewrite Hm. eauto. Qed.

(** An evaluation of an entry whose route is set establishes the invariant. *)
Lemma evaluate_wf {E} num n edge e g :
  (n < num < 256)%nat -> entry_pre e -> glue_wf num g ->
  route_of (Z.of_nat n) (routing g) = registered_request e ->
  exists e' g', evaluate (Z.of_nat n) edge e g = Ok (E:=E) (e', g') /\ entry_wf e' /\ glue_wf num g' /\
    registered_request e' = registered_request e /\
    (forall m, route_of m (routing g') = route_of m (routing g)) /\
    e' = (if fires edge e then delivered e else e) /\
    routing g' = routing g ++ (if fires edge e then [Assert (Z.of_nat n)] else []).
Proof.
  intros Hn [Hu Hreg Hrem] [Hst Hrt] Hroute.
  destruct (evaluate_spec (E:=E) (Z.of_nat n) edge e g) as (st & Hlen & ->); [lia|].
  eexists _, _; split; [by rewrite <-surjective_pairing|].
  destruct (fires edge e) eqn:Hf; unfold fires in Hf; cbn [fst snd].
  - apply andb_prop in Hf as [Hm Hf]. apply negb_true_iff in Hm. split_and!.
    + constructor; cbn; rewrite ?masked_set, ?is_level_set, ?remote_irr_set, ?as_msi_set; auto using is_u_set_remote_irr.
    + split; [cbn; congruence|]. cbn. constructor; [done|]. rewrite Hroute, Hreg. by apply is_Some_as_msi.
    + done.
    + intros m. cbn [routing]. by rewrite route_of_snoc.
    + done.
    + done.
  - split_and!; [|done|done|done|done|by rewrite app_nil_r]. constructor; try done. intros Hl Hm Hline.
    rewrite Hm, Hl, Hline in Hf. cbn in Hf. by apply negb_false_iff in Hf.
Qed.

(** * One entry *)

Lemma ucast_small n : (n < 256)%nat -> ucast 8 (Z.of_nat n) = Z.of_nat n.
Proof. intros. unfold ucast. apply Z.mod_small. lia. Qed.

Lemma put_entry d n e e' g' :
  ioapic_inv d -> irqs d !! n = Some e -> entry_wf e' -> glue_wf (length (irqs d)) g' ->
  route_of (Z.of_nat n) (routing g') = registered_request e' ->
  (forall m, m <> Z.of_nat n -> route_of m (routing g') = route_of m (routing (glue d))) ->
  ioapic_inv (d <| irqs := <[n := e']> (irqs d) |> <| glue := g' |>).
Proof.
  intros [Hc Hg He Hr Hi] Hn He' Hg' Hroute Hother. constructor; cbn; try done.
  - by rewrite length_insert.
  - by rewrite length_insert.
  - by apply Forall_insert.
  - intros m x Hm. destruct (decide (m = n)) as [->|Hne].
    + rewrite list_lookup_insert_eq in Hm by (by eapply lookup_lt_Some). by injection Hm as <-.
    + rewrite list_lookup_insert_ne in Hm by done. rewrite Hother by lia. by apply Hr.
Qed.

Lemma entry_lookup d n e : ioapic_inv d -> irqs d !! n = Some e -> entry_wf e /\ (n < length (irqs d) < 256)%nat.
Proof.
  intros Hd Hn. split; [by eapply Forall_lookup_1; [apply Hd|]|].
  pose proof (lookup_lt_Some _ _ _ Hn). pose proof (iv_count _ Hd). lia.
Qed.

Lemma line_pre e b : entry_wf e -> entry_pre (e <| line_level := b |>).
Proof. by intros []. Qed.

Lemma set_irq_inv {E} n high d :
  ioapic_inv d -> 0 <= n -> exists d', set_irq n high d = Ok (E:=E) d' /\ ioapic_inv d'.
Proof.
  intros Hd Hn. unfold set_irq. destruct (irqs d !! Z.to_nat n) as [e|] eqn:He; [|eauto].
  destruct (entry_lookup d _ e Hd He) as [Hwf Hlen]. pose proof (iv_routes _ Hd _ _ He) as Hroute.
  destruct high.
  - unfold entry_assert.
    assert (ucast 8 n = Z.of_nat (Z.to_nat n)) as -> by (unfold ucast; rewrite Z.mod_small; lia).
    destruct (evaluate_wf (E:=E) (length (irqs d)) (Z.to_nat n) (negb (line_level e))
      (e <| line_level := true |>) (glue d)) as (e' & g' & -> & He' & Hg' & Hreg & Hsame & _);
      [done|by apply line_pre|apply Hd|done|].
    cbn [res_bind fst snd]. eexists; split; [done|]. apply (put_entry d _ e); try done.
    by rewrite Hsame, Hreg.
  - eexists; split; [done|].
    replace (d <| irqs := <[Z.to_nat n := entry_deassert e]> (irqs d) |>)
      with (d <| irqs := <[Z.to_nat n := entry_deassert e]> (irqs d) |> <| glue := glue d |>) by (by destruct d).
    apply (put_entry d _ e); try done; [|apply Hd]. by destruct Hwf.
Qed.

(** * Register writes *)

Lemma testbit_REDIRECTION_WRITE_MASK_14 : Z.testbit REDIRECTION_WRITE_MASK 14 = false.
Proof. reflexivity. Qed.

Lemma testbit_low i : 0 <= i -> Z.testbit 0xffffffff i = (i <? 32).
Proof.
  intros. change 0xffffffff with (Z.ones 32). rewrite testbit_ones by lia.
  by destruct (Z.leb_spec 0 i); [|lia].
Qed.

Lemma write_low_remote idx val e : (Z.land idx 1 =? 1) = false -> remote_irr (write_half idx val e) = false.
Proof.
  intros Hi. unfold write_half, remote_irr. rewrite Hi. autorewrite with bits.
  rewrite testbit_low, testbit_REDIRECTION_WRITE_MASK_14 by lia. by rewrite !andb_false_r.
Qed.

Lemma write_high_bit idx val e i :
  (Z.land idx 1 =? 1) = true -> 0 <= i < 32 -> Z.testbit (write_half idx val e) i = Z.testbit e i.
Proof.
  intros Hi Hb. unfold write_half. rewrite Hi. autorewrite with bits. rewrite testbit_low by lia.
  destruct (Z.ltb_spec i 32); [|lia]. rewrite (Z.testbit_neg_r _ (i - 32)) by lia.
  by rewrite andb_true_r, !andb_false_r, orb_false_r.
Qed.

Lemma write_high_delivery idx val e :
  (Z.land idx 1 =? 1) = true -> delivery_mode (write_half idx val e) = delivery_mode e.
Proof.
  intros Hi. unfold delivery_mode. bitwise i Hb. change 7 with (Z.ones 3). rewrite testbit_ones by lia.
  destruct (Z.leb_spec 0 i), (Z.ltb_spec i 3); simpl; rewrite ?andb_false_r; try done.
  by rewrite write_high_bit by (done || lia).
Qed.

Lemma is_u_write_half idx val e : is_u 64 e -> is_u 32 val -> is_u 64 (write_half idx val e).
Proof.
  intros He Hv. assert (is_u 64 val) by (eapply is_u_mono; [done|lia]). unfold write_half.
  destruct (_ =? 1); auto 10 with word.
Qed.

Lemma write_half_remote idx val e :
  (remote_irr e = true -> is_level e = true) ->
  remote_irr (write_half idx val e) = true -> is_level (write_half idx val e) = true.
Proof.
  intros He. destruct (Z.land idx 1 =? 1) eqn:Hi; [|by rewrite write_low_remote].
  unfold remote_irr, is_level, trigger_mode_level in *.
  rewrite !write_high_bit, write_high_delivery by (done || lia). done.
Qed.

Lemma update_route_spec num n e g :
  is_u 64 (redirection e) -> (remote_irr (redirection e) = true -> is_level (redirection e) = true) ->
  glue_wf num g -> route_of n (routing g) = registered_request e ->
  let '(e', g') := update_route n e g in
  entry_pre e' /\ redirection e' = redirection e /\ line_level e' = line_level e /\ glue_wf num g' /\
  route_of n (routing g') = registered_request e' /\
  (forall m, m <> n -> route_of m (routing g') = route_of m (routing g)).
Proof.
  intros Hu Hrem [Hst Hrt] Hroute. unfold update_route, request_eqb.
  case_bool_decide as Heq.
  - split_and!; done.
  - split_and!; try done.
    + split; [done|]. cbn [call routing]. by constructor.
    + cbn [call routing registered_request]. rewrite route_of_snoc. cbn. by rewrite Z.eqb_refl.
    + intros m Hm. cbn [call routing]. rewrite route_of_snoc. cbn. by destruct (Z.eqb_spec n m); [lia|].
Qed.

Lemma write_redirection_inv {E} idx val d :
  ioapic_inv d -> 0 <= idx -> is_u 32 val ->
  exists d', write_redirection_register idx val d = Ok (E:=E) d' /\ ioapic_inv d'.
Proof.
  intros Hd Hidx Hval. unfold write_redirection_register.
  set (n := Z.to_nat (idx / 2)). destruct (irqs d !! n) as [e|] eqn:He; [|eauto].
  destruct (entry_lookup d _ e Hd He) as [Hwf Hlen]. pose proof (iv_routes _ Hd _ _ He) as Hroute.
  rewrite ucast_small by lia.
  set (e1 := e <| redirection := write_half idx val (redirection e) |>).
  pose proof (update_route_spec (length (irqs d)) (Z.of_nat n) e1 (glue d)) as Hup.
  destruct (update_route (Z.of_nat n) e1 (glue d)) as [e2 g2]. destruct Hup as (Hpre & _ & _ & Hg2 & Hr2 & Ho2).
  { apply is_u_write_half; [apply Hwf|done]. }
  { apply write_half_remote, Hwf. }
  { apply Hd. }
  { done. }
  destruct (evaluate_wf (E:=E) (length (irqs d)) n false e2 g2) as (e' & g' & -> & He' & Hg' & Hreg & Hsame & _); try done.
  cbn [res_bind fst snd]. eexists; split; [done|]. apply (put_entry d _ e); try done.
  - by rewrite Hsame, Hreg.
  - intros m Hm. rewrite Hsame. by apply Ho2.
Qed.

Lemma write_register_inv {E} idx val d :
  ioapic_inv d -> idx = index d -> is_u 32 val ->
  exists d', write_register idx val d = Ok (E:=E) d' /\ ioapic_inv d'.
Proof.
  intros Hd -> Hval. pose proof (iv_index _ Hd) as Hi. unfold write_register.
  destruct (index d =? INDEX_ID); [eexists; split; [done|]; by destruct Hd|].
  destruct (_ || _); [eauto|]. unfold REDIRECTION_TABLE_START. destruct (Z.leb_spec 16 (index d)); [|eauto].
  rewrite usub_ok by lia. cbn [res_bind]. apply write_redirection_inv; [done|lia|done].
Qed.

(** * End of interrupt *)

Definition acknowledged (e : IrqEntry) : IrqEntry :=
  e <| redirection := set_remote_irr false (redirection e) |>.

(** A level-triggered interrupt of this vector that is still requested. *)
Definition redelivers (vec : Z) (e : IrqEntry) : bool :=
  (vector (redirection e) =? vec) && negb (masked (redirection e)) && is_level (redirection e) && line_level e.

Definition after_eoi (vec : Z) (e : IrqEntry) : IrqEntry :=
  if (vector (redirection e) =? vec) && negb (redelivers vec e) then acknowledged e else e.

Fixpoint redelivered (vec n : Z) (l : list IrqEntry) : list Z :=
  match l with
  | [] => []
  | e :: l => (if redelivers vec e then [n] else []) ++ redelivered vec (n + 1) l
  end.

Lemma redelivered_elem v l k n e :
  l !! n = Some e -> redelivers v e = true -> (k + Z.of_nat n) ∈ redelivered v k l.
Proof.
  revert k n. induction l as [|e0 l IH]; intros k n He Hr; [done|]. cbn [redelivered].
  destruct n as [|n].
  - injection He as ->. rewrite Hr, Z.add_0_r. apply elem_of_app; left; by apply list_elem_of_singleton.
  - apply elem_of_app. right. replace (k + Z.of_nat (S n)) with (k + 1 + Z.of_nat n) by lia. by apply IH.
Qed.

Lemma fires_acknowledged vec e :
  vector (redirection e) = vec -> fires false (acknowledged e) = redelivers vec e.
Proof.
  intros <-. unfold fires, redelivers, acknowledged. cbn. rewrite masked_set, is_level_set, remote_irr_set, Z.eqb_refl.
  by destruct (masked _), (is_level _), (line_level e).
Qed.

Lemma redelivers_delivered vec e :
  entry_wf e -> redelivers vec e = true -> delivered (acknowledged e) = e.
Proof.
  intros [_ _ _ Hl]. unfold redelivers. rewrite !andb_true_iff, negb_true_iff. intros [[[_ Hm] Hlv] Hln].
  destruct e as [e ln req]. cbn in *.
  change (mkEntry (set_remote_irr (is_level (set_remote_irr false e)) (set_remote_irr false e)) ln req = mkEntry e ln req).
  f_equal. rewrite is_level_set, Hlv.
  apply Z.bits_inj'. intros i Hi. rewrite !testbit_set_remote_irr by done.
  destruct (Z.eqb_spec i 14) as [->|]; [|done]. symmetry. by apply Hl.
Qed.

Lemma after_eoi_wf vec e : entry_wf e -> entry_wf (after_eoi vec e).
Proof.
  intros Hwf. unfold after_eoi. destruct (_ =? vec) eqn:Hv; [|done].
  destruct (redelivers vec e) eqn:Hr; [done|]. cbn. destruct Hwf. unfold acknowledged.
  constructor; cbn; rewrite ?is_level_set, ?masked_set, ?remote_irr_set, ?as_msi_set; try done.
  - by apply is_u_set_remote_irr.
  - intros Hl Hm Hln. unfold redelivers in Hr. rewrite Hv, Hm, Hl, Hln in Hr. done.
Qed.

Lemma after_eoi_registered vec e : registered_request (after_eoi vec e) = registered_request e.
Proof. unfold after_eoi. by destruct (_ && _). Qed.

Lemma entry_eoi_spec {E} num n vec e g :
  (n < num < 256)%nat -> entry_wf e -> glue_wf num g ->
  route_of (Z.of_nat n) (routing g) = registered_request e ->
  exists g', entry_eoi vec (Z.of_nat n) e g = Ok (E:=E) (after_eoi vec e, g') /\ glue_wf num g' /\
    routing g' = routing g ++ map Assert (if redelivers vec e then [Z.of_nat n] else []) /\
    (forall m, route_of m (routing g') = route_of m (routing g)).
Proof.
  intros Hn Hwf Hg Hroute. unfold entry_eoi, after_eoi.
  destruct (Z.eqb_spec (vector (redirection e)) vec) as [Hv|Hv].
  2: { exists g. unfold redelivers. destruct (Z.eqb_spec (vector (redirection e)) vec); [done|].
       rewrite app_nil_r. done. }
  destruct (evaluate_spec (E:=E) (Z.of_nat n) false (acknowledged e) g) as (st & Hlen & Hev).
  { rewrite (gw_stats _ _ Hg). lia. }
  unfold acknowledged in Hev at 1. rewrite Hev, (fires_acknowledged vec) by done.
  destruct (redelivers vec e) eqn:Hr; cbn [negb andb].
  - eexists; split; [by rewrite (redelivers_delivered vec)|]. cbn [routing map]. split_and!; [|done|].
    + split; [cbn; rewrite Hlen; apply Hg|]. cbn. constructor; [apply Hg|].
      rewrite Hroute, (ew_registered _ Hwf). apply is_Some_as_msi. unfold redelivers in Hr.
      by destruct (masked (redirection e)); rewrite ?andb_false_r in Hr.
    + intros m. by rewrite route_of_snoc.
  - exists g. rewrite app_nil_r. done.
Qed.

Lemma eoi_loop_spec {E} num vec l n g :
  (n + length l <= num < 256)%nat -> Forall entry_wf l -> glue_wf num g ->
  (forall i e, l !! i = Some e -> route_of (Z.of_nat (n + i)) (routing g) = registered_request e) ->
  exists g', eoi_loop vec (Z.of_nat n) l g = Ok (E:=E) (map (after_eoi vec) l, g') /\ glue_wf num g' /\
    routing g' = routing g ++ map Assert (redelivered vec (Z.of_nat n) l) /\
    (forall m, route_of m (routing g') = route_of m (routing g)).
Proof.
  revert n g. induction l as [|e l IH]; intros n g Hn Hl Hg Hr; cbn [eoi_loop redelivered].
  { exists g. by rewrite app_nil_r. }
  inversion Hl as [|? ? He Hl']; subst. cbn [length] in Hn. rewrite ucast_small by lia.
  destruct (entry_eoi_spec (E:=E) num n vec e g) as (g1 & -> & Hg1 & Hrt1 & Hs1); [lia|done|done| |].
  { rewrite <-(Hr 0%nat) by done. by rewrite Nat.add_0_r. }
  cbn [res_bind fst snd]. replace (Z.of_nat n + 1) with (Z.of_nat (S n)) by lia.
  destruct (IH (S n) g1) as (g2 & -> & Hg2 & Hrt2 & Hs2); [lia|done|done| |].
  { intros i e' Hi. rewrite Hs1, <-(Hr (S i)) by done. f_equal. lia. }
  cbn [res_bind fst snd]. eexists; split; [done|]. split_and!; [done| |].
  - rewrite Hrt2, Hrt1, <-app_assoc, <-map_app. done.
  - intros m. by rewrite Hs2, Hs1.
Qed.

Lemma eoi_spec {E} vec d :
  ioapic_inv d ->
  exists d', handle_eoi vec d = Ok (E:=E) d' /\ ioapic_inv d' /\ irqs d' = map (after_eoi vec) (irqs d) /\
    routing (glue d') = routing (glue d) ++ map Assert (redelivered vec 0 (irqs d)).
Proof.
  intros Hd. pose proof Hd as [Hc Hg He Hr Hi]. unfold handle_eoi.
  destruct (eoi_loop_spec (E:=E) (length (irqs d)) vec (irqs d) 0 (glue d)) as (g' & Heq & Hg' & Hrt & Hs);
    [lia|done|done|done|].
  change (Z.of_nat 0) with 0 in *. rewrite Heq. cbn [res_bind fst snd]. eexists; split; [done|].
  split_and!; [|done|done]. constructor; cbn; rewrite ?length_map; try done.
  - apply Forall_map. eapply Forall_impl; [|exact He]. intros e. apply after_eoi_wf.
  - intros n e Hn. change (map (after_eoi vec) (irqs d)) with (after_eoi vec <$> irqs d) in Hn.
    rewrite list_lookup_fmap in Hn. apply fmap_Some in Hn as (e0 & Hn & ->).
    rewrite Hs, after_eoi_registered. by apply Hr.
Qed.

(** * Reset *)

Definition reset_entry (e : IrqEntry) : IrqEntry := mkEntry redirection_init (line_level e) None.

Lemma reset_loop_spec num l n g :
  (n + length l <= num < 256)%nat -> glue_wf num g ->
  exists g', reset_loop (Z.of_nat n) l g = (map reset_entry l, g') /\ glue_wf num g' /\
    (forall m, route_of m (routing g') =
      if (Z.of_nat n <=? m) && (m <? Z.of_nat (n + length l)) then None else route_of m (routing g)).
Proof.
  revert n g. induction l as [|e l IH]; intros n g Hn Hg; cbn [reset_loop].
  { exists g. split_and!; [done|done|]. intros m. cbn [length].
    by destruct (Z.leb_spec (Z.of_nat n) m), (Z.ltb_spec m (Z.of_nat (n + 0))); cbn; try lia. }
  cbn [length] in *. rewrite ucast_small by lia. replace (Z.of_nat n + 1) with (Z.of_nat (S n)) by lia.
  destruct (IH (S n) (call (SetRoute (Z.of_nat n) None) g)) as (g' & -> & Hg' & Hs); [lia| |].
  { split; [apply Hg|]. cbn [call routing]. constructor. apply Hg. }
  eexists; split; [done|]. split; [done|]. intros m. rewrite Hs. cbn [call routing]. rewrite route_of_snoc. cbn [route_step].
  destruct (Z.leb_spec (Z.of_nat (S n)) m), (Z.ltb_spec m (Z.of_nat (S n + length l))),
    (Z.leb_spec (Z.of_nat n) m), (Z.ltb_spec m (Z.of_nat (n + S (length l)))), (Z.eqb_spec (Z.of_nat n) m); cbn; done || lia.
Qed.

Lemma reset_inv d : ioapic_inv d -> ioapic_inv (reset d).
Proof.
  intros Hd. pose proof Hd as [Hc Hg He Hr Hi]. unfold reset.
  destruct (reset_loop_spec (length (irqs d)) (irqs d) 0 (glue d)) as (g' & Heq & Hg' & Hs); [lia|done|].
  change (Z.of_nat 0) with 0 in *. rewrite Heq. constructor; cbn; rewrite ?length_map; try done.
  - apply Forall_map, Forall_true. intros e. constructor; cbn; try done.
  - intros n e Hn. change (map reset_entry (irqs d)) with (reset_entry <$> irqs d) in Hn.
    rewrite list_lookup_fmap in Hn. apply fmap_Some in Hn as (e0 & Hn & ->). rewrite Hs.
    pose proof (lookup_lt_Some _ _ _ Hn). cbn [Nat.add].
    by destruct (Z.leb_spec 0 (Z.of_nat n)), (Z.ltb_spec (Z.of_nat n) (Z.of_nat (length (irqs d)))); try lia.
Qed.

(** * Restore *)

Definition saved_entry_ok (state : Z) : Prop := is_u 64 state /\ (remote_irr state = true -> is_level state = true).

Definition restored (state : Z * bool) : IrqEntry :=
  let e := mkEntry state.1 state.2 (as_msi state.1) in
  if fires false e then delivered e else e.

Lemma restored_registered state : registered_request (restored state) = as_msi state.1.
Proof. unfold restored. by destruct (fires _ _). Qed.

(** The entry as it is when restored, before its evaluation. *)
Definition resumed (state : Z * bool) : IrqEntry := mkEntry state.1 state.2 (as_msi state.1).

Definition is_set_route (c : RoutingCall) : Prop :=
  match c with SetRoute _ _ => True | Assert _ => False end.

Lemma restore_loop_spec {E} num states l n g :
  (n + length l <= num < 256)%nat -> length states = length l -> Forall (fun s => saved_entry_ok s.1) states ->
  glue_wf num g ->
  exists g', restore_loop (Z.of_nat n) states l g = Ok (E:=E) (map restored states, g') /\ glue_wf num g' /\
    Forall entry_wf (map restored states) /\
    (forall m, m < Z.of_nat n -> route_of m (routing g') = route_of m (routing g)) /\
    (forall i s, states !! i = Some s -> route_of (Z.of_nat (n + i)) (routing g') = as_msi s.1) /\
    exists log, routing g' = routing g ++ log /\
      (Forall (fun s => fires false (resumed s) = false) states -> Forall is_set_route log) /\
      (forall i s, states !! i = Some s -> fires false (resumed s) = true -> Assert (Z.of_nat (n + i)) ∈ log).
Proof.
  revert l n g. induction states as [|[st lv] states IH]; intros [|e l] n g Hn Hlen Hok Hg; try done; cbn [restore_loop].
  { exists g. split_and!; try done. exists []. by rewrite app_nil_r. }
  cbn [length] in *. inversion Hok as [|? ? [Hu Hrem] Hok']; subst. cbn [fst] in *. rewrite ucast_small by lia.
  set (g0 := call (SetRoute (Z.of_nat n) (as_msi st)) g).
  assert (glue_wf num g0) as Hg0 by (split; [apply Hg|cbn; constructor; apply Hg]).
  assert (forall m, route_of m (routing g0) = if Z.of_nat n =? m then as_msi st else route_of m (routing g)) as Hr0
    by (intros m; unfold g0; cbn [call routing]; by rewrite route_of_snoc).
  destruct (evaluate_wf (E:=E) num n false (mkEntry st lv (as_msi st)) g0)
    as (e' & g1 & Hev & Hwf & Hg1 & Hreg & Hsame & He' & Hrt1); [lia|done|done|by rewrite Hr0, Z.eqb_refl|].
  change (e <| redirection := st |> <| line_level := lv |> <| registered_request := as_msi st |>)
    with (mkEntry st lv (as_msi st)). rewrite Hev. cbn [res_bind fst snd].
  replace (Z.of_nat n + 1) with (Z.of_nat (S n)) by lia.
  destruct (IH l (S n) g1) as (g2 & -> & Hg2 & Hwf2 & Hlow & Hroutes & log & Hlog & Hset & Hin);
    [lia|lia|done|done|].
  cbn [res_bind fst snd]. exists g2. split; [by rewrite He'|]. split_and!; [done| |..].
  - constructor; [by rewrite He' in Hwf|done].
  - intros m Hm. rewrite Hlow, Hsame, Hr0 by lia. by destruct (Z.eqb_spec (Z.of_nat n) m); [lia|].
  - intros [|i] s Hi.
    + injection Hi as <-. rewrite Nat.add_0_r, Hlow, Hsame, Hr0 by lia. by rewrite Z.eqb_refl.
    + rewrite <-(Hroutes i s) by done. f_equal. lia.
  - eexists. split; [rewrite Hlog, Hrt1; cbn [g0 call routing]; by rewrite <-!app_assoc|].
    split.
    + intros Hq. inversion Hq as [|? ? Hf Hq']; subst. unfold resumed in Hf. cbn [fst snd] in Hf. rewrite Hf.
      constructor; [done|]. by apply Hset.
    + intros [|i] s Hi Hf.
      * injection Hi as <-. unfold resumed in Hf. cbn [fst snd] in Hf. rewrite Hf, Nat.add_0_r, !elem_of_app, !list_elem_of_singleton. auto.
      * specialize (Hin i s Hi Hf). replace (n + S i)%nat with (S n + i)%nat by lia. rewrite !elem_of_app. tauto.
Qed.

(** A saved state the device can resume from. *)
Record saved_ok (s : SavedState) : Prop := {
  so_entries : Forall saved_entry_ok (redirection_entries s);
  so_index : is_u 8 (saved_index s);
}.

Definition saved_levels (s : SavedState) (n : nat) : list bool :=
  if (length (line_levels s) =? 0)%nat then replicate n false else line_levels s.

Definition saved_lengths (s : SavedState) (n : nat) : bool :=
  (length (redirection_entries s) =? n)%nat &&
  ((length (line_levels s) =? 0)%nat || (length (line_levels s) =? n)%nat).

Lemma restore_bad s d :
  saved_lengths s (length (irqs d)) = false -> restore s d = Err WrongNumberOfRedirectionEntries.
Proof.
  unfold saved_lengths, restore. destruct (length (redirection_entries s) =? length (irqs d))%nat; [|done]. cbn.
  by destruct (length (line_levels s) =? 0)%nat, (length (line_levels s) =? length (irqs d))%nat.
Qed.

Lemma restore_ok s d :
  ioapic_inv d -> saved_ok s -> saved_lengths s (length (irqs d)) = true ->
  let states := zip (redirection_entries s) (saved_levels s (length (irqs d))) in
  exists d', restore s d = Ok d' /\ ioapic_inv d' /\ irqs d' = map restored states /\
    id d' = saved_id s /\ index d' = saved_index s /\
    exists log, routing (glue d') = routing (glue d) ++ log /\
      (Forall (fun s => fires false (resumed s) = false) states -> Forall is_set_route log) /\
      (forall i s, states !! i = Some s -> fires false (resumed s) = true -> Assert (Z.of_nat i) ∈ log).
Proof.
  intros Hd [Hent Hidx] Hls states. pose proof Hd as [Hc Hg He Hr Hi]. unfold restore.
  unfold saved_lengths in Hls. apply andb_prop in Hls as [Hlen Hls]. rewrite Hlen. apply Nat.eqb_eq in Hlen. cbn [negb].
  set (lv := saved_levels s (length (irqs d))).
  assert (length lv = length (irqs d)) as Hlv.
  { unfold lv, saved_levels. destruct (length (line_levels s) =? 0)%nat; [by rewrite length_replicate|].
    by apply Nat.eqb_eq. }
  match goal with |- context [res_bind ?m] => assert (m = Ok lv) as -> end.
  { unfold lv, saved_levels. destruct (length (line_levels s) =? 0)%nat; [done|]. cbn in Hls. by rewrite Hls. }
  cbn [res_bind].
  destruct (restore_loop_spec (E:=IoApicRestoreError) (length (irqs d)) (zip (redirection_entries s) lv) (irqs d) 0 (glue d))
    as (g' & Heq & Hg' & Hwf & _ & Hroutes & Hlog); [lia|rewrite length_zip_with; lia| |done|].
  { apply Forall_lookup_2. intros i [a b] Hab. apply lookup_zip_with_Some in Hab as (x & y & [= <- <-] & Hx & _).
    by eapply Forall_lookup_1 in Hx. }
  change (Z.of_nat 0) with 0 in *. rewrite Heq. cbn [res_bind fst snd]. eexists; split; [done|].
  assert (length (map restored (zip (redirection_entries s) lv)) = length (irqs d)) as Hl'
    by (rewrite length_map, length_zip_with; lia).
  split_and!; [|done|done|done|done].
  constructor; cbn [irqs glue index]; try done.
  - cbn. by rewrite Hl'.
  - cbn. by rewrite Hl'.
  - intros n e Hn. cbn in Hn. change (map restored ?l) with (restored <$> l) in Hn.
    rewrite list_lookup_fmap in Hn. apply fmap_Some in Hn as (st & Hst & ->).
    rewrite restored_registered. by apply (Hroutes n).
Qed.

Lemma resumed_quiet e : entry_wf e -> fires false (resumed (redirection e, line_level e)) = false.
Proof.
  intros [_ _ _ Hlv]. unfold fires, resumed. cbn.
  destruct (masked _), (is_level _), (line_level e); try done. cbn. by rewrite Hlv.
Qed.

(** Restoring the entry of a device at rest reproduces it. *)
Lemma restored_saved l :
  Forall entry_wf l -> map restored (zip (map redirection l) (map line_level l)) = l.
Proof.
  induction 1 as [|e l Hwf _ IH]; [done|]. cbn. f_equal; [|exact IH].
  pose proof (resumed_quiet e Hwf) as Hq. unfold resumed in Hq. unfold restored. cbn [fst snd] in *. rewrite Hq.
  rewrite <-(ew_registered _ Hwf). by destruct e.
Qed.

(** * Runs of the device *)

Inductive IoApicOp : Type :=
| OpSetIrq (n : Z) (high : bool)
| OpEoi (vec : Z)
| OpWrite (address : Z) (data : list Z)
| OpRead (address len : Z)
| OpReset
| OpRestore (s : SavedState).

(** An operation that reports an error leaves the device as it was. *)
Definition on_error {F E A} (a : A) (m : res F A) : res E A :=
  match m with
  | Ok a => Ok a
  | Err _ => Ok a
  | Panic => Panic
  end.

Definition ioapic_step (op : IoApicOp) (d : IoApicDevice) : res void IoApicDevice :=
  match op with
  | OpSetIrq n high => set_irq n high d
  | OpEoi vec => handle_eoi vec d
  | OpWrite address data => on_error d (mmio_write address data d)
  | OpRead address len => on_error d (let! _ := mmio_read address len d in Ok d)
  | OpReset => Ok (reset d)
  | OpRestore s => on_error d (restore s d)
  end.

Definition in_region (address : Z) : Prop := region_base address = IOAPIC_DEVICE_MMIO_REGION_BASE_ADDRESS.

(** A read of one of the two registers, of more bytes than it has. *)
Definition long_read (address len : Z) : bool :=
  let reg := Z.land address IOAPIC_DEVICE_MMIO_REGION_MASK in
  (4 <? len) && ((reg =? REGISTER_INDEX) || (reg =? REGISTER_DATA)).

(** The operations the rest of the machine performs: accesses the bus routes to
    the device, of at least one byte. *)
Definition typed_op (op : IoApicOp) : Prop :=
  match op with
  | OpSetIrq n _ => 0 <= n
  | OpEoi _ => True
  | OpWrite address data => in_region address /\ Forall (is_u 8) data /\ data <> []
  | OpRead address len => in_region address /\ 0 <= len
  | OpReset => True
  | OpRestore s => saved_ok s
  end.

Definition overruns (op : IoApicOp) : bool := match op with OpRead address len => long_read address len | _ => false end.

(** Those that do not panic. *)
Definition valid_op (op : IoApicOp) : Prop :=
  match op with
  | OpSetIrq n _ => 0 <= n
  | OpEoi _ => True
  | OpWrite address data => in_region address /\ Forall (is_u 8) data /\ data <> []
  | OpRead address len => in_region address /\ 0 <= len /\ long_read address len = false
  | OpReset => True
  | OpRestore s => saved_ok s
  end.

Inductive reachable : IoApicDevice -> Prop :=
| reach_new num d : 0 < num < 256 -> ioapic_new (E:=void) num = Ok d -> reachable d
| reach_step op d d' : reachable d -> typed_op op -> ioapic_step op d = Ok d' -> reachable d'.

Lemma new_inv num : 0 < num < 256 -> exists d, ioapic_new (E:=void) num = Ok d /\ ioapic_inv d.
Proof.
  intros Hn. unfold ioapic_new. rewrite usub_ok by lia. cbn [res_bind]. eexists; split; [done|].
  constructor; cbn [irqs glue index].
  - rewrite length_replicate. lia.
  - rewrite length_replicate. split; cbn; [by rewrite length_replicate|constructor].
  - apply Forall_replicate. by constructor.
  - intros n e He. by apply lookup_replicate in He as [-> _].
  - done.
Qed.

Lemma mmio_write_inv address data d :
  ioapic_inv d -> in_region address -> Forall (is_u 8) data -> data <> [] ->
  exists d', on_error (E:=void) d (mmio_write address data d) = Ok d' /\ ioapic_inv d'.
Proof.
  intros Hd Ha Hdata Hne. unfold mmio_write. rewrite Ha, Z.eqb_refl.
  destruct (_ =? REGISTER_INDEX).
  - destruct data as [|b data]; [done|]. inversion Hdata; subst. cbn. eexists; split; [done|].
    destruct Hd. by constructor.
  - destruct (_ =? REGISTER_DATA); [|cbn; eauto]. destruct (Z.eqb_spec (Z.of_nat (length data)) 4) as [Hlen|]; [|cbn; eauto].
    destruct (write_register_inv (E:=IoError) (index d) (le_value data) d) as (d' & -> & Hd'); [done|done| |cbn; eauto].
    pose proof (le_value_bound data Hdata) as Hb. rewrite Hlen in Hb. exact Hb.
Qed.

Lemma mmio_read_panics address len d :
  ioapic_inv d -> in_region address -> mmio_read address len d = Panic <-> long_read address len = true.
Proof.
  intros Hd Ha. pose proof (iv_index _ Hd) as Hi. pose proof (iv_count _ Hd) as Hc. unfold mmio_read, long_read.
  rewrite Ha, Z.eqb_refl. assert ((len =? Z.min len 4) = negb (4 <? len)) as ->.
  { destruct (Z.eqb_spec len (Z.min len 4)), (Z.ltb_spec 4 len); cbn; (done || lia). }
  assert (forall v : res IoError Z, v <> Panic ->
    (let! x := v in assert! negb (4 <? len) in Ok (take (Z.to_nat (Z.min len 4)) (le_bytes 4 x))) = Panic <->
    (4 <? len) = true /\ exists x, v = Ok x) as Hv.
  { intros [x|e|] Hp; cbn [res_bind]; [|split; [done|by intros [_ [? ?]]]|done].
    destruct (4 <? len); cbn; split; try done; [by intros _; split; [|exists x]|by intros [? _]]. }
  destruct (_ =? REGISTER_INDEX); [rewrite Hv, andb_true_r by done; split; [by intros [? _]|by intros ->; split; [|eexists]]|].
  destruct (_ =? REGISTER_DATA); [|by rewrite andb_false_r]. cbn [orb]. rewrite andb_true_r.
  assert (exists x, read_register (E:=IoError) (index d) d = Ok x) as [x ->].
  { unfold read_register. destruct (_ =? INDEX_ID); [by eexists|]. destruct (_ =? INDEX_VERSION).
    { rewrite usub_ok by lia. by eexists. }
    destruct (_ =? INDEX_ARBITRATION_ID); [by eexists|]. unfold REDIRECTION_TABLE_START.
    destruct (Z.leb_spec 16 (index d)); [|by eexists]. rewrite usub_ok by lia. by eexists. }
  rewrite Hv by done. split; [by intros [? _]|by intros ->; split; [|eexists]].
Qed.

Lemma ioapic_step_inv op d :
  ioapic_inv d -> valid_op op -> exists d', ioapic_step op d = Ok d' /\ ioapic_inv d'.
Proof.
  intros Hd Hop. destruct op as [n high|vec|address data|address len| |s]; cbn [ioapic_step valid_op] in *.
  - by apply set_irq_inv.
  - destruct (eoi_spec (E:=void) vec d Hd) as (d' & ? & ? & _). eauto.
  - destruct Hop as (? & ? & ?). by apply mmio_write_inv.
  - destruct Hop as (Ha & _ & Hl). pose proof (mmio_read_panics address len d Hd Ha) as [Hp _]. rewrite Hl in Hp.
    destruct (mmio_read address len d); cbn; [eauto|eauto|by discriminate Hp].
  - eauto using reset_inv.
  - destruct (saved_lengths s (length (irqs d))) eqn:Hl; [|rewrite restore_bad by done; cbn; eauto].
    destruct (restore_ok s d Hd Hop Hl) as (d' & -> & Hd' & _). cbn. eauto.
Qed.

Lemma valid_op_typed op : valid_op op <-> typed_op op /\ overruns op = false.
Proof. destruct op; cbn; tauto. Qed.

Lemma overruns_panics op d : ioapic_inv d -> typed_op op -> overruns op = true -> ioapic_step op d = Panic.
Proof.
  intros Hd Hop. destruct op as [| | |address len| |]; try done. intros Ho. destruct Hop as [Ha _].
  pose proof (mmio_read_panics address len d Hd Ha) as [_ Hp]. cbn [ioapic_step]. by rewrite Hp.
Qed.

Lemma typed_op_valid op d d' : ioapic_inv d -> typed_op op -> ioapic_step op d = Ok d' -> valid_op op.
Proof.
  intros Hd Ht Hs. apply valid_op_typed. split; [done|]. destruct (overruns op) eqn:Ho; [|done].
  by rewrite overruns_panics in Hs.
Qed.

Lemma ioapic_inv_reachable d : reachable d -> ioapic_inv d.
Proof.
  induction 1 as [num d Hn Hnew|op d d' _ IH Hop Hstep].
  - destruct (new_inv num Hn) as (d' & Hnew' & Hd'). rewrite Hnew in Hnew'. by injection Hnew' as ->.
  - destruct (ioapic_step_inv op d IH (typed_op_valid _ _ _ IH Hop Hstep)) as (d1 & Hs & Hd1). rewrite Hstep in Hs. by injection Hs as ->.
Qed.

Lemma set_irq_spec d n e :
  ioapic_inv d -> irqs d !! Z.to_nat n = Some e -> 0 <= n ->
  let r := redirection e in
  let due := negb (masked r) && (if is_level r then negb (remote_irr r) else negb (line_level e)) in
  (exists d', set_irq n true d = Ok (E:=void) d' /\
    routing (glue d') = routing (glue d) ++ (if due then [Assert n] else []) /\
    irqs d' !! Z.to_nat n = Some (mkEntry (if due then set_remote_irr (is_level r) r else r) true (registered_request e))) /\
  (exists d', set_irq n false d = Ok (E:=void) d' /\ routing (glue d') = routing (glue d) /\
    irqs d' !! Z.to_nat n = Some (mkEntry r false (registered_request e))).
Proof.
  intros Hd He Hn r due. destruct (entry_lookup d _ e Hd He) as [Hwf Hlen].
  assert (ucast 8 n = Z.of_nat (Z.to_nat n)) as Hu by (unfold ucast; rewrite Z.mod_small; lia).
  unfold set_irq. rewrite He. split.
  - unfold entry_assert. rewrite Hu.
    destruct (evaluate_wf (E:=void) (length (irqs d)) (Z.to_nat n) (negb (line_level e))
      (e <| line_level := true |>) (glue d)) as (e' & g' & -> & _ & _ & _ & _ & He' & Hrt);
      [done|by apply line_pre|apply Hd|exact (iv_routes _ Hd _ _ He)|].
    assert (fires (negb (line_level e)) (e <| line_level := true |>) = due) as Hf by done.
    cbn [res_bind fst snd]. eexists; split; [done|]. cbn. rewrite Hf in *. split.
    + rewrite Hrt. destruct due; [|done]. do 3 f_equal. lia.
    + rewrite list_lookup_insert_eq by lia. f_equal. rewrite He'. by destruct due, e.
  - eexists; split; [done|]. split; [done|]. cbn. rewrite list_lookup_insert_eq by lia. by destruct e.
Qed.

(** Raising a line delivers exactly when it should. An edge-triggered entry
    is asserted once, on the transition from low to high, unless it is masked; a
    level-triggered one unless it is masked or not yet acknowledged. Nothing
    else is asserted, and lowering a line asserts nothing. *)
Theorem set_irq_delivers d n e :
  reachable d -> irqs d !! Z.to_nat n = Some e -> 0 <= n ->
  let r := redirection e in
  let due := negb (masked r) && (if is_level r then negb (remote_irr r) else negb (line_level e)) in
  (exists d', set_irq n true d = Ok (E:=void) d' /\
    routing (glue d') = routing (glue d) ++ (if due then [Assert n] else []) /\
    irqs d' !! Z.to_nat n = Some (mkEntry (if due then set_remote_irr (is_level r) r else r) true (registered_request e))) /\
  (exists d', set_irq n false d = Ok (E:=void) d' /\ routing (glue d') = routing (glue d) /\
    irqs d' !! Z.to_nat n = Some (mkEntry r false (registered_request e))).
Proof. intros Hd. by apply set_irq_spec, ioapic_inv_reachable. Qed.

(** An end of interrupt asserts again exactly the lines whose entry has that
    vector, is level-triggered, not masked and still high, in order; the other
    entries of that vector stop awaiting an end of interrupt, and no other
    entry changes. *)
Theorem eoi_redelivers d vec :
  reachable d ->
  exists d', handle_eoi vec d = Ok (E:=void) d' /\
    routing (glue d') = routing (glue d) ++ map Assert (redelivered vec 0 (irqs d)) /\
    forall n e, irqs d !! n = Some e ->
      irqs d' !! n = Some (if (vector (redirection e) =? vec) && negb (redelivers vec e)
                           then e <| redirection := set_remote_irr false (redirection e) |> else e).
Proof.
  intros Hd. destruct (eoi_spec (E:=void) vec d (ioapic_inv_reachable d Hd)) as (d' & Hs & _ & Hi & Hr).
  exists d'. split_and!; [done|done|]. intros n e He. rewrite Hi.
  change (map (after_eoi vec) (irqs d)) with (after_eoi vec <$> irqs d). by rewrite list_lookup_fmap, He.
Qed.

(** The state saved from a reachable device restores it. Into any device
    with as many lines, the restore succeeds, reproduces the entries, the
    selected register and the identifier, and asserts no interrupt. *)
Theorem ioapic_save_restore d d0 :
  reachable d -> reachable d0 -> length (irqs d0) = length (irqs d) ->
  exists d', restore (save d) d0 = Ok d' /\ irqs d' = irqs d /\ id d' = id d /\ index d' = index d /\
    (exists log, routing (glue d') = routing (glue d0) ++ log /\ Forall is_set_route log) /\
    (forall n e, irqs d !! n = Some e -> route_of (Z.of_nat n) (routing (glue d')) = as_msi (redirection e)).
Proof.
  intros Hd Hd0 Hlen. apply ioapic_inv_reachable in Hd, Hd0. pose proof Hd as [Hc Hg He Hr Hidx].
  assert (saved_ok (save d)) as Hs.
  { constructor; [|done]. cbn. apply Forall_map. eapply Forall_impl; [|exact He]. by intros e []. }
  assert (saved_lengths (save d) (length (irqs d0)) = true) as Hls.
  { unfold saved_lengths. cbn. rewrite !length_map, Hlen, Nat.eqb_refl. by rewrite orb_true_r. }
  destruct (restore_ok (save d) d0 Hd0 Hs Hls) as (d' & Hok & Hd' & Hi & Hid & Hix & log & Hlog & Hset).
  assert (saved_levels (save d) (length (irqs d0)) = map line_level (irqs d)) as Hlv.
  { unfold saved_levels. cbn. rewrite length_map. by destruct (Nat.eqb_spec (length (irqs d)) 0); [lia|]. }
  rewrite Hlv in Hi, Hset. cbn [save redirection_entries] in Hi, Hset.
  rewrite restored_saved in Hi by done. rename Hi into Hirqs.
  exists d'. split_and!; try done.
  { exists log. split; [done|]. apply Hset, Forall_lookup_2. intros i [a b] Hab.
    apply lookup_zip_with_Some in Hab as (x & y & [= <- <-] & Hx & Hy).
    apply list_lookup_fmap_Some in Hx as (e & -> & Hx), Hy as (e' & -> & Hy).
    rewrite Hx in Hy. injection Hy as <-. apply resumed_quiet. by eapply Forall_lookup_1. }
  intros n e Hn. rewrite <-Hirqs in Hn.
  rewrite (iv_routes _ Hd' _ _ Hn). by apply (entry_lookup d' n e Hd' Hn).
Qed.

(** A read of more than four bytes at the base of the region panics,
    although the device is meant to allow reads of any size. *)
Theorem mmio_read_long_panics d len :
  4 < len -> mmio_read IOAPIC_DEVICE_MMIO_REGION_BASE_ADDRESS len d = Panic.
Proof.
  intros Hlen. unfold mmio_read. change (region_base _ =? _) with true. cbn iota.
  change (Z.land _ _ =? REGISTER_INDEX) with true. cbn [res_bind].
  rewrite Z.min_r by lia. by destruct (Z.eqb_spec len 4); [lia|].
Qed.

(** * The message of an entry *)

Lemma testbit_b2z b i : Z.testbit (b2z b) i = b && (i =? 0).
Proof. destruct b; cbn; [|by rewrite Z.testbit_0_l]. change 1 with (2 ^ 0). rewrite testbit_pow2 by lia. apply Z.eqb_sym. Qed.

Lemma testbit_land_ones x n i : 0 <= n -> 0 <= i -> Z.testbit (Z.land x (Z.ones n)) i = Z.testbit x i && (i <? n).
Proof. intros. rewrite Z.land_spec, testbit_ones by done. by destruct (Z.leb_spec 0 i); [|lia]. Qed.

(** A bit field placed at [s] in a word, [n] bits wide, is zero elsewhere. *)
Lemma testbit_placed x s n i :
  0 <= s -> is_u n x -> 0 <= i -> Z.testbit (Z.shiftl x s) i = (s <=? i) && (i <? s + n) && Z.testbit x (i - s).
Proof.
  intros Hs Hx Hi. rewrite Z.shiftl_spec by done. destruct (Z.leb_spec s i); cbn.
  - destruct (Z.ltb_spec i (s + n)); cbn; [done|]. apply (is_u_testbit_high n); [done|lia].
  - by rewrite Z.testbit_neg_r by lia.
Qed.

Lemma vector_u8 e : is_u 8 (vector e).
Proof. unfold vector. apply is_u_land_r; [lia|]. split; [lia|reflexivity]. Qed.

Lemma delivery_mode_u3 e : is_u 3 (delivery_mode e).
Proof. unfold delivery_mode. apply is_u_land_r; [lia|]. split; [lia|reflexivity]. Qed.

Lemma destination_u8 e : is_u 8 (destination e).
Proof. unfold destination. apply is_u_land_r; [lia|]. split; [lia|reflexivity]. Qed.

Lemma extended_destination_u8 e : is_u 8 (extended_destination e).
Proof. unfold extended_destination. apply is_u_land_r; [lia|]. split; [lia|reflexivity]. Qed.

Lemma b2z_u1 b : is_u 1 (b2z b).
Proof. by destruct b. Qed.

Lemma testbit_msi_address d x l h i :
  is_u 8 d -> is_u 8 x -> 0 <= i ->
  Z.testbit (msi_address d x l h) i =
  ((20 <=? i) && (i <? 32) && Z.testbit MSI_ADDRESS (i - 20)) ||
  ((12 <=? i) && (i <? 20) && Z.testbit d (i - 12)) ||
  (((4 <=? i) && (i <? 12) && Z.testbit x (i - 4)) ||
   (((3 <=? i) && (i <? 4) && (h && (i - 3 =? 0))) || ((2 <=? i) && (i <? 3) && (l && (i - 2 =? 0))))).
Proof.
  intros Hd Hx Hi. unfold msi_address. rewrite !Z.lor_spec.
  rewrite (testbit_placed MSI_ADDRESS 20 12), (testbit_placed d 12 8), (testbit_placed x 4 8),
    (testbit_placed (b2z h) 3 1), (testbit_placed (b2z l) 2 1), !testbit_b2z by (done || lia || apply b2z_u1). done.
Qed.

Lemma testbit_msi_data v m l a t i :
  is_u 8 v -> is_u 3 m -> 0 <= i ->
  Z.testbit (msi_data v m l a t) i =
  ((i <? 8) && Z.testbit v i) || ((8 <=? i) && (i <? 11) && Z.testbit m (i - 8)) ||
  (((11 <=? i) && (i <? 12) && (l && (i - 11 =? 0))) ||
   (((14 <=? i) && (i <? 15) && (a && (i - 14 =? 0))) || ((15 <=? i) && (i <? 16) && (t && (i - 15 =? 0))))).
Proof.
  intros Hv Hm Hi. unfold msi_data. rewrite !Z.lor_spec.
  rewrite (testbit_placed m 8 3), (testbit_placed (b2z l) 11 1), (testbit_placed (b2z a) 14 1),
    (testbit_placed (b2z t) 15 1), !testbit_b2z by (done || lia || apply b2z_u1).
  do 2 f_equal. destruct (Z.ltb_spec i 8); [done|]. apply (is_u_testbit_high 8); [done|lia].
Qed.

(** Decides the comparisons of bit positions in the goal. *)
Ltac decide_positions :=
  repeat match goal with
  | |- context [?a <=? ?b] => destruct (Z.leb_spec a b); try lia
  | |- context [?a <? ?b] => destruct (Z.ltb_spec a b); try lia
  | |- context [?a =? ?b] => destruct (Z.eqb_spec a b); try lia
  end.

(** Compares the [n] bits at [p] of a message with a field of the entry. *)
Ltac message_field p n Hhigh :=
  apply Z.bits_inj'; intros i Hi;
  match goal with |- context [Z.land _ ?m] => change m with (Z.ones n) end;
  rewrite testbit_land_ones, Z.shiftr_spec, ?testbit_msi_address, ?testbit_msi_data by (done || lia);
  replace (i + p - p) with i by lia; rewrite ?Z.add_0_r; destruct (Z.ltb_spec i n);
  [decide_positions; cbn [andb orb]; by rewrite ?orb_false_r, ?andb_true_r
  |rewrite andb_false_r; symmetry; apply (Hhigh n); (done || lia)].

Lemma msi_address_fields d x l h :
  is_u 8 d -> is_u 8 x ->
  let address := msi_address d x l h in
  is_u 32 address /\ Z.shiftr address 20 = MSI_ADDRESS /\ Z.land (Z.shiftr address 12) 0xff = d /\
  Z.land (Z.shiftr address 4) 0xff = x /\ Z.testbit address 3 = h /\ Z.testbit address 2 = l.
Proof.
  intros Hds Hx. cbn zeta.
  assert (forall n x, 0 <= n -> is_u n x -> forall i, 0 <= i -> n <= i -> Z.testbit x i = false) as Hhigh
    by (intros; by eapply is_u_testbit_high).
  split_and!.
  - unfold msi_address. repeat apply is_u_lor; unfold is_u in *; rewrite ?Z.shiftl_mul_pow2 by lia;
      destruct h, l; unfold b2z, MSI_ADDRESS; lia.
  - apply Z.bits_inj'. intros i Hi. rewrite Z.shiftr_spec, testbit_msi_address by (done || lia).
    replace (i + 20 - 20) with i by lia. destruct (Z.ltb_spec i 12).
    + decide_positions; cbn [andb orb]; by rewrite ?orb_false_r.
    + rewrite (Hhigh 12 MSI_ADDRESS) by (done || lia). by decide_positions.
  - message_field 12 8 Hhigh.
  - message_field 4 8 Hhigh.
  - rewrite testbit_msi_address by (done || lia). cbn. by rewrite andb_true_r, orb_false_r.
  - rewrite testbit_msi_address by (done || lia). cbn. by rewrite andb_true_r.
Qed.

Lemma msi_data_fields v m l a t :
  is_u 8 v -> is_u 3 m ->
  let data := msi_data v m l a t in
  Z.land data 0xff = v /\ Z.land (Z.shiftr data 8) 7 = m /\ Z.testbit data 11 = l /\
  Z.testbit data 14 = a /\ Z.testbit data 15 = t.
Proof.
  intros Hv Hd. cbn zeta.
  assert (forall n x, 0 <= n -> is_u n x -> forall i, 0 <= i -> n <= i -> Z.testbit x i = false) as Hhigh
    by (intros; by eapply is_u_testbit_high).
  split_and!.
  - rewrite <-(Z.shiftr_0_r (msi_data _ _ _ _ _)). message_field 0 8 Hhigh.
  - message_field 8 3 Hhigh.
  - rewrite testbit_msi_data by (done || lia). cbn. by rewrite andb_true_r, orb_false_r.
  - rewrite testbit_msi_data by (done || lia). cbn. by rewrite andb_true_r, ?orb_false_r.
  - rewrite testbit_msi_data by (done || lia). cbn. by rewrite andb_true_r.
Qed.

(** The message registered for an unmasked entry carries its fields: the
    address has the interrupt base, both destination fields, the destination
    mode and the redirection hint of the lowest-priority mode; the data has the
    vector, the delivery mode, the destination mode, the assert bit and the
    trigger mode. *)
Theorem as_msi_fields e :
  masked e = false ->
  exists address data, as_msi e = Some (address, data) /\
    Z.shiftr address 20 = MSI_ADDRESS /\
    Z.land (Z.shiftr address 12) 0xff = destination e /\
    Z.land (Z.shiftr address 4) 0xff = extended_destination e /\
    Z.testbit address 3 = (delivery_mode e =? DELIVERY_LOWEST_PRIORITY) /\
    Z.testbit address 2 = destination_mode_logical e /\
    Z.land data 0xff = vector e /\ Z.land (Z.shiftr data 8) 7 = delivery_mode e /\
    Z.testbit data 11 = destination_mode_logical e /\ Z.testbit data 14 = true /\
    Z.testbit data 15 = trigger_mode_level e.
Proof.
  intros Hm. unfold as_msi. rewrite Hm. eexists _, _; split; [done|].
  destruct (msi_address_fields (destination e) (extended_destination e) (destination_mode_logical e)
    (delivery_mode e =? DELIVERY_LOWEST_PRIORITY) (destination_u8 e) (extended_destination_u8 e))
    as (_ & ? & ? & ? & ? & ?).
  destruct (msi_data_fields (vector e) (delivery_mode e) (destination_mode_logical e) true (trigger_mode_level e)
    (vector_u8 e) (delivery_mode_u3 e)) as (? & ? & ? & ? & ?). by split_and!.
Qed.

(** * Witnesses *)

Fixpoint ioapic_run (ops : list IoApicOp) (d : IoApicDevice) : res void IoApicDevice :=
  match ops with
  | [] => Ok d
  | op :: ops => let! d := ioapic_step op d in ioapic_run ops d
  end.

(** Line 4 programmed as level-triggered with vector 0x30 and line 1 as
    edge-triggered with vector 0x31, then line 4 raised. *)
Definition program_ops : list IoApicOp :=
  [OpWrite 0xfec00000 [0x18]; OpWrite 0xfec00010 [0x30; 0x80; 0; 0];
   OpWrite 0xfec00000 [0x12]; OpWrite 0xfec00010 [0x31; 0; 0; 0]; OpSetIrq 4 true].

Definition ioapic_24 : IoApicDevice :=
  Eval vm_compute in match ioapic_new (E:=void) 24 with Ok d => d | _ => mkIoApic 0 (mkGlue [] (mkStats [] 0)) [] 0 0 end.

Definition ioapic_programmed : IoApicDevice :=
  Eval vm_compute in match ioapic_run program_ops ioapic_24 with Ok d => d | _ => ioapic_24 end.

Lemma ioapic_run_reachable ops d d' :
  reachable d -> Forall typed_op ops -> ioapic_run ops d = Ok d' -> reachable d'.
Proof.
  intros Hr Hv. revert d Hr. induction Hv as [|op ops Hop _ IH]; simpl; intros d Hr Hrun.
  - by simplify_eq.
  - apply res_bind_Ok in Hrun as (d1 & Hstep & Hrun). eapply IH; [|done]. by eapply reach_step.
Qed.

Lemma ioapic_24_reachable : reachable ioapic_24.
Proof. apply (reach_new 24); [lia|vm_compute; reflexivity]. Qed.

Lemma ioapic_programmed_reachable : reachable ioapic_programmed.
Proof.
  apply (ioapic_run_reachable program_ops ioapic_24); [apply ioapic_24_reachable| |vm_compute; reflexivity].
  repeat constructor; vm_compute; congruence.
Qed.

Lemma set_irq_delivers_witness :
  exists d', set_irq 1 true ioapic_programmed = Ok (E:=void) d' /\
    routing (glue d') = routing (glue ioapic_programmed) ++ [Assert 1].
Proof.
  destruct (set_irq_delivers ioapic_programmed 1 (mkEntry 0x31 false (as_msi 0x31))) as [(d' & Hs & Hr & _) _].
  - apply ioapic_programmed_reachable.
  - vm_compute; reflexivity.
  - lia.
  - exists d'. split; [exact Hs|exact Hr].
Defined.

Lemma eoi_redelivers_witness :
  exists d', handle_eoi 0x30 ioapic_programmed = Ok (E:=void) d' /\
    routing (glue d') = routing (glue ioapic_programmed) ++ [Assert 4].
Proof.
  destruct (eoi_redelivers ioapic_programmed 0x30) as (d' & Hs & Hr & _); [apply ioapic_programmed_reachable|].
  exists d'. split; [exact Hs|exact Hr].
Defined.

Lemma ioapic_save_restore_witness :
  exists d', restore (save ioapic_programmed) ioapic_24 = Ok d' /\ irqs d' = irqs ioapic_programmed.
Proof.
  destruct (ioapic_save_restore ioapic_programmed ioapic_24) as (d' & Hr & Hi & _);
    [apply ioapic_programmed_reachable|apply ioapic_24_reachable|reflexivity|].
  exists d'. split; [exact Hr|exact Hi].
Defined.

Lemma mmio_read_long_panics_witness :
  mmio_read IOAPIC_DEVICE_MMIO_REGION_BASE_ADDRESS 8 ioapic_24 = Panic.
Proof. apply (mmio_read_long_panics ioapic_24 8). lia. Defined.

Lemma as_msi_fields_witness :
  exists address data, as_msi 0x8130 = Some (address, data) /\
    Z.shiftr address 20 = MSI_ADDRESS /\
    Z.land (Z.shiftr address 12) 0xff = destination 0x8130 /\
    Z.land (Z.shiftr address 4) 0xff = extended_destination 0x8130 /\
    Z.testbit address 3 = (delivery_mode 0x8130 =? DELIVERY_LOWEST_PRIORITY) /\
    Z.testbit address 2 = destination_mode_logical 0x8130 /\
    Z.land data 0xff = vector 0x8130 /\ Z.land (Z.shiftr data 8) 7 = delivery_mode 0x8130 /\
    Z.testbit data 11 = destination_mode_logical 0x8130 /\ Z.testbit data 14 = true /\
    Z.testbit data 15 = trigger_mode_level 0x8130.
Proof. apply (as_msi_fields 0x8130). reflexivity. Defined.
