(* ===== verification/RingMem.v ===== *)
(** The memory behind a VMBus ring ([vm/devices/vmbus/vmbus_ring/src/lib.rs],
    [RingMem] and its implementations).

    The class [RingMem] is the trait with the contract its documentation
    states: the data portion is read and written as if it wrapped, for
    accesses up to twice its length. [FlatRingMem], [SingleMappedRingMem] and
    [PagedRingMem] implement it; the ring code of VmbusRing.v is proved against
    the class only. Bytes are [Z]s, and slices are at most [isize::MAX] bytes
    long, so [addr + data.len()] does not overflow a [usize] within the
    contract. *)

From S2P Require Import Prelude.

(** * Circular views of a byte list *)

Definition zlen {A} (l : list A) : Z := Z.of_nat (length l).

(** The byte at position [k] of the infinite periodic repetition of [l]. *)
Definition ring_byte (l : list Z) (k : Z) : Z :=
  default 0 (l !! Z.to_nat (k mod zlen l)).

Definition ring_slice (l : list Z) (a : Z) (n : nat) : list Z :=
  map (fun i => ring_byte l (a + Z.of_nat i)) (seq 0 n).

Definition ring_update (l : list Z) (a : Z) (data : list Z) : list Z :=
  map (fun j => default (ring_byte l (Z.of_nat j)) (data !! Z.to_nat ((Z.of_nat j - a) mod zlen l)))
    (seq 0 (length l)).

Lemma length_ring_slice l a n : length (ring_slice l a n) = n.
Proof. unfold ring_slice. by rewrite length_map, length_seq. Qed.

Lemma length_ring_update l a d : length (ring_update l a d) = length l.
Proof. unfold ring_update. by rewrite length_map, length_seq. Qed.

Lemma zlen_ring_update l a d : zlen (ring_update l a d) = zlen l.
Proof. unfold zlen. by rewrite length_ring_update. Qed.

Lemma lookup_map_seq {A} (f : nat -> A) n i :
  (i < n)%nat -> map f (seq 0 n) !! i = Some (f i).
Proof.
  intros. change (map f (seq 0 n)) with (f <$> seq 0 n).
  rewrite list_lookup_fmap, lookup_seq_lt by done. done.
Qed.

Lemma lookup_ring_slice l a n i :
  (i < n)%nat -> ring_slice l a n !! i = Some (ring_byte l (a + Z.of_nat i)).
Proof. intros. unfold ring_slice. by rewrite lookup_map_seq. Qed.

Lemma ring_byte_small l k :
  0 <= k < zlen l -> ring_byte l k = default 0 (l !! Z.to_nat k).
Proof. intros. unfold ring_byte. by rewrite Z.mod_small. Qed.

Lemma ring_byte_mod l k : ring_byte l (k mod zlen l) = ring_byte l k.
Proof. unfold ring_byte. by rewrite Zmod_mod. Qed.

Lemma ring_byte_update l a d k :
  0 < zlen l ->
  ring_byte (ring_update l a d) k =
  default (ring_byte l k) (d !! Z.to_nat ((k - a) mod zlen l)).
Proof.
  intros Hl. pose proof (Z.mod_pos_bound k (zlen l) Hl) as Hk.
  unfold ring_byte at 1. rewrite zlen_ring_update.
  unfold ring_update. rewrite lookup_map_seq by (unfold zlen in *; lia).
  simpl. rewrite Z2Nat.id by lia. by rewrite Zminus_mod_idemp_l, ring_byte_mod.
Qed.

Lemma ring_slice_app l a n m :
  ring_slice l a (n + m) = ring_slice l a n ++ ring_slice l (a + Z.of_nat n) m.
Proof.
  unfold ring_slice. rewrite seq_app, map_app. f_equal.
  replace (seq (0 + n) m) with (map (Nat.add n) (seq 0 m))
    by (etransitivity; [apply (fmap_add_seq n 0 m)|by rewrite Nat.add_0_r]).
  rewrite map_map. apply map_ext. intros i. f_equal. lia.
Qed.

Lemma ring_slice_mod l a n : ring_slice l (a mod zlen l) n = ring_slice l a n.
Proof.
  unfold ring_slice. apply map_ext. intros i.
  rewrite <-ring_byte_mod, Zplus_mod_idemp_l, ring_byte_mod. done.
Qed.

Lemma ring_slice_take l a n m : (n <= m)%nat -> take n (ring_slice l a m) = ring_slice l a n.
Proof.
  intros. replace m with (n + (m - n))%nat by lia. rewrite ring_slice_app.
  rewrite take_app_le by (rewrite length_ring_slice; lia).
  apply take_ge. by rewrite length_ring_slice.
Qed.

Lemma ring_slice_drop l a n m :
  (n <= m)%nat -> drop n (ring_slice l a m) = ring_slice l (a + Z.of_nat n) (m - n).
Proof.
  intros. replace m with (n + (m - n))%nat at 1 by lia. rewrite ring_slice_app.
  rewrite drop_app_ge by (rewrite length_ring_slice; lia).
  rewrite length_ring_slice, Nat.sub_diag. done.
Qed.

(** What was written is read back. *)
Lemma ring_slice_update_same l a d :
  0 < zlen l -> zlen d <= zlen l -> ring_slice (ring_update l a d) a (length d) = d.
Proof.
  intros Hl Hd. apply list_eq. intros i. destruct (decide (i < length d)%nat) as [Hi|Hi].
  - rewrite lookup_ring_slice, ring_byte_update by done.
    replace (a + Z.of_nat i - a) with (Z.of_nat i) by lia.
    rewrite Z.mod_small, Nat2Z.id by (unfold zlen in *; lia).
    destruct (lookup_lt_is_Some_2 d i Hi) as [x Hx]. by rewrite Hx.
  - rewrite !lookup_ge_None_2; [done|lia|rewrite length_ring_slice; lia].
Qed.

(** A write leaves the regions it does not touch: [b, b+n) precedes the
    written bytes and they end at most one turn after [b]. *)
Lemma ring_slice_update_disjoint l a d b n :
  0 < zlen l -> Z.of_nat n <= (a - b) mod zlen l -> (a - b) mod zlen l + zlen d <= zlen l ->
  ring_slice (ring_update l a d) b n = ring_slice l b n.
Proof.
  intros Hl Hn Hd. unfold ring_slice. apply map_ext_in. intros i Hi%in_seq.
  rewrite ring_byte_update by done. rewrite lookup_ge_None_2; [done|].
  set (q := (a - b) mod zlen l) in *. assert (0 <= zlen d) by (unfold zlen; lia).
  assert ((b + Z.of_nat i - a) mod zlen l = zlen l + Z.of_nat i - q) as ->.
  { symmetry. apply Z.mod_unique with (q := - ((a - b) / zlen l) - 1); [left; lia|].
    subst q. pose proof (Z.div_mod (a - b) (zlen l)). lia. }
  unfold zlen in *. lia.
Qed.

Lemma ring_slice_update_app l a d n :
  0 < zlen l -> Z.of_nat n + zlen d <= zlen l ->
  ring_slice (ring_update l (a + Z.of_nat n) d) a (n + length d) = ring_slice l a n ++ d.
Proof.
  intros Hl Hd. rewrite ring_slice_app. f_equal.
  - destruct (decide (d = [])) as [->|Hne].
    + unfold ring_slice. apply map_ext. intros i. by rewrite ring_byte_update.
    + assert (0 < zlen d) by (destruct d; [done|unfold zlen; simpl; lia]).
      apply ring_slice_update_disjoint; [done| |];
        rewrite Z.add_simpl_l, Z.mod_small; unfold zlen in *; lia.
  - apply ring_slice_update_same; [done|lia].
Qed.

(** Two writes in a row are one write. *)
Lemma ring_update_update l a d e :
  0 < zlen l -> zlen d + zlen e <= zlen l ->
  ring_update (ring_update l a d) (a + zlen d) e = ring_update l a (d ++ e).
Proof.
  intros Hl Hd. unfold ring_update at 1 3. rewrite length_ring_update, zlen_ring_update.
  apply map_ext_in. intros j Hj%in_seq. rewrite ring_byte_update by done.
  pose proof (Z.mod_pos_bound (Z.of_nat j - a) (zlen l) Hl) as Hb.
  set (r := (Z.of_nat j - a) mod zlen l) in *.
  destruct (Z.ltb_spec r (zlen d)).
  - rewrite (lookup_app_l d e) by (unfold zlen in *; lia).
    rewrite (lookup_ge_None_2 e); [done|].
    assert ((Z.of_nat j - (a + zlen d)) mod zlen l = r - zlen d + zlen l) as ->.
    { symmetry. apply Z.mod_unique with (q := (Z.of_nat j - a) / zlen l - 1).
      - left. unfold zlen in *. lia.
      - subst r. pose proof (Z.div_mod (Z.of_nat j - a) (zlen l)). lia. }
    unfold zlen in *. lia.
  - rewrite (lookup_ge_None_2 d) by (unfold zlen in *; lia). simpl.
    rewrite lookup_app_r by (unfold zlen in *; lia).
    assert ((Z.of_nat j - (a + zlen d)) mod zlen l = r - zlen d) as ->.
    { symmetry. apply Z.mod_unique with (q := (Z.of_nat j - a) / zlen l).
      - left. unfold zlen in *. lia.
      - subst r. pose proof (Z.div_mod (Z.of_nat j - a) (zlen l)). lia. }
    do 2 f_equal. unfold zlen in *. lia.
Qed.

Lemma ring_update_mod l a d : ring_update l (a mod zlen l) d = ring_update l a d.
Proof.
  unfold ring_update. apply map_ext. intros j. by rewrite Zminus_mod_idemp_r.
Qed.

Lemma zlen_nonneg {A} (l : list A) : 0 <= zlen l.
Proof. unfold zlen. lia. Qed.

Lemma zlen_app {A} (l k : list A) : zlen (l ++ k) = zlen l + zlen k.
Proof. unfold zlen. rewrite length_app. lia. Qed.

Lemma zlen_take {A} (l : list A) n : 0 <= n <= zlen l -> zlen (take (Z.to_nat n) l) = n.
Proof. unfold zlen. intros. rewrite length_take. lia. Qed.

Lemma zlen_drop {A} (l : list A) n : 0 <= n <= zlen l -> zlen (drop (Z.to_nat n) l) = zlen l - n.
Proof. unfold zlen. intros. rewrite length_drop. lia. Qed.

(** A contiguous access is a slice. *)
Lemma ring_slice_contiguous l a n :
  0 <= a -> a + Z.of_nat n <= zlen l -> ring_slice l a n = take n (drop (Z.to_nat a) l).
Proof.
  intros Ha Hn. apply list_eq. intros i. destruct (decide (i < n)%nat) as [Hi|Hi].
  - rewrite lookup_ring_slice, lookup_take, lookup_drop by done.
    rewrite ring_byte_small by lia.
    rewrite decide_True by done. replace (Z.to_nat (a + Z.of_nat i)) with (Z.to_nat a + i)%nat by lia.
    destruct (lookup_lt_is_Some_2 l (Z.to_nat a + i)) as [x Hx]; [unfold zlen in *; lia|].
    by rewrite Hx.
  - rewrite !lookup_ge_None_2; [done| |rewrite length_ring_slice; lia].
    rewrite length_take. lia.
Qed.

Lemma ring_update_contiguous l a d :
  0 <= a -> a + zlen d <= zlen l -> ring_update l a d = list_inserts (Z.to_nat a) d l.
Proof.
  intros Ha Hd. apply list_eq. intros j. destruct (decide (j < length l)%nat) as [Hj|Hj].
  2: { rewrite !lookup_ge_None_2; [done| |]; rewrite ?length_ring_update, ?length_inserts; lia. }
  unfold ring_update. rewrite lookup_map_seq by done.
  rewrite ring_byte_small by (unfold zlen; lia). rewrite Nat2Z.id.
  destruct (lookup_lt_is_Some_2 l j Hj) as [x Hx].
  destruct (decide (Z.of_nat j < a)) as [Hlt|Hge].
  - rewrite list_lookup_inserts_lt, Hx by lia. rewrite (lookup_ge_None_2 d); [done|].
    rewrite <-(Z_mod_plus _ 1) by (unfold zlen in *; lia).
    rewrite Z.mod_small by (unfold zlen in *; lia). unfold zlen in *. lia.
  - rewrite Z.mod_small by (unfold zlen in *; lia).
    destruct (decide (j < Z.to_nat a + length d)%nat).
    + rewrite list_lookup_inserts by lia.
      replace (Z.to_nat (Z.of_nat j - a)) with (j - Z.to_nat a)%nat by lia.
      destruct (lookup_lt_is_Some_2 d (j - Z.to_nat a)) as [y Hy]; [lia|]. by rewrite Hy.
    + rewrite list_lookup_inserts_ge, Hx, lookup_ge_None_2 by lia. done.
Qed.

Lemma ring_update_nil l a : 0 < zlen l -> ring_update l a [] = l.
Proof.
  intros Hl. rewrite <-ring_update_mod.
  pose proof (Z.mod_pos_bound a (zlen l) Hl). apply ring_update_contiguous; unfold zlen in *; simpl; lia.
Qed.

(** * The trait *)

Class RingMem (M : Type) := {
  ring_len : M -> Z;
  read_at : forall {E}, M -> Z -> Z -> res E (list Z);
  read_aligned : forall {E}, M -> Z -> Z -> res E (list Z);
  write_at : forall {E}, M -> Z -> list Z -> res E M;
  write_aligned : forall {E}, M -> Z -> list Z -> res E M;
}.

(** The provided methods: debug assertions, then the unaligned access. *)
Definition default_read_aligned {M E} (read : M -> Z -> Z -> res E (list Z))
    (m : M) (addr n : Z) : res E (list Z) :=
  assert! addr mod 8 =? 0 in
  assert! n mod 8 =? 0 in
  read m addr n.

Definition default_write_aligned {M E} (write : M -> Z -> list Z -> res E M)
    (m : M) (addr : Z) (data : list Z) : res E M :=
  assert! addr mod 8 =? 0 in
  assert! zlen data mod 8 =? 0 in
  write m addr data.

(** The contract: [ring_bytes] is the data portion, and an access of at most
    [2 * len - addr] bytes wraps at its end. *)
Class RingMemOk (M : Type) `{RingMem M} := {
  ring_bytes : M -> list Z;
  ring_wf : M -> Prop;
  ring_len_bytes m : ring_wf m -> ring_len m = zlen (ring_bytes m);
  ring_len_pos m : ring_wf m -> 0 < ring_len m;
  read_at_spec {E} m addr n :
    ring_wf m -> 0 <= addr -> 0 <= n -> addr + n <= 2 * ring_len m ->
    read_at m addr n = Ok (E:=E) (ring_slice (ring_bytes m) addr (Z.to_nat n));
  read_aligned_spec {E} m addr n :
    ring_wf m -> 0 <= addr -> 0 <= n -> addr + n <= 2 * ring_len m ->
    addr mod 8 = 0 -> n mod 8 = 0 ->
    read_aligned m addr n = Ok (E:=E) (ring_slice (ring_bytes m) addr (Z.to_nat n));
  write_at_spec {E} m addr data :
    ring_wf m -> 0 <= addr -> addr + zlen data <= 2 * ring_len m -> zlen data <= ring_len m ->
    exists m', write_at m addr data = Ok (E:=E) m' /\ ring_wf m' /\
      ring_bytes m' = ring_update (ring_bytes m) addr data;
  write_aligned_spec {E} m addr data :
    ring_wf m -> 0 <= addr -> addr + zlen data <= 2 * ring_len m -> zlen data <= ring_len m ->
    addr mod 8 = 0 -> zlen data mod 8 = 0 ->
    exists m', write_aligned m addr data = Ok (E:=E) m' /\ ring_wf m' /\
      ring_bytes m' = ring_update (ring_bytes m) addr data;
}.

(** * Flat memories *)

(** The access of [FlatRingMem] and [SingleMappedRingMem] once [addr] has been
    brought below the length: one slice, or two when it crosses the end. *)
Definition split_read {E} (this_data : list Z) (addr n : Z) : res E (list Z) :=
  if addr + n <=? zlen this_data then slice_get this_data addr (addr + n)
  else
    let! k := usub (zlen this_data) addr in
    assert! k <=? n in
    let! first := slice_get this_data addr (zlen this_data) in
    let! last := slice_get this_data 0 (n - k) in
    Ok (first ++ last).

Definition split_write {E} (this_data : list Z) (addr : Z) (data : list Z) : res E (list Z) :=
  if addr + zlen data <=? zlen this_data then slice_set this_data addr data
  else
    let! k := usub (zlen this_data) addr in
    assert! k <=? zlen data in
    let! this_data := slice_set this_data addr (take (Z.to_nat k) data) in
    slice_set this_data 0 (drop (Z.to_nat k) data).

Lemma split_read_ok {E} l addr n :
  0 <= addr <= zlen l -> 0 <= n -> addr + n <= 2 * zlen l ->
  split_read l addr n = Ok (E:=E) (ring_slice l addr (Z.to_nat n)).
Proof.
  intros Ha Hn H2. unfold split_read. destruct (Z.leb_spec (addr + n) (zlen l)).
  - rewrite slice_get_ok by (unfold zlen in *; lia).
    rewrite ring_slice_contiguous by lia. do 3 f_equal. lia.
  - unfold usub. destruct (Z.leb_spec addr (zlen l)); [|lia]. cbn [res_bind].
    destruct (Z.leb_spec (zlen l - addr) n); [|lia].
    rewrite !slice_get_ok by (unfold zlen in *; lia). cbn [res_bind]. f_equal.
    replace (Z.to_nat n) with (Z.to_nat (zlen l - addr) + Z.to_nat (n - (zlen l - addr)))%nat by lia.
    rewrite ring_slice_app. f_equal.
    + symmetry. apply ring_slice_contiguous; lia.
    + rewrite <-ring_slice_mod. replace (addr + Z.of_nat (Z.to_nat (zlen l - addr))) with (zlen l) by lia.
      rewrite Z_mod_same_full, ring_slice_contiguous by lia.
      by rewrite Z.sub_0_r.
Qed.

Lemma split_write_ok {E} l addr data :
  0 < zlen l -> 0 <= addr <= zlen l -> zlen data <= zlen l ->
  split_write l addr data = Ok (E:=E) (ring_update l addr data).
Proof.
  intros Hl Ha Hd. unfold split_write. destruct (Z.leb_spec (addr + zlen data) (zlen l)).
  - rewrite slice_set_ok by (unfold zlen in *; lia). by rewrite ring_update_contiguous by lia.
  - unfold usub. destruct (Z.leb_spec addr (zlen l)); [|lia]. cbn [res_bind].
    set (k := zlen l - addr). destruct (Z.leb_spec k (zlen data)); [|lia].
    assert (zlen (take (Z.to_nat k) data) = k) as Hk by (apply zlen_take; lia).
    pose proof (zlen_drop data k) as Hdrop.
    rewrite slice_set_ok by (unfold zlen in *; lia).
    cbn [res_bind]. rewrite <-ring_update_contiguous by lia.
    rewrite slice_set_ok by (unfold zlen in *; rewrite ?length_ring_update; lia).
    rewrite <-(ring_update_contiguous _ 0) by (rewrite ?zlen_ring_update; lia).
    f_equal. rewrite <-(take_drop (Z.to_nat k) data) at 3.
    rewrite <-ring_update_update by lia.
    rewrite <-(ring_update_mod _ (addr + zlen _)), zlen_ring_update, Hk.
    replace (addr + k) with (zlen l) by lia. by rewrite Z_mod_same_full.
Qed.

(** [addr -= len] once, for [addr] past the end. *)
Lemma ring_slice_sub l addr n : ring_slice l (addr - zlen l) n = ring_slice l addr n.
Proof.
  rewrite <-(ring_slice_mod l (addr - _)), <-(ring_slice_mod l addr). f_equal.
  rewrite <-(Zminus_mod_idemp_r addr), Z_mod_same_full, Z.sub_0_r. done.
Qed.

Lemma ring_update_sub l addr d : ring_update l (addr - zlen l) d = ring_update l addr d.
Proof.
  rewrite <-(ring_update_mod l (addr - _)), <-(ring_update_mod l addr). f_equal.
  rewrite <-(Zminus_mod_idemp_r addr), Z_mod_same_full, Z.sub_0_r. done.
Qed.

(** [FlatRingMem]. *)
Record FlatRingMem : Type := mkFlatRingMem { flat_data : list Z }.

Definition flat_new (len : nat) : FlatRingMem := mkFlatRingMem (replicate len 0).

Definition flat_read_at {E} (m : FlatRingMem) (addr n : Z) : res E (list Z) :=
  let len := zlen (flat_data m) in
  let addr := if len <? addr then addr - len else addr in
  split_read (flat_data m) addr n.

Definition flat_write_at {E} (m : FlatRingMem) (addr : Z) (data : list Z) : res E FlatRingMem :=
  let len := zlen (flat_data m) in
  let addr := if len <? addr then addr - len else addr in
  let! d := split_write (flat_data m) addr data in
  Ok (mkFlatRingMem d).

#[export] Instance FlatRingMem_mem : RingMem FlatRingMem := {|
  ring_len m := zlen (flat_data m);
  read_at := @flat_read_at;
  read_aligned E := default_read_aligned (E:=E) flat_read_at;
  write_at := @flat_write_at;
  write_aligned E := default_write_aligned (E:=E) flat_write_at;
|}.

(** [SingleMappedRingMem]: the control page, then the data. *)
Definition PAGE_SIZE : Z := 4096.

Record SingleMappedRingMem : Type := mkSingleMapped { mapped : list Z }.

Definition single_data (m : SingleMappedRingMem) : list Z := drop (Z.to_nat PAGE_SIZE) (mapped m).

Definition single_read_at {E} (m : SingleMappedRingMem) (addr n : Z) : res E (list Z) :=
  let len := zlen (single_data m) in
  let addr := if len <=? addr then addr - len else addr in
  split_read (single_data m) addr n.

Definition single_write_at {E} (m : SingleMappedRingMem) (addr : Z) (data : list Z)
  : res E SingleMappedRingMem :=
  let len := zlen (single_data m) in
  let addr := if len <? addr then addr - len else addr in
  let! d := split_write (single_data m) addr data in
  Ok (mkSingleMapped (take (Z.to_nat PAGE_SIZE) (mapped m) ++ d)).

#[export] Instance SingleMappedRingMem_mem : RingMem SingleMappedRingMem := {|
  ring_len m := zlen (single_data m);
  read_at := @single_read_at;
  read_aligned E := default_read_aligned (E:=E) single_read_at;
  write_at := @single_write_at;
  write_aligned E := default_write_aligned (E:=E) single_write_at;
|}.

(** Both wrap tests, [>] and [>=], read the same bytes. *)
Lemma wrap_read_ok {E} l addr a n :
  0 < zlen l -> (a = addr /\ addr <= zlen l \/ a = addr - zlen l /\ zlen l <= addr) ->
  0 <= addr -> 0 <= n -> addr + n <= 2 * zlen l ->
  split_read l a n = Ok (E:=E) (ring_slice l addr (Z.to_nat n)).
Proof.
  intros Hl [[-> ?]|[-> ?]] ? ? ?; [apply split_read_ok; lia|].
  rewrite split_read_ok by lia. by rewrite ring_slice_sub.
Qed.

Lemma wrap_write_ok {E} l addr a data :
  0 < zlen l -> (a = addr /\ addr <= zlen l \/ a = addr - zlen l /\ zlen l <= addr) ->
  0 <= addr -> addr + zlen data <= 2 * zlen l -> zlen data <= zlen l ->
  split_write l a data = Ok (E:=E) (ring_update l addr data).
Proof.
  intros Hl [[-> ?]|[-> ?]] ? ? ?; [apply split_write_ok; lia|].
  pose proof (zlen_nonneg data). rewrite split_write_ok by lia. by rewrite ring_update_sub.
Qed.

Lemma flat_read_ok {E} m addr n :
  0 < zlen (flat_data m) -> 0 <= addr -> 0 <= n -> addr + n <= 2 * zlen (flat_data m) ->
  flat_read_at m addr n = Ok (E:=E) (ring_slice (flat_data m) addr (Z.to_nat n)).
Proof.
  intros. apply wrap_read_ok; try done. destruct (Z.ltb_spec (zlen (flat_data m)) addr); lia.
Qed.

Lemma flat_write_ok {E} m addr data :
  0 < zlen (flat_data m) -> 0 <= addr -> addr + zlen data <= 2 * zlen (flat_data m) ->
  zlen data <= zlen (flat_data m) ->
  flat_write_at m addr data = Ok (E:=E) (mkFlatRingMem (ring_update (flat_data m) addr data)).
Proof.
  intros. unfold flat_write_at. rewrite (wrap_write_ok _ addr); try done.
  destruct (Z.ltb_spec (zlen (flat_data m)) addr); lia.
Qed.

Lemma default_read_aligned_ok {M E} (read : M -> Z -> Z -> res E (list Z)) m addr n :
  addr mod 8 = 0 -> n mod 8 = 0 -> default_read_aligned read m addr n = read m addr n.
Proof. intros Ha Hn. unfold default_read_aligned. by rewrite Ha, Hn. Qed.

Lemma default_write_aligned_ok {M E} (write : M -> Z -> list Z -> res E M) m addr data :
  addr mod 8 = 0 -> zlen data mod 8 = 0 -> default_write_aligned write m addr data = write m addr data.
Proof. intros Ha Hn. unfold default_write_aligned. by rewrite Ha, Hn. Qed.

#[export] Program Instance FlatRingMem_ok : RingMemOk FlatRingMem := {|
  ring_bytes := flat_data;
  ring_wf m := 0 < zlen (flat_data m);
|}.
Next Obligation. done. Qed.
Next Obligation. done. Qed.
Next Obligation. intros. by apply flat_read_ok. Qed.
Next Obligation. intros. simpl. rewrite default_read_aligned_ok by done. by apply flat_read_ok. Qed.
Next Obligation.
  intros. simpl. rewrite flat_write_ok by done. eexists; split_and!; [done| |done].
  simpl. by rewrite zlen_ring_update.
Qed.
Next Obligation.
  intros. simpl. rewrite default_write_aligned_ok, flat_write_ok by done.
  eexists; split_and!; [done| |done]. simpl. by rewrite zlen_ring_update.
Qed.

Lemma single_read_ok {E} m addr n :
  0 < zlen (single_data m) -> 0 <= addr -> 0 <= n -> addr + n <= 2 * zlen (single_data m) ->
  single_read_at m addr n = Ok (E:=E) (ring_slice (single_data m) addr (Z.to_nat n)).
Proof.
  intros. apply wrap_read_ok; try done. destruct (Z.leb_spec (zlen (single_data m)) addr); lia.
Qed.

Lemma single_write_ok {E} m addr data :
  0 < zlen (single_data m) -> 0 <= addr -> addr + zlen data <= 2 * zlen (single_data m) ->
  zlen data <= zlen (single_data m) ->
  exists m', single_write_at m addr data = Ok (E:=E) m' /\
    single_data m' = ring_update (single_data m) addr data.
Proof.
  intros Hl ? ? ?. unfold single_write_at. rewrite (wrap_write_ok _ addr); try done.
  - eexists; split; [reflexivity|]. unfold single_data at 1. simpl.
    rewrite drop_app_ge; rewrite length_take; unfold single_data, zlen in Hl;
      rewrite length_drop in Hl; [|lia].
    replace (Z.to_nat PAGE_SIZE - _)%nat with 0%nat by lia. done.
  - destruct (Z.ltb_spec (zlen (single_data m)) addr); lia.
Qed.

#[export] Program Instance SingleMappedRingMem_ok : RingMemOk SingleMappedRingMem := {|
  ring_bytes := single_data;
  ring_wf m := 0 < zlen (single_data m);
|}.
Next Obligation. done. Qed.
Next Obligation. done. Qed.
Next Obligation. intros. by apply single_read_ok. Qed.
Next Obligation. intros. simpl. rewrite default_read_aligned_ok by done. by apply single_read_ok. Qed.
Next Obligation.
  intros E m addr data ? ? ? ?. destruct (single_write_ok (E:=E) m addr data) as (m' & ? & Heq); try done.
  exists m'; split_and!; [done| |done]. by rewrite Heq, zlen_ring_update.
Qed.
Next Obligation.
  intros E m addr data ? ? ? ? ? ?. simpl. rewrite default_write_aligned_ok by done.
  destruct (single_write_ok (E:=E) m addr data) as (m' & ? & Heq); try done.
  exists m'; split_and!; [done| |done]. by rewrite Heq, zlen_ring_update.
Qed.

(** * Discontiguous pages *)

(** [PagedRingMem] over a [PagedMemory]: the data pages in order. The trait
    requires [data(page)] to return the same page for [page] and
    [page + data_page_count], below twice the count. *)
Record PagedRingMem : Type := mkPaged { data_pages : list (list Z) }.

Definition data_page_count (m : PagedRingMem) : Z := zlen (data_pages m).

Definition page_index {E} (m : PagedRingMem) (page : Z) : res E Z :=
  if (0 <=? page) && (page <? 2 * data_page_count m) then Ok (page mod data_page_count m) else Panic.

Definition page_read {E} (m : PagedRingMem) (page offset offset_end : Z) : res E (list Z) :=
  let! i := page_index m page in
  let! p := vec_get (data_pages m) i in
  slice_get p offset offset_end.

Definition page_write {E} (m : PagedRingMem) (page offset : Z) (data : list Z) : res E PagedRingMem :=
  let! i := page_index m page in
  let! p := vec_get (data_pages m) i in
  let! p := slice_set p offset data in
  let! ps := vec_set (data_pages m) i p in
  Ok (mkPaged ps).

(** The loop of [read_at]; every turn reads at least one byte, so [n] turns of
    fuel are enough. *)
Fixpoint paged_read_loop {E} (fuel : nat) (m : PagedRingMem) (addr n : Z) : res E (list Z) :=
  if n =? 0 then Ok []
  else match fuel with
       | O => Panic
       | S fuel =>
           let page := addr / PAGE_SIZE in
           let offset := addr mod PAGE_SIZE in
           let offset_end := Z.min PAGE_SIZE (offset + n) in
           let len := offset_end - offset in
           let! this := page_read m page offset offset_end in
           let! next := paged_read_loop fuel m (addr + len) (n - len) in
           Ok (this ++ next)
       end.

Definition paged_read_at {E} (m : PagedRingMem) (addr n : Z) : res E (list Z) :=
  paged_read_loop (Z.to_nat n) m addr n.

Fixpoint paged_write_loop {E} (fuel : nat) (m : PagedRingMem) (addr : Z) (data : list Z)
  : res E PagedRingMem :=
  match data with
  | [] => Ok m
  | _ =>
      match fuel with
      | O => Panic
      | S fuel =>
          let page := addr / PAGE_SIZE in
          let offset := addr mod PAGE_SIZE in
          let offset_end := Z.min PAGE_SIZE (offset + zlen data) in
          let len := offset_end - offset in
          let! m := page_write m page offset (take (Z.to_nat len) data) in
          paged_write_loop fuel m (addr + len) (drop (Z.to_nat len) data)
      end
  end.

Definition paged_write_at {E} (m : PagedRingMem) (addr : Z) (data : list Z) : res E PagedRingMem :=
  paged_write_loop (length data) m addr data.

(** The loops of [read_aligned] and [write_aligned] over eight-byte chunks. *)
Fixpoint paged_read_chunks {E} (chunks : nat) (m : PagedRingMem) (addr i : Z) : res E (list Z) :=
  match chunks with
  | O => Ok []
  | S chunks =>
      let a := Z.ldiff addr 7 + i * 8 in
      let offset := a mod PAGE_SIZE in
      let! b := page_read m (a / PAGE_SIZE) offset (offset + 8) in
      let! rest := paged_read_chunks chunks m addr (i + 1) in
      Ok (b ++ rest)
  end.

Definition paged_read_aligned {E} (m : PagedRingMem) (addr n : Z) : res E (list Z) :=
  assert! addr mod 8 =? 0 in
  assert! n mod 8 =? 0 in
  paged_read_chunks (Z.to_nat (n / 8)) m addr 0.

Fixpoint paged_write_chunks {E} (chunks : nat) (m : PagedRingMem) (addr i : Z) (data : list Z)
  : res E PagedRingMem :=
  match chunks with
  | O => Ok m
  | S chunks =>
      let a := Z.ldiff addr 7 + i * 8 in
      let! m := page_write m (a / PAGE_SIZE) (a mod PAGE_SIZE) (take 8 data) in
      paged_write_chunks chunks m addr (i + 1) (drop 8 data)
  end.

Definition paged_write_aligned {E} (m : PagedRingMem) (addr : Z) (data : list Z) : res E PagedRingMem :=
  assert! addr mod 8 =? 0 in
  assert! zlen data mod 8 =? 0 in
  paged_write_chunks (Z.to_nat (zlen data / 8)) m addr 0 data.

#[export] Instance PagedRingMem_mem : RingMem PagedRingMem := {|
  ring_len m := data_page_count m * PAGE_SIZE;
  read_at := @paged_read_at;
  read_aligned := @paged_read_aligned;
  write_at := @paged_write_at;
  write_aligned := @paged_write_aligned;
|}.

Definition paged_wf (m : PagedRingMem) : Prop :=
  0 < data_page_count m /\ Forall (fun p => zlen p = PAGE_SIZE) (data_pages m).

Definition paged_bytes (m : PagedRingMem) : list Z := concat (data_pages m).

Section uniform.
Context {A : Type} (s : nat).

Lemma length_concat_uniform (ls : list (list A)) :
  Forall (fun p => length p = s) ls -> length (concat ls) = (length ls * s)%nat.
Proof. induction 1; simpl; [done|]. rewrite length_app. lia. Qed.

Lemma concat_drop_uniform (ls : list (list A)) i p :
  Forall (fun p => length p = s) ls -> ls !! i = Some p ->
  exists pre post, concat ls = pre ++ p ++ post /\ length pre = (i * s)%nat.
Proof.
  intros Hf. revert i. induction Hf as [|q ls Hq _ IH]; intros [|i] Hi; simplify_eq/=.
  - by exists [], (concat ls).
  - destruct (IH i Hi) as (pre & post & -> & Hpre). exists (q ++ pre), post.
    rewrite <-app_assoc. split; [done|]. rewrite length_app. lia.
Qed.

Lemma list_inserts_prefix (q r : list A) off d :
  (off + length d <= length q)%nat -> list_inserts off d (q ++ r) = list_inserts off d q ++ r.
Proof.
  revert off. induction d as [|x d IH]; simpl; intros off Hd; [done|].
  rewrite IH by lia. apply insert_app_l. rewrite length_inserts. lia.
Qed.

Lemma concat_insert_uniform (ls : list (list A)) i p off d :
  Forall (fun p => length p = s) ls -> ls !! i = Some p -> (off + length d <= s)%nat ->
  concat (<[i := list_inserts off d p]> ls) = list_inserts (i * s + off) d (concat ls).
Proof.
  intros Hf. revert i. induction Hf as [|q ls Hq _ IH]; intros [|i] Hi Hd; simplify_eq/=.
  - by rewrite list_inserts_prefix by lia.
  - rewrite IH by done.
    replace (length q + i * length q + off)%nat with (length q + (i * length q + off))%nat by lia.
    by rewrite <-list_inserts_app_r.
Qed.
End uniform.

Lemma paged_uniform m :
  paged_wf m -> Forall (fun p => length p = Z.to_nat PAGE_SIZE) (data_pages m).
Proof. intros [_ H]. eapply Forall_impl; [|exact H]. unfold zlen. intros p Hp. lia. Qed.

Lemma zlen_paged_bytes m : paged_wf m -> zlen (paged_bytes m) = data_page_count m * PAGE_SIZE.
Proof.
  intros Hwf. unfold zlen, paged_bytes, data_page_count, zlen.
  rewrite (length_concat_uniform (Z.to_nat PAGE_SIZE)) by (by apply paged_uniform).
  unfold PAGE_SIZE. lia.
Qed.

Lemma paged_bytes_pos m : paged_wf m -> 0 < zlen (paged_bytes m).
Proof. intros Hwf. rewrite zlen_paged_bytes by done. destruct Hwf. unfold PAGE_SIZE. lia. Qed.

(** The position of an address in the pages. *)
Lemma page_position {E} m addr :
  paged_wf m -> 0 <= addr < 2 * (data_page_count m * PAGE_SIZE) ->
  exists i p,
    page_index (E:=E) m (addr / PAGE_SIZE) = Ok i /\ 0 <= i < data_page_count m /\
    data_pages m !! Z.to_nat i = Some p /\ zlen p = PAGE_SIZE /\
    addr mod zlen (paged_bytes m) = i * PAGE_SIZE + addr mod PAGE_SIZE.
Proof.
  intros Hwf Ha. pose proof (zlen_paged_bytes m Hwf) as Hlen. destruct Hwf as [Hc Hf].
  assert (0 < PAGE_SIZE) by done.
  set (i := (addr / PAGE_SIZE) mod data_page_count m).
  assert (0 <= i < data_page_count m) as Hi by (apply Z.mod_pos_bound; done).
  destruct (lookup_lt_is_Some_2 (data_pages m) (Z.to_nat i)) as [p Hp];
    [unfold data_page_count, zlen in *; lia|].
  exists i, p. split_and!; try done; try lia.
  - unfold page_index. assert (0 <= addr / PAGE_SIZE) by (apply Z.div_pos; lia).
    assert (addr / PAGE_SIZE < 2 * data_page_count m) by (apply Z.div_lt_upper_bound; lia).
    destruct (Z.leb_spec 0 (addr / PAGE_SIZE)), (Z.ltb_spec (addr / PAGE_SIZE) (2 * data_page_count m));
      try lia. done.
  - by eapply Forall_lookup_1 in Hf.
  - rewrite Hlen, (Z.mul_comm (data_page_count m)), Z.rem_mul_r by lia. subst i. lia.
Qed.

Lemma page_read_ok {E} m addr k :
  paged_wf m -> 0 <= addr < 2 * (data_page_count m * PAGE_SIZE) ->
  0 <= k -> addr mod PAGE_SIZE + k <= PAGE_SIZE ->
  page_read m (addr / PAGE_SIZE) (addr mod PAGE_SIZE) (addr mod PAGE_SIZE + k)
    = Ok (E:=E) (ring_slice (paged_bytes m) addr (Z.to_nat k)).
Proof.
  intros Hwf Ha Hk Hend. destruct (page_position (E:=E) m addr Hwf Ha) as (i & p & Hi & Hir & Hp & Hlp & Hmod).
  assert (0 <= addr mod PAGE_SIZE < PAGE_SIZE) as Ho by (apply Z.mod_pos_bound; done).
  unfold page_read. rewrite Hi. cbn [res_bind]. unfold vec_get. rewrite Hp.
  destruct (Z.leb_spec 0 i); [|lia]. cbn [res_bind].
  rewrite slice_get_ok by (unfold zlen in *; lia). f_equal.
  rewrite <-ring_slice_mod, Hmod.
  destruct (concat_drop_uniform (Z.to_nat PAGE_SIZE) (data_pages m) (Z.to_nat i) p)
    as (pre & post & Hcat & Hpre); [by apply paged_uniform|done|].
  rewrite ring_slice_contiguous; [|lia|].
  - unfold paged_bytes. rewrite Hcat, drop_app_ge by (unfold PAGE_SIZE in *; lia).
    replace (Z.to_nat (i * PAGE_SIZE + addr mod PAGE_SIZE) - length pre)%nat
      with (Z.to_nat (addr mod PAGE_SIZE)) by (unfold PAGE_SIZE in *; lia).
    rewrite Z.add_simpl_l. rewrite drop_app_le by (unfold zlen in *; lia).
    rewrite take_app_le; [done|]. rewrite length_drop. unfold zlen in *. lia.
  - rewrite zlen_paged_bytes by done. unfold PAGE_SIZE in *. nia.
Qed.

Lemma page_write_ok {E} m addr d :
  paged_wf m -> 0 <= addr < 2 * (data_page_count m * PAGE_SIZE) ->
  addr mod PAGE_SIZE + zlen d <= PAGE_SIZE ->
  exists m', page_write m (addr / PAGE_SIZE) (addr mod PAGE_SIZE) d = Ok (E:=E) m' /\
    paged_wf m' /\ data_page_count m' = data_page_count m /\
    paged_bytes m' = ring_update (paged_bytes m) addr d.
Proof.
  intros Hwf Ha Hend. destruct (page_position (E:=E) m addr Hwf Ha) as (i & p & Hi & Hir & Hp & Hlp & Hmod).
  assert (0 <= addr mod PAGE_SIZE < PAGE_SIZE) as Ho by (apply Z.mod_pos_bound; done).
  unfold page_write. rewrite Hi. cbn [res_bind]. unfold vec_get. rewrite Hp.
  destruct (Z.leb_spec 0 i); [|lia]. cbn [res_bind].
  rewrite slice_set_ok by (unfold zlen in *; lia). cbn [res_bind].
  rewrite vec_set_ok by (unfold data_page_count, zlen in *; lia). cbn [res_bind].
  eexists; split_and!; [reflexivity| | |].
  - destruct Hwf as [Hc Hf]. split; [unfold data_page_count, zlen in *; simpl; by rewrite length_insert|].
    simpl. apply Forall_insert; [done|]. unfold zlen in *. by rewrite length_inserts.
  - unfold data_page_count, zlen. simpl. by rewrite length_insert.
  - unfold paged_bytes at 1. simpl.
    rewrite (concat_insert_uniform (Z.to_nat PAGE_SIZE))
      by (by apply paged_uniform || done || (unfold zlen in *; lia)).
    rewrite <-ring_update_mod, Hmod, ring_update_contiguous; [|unfold PAGE_SIZE in *; lia|].
    + unfold paged_bytes. f_equal. unfold PAGE_SIZE in *. lia.
    + rewrite zlen_paged_bytes by done. unfold PAGE_SIZE in *. nia.
Qed.

Lemma paged_read_loop_ok {E} fuel m addr n :
  paged_wf m -> 0 <= addr -> 0 <= n <= Z.of_nat fuel ->
  addr + n <= 2 * (data_page_count m * PAGE_SIZE) ->
  paged_read_loop fuel m addr n = Ok (E:=E) (ring_slice (paged_bytes m) addr (Z.to_nat n)).
Proof.
  intros Hwf. revert addr n. induction fuel as [|fuel IH]; intros addr n Ha Hn Hend; simpl.
  { replace n with 0 by lia. done. }
  destruct (Z.eqb_spec n 0) as [->|Hne]; [done|].
  assert (0 <= addr mod PAGE_SIZE < PAGE_SIZE) as Ho by (apply Z.mod_pos_bound; done).
  set (len := Z.min PAGE_SIZE (addr mod PAGE_SIZE + n) - addr mod PAGE_SIZE).
  replace (Z.min _ _) with (addr mod PAGE_SIZE + len) by lia.
  assert (0 < len <= n) by lia.
  rewrite page_read_ok by (done || lia). cbn [res_bind].
  rewrite IH by lia. cbn [res_bind]. f_equal.
  replace (Z.to_nat n) with (Z.to_nat len + Z.to_nat (n - len))%nat by lia.
  rewrite ring_slice_app. do 3 f_equal. lia.
Qed.

Lemma paged_write_loop_ok {E} fuel m addr d :
  paged_wf m -> 0 <= addr -> (length d <= fuel)%nat ->
  addr + zlen d <= 2 * (data_page_count m * PAGE_SIZE) ->
  zlen d <= data_page_count m * PAGE_SIZE ->
  exists m', paged_write_loop fuel m addr d = Ok (E:=E) m' /\ paged_wf m' /\
    paged_bytes m' = ring_update (paged_bytes m) addr d.
Proof.
  revert m addr d. induction fuel as [|fuel IH]; intros m addr d Hwf Ha Hf Hend Hd.
  all: destruct (decide (d = [])) as [->|Hne].
  - exists m; split_and!; [done|done|]. by rewrite ring_update_nil by (by apply paged_bytes_pos).
  - destruct d; simpl in *; [done|lia].
  - exists m; split_and!; [done|done|]. by rewrite ring_update_nil by (by apply paged_bytes_pos).
  - assert (0 < zlen d) by (destruct d; [done|unfold zlen; simpl; lia]).
    assert (0 <= addr mod PAGE_SIZE < PAGE_SIZE) as Ho by (apply Z.mod_pos_bound; done).
    assert (paged_write_loop (E:=E) (S fuel) m addr d =
      let len := Z.min PAGE_SIZE (addr mod PAGE_SIZE + zlen d) - addr mod PAGE_SIZE in
      let! m := page_write m (addr / PAGE_SIZE) (addr mod PAGE_SIZE) (take (Z.to_nat len) d) in
      paged_write_loop fuel m (addr + len) (drop (Z.to_nat len) d)) as -> by (by destruct d).
    set (len := Z.min PAGE_SIZE (addr mod PAGE_SIZE + zlen d) - addr mod PAGE_SIZE). cbv zeta.
    assert (0 < len <= zlen d) by lia.
    pose proof (zlen_take d len ltac:(lia)) as Ht. pose proof (zlen_drop d len ltac:(lia)) as Hdr.
    destruct (page_write_ok (E:=E) m addr (take (Z.to_nat len) d)) as (m1 & -> & Hwf1 & Hc1 & Hb1);
      [done|lia|lia|]. cbn [res_bind].
    destruct (IH m1 (addr + len) (drop (Z.to_nat len) d)) as (m2 & -> & Hwf2 & Hb2);
      rewrite ?Hc1; [done|lia|unfold zlen in *; lia|lia|lia|].
    exists m2; split_and!; [done|done|]. rewrite Hb2, Hb1.
    replace (addr + len) with (addr + zlen (take (Z.to_nat len) d)) by lia.
    pose proof (zlen_paged_bytes m Hwf).
    rewrite ring_update_update by lia. by rewrite take_drop.
Qed.

Lemma ldiff_aligned addr : 0 <= addr -> addr mod 8 = 0 -> Z.ldiff addr 7 = addr.
Proof.
  intros Ha Hm. change 7 with (Z.ones 3).
  rewrite Z.ldiff_ones_r, Z.shiftr_div_pow2, Z.shiftl_mul_pow2 by lia.
  change (2 ^ 3) with 8. pose proof (Z.div_mod addr 8). lia.
Qed.

(** An aligned eight-byte chunk lies in one page. *)
Lemma chunk_in_page a : a mod 8 = 0 -> a mod PAGE_SIZE + 8 <= PAGE_SIZE.
Proof.
  intros Ha. unfold PAGE_SIZE. change 4096 with (8 * 512).
  rewrite Z.rem_mul_r, Ha by lia. pose proof (Z.mod_pos_bound (a / 8) 512). lia.
Qed.

Lemma paged_read_chunks_ok {E} chunks m addr i :
  paged_wf m -> 0 <= addr -> 0 <= i -> addr mod 8 = 0 ->
  addr + i * 8 + Z.of_nat chunks * 8 <= 2 * (data_page_count m * PAGE_SIZE) ->
  paged_read_chunks chunks m addr i
    = Ok (E:=E) (ring_slice (paged_bytes m) (addr + i * 8) (chunks * 8)).
Proof.
  intros Hwf Ha Hi Hal. revert i Hi. induction chunks as [|chunks IH]; intros i Hi Hend; [done|].
  cbn [paged_read_chunks]. rewrite ldiff_aligned by done.
  assert ((addr + i * 8) mod 8 = 0) by (by rewrite Z_mod_plus_full).
  rewrite page_read_ok by (done || lia || by apply chunk_in_page). cbn [res_bind].
  rewrite IH by lia. cbn [res_bind]. f_equal.
  replace (S chunks * 8)%nat with (Z.to_nat 8 + chunks * 8)%nat by lia.
  rewrite ring_slice_app. do 2 f_equal. lia.
Qed.

Lemma paged_write_chunks_ok {E} chunks m addr i d :
  paged_wf m -> 0 <= addr -> 0 <= i -> addr mod 8 = 0 -> length d = (chunks * 8)%nat ->
  addr + i * 8 + zlen d <= 2 * (data_page_count m * PAGE_SIZE) ->
  zlen d <= data_page_count m * PAGE_SIZE ->
  exists m', paged_write_chunks chunks m addr i d = Ok (E:=E) m' /\ paged_wf m' /\
    paged_bytes m' = ring_update (paged_bytes m) (addr + i * 8) d.
Proof.
  intros Hwf Ha Hi Hal. revert m i d Hwf Hi.
  induction chunks as [|chunks IH]; intros m i d Hwf Hi Hl Hend Hd.
  { apply length_zero_iff_nil in Hl as ->. exists m; split_and!; [done|done|].
    by rewrite ring_update_nil by (by apply paged_bytes_pos). }
  cbn [paged_write_chunks]. rewrite ldiff_aligned by done.
  assert ((addr + i * 8) mod 8 = 0) by (by rewrite Z_mod_plus_full).
  assert (zlen d = 8 + Z.of_nat (chunks * 8)) by (unfold zlen; lia).
  assert (zlen (take 8 d) = 8) as Ht by (unfold zlen; rewrite length_take; lia).
  assert (zlen (drop 8 d) = zlen d - 8) as Hdr by (unfold zlen in *; rewrite length_drop; lia).
  destruct (page_write_ok (E:=E) m (addr + i * 8) (take 8 d)) as (m1 & -> & Hwf1 & Hc1 & Hb1);
    [done|lia|rewrite Ht; by apply chunk_in_page|]. cbn [res_bind].
  destruct (IH m1 (i + 1) (drop 8 d)) as (m2 & -> & Hwf2 & Hb2); rewrite ?Hc1;
    [done|lia|rewrite length_drop; lia|lia|lia|].
  exists m2; split_and!; [done|done|]. rewrite Hb2, Hb1.
  replace (addr + (i + 1) * 8) with (addr + i * 8 + zlen (take 8 d)) by lia.
  pose proof (zlen_paged_bytes m Hwf). rewrite ring_update_update by lia. by rewrite take_drop.
Qed.

#[export] Program Instance PagedRingMem_ok : RingMemOk PagedRingMem := {|
  ring_bytes := paged_bytes;
  ring_wf := paged_wf;
|}.
Next Obligation. intros m Hwf. by rewrite zlen_paged_bytes. Qed.
Next Obligation. intros m [? _]. simpl. unfold PAGE_SIZE. lia. Qed.
Next Obligation. intros. apply paged_read_loop_ok; simpl in *; done || lia. Qed.
Next Obligation.
  intros E m addr n Hwf Ha Hn Hend Hal Hn8. simpl in *. unfold paged_read_aligned.
  rewrite Hal, Hn8. cbn [Z.eqb]. pose proof (Z.div_mod n 8).
  rewrite paged_read_chunks_ok by (done || lia).
  rewrite Z.mul_0_l, Z.add_0_r. do 2 f_equal. lia.
Qed.
Next Obligation. intros. apply paged_write_loop_ok; simpl in *; done || lia. Qed.
Next Obligation.
  intros E m addr data Hwf Ha Hend Hd Hal Hd8. simpl in *. unfold paged_write_aligned.
  rewrite Hal, Hd8. cbn [Z.eqb]. pose proof (Z.div_mod (zlen data) 8).
  destruct (paged_write_chunks_ok (E:=E) (Z.to_nat (zlen data / 8)) m addr 0 data)
    as (m' & ? & ? & Hb); [done|done|done|done|unfold zlen in *; lia|lia|done|].
  exists m'; split_and!; [done|done|]. by rewrite Hb, Z.mul_0_l, Z.add_0_r.
Qed.

(** The page-by-page accesses of [PagedRingMem] behave as the flat memory
    of its concatenated pages. For any access of at most one turn of the ring
    that starts within it, reads return the same bytes, aligned or not, and
    writes leave the same bytes. *)
Theorem paged_refines_flat m addr n data :
  let flat := mkFlatRingMem (paged_bytes m) in
  paged_wf m -> 0 <= addr -> 0 <= n -> addr + n <= 2 * ring_len m ->
  addr + zlen data <= 2 * ring_len m -> zlen data <= ring_len m ->
  paged_read_at m addr n = flat_read_at (E:=void) flat addr n /\
  (addr mod 8 = 0 -> n mod 8 = 0 ->
    paged_read_aligned m addr n = flat_read_at (E:=void) flat addr n) /\
  (exists m', paged_write_at m addr data = Ok (E:=void) m' /\ paged_wf m' /\
    flat_write_at flat addr data = Ok (E:=void) (mkFlatRingMem (paged_bytes m'))) /\
  (addr mod 8 = 0 -> zlen data mod 8 = 0 ->
    exists m', paged_write_aligned m addr data = Ok (E:=void) m' /\ paged_wf m' /\
      flat_write_at flat addr data = Ok (E:=void) (mkFlatRingMem (paged_bytes m'))).
Proof.
  intros flat Hwf Ha Hn Hr Hw Hd. pose proof (zlen_paged_bytes m Hwf) as Hz.
  pose proof (paged_bytes_pos m Hwf). simpl in Hr, Hw, Hd.
  assert (flat_read_at (E:=void) flat addr n = Ok (ring_slice (paged_bytes m) addr (Z.to_nat n))) as ->
    by (apply flat_read_ok; simpl; lia).
  assert (flat_write_at (E:=void) flat addr data = Ok (mkFlatRingMem (ring_update (paged_bytes m) addr data)))
    as -> by (apply flat_write_ok; simpl; lia).
  split_and!.
  - exact (read_at_spec (M:=PagedRingMem) m addr n Hwf Ha Hn Hr).
  - exact (read_aligned_spec (M:=PagedRingMem) m addr n Hwf Ha Hn Hr).
  - destruct (write_at_spec (E:=void) m addr data) as (m' & Hm & Hwf' & Hb); try done.
    exists m'. split_and!; [done|done|]. do 2 f_equal. symmetry. exact Hb.
  - intros Ha8 Hd8. destruct (write_aligned_spec (E:=void) m addr data) as (m' & Hm & Hwf' & Hb); try done.
    exists m'. split_and!; [done|done|]. do 2 f_equal. symmetry. exact Hb.
Qed.

Definition two_pages : PagedRingMem := mkPaged [replicate 4096 1; replicate 4096 2].

Lemma paged_refines_flat_witness :
  let m := two_pages in
  let addr := 8184 in
  let data := [1; 2; 3; 4; 5; 6; 7; 8; 9; 10; 11; 12; 13; 14; 15; 16] in
  let flat := mkFlatRingMem (paged_bytes m) in
  paged_read_at m addr 16 = flat_read_at (E:=void) flat addr 16 /\
  (addr mod 8 = 0 -> 16 mod 8 = 0 ->
    paged_read_aligned m addr 16 = flat_read_at (E:=void) flat addr 16) /\
  (exists m', paged_write_at m addr data = Ok (E:=void) m' /\ paged_wf m' /\
    flat_write_at flat addr data = Ok (E:=void) (mkFlatRingMem (paged_bytes m'))) /\
  (addr mod 8 = 0 -> zlen data mod 8 = 0 ->
    exists m', paged_write_aligned m addr data = Ok (E:=void) m' /\ paged_wf m' /\
      flat_write_at flat addr data = Ok (E:=void) (mkFlatRingMem (paged_bytes m'))).
Proof.
  intros m addr data. apply (paged_refines_flat m addr 16 data).
  - split; [done|]. repeat constructor.
  - done.
  - done.
  - done.
  - done.
  - done.
Defined.
