(* ===== verification/VmbusRing.v ===== *)
(** VMBus ring buffers ([vm/devices/vmbus/vmbus_ring/src/lib.rs]): packets of a
    multiple of eight bytes written by one endpoint and parsed by the other,
    through a shared control page.

    The ring is generic in its memory ([RingMem]). Atomic accesses are
    sequential; the five control words the code uses are the record [Control]. *)

From S2P Require Import Prelude RingMem.

(** * Errors and constants *)

Inductive RingError : Type :=
| InvalidRingPointer
| InvalidMessageLength
| InvalidDataAvailable
| RingTooLarge
| InvalidRingMemory
| InvalidDescriptorLengths
| InvalidDescriptorFlags
| InvalidDescriptorType
| InvalidDescriptorGpaDirectRangeCount
| InterruptsExternallyMasked.

Inductive ReadError : Type :=
| Empty
| ReadCorrupt (e : RingError).

Inductive WriteError : Type :=
| Full (len : Z)
| WriteCorrupt (e : RingError).

(** [guestmem_core::AccessError]. *)
Inductive AccessError : Type :=
| OutOfRange (len requested : Z).

Definition map_err {E F A} (f : E -> F) (m : res E A) : res F A :=
  match m with
  | Ok a => Ok a
  | Err e => Err (f e)
  | Panic => Panic
  end.

Definition PACKET_TYPE_IN_BAND : Z := 6.
Definition PACKET_TYPE_TRANSFER_PAGES : Z := 7.
Definition PACKET_TYPE_GPA_DIRECT : Z := 9.
Definition PACKET_TYPE_COMPLETION : Z := 0xb.
Definition PACKET_FLAG_COMPLETION_REQUESTED : Z := 1.
Definition FEATURE_SUPPORTS_PENDING_SEND_SIZE : Z := 1.

Definition DESCRIPTOR_SIZE : Z := 16.
Definition FOOTER_SIZE : Z := 8.
Definition DESCRIPTOR_SIZE8 : Z := 2.
Definition TRANSFER_PAGE_HEADER_SIZE8 : Z := 3.
Definition GPA_DIRECT_HEADER_SIZE8 : Z := 3.

(** * Layouts *)

Record PacketDescriptor : Type := mkDescriptor {
  packet_type : Z;
  data_offset8 : Z;
  length8 : Z;
  flags : Z;
  desc_transaction_id : Z;
}.

Definition descriptor_bytes (d : PacketDescriptor) : list Z :=
  le_bytes 2 (packet_type d) ++ le_bytes 2 (data_offset8 d) ++ le_bytes 2 (length8 d) ++
  le_bytes 2 (flags d) ++ le_bytes 8 (desc_transaction_id d).

Definition field (bs : list Z) (at_ n : nat) : Z := le_value (take n (drop at_ bs)).

Definition descriptor_of_bytes (bs : list Z) : PacketDescriptor :=
  mkDescriptor (field bs 0 2) (field bs 2 2) (field bs 4 2) (field bs 6 2) (field bs 8 8).

(** [GpaDirectHeader] and [TransferPageHeader] end in the range count. *)
Definition gpa_direct_header_bytes (range_count : Z) : list Z :=
  le_bytes 4 0 ++ le_bytes 4 range_count.

Definition transfer_page_header_bytes (id range_count : Z) : list Z :=
  le_bytes 2 id ++ le_bytes 2 0 ++ le_bytes 4 range_count.

Definition footer_bytes (offset : Z) : list Z := le_bytes 4 0 ++ le_bytes 4 offset.

(** * Ranges of the ring *)

Record RingRange : Type := mkRange { off : Z; range_size : Z }.

Definition range_empty : RingRange := mkRange 0 0.

Definition range_is_empty (r : RingRange) : bool := range_size r =? 0.

(** [RingRangeReader] and [RingRangeWriter] without their memory. *)
Record Cursor : Type := mkCursor { c_start : Z; c_end : Z }.

Definition range_cursor {E} (r : RingRange) : res E Cursor :=
  let! e := uadd 32 (off r) (range_size r) in
  Ok (mkCursor (off r) e).

Section ring.
Context {M : Type} `{RingMem M}.

Definition cursor_len {E} (c : Cursor) : res E Z := usub (c_end c) (c_start c).

Definition reader_read (mem : M) (c : Cursor) (n : Z) : res AccessError (list Z * Cursor) :=
  let! len := cursor_len c in
  if len <? n then Err (OutOfRange len n)
  else
    let! data := read_at mem (c_start c) n in
    let! s := uadd 32 (c_start c) (ucast 32 n) in
    Ok (data, mkCursor s (c_end c)).

Definition reader_skip (c : Cursor) (n : Z) : res AccessError Cursor :=
  let! len := cursor_len c in
  if len <? n then Err (OutOfRange len n)
  else
    let! s := uadd 32 (c_start c) (ucast 32 n) in
    Ok (mkCursor s (c_end c)).

Definition writer_write (mem : M) (c : Cursor) (data : list Z) : res AccessError (M * Cursor) :=
  let! len := cursor_len c in
  if len <? zlen data then Err (OutOfRange len (zlen data))
  else
    let! mem := write_at mem (c_start c) data in
    let! s := uadd 32 (c_start c) (ucast 32 (zlen data)) in
    Ok (mem, mkCursor s (c_end c)).

(** [RingRangeWriter::fill] is [unimplemented!]. *)
Definition writer_fill {E} (val n : Z) : res E unit := Panic.

(** [write_aligned_full]: [data] as 64-bit values. *)
Definition write_aligned_full {E} (r : RingRange) (mem : M) (data : list Z) : res E M :=
  assert! range_size r =? zlen data * 8 in
  write_aligned mem (off r) (concat (map (le_bytes 8) data)).

(** * Parsing *)

Inductive IncomingPacketType : Type :=
| InBand
| Completion
| GpaDirect (count : Z) (range : RingRange)
| TransferPages (id count : Z) (range : RingRange).

Record IncomingPacket : Type := mkIncoming {
  transaction_id : option Z;
  typ : IncomingPacketType;
  payload : RingRange;
}.

Definition parse_type (ring : M) (ring_off : Z) (desc : PacketDescriptor)
  : res ReadError IncomingPacketType :=
  if packet_type desc =? PACKET_TYPE_IN_BAND then Ok InBand
  else if packet_type desc =? PACKET_TYPE_COMPLETION then Ok Completion
  else if packet_type desc =? PACKET_TYPE_TRANSFER_PAGES then
    if data_offset8 desc <? TRANSFER_PAGE_HEADER_SIZE8
    then Err (ReadCorrupt InvalidDescriptorLengths)
    else
      let! tph := read_aligned ring (ring_off + DESCRIPTOR_SIZE) 8 in
      let! o := uadd 32 ring_off (TRANSFER_PAGE_HEADER_SIZE8 * 8) in
      let! s := usub (data_offset8 desc) TRANSFER_PAGE_HEADER_SIZE8 in
      Ok (TransferPages (field tph 0 2) (field tph 4 4) (mkRange o (s * 8)))
  else if packet_type desc =? PACKET_TYPE_GPA_DIRECT then
    if data_offset8 desc <? GPA_DIRECT_HEADER_SIZE8
    then Err (ReadCorrupt InvalidDescriptorLengths)
    else
      let! gph := read_aligned ring (ring_off + DESCRIPTOR_SIZE) 8 in
      if field gph 4 4 =? 0 then Err (ReadCorrupt InvalidDescriptorGpaDirectRangeCount)
      else
        let! o := uadd 32 ring_off (GPA_DIRECT_HEADER_SIZE8 * 8) in
        let! s := usub (data_offset8 desc) GPA_DIRECT_HEADER_SIZE8 in
        Ok (GpaDirect (field gph 4 4) (mkRange o (s * 8)))
  else Err (ReadCorrupt InvalidDescriptorType).

Definition parse_packet (ring : M) (ring_off avail : Z) : res ReadError (Z * IncomingPacket) :=
  let! bs := read_aligned ring ring_off DESCRIPTOR_SIZE in
  let desc := descriptor_of_bytes bs in
  let len := length8 desc * 8 in
  if (length8 desc <? data_offset8 desc) || (data_offset8 desc <? DESCRIPTOR_SIZE8) || (avail <? len)
  then Err (ReadCorrupt InvalidDescriptorLengths)
  else if negb (Z.land (flags desc) (unot 16 PACKET_FLAG_COMPLETION_REQUESTED) =? 0)
  then Err (ReadCorrupt InvalidDescriptorFlags)
  else
    let tid :=
      if negb (Z.land (flags desc) PACKET_FLAG_COMPLETION_REQUESTED =? 0)
         || (packet_type desc =? PACKET_TYPE_COMPLETION)
      then Some (desc_transaction_id desc) else None in
    let! t := parse_type ring ring_off desc in
    let! o := uadd 32 ring_off (data_offset8 desc * 8) in
    let! s := usub (length8 desc) (data_offset8 desc) in
    Ok (len, mkIncoming tid t (mkRange o (s * 8))).

(** * The ring and its pointers *)

Record Control : Type := mkControl {
  inp : Z;
  outp : Z;
  interrupt_mask : Z;
  pending_send_size : Z;
  feature_bits : Z;
}.

#[global] Instance Control_settable : Settable Control := fun c =>
  mkControl (inp c) (outp c) (interrupt_mask c) (pending_send_size c) (feature_bits c).

(** The memory and control page the two endpoints share, and the size
    [InnerRing] recorded. *)
Record Ring : Type := mkRing {
  mem : M;
  control : Control;
  size : Z;
}.

#[global] Instance Ring_settable : Settable Ring := fun r =>
  mkRing (mem r) (control r) (size r).

Definition inner_new (m : M) (c : Control) : res RingError Ring :=
  if 2 ^ 32 <=? ring_len m then Err InvalidRingMemory
  else if negb (ring_len m mod 4096 =? 0) then Err InvalidRingMemory
  else Ok (mkRing m c (ring_len m)).

Definition validate (r : Ring) (p : Z) : res RingError Z :=
  if (size r <=? p) || negb (p mod 8 =? 0) then Err InvalidRingPointer else Ok p.

Definition add_pointer {E} (r : Ring) (p o : Z) : res E Z :=
  let! np := uadd 32 p o in
  if size r <=? np then
    let! s2 := umul 32 (size r) 2 in
    assert! np <? s2 in
    Ok (np - size r)
  else Ok np.

Definition available {E} (r : Ring) (i o : Z) : res E Z :=
  if o <? i then usub i o
  else
    let! s := uadd 32 (size r) i in
    usub s o.

Definition ring_free {E} (sz i o : Z) : res E Z :=
  if i <? o then
    let! d := usub o i in
    usub d 8
  else
    let! d := usub i o in
    let! f := usub sz d in
    usub f 8.

Definition free {E} (r : Ring) (i o : Z) : res E Z := ring_free (size r) i o.

(** * The receiving endpoint *)

Record IncomingOffset : Type := mkIncomingOffset {
  cached_in : Z;
  committed_out : Z;
  next_out : Z;
}.

#[global] Instance IncomingOffset_settable : Settable IncomingOffset := fun p =>
  mkIncomingOffset (cached_in p) (committed_out p) (next_out p).

Definition incoming_revert (p : IncomingOffset) : IncomingOffset :=
  p <| next_out := committed_out p |>.

Definition incoming_new (m : M) (c : Control) : res RingError Ring :=
  let! r := inner_new m c in
  Ok (r <| control := control r <| interrupt_mask := 1 |> |>).

Definition supports_pending_send_size (r : Ring) : bool :=
  negb (Z.land (feature_bits (control r)) FEATURE_SUPPORTS_PENDING_SEND_SIZE =? 0).

Definition set_interrupt_mask (r : Ring) (state : bool) : Ring :=
  r <| control := control r <| interrupt_mask := b2z state |> |>.

Definition verify_interrupts_unmasked (r : Ring) : res RingError unit :=
  if interrupt_mask (control r) =? 0 then Ok tt else Err InterruptsExternallyMasked.

Definition incoming (r : Ring) : res RingError IncomingOffset :=
  let! no := validate r (outp (control r)) in
  let! ci := validate r (inp (control r)) in
  Ok (mkIncomingOffset ci no no).

Definition can_read (r : Ring) (p : IncomingOffset) : res RingError (IncomingOffset * bool) :=
  if negb (next_out p =? cached_in p) then Ok (p, true)
  else
    let! i := validate r (inp (control r)) in
    Ok (p <| cached_in := i |>, negb (next_out p =? i)).

Definition commit_read {E} (r : Ring) (p : IncomingOffset)
  : res E (Ring * IncomingOffset * bool) :=
  if committed_out p =? next_out p then Ok (r, p, false)
  else
    let r := r <| control := control r <| outp := next_out p |> |> in
    let pending := Z.ldiff (pending_send_size (control r)) 7 in
    let! signal :=
      if negb (pending =? 0) then
        match validate r (inp (control r)) with
        | Ok i =>
            let! old_free := free r i (committed_out p) in
            let! new_free := free r i (next_out p) in
            Ok ((old_free <? pending) && (pending <=? new_free))
        | _ => Ok false
        end
      else Ok false in
    Ok (r, p <| committed_out := next_out p |>, signal).

(** [read]: the new offsets (the cached pointer is kept on an error) and the
    packet. *)
Definition read (r : Ring) (p : IncomingOffset) : IncomingOffset * res ReadError IncomingPacket :=
  let o := next_out p in
  let fetch : res ReadError (IncomingOffset * Z) :=
    if cached_in p =? o then
      let! i := map_err ReadCorrupt (validate r (inp (control r))) in
      if i =? o then Err Empty else Ok (p <| cached_in := i |>, i)
    else Ok (p, cached_in p) in
  match fetch with
  | Err e => (p, Err e)
  | Panic => (p, Panic)
  | Ok (p, i) =>
      let parsed : res ReadError (Z * IncomingPacket) :=
        let! avail := available r i o in
        if avail <? 16 then Err (ReadCorrupt InvalidDataAvailable)
        else
          let! lp := parse_packet (mem r) o avail in
          let '(len, packet) := lp in
          let! total := uadd 32 len FOOTER_SIZE in
          let! no := add_pointer r o total in
          Ok (no, packet) in
      match parsed with
      | Ok (no, packet) => (p <| next_out := no |>, Ok packet)
      | Err e => (p, Err e)
      | Panic => (p, Panic)
      end
  end.

(** * The sending endpoint *)

(** [guestmem_core::ranges::PagedRange]. *)
Record PagedRange : Type := mkPagedRange {
  pr_offset : Z;
  pr_len : Z;
  pr_gpns : list Z;
}.

Record TransferPageRange : Type := mkTransferPageRange {
  byte_count : Z;
  byte_offset : Z;
}.

Inductive OutgoingPacketType : Type :=
| OutInBandNoCompletion
| OutInBandWithCompletion
| OutCompletion
| OutGpaDirect (ranges : list PagedRange)
| OutTransferPages (id : Z) (ranges : list TransferPageRange).

Record OutgoingPacket : Type := mkOutgoing {
  out_transaction_id : Z;
  out_size : Z;
  out_typ : OutgoingPacketType;
}.

Record OutgoingOffset : Type := mkOutgoingOffset {
  cached_out : Z;
  committed_in : Z;
  next_in : Z;
}.

#[global] Instance OutgoingOffset_settable : Settable OutgoingOffset := fun p =>
  mkOutgoingOffset (cached_out p) (committed_in p) (next_in p).

Definition outgoing_revert (p : OutgoingOffset) : OutgoingOffset :=
  p <| next_in := committed_in p |>.

Definition outgoing_new (m : M) (c : Control) : res RingError Ring :=
  let! r := inner_new m c in
  Ok (r <| control := control r <| feature_bits := FEATURE_SUPPORTS_PENDING_SEND_SIZE |>
                                <| pending_send_size := 0 |> |>).

Definition outgoing (r : Ring) : res RingError OutgoingOffset :=
  let! ni := validate r (inp (control r)) in
  let! co := validate r (outp (control r)) in
  Ok (mkOutgoingOffset co ni ni).

Definition maximum_packet_size {E} (r : Ring) : res E Z := usub (size r) 8.

Definition set_pending_send_size (r : Ring) (len : Z) : res RingError Ring :=
  let! m := maximum_packet_size r in
  if m <? len then Err InvalidMessageLength
  else
    let! s := uadd 32 (ucast 32 len) 7 in
    Ok (r <| control := control r <| pending_send_size := Z.ldiff s 7 |> |>).

Definition can_write (r : Ring) (p : OutgoingOffset) (len : Z)
  : res RingError (OutgoingOffset * bool) :=
  let! f := free r (next_in p) (cached_out p) in
  if len <=? f then Ok (p, true)
  else
    let! o := validate r (outp (control r)) in
    let p := p <| cached_out := o |> in
    let! f := free r (next_in p) o in
    Ok (p, len <=? f).

Definition commit_write (r : Ring) (p : OutgoingOffset) : Ring * OutgoingOffset * bool :=
  if committed_in p =? next_in p then (r, p, false)
  else
    let i := next_in p in
    let r := r <| control := control r <| inp := i |> |> in
    let needs_interrupt :=
      (interrupt_mask (control r) =? 0) && (outp (control r) =? committed_in p) in
    (r, p <| committed_in := i |>, needs_interrupt).

(** The packet type, the size of the descriptor with its extension, and the
    flags of an outgoing packet. *)
Definition packet_header (t : OutgoingPacketType) : Z * Z * Z :=
  match t with
  | OutInBandNoCompletion => (PACKET_TYPE_IN_BAND, DESCRIPTOR_SIZE, 0)
  | OutInBandWithCompletion =>
      (PACKET_TYPE_IN_BAND, DESCRIPTOR_SIZE, PACKET_FLAG_COMPLETION_REQUESTED)
  | OutCompletion => (PACKET_TYPE_COMPLETION, DESCRIPTOR_SIZE, 0)
  | OutGpaDirect ranges =>
      (PACKET_TYPE_GPA_DIRECT,
       DESCRIPTOR_SIZE + 8 + foldl (fun a rg => a + 8 + 8 * zlen (pr_gpns rg)) 0 ranges,
       PACKET_FLAG_COMPLETION_REQUESTED)
  | OutTransferPages _ ranges =>
      (PACKET_TYPE_TRANSFER_PAGES, DESCRIPTOR_SIZE + 8 + 8 * zlen ranges,
       PACKET_FLAG_COMPLETION_REQUESTED)
  end.

Definition gpa_range_bytes (rg : PagedRange) : list Z :=
  le_bytes 4 (ucast 32 (pr_len rg)) ++ le_bytes 4 (ucast 32 (pr_offset rg)).

Definition gpns_bytes (gpns : list Z) : list Z := concat (map (le_bytes 8) gpns).

Definition transfer_range_bytes (t : TransferPageRange) : list Z :=
  le_bytes 4 (byte_count t) ++ le_bytes 4 (byte_offset t).

Fixpoint write_gpa_ranges (m : M) (c : Cursor) (ranges : list PagedRange)
  : res AccessError (M * Cursor) :=
  match ranges with
  | [] => Ok (m, c)
  | rg :: ranges =>
      let! mc := writer_write m c (gpa_range_bytes rg) in
      let '(m, c) := mc in
      let! mc := writer_write m c (gpns_bytes (pr_gpns rg)) in
      let '(m, c) := mc in
      write_gpa_ranges m c ranges
  end.

Fixpoint write_transfer_ranges {E} (m : M) (base i : Z) (ranges : list TransferPageRange) : res E M :=
  match ranges with
  | [] => Ok m
  | t :: ranges =>
      let! m := write_aligned m (base + i * 8) (transfer_range_bytes t) in
      write_transfer_ranges m base (i + 1) ranges
  end.

(** The variable part of the descriptor, written after its fixed part at [o]. *)
Definition write_extension (m : M) (o header_size : Z) (t : OutgoingPacketType) : res WriteError M :=
  match t with
  | OutGpaDirect ranges =>
      let! c := range_cursor (mkRange (ucast 32 (o + DESCRIPTOR_SIZE)) (ucast 32 header_size)) in
      map_err (fun _ => WriteCorrupt InvalidMessageLength)
        (let! mc := writer_write m c (gpa_direct_header_bytes (ucast 32 (zlen ranges))) in
         let '(m, c) := mc in
         let! mc := write_gpa_ranges m c ranges in
         Ok mc.1)
  | OutTransferPages id ranges =>
      let! m := write_aligned m (o + DESCRIPTOR_SIZE)
                  (transfer_page_header_bytes id (ucast 32 (zlen ranges))) in
      write_transfer_ranges m (o + DESCRIPTOR_SIZE + 8) 0 ranges
  | _ => Ok m
  end.

Definition div_ceil8 (n : Z) : Z := (n + 7) / 8.

Definition write (r : Ring) (p : OutgoingOffset) (packet : OutgoingPacket)
  : res WriteError (Ring * OutgoingOffset * RingRange) :=
  let '(ptype, header_size, fl) := packet_header (out_typ packet) in
  let msg_len := div_ceil8 (out_size packet + header_size) * 8 in
  let total_msg_len := ucast 32 (msg_len + FOOTER_SIZE) in
  let! max := usub (size r) 8 in
  if max <=? total_msg_len then Err (WriteCorrupt InvalidMessageLength)
  else
    let i := next_in p in
    let! f := free r i (cached_out p) in
    let! p :=
      if f <? total_msg_len then
        let! o := map_err WriteCorrupt (validate r (outp (control r))) in
        let! f := free r i o in
        if f <? total_msg_len then Err (Full total_msg_len) else Ok (p <| cached_out := o |>)
      else Ok p in
    let desc := mkDescriptor ptype (ucast 16 header_size / 8) (ucast 16 (msg_len / 8)) fl
                  (out_transaction_id packet) in
    let! m := write_aligned (mem r) i (descriptor_bytes desc) in
    let! m := write_extension m i header_size (out_typ packet) in
    let! m := write_aligned m (i + msg_len) (footer_bytes i) in
    let! ni := add_pointer r i total_msg_len in
    let! o := uadd 32 i (ucast 32 header_size) in
    Ok (r <| mem := m |>, p <| next_in := ni |>, mkRange o (ucast 32 (out_size packet))).

(** * Stateless queries on a control page *)

Definition reader_needs_signal (c : Control) : bool :=
  (interrupt_mask c =? 0) && negb (inp c =? outp c).

Definition writer_needs_signal {E} (c : Control) (ring_size : Z) : res E bool :=
  let pending := pending_send_size c in
  if negb (pending =? 0) then
    let! f := ring_free ring_size (inp c) (outp c) in
    Ok (pending <=? f)
  else Ok false.

(** [PacketSize]. *)
Definition packet_size_in_band (payload_len : Z) : Z :=
  DESCRIPTOR_SIZE + Z.ldiff (payload_len + 7) 7 + FOOTER_SIZE.

Definition packet_size_completion (payload_len : Z) : Z := packet_size_in_band payload_len.

Definition packet_size_transfer_pages (count payload_len : Z) : Z :=
  packet_size_in_band payload_len + 8 + count * 8.

End ring.

Arguments Ring M : clear implicits.
