(* ===== verification/VmbusRingSpec.v ===== *)
(** Correctness of the VMBus ring (VmbusRing.v) against the memory interface of
    RingMem.v: pointer arithmetic, safety of the reader on arbitrary memory,
    and the refinement of a transactional queue of packets. *)

From S2P Require Import Prelude RingMem VmbusRing.

Section spec.
Context {M : Type} `{RingMemOk M}.
Implicit Types (r : Ring M) (l : list Z).

(** * Pointer arithmetic *)

(** A ring as [InnerRing::new] accepts it, of less than 2 GB. *)
Record ring_ok (r : Ring M) : Prop := {
  ok_mem : ring_wf (mem r);
  ok_len : size r = ring_len (mem r);
  ok_aligned : size r mod 8 = 0;
  ok_min : 16 <= size r;
  ok_max : 2 * size r < 2 ^ 32;
}.

Definition pointer (r : Ring M) (p : Z) : Prop := 0 <= p < size r /\ p mod 8 = 0.

(** The bytes between two pointers, going up from [o] to [i]. *)
Definition used (r : Ring M) (i o : Z) : Z := (i - o) mod size r.

Lemma used_range r i o : ring_ok r -> 0 <= used r i o < size r.
Proof. intros Hr. apply Z.mod_pos_bound. pose proof (ok_min _ Hr). lia. Qed.

Lemma used_cases r i o :
  pointer r i -> pointer r o ->
  used r i o = if o <=? i then i - o else size r + i - o.
Proof.
  intros [Hi _] [Ho _]. unfold used. destruct (Z.leb_spec o i).
  - rewrite Z.mod_small; lia.
  - rewrite <-(Z_mod_plus_full _ 1), Z.mod_small; lia.
Qed.

Lemma mod8_sub a b : a mod 8 = 0 -> b mod 8 = 0 -> (a - b) mod 8 = 0.
Proof. intros Ha Hb. by rewrite Zminus_mod, Ha, Hb. Qed.

Lemma mod8_add a b : a mod 8 = 0 -> b mod 8 = 0 -> (a + b) mod 8 = 0.
Proof. intros Ha Hb. by rewrite Zplus_mod, Ha, Hb. Qed.

Lemma mod8_step a b : a mod 8 = 0 -> b mod 8 = 0 -> a < b -> a + 8 <= b.
Proof. intros Ha Hb Hlt. pose proof (Z.div_mod a 8). pose proof (Z.div_mod b 8). lia. Qed.

Lemma used_mod8 r i o : ring_ok r -> pointer r i -> pointer r o -> used r i o mod 8 = 0.
Proof.
  intros Hr Hi Ho. rewrite used_cases by done. destruct Hi as [_ Hi], Ho as [_ Ho].
  pose proof (ok_aligned _ Hr).
  destruct (o <=? i); auto using mod8_sub, mod8_add.
Qed.

(** The free space is what is not used, less the eight bytes that tell a full
    ring from an empty one. *)
Lemma free_spec {E} r i o :
  ring_ok r -> pointer r i -> pointer r o ->
  free r i o = Ok (E:=E) (size r - used r i o - 8).
Proof.
  intros Hr Hi Ho. pose proof (used_range r i o Hr) as Hu. pose proof (used_mod8 r i o Hr Hi Ho) as H8.
  pose proof (mod8_step _ _ H8 (ok_aligned _ Hr) (proj2 Hu)).
  rewrite used_cases in * by done. destruct Hi as [Hi _], Ho as [Ho _].
  unfold free, ring_free. destruct (Z.ltb_spec i o), (Z.leb_spec o i); try lia.
  - rewrite usub_ok by lia. cbn [res_bind]. rewrite usub_ok by lia. f_equal. lia.
  - rewrite usub_ok by lia. cbn [res_bind]. rewrite usub_ok by lia. cbn [res_bind].
    rewrite usub_ok by lia. f_equal.
Qed.

Lemma available_spec {E} r i o :
  ring_ok r -> pointer r i -> pointer r o -> i <> o ->
  available r i o = Ok (E:=E) (used r i o).
Proof.
  intros Hr Hi Ho Hne. pose proof (ok_max _ Hr). rewrite used_cases by done.
  destruct Hi as [Hi _], Ho as [Ho _]. unfold available.
  destruct (Z.ltb_spec o i), (Z.leb_spec o i); try lia.
  - by rewrite usub_ok by lia.
  - rewrite uadd_ok by lia. cbn [res_bind]. by rewrite usub_ok by lia.
Qed.

Lemma add_pointer_spec {E} r p k :
  ring_ok r -> pointer r p -> 0 <= k < size r -> k mod 8 = 0 ->
  add_pointer r p k = Ok (E:=E) ((p + k) mod size r) /\ pointer r ((p + k) mod size r).
Proof.
  intros Hr [Hp Hp8] Hk Hk8. pose proof (ok_max _ Hr). pose proof (ok_aligned _ Hr).
  unfold add_pointer, pointer. rewrite uadd_ok by lia. cbn [res_bind].
  destruct (Z.leb_spec (size r) (p + k)).
  - rewrite umul_ok by lia. cbn [res_bind]. destruct (Z.ltb_spec (p + k) (size r * 2)); [|lia].
    rewrite <-(Z_mod_plus_full _ (-1)), Z.mod_small by lia.
    replace (p + k + -1 * size r) with (p + k - size r) by lia.
    split_and!; [done|lia|lia|]. auto using mod8_sub, mod8_add.
  - rewrite Z.mod_small by lia. split_and!; [done|lia|lia|]. auto using mod8_add.
Qed.

Lemma validate_spec r p :
  0 <= p -> (validate r p = Ok p /\ pointer r p) \/ validate r p = Err InvalidRingPointer /\ ~ pointer r p.
Proof.
  intros Hp. unfold validate, pointer.
  destruct (Z.leb_spec (size r) p), (Z.eqb_spec (p mod 8) 0); simpl; naive_solver lia.
Qed.

Lemma validate_ok r p : pointer r p -> validate r p = Ok p.
Proof. intros Hp. destruct (validate_spec r p) as [[? _]|[_ ?]]; [apply Hp|done|done]. Qed.

(** * Safety of the reader on arbitrary memory *)

Definition bytes_ok (r : Ring M) : Prop := Forall (is_u 8) (ring_bytes (mem r)).

Lemma ring_slice_u8 l a n : Forall (is_u 8) l -> Forall (is_u 8) (ring_slice l a n).
Proof.
  intros Hl. unfold ring_slice. apply Forall_map, Forall_true. intros i. unfold ring_byte.
  destruct (l !! _) as [b|] eqn:Hb; simpl; [by eapply Forall_lookup_1|]. split; [lia|done].
Qed.

Lemma field_bound bs a n : Forall (is_u 8) bs -> 0 <= field bs a n < 256 ^ Z.of_nat n.
Proof.
  intros Hbs. unfold field.
  assert (Forall (is_u 8) (take n (drop a bs))) as Hf by (by apply Forall_take, Forall_drop).
  apply le_value_bound in Hf.
  assert (length (take n (drop a bs)) <= n)%nat by (rewrite length_take; lia).
  pose proof (Z.pow_le_mono_r 256 (Z.of_nat (length (take n (drop a bs)))) (Z.of_nat n)). lia.
Qed.

Lemma read_desc {E} r o k n :
  ring_ok r -> pointer r o -> 0 <= k -> 0 <= n -> k + n <= 24 -> k mod 8 = 0 -> n mod 8 = 0 ->
  read_aligned (mem r) (o + k) n = Ok (E:=E) (ring_slice (ring_bytes (mem r)) (o + k) (Z.to_nat n)).
Proof.
  intros Hr [Ho Ho8] Hk Hn Hkn Hk8 Hn8. pose proof (ok_len _ Hr). pose proof (ok_min _ Hr).
  pose proof (mod8_step o (size r) Ho8 (ok_aligned _ Hr) ltac:(lia)).
  apply read_aligned_spec; [apply Hr|lia|lia|lia|by apply mod8_add|done].
Qed.

Lemma read_desc_0 {E} r o :
  ring_ok r -> pointer r o ->
  read_aligned (mem r) o 16 = Ok (E:=E) (ring_slice (ring_bytes (mem r)) o 16).
Proof. intros. pose proof (read_desc (E:=E) r o 0 16) as Hd. rewrite Z.add_0_r in Hd. by apply Hd. Qed.

(** A range lies between [lo] and [hi]. *)
Definition range_within (lo hi : Z) (rg : RingRange) : Prop :=
  lo <= off rg /\ 0 <= range_size rg /\ off rg + range_size rg <= hi.

Definition type_within (lo hi : Z) (t : IncomingPacketType) : Prop :=
  match t with
  | InBand | Completion => True
  | GpaDirect _ rg | TransferPages _ _ rg => range_within lo hi rg
  end.

Lemma parse_type_safe r o desc :
  ring_ok r -> pointer r o -> 0 <= data_offset8 desc < 2 ^ 16 ->
  match parse_type (mem r) o desc with
  | Ok t => type_within o (o + data_offset8 desc * 8) t
  | Err (ReadCorrupt _) => True
  | _ => False
  end.
Proof.
  intros Hr Ho Hd. pose proof (ok_max _ Hr). assert (0 <= o < size r) by apply Ho.
  unfold parse_type, TRANSFER_PAGE_HEADER_SIZE8, GPA_DIRECT_HEADER_SIZE8.
  destruct (_ =? PACKET_TYPE_IN_BAND); [done|].
  destruct (_ =? PACKET_TYPE_COMPLETION); [done|].
  destruct (_ =? PACKET_TYPE_TRANSFER_PAGES).
  { destruct (Z.ltb_spec (data_offset8 desc) 3); [done|].
    rewrite read_desc by (done || lia). cbn [res_bind].
    rewrite uadd_ok by lia. cbn [res_bind]. rewrite usub_ok by lia. cbn [res_bind].
    unfold type_within, range_within. simpl. lia. }
  destruct (_ =? PACKET_TYPE_GPA_DIRECT); [|done].
  destruct (Z.ltb_spec (data_offset8 desc) 3); [done|].
  rewrite read_desc by (done || lia). cbn [res_bind].
  destruct (_ =? 0); [done|].
  rewrite uadd_ok by lia. cbn [res_bind]. rewrite usub_ok by lia. cbn [res_bind].
  unfold type_within, range_within. simpl. lia.
Qed.

Lemma parse_packet_safe r o avail :
  ring_ok r -> bytes_ok r -> pointer r o -> avail < size r ->
  match parse_packet (mem r) o avail with
  | Ok (len, pkt) =>
      16 <= len <= avail /\ len mod 8 = 0 /\ range_within o (o + len) (payload pkt) /\
      type_within o (o + len) (typ pkt)
  | Err (ReadCorrupt _) => True
  | _ => False
  end.
Proof.
  intros Hr Hb Ho Hav. pose proof (ok_max _ Hr). assert (0 <= o < size r) by apply Ho.
  unfold parse_packet, DESCRIPTOR_SIZE, DESCRIPTOR_SIZE8.
  rewrite read_desc_0 by done. cbn [res_bind].
  set (bs := ring_slice _ _ _). assert (Forall (is_u 8) bs) as Hbs by (by apply ring_slice_u8).
  set (desc := descriptor_of_bytes bs).
  assert (0 <= length8 desc < 2 ^ 16) as Hl by (apply (field_bound bs 4 2 Hbs)).
  assert (0 <= data_offset8 desc < 2 ^ 16) as Hd by (apply (field_bound bs 2 2 Hbs)).
  clearbody desc.
  destruct (Z.ltb_spec (length8 desc) (data_offset8 desc)); [done|].
  destruct (Z.ltb_spec (data_offset8 desc) 2); [done|].
  destruct (Z.ltb_spec avail (length8 desc * 8)); [done|]. cbn [orb].
  destruct (negb _); [done|].
  pose proof (parse_type_safe r o desc Hr Ho Hd) as Ht.
  destruct (parse_type (mem r) o desc) as [t|[]|]; try done. cbn [res_bind].
  rewrite uadd_ok by lia. cbn [res_bind]. rewrite usub_ok by lia. cbn [res_bind].
  split_and!; [lia|lia|by rewrite Z_mod_mult|unfold range_within; simpl; lia|].
  simpl. destruct t; simpl in *; unfold range_within in *; simpl in *; lia || done.
Qed.

Definition offset_ok (r : Ring M) (p : IncomingOffset) : Prop :=
  pointer r (next_out p) /\ pointer r (cached_in p).

(** Reading a packet range never leaves the memory. *)
Lemma cursor_read_safe r o hi rg n :
  ring_ok r -> 0 <= o -> hi <= 2 * size r -> range_within o hi rg -> 0 <= n ->
  exists c, range_cursor rg = Ok (E:=AccessError) c /\
    match reader_read (mem r) c n with
    | Ok (data, c') => data = ring_slice (ring_bytes (mem r)) (off rg) (Z.to_nat n) /\
        c' = mkCursor (off rg + n) (off rg + range_size rg) /\ n <= range_size rg
    | Err (OutOfRange len n') => len = range_size rg /\ n' = n /\ range_size rg < n
    | Panic => False
    end.
Proof.
  intros Hr Ho Hhi (Hlo & Hs & He) Hn. pose proof (ok_max _ Hr). pose proof (ok_len _ Hr).
  unfold range_cursor. rewrite uadd_ok by lia. cbn [res_bind]. eexists; split; [done|].
  unfold reader_read, cursor_len. simpl. rewrite usub_ok by lia. cbn [res_bind].
  destruct (Z.ltb_spec (off rg + range_size rg - off rg) n).
  - split_and!; [lia|done|lia].
  - rewrite read_at_spec by (apply Hr || lia). cbn [res_bind].
    unfold ucast. rewrite (Z.mod_small n), uadd_ok by lia. cbn [res_bind].
    split_and!; [done|done|lia].
Qed.

(** The ranges of a packet a client may read. *)
Definition packet_range (pkt : IncomingPacket) (rg : RingRange) : Prop :=
  rg = payload pkt \/
  match typ pkt with
  | GpaDirect _ rg' | TransferPages _ _ rg' => rg = rg'
  | InBand | Completion => False
  end.

Lemma packet_range_within lo hi pkt rg :
  range_within lo hi (payload pkt) -> type_within lo hi (typ pkt) -> packet_range pkt rg ->
  range_within lo hi rg.
Proof.
  intros Hp Ht [->|Hrg]; [done|]. destruct (typ pkt); try done; by subst.
Qed.

(** The fetch of the producer's pointer at the start of [read]. *)
Lemma read_parsed r p i :
  ring_ok r -> bytes_ok r -> pointer r (next_out p) -> pointer r i -> i <> next_out p ->
  match (let! avail := available r i (next_out p) in
         if avail <? 16 then Err (ReadCorrupt InvalidDataAvailable)
         else
           let! lp := parse_packet (mem r) (next_out p) avail in
           let '(len, packet) := lp in
           let! total := uadd 32 len FOOTER_SIZE in
           let! no := add_pointer r (next_out p) total in
           Ok (no, packet)) with
  | Ok (no, pkt) => pointer r no /\ forall rg, packet_range pkt rg ->
      range_within (next_out p) (next_out p + size r) rg
  | Err (ReadCorrupt _) => True
  | _ => False
  end.
Proof.
  intros Hr Hb Ho Hi Hne. rewrite available_spec by done. cbn [res_bind].
  destruct (_ <? 16); [done|]. pose proof (used_range r i (next_out p) Hr) as Hu.
  pose proof (ok_max _ Hr). pose proof (ok_aligned _ Hr).
  pose proof (parse_packet_safe r (next_out p) (used r i (next_out p)) Hr Hb Ho (proj2 Hu)) as Hp.
  pose proof (mod8_step _ _ (used_mod8 r i (next_out p) Hr Hi Ho) (ok_aligned _ Hr) (proj2 Hu)).
  destruct (parse_packet _ _ _) as [[len pkt]|[]|]; try done. cbn [res_bind].
  destruct Hp as (Hlen & Hl8 & Hpay & Htyp). unfold FOOTER_SIZE.
  rewrite uadd_ok by lia. cbn [res_bind].
  destruct (decide (len + 8 = size r)) as [Heq|Hlt].
  - (* the footer ends exactly one turn after the packet *)
    unfold add_pointer. destruct Ho as [Ho Ho8]. rewrite Heq, uadd_ok by lia. cbn [res_bind].
    destruct (Z.leb_spec (size r) (next_out p + size r)); [|lia].
    rewrite umul_ok by lia. cbn [res_bind].
    destruct (Z.ltb_spec (next_out p + size r) (size r * 2)); [|lia].
    split; [split; [lia|]; by rewrite Z.add_simpl_r|]. intros rg Hrg.
    destruct (packet_range_within _ _ _ _ Hpay Htyp Hrg) as (? & ? & ?).
    unfold range_within. lia.
  - destruct (add_pointer_spec (E:=ReadError) r (next_out p) (len + 8)) as [-> ?];
      [done|done|lia|by apply mod8_add|]. cbn [res_bind]. split; [done|]. intros rg Hrg.
    destruct (packet_range_within _ _ _ _ Hpay Htyp Hrg) as (? & ? & ?).
    unfold range_within. lia.
Qed.

(** C26: the reader is safe on memory the opposite endpoint controls. Whatever
    the bytes of the ring and the control page, [read] does not panic, keeps
    its pointers inside the ring, consumes nothing on an error, and every range
    of a packet it returns can be read through a cursor without leaving the
    memory. *)
Theorem read_safe r p :
  ring_ok r -> bytes_ok r -> 0 <= inp (control r) -> offset_ok r p ->
  offset_ok r (read r p).1 /\
  match (read r p).2 with
  | Panic => False
  | Err _ => next_out (read r p).1 = next_out p
  | Ok pkt => forall rg n, packet_range pkt rg -> 0 <= n ->
      exists c, range_cursor rg = Ok (E:=AccessError) c /\ reader_read (mem r) c n <> Panic
  end.
Proof.
  intros Hr Hb Hinp [Ho Hc]. unfold read.
  assert (forall rg n, range_within (next_out p) (next_out p + size r) rg -> 0 <= n ->
    exists c, range_cursor rg = Ok (E:=AccessError) c /\ reader_read (mem r) c n <> Panic) as Hcur.
  { intros rg n Hrg Hn. destruct Ho as [Ho _].
    destruct (cursor_read_safe r (next_out p) (next_out p + size r) rg n) as (c & ? & Hm); try (done || lia).
    exists c; split; [done|]. by destruct (reader_read _ _ _). }
  destruct (Z.eqb_spec (cached_in p) (next_out p)) as [Heq|Hne].
  - destruct (validate_spec r (inp (control r)) Hinp) as [[-> Hi]|[-> _]]; cbn [map_err res_bind];
      [|by split].
    destruct (Z.eqb_spec (inp (control r)) (next_out p)) as [?|Hne]; [by split|].
    pose proof (read_parsed r p (inp (control r)) Hr Hb Ho Hi Hne) as Hp.
    change (next_out (p <| cached_in := inp (control r) |>)) with (next_out p).
    destruct (let! avail := _ in _) as [[no pkt]|[|]|]; try done.
    destruct Hp as [? Hp]. split; [by split|]. cbn [snd fst]. eauto.
  - pose proof (read_parsed r p (cached_in p) Hr Hb Ho Hc Hne) as Hp.
    destruct (let! avail := _ in _) as [[no pkt]|[|]|]; try done.
    destruct Hp as [? Hp]. split; [by split|]. cbn [snd fst]. eauto.
Qed.

(** * What a packet looks like in memory *)

Definition header_size (t : OutgoingPacketType) : Z := (packet_header t).1.2.

Definition msg_len (pkt : OutgoingPacket) : Z :=
  div_ceil8 (out_size pkt + header_size (out_typ pkt)) * 8.

Definition total_len (pkt : OutgoingPacket) : Z := msg_len pkt + FOOTER_SIZE.

Definition gpa_ranges_bytes (ranges : list PagedRange) : list Z :=
  concat (map (fun rg => gpa_range_bytes rg ++ gpns_bytes (pr_gpns rg)) ranges).

Definition extension_bytes (t : OutgoingPacketType) : list Z :=
  match t with
  | OutGpaDirect ranges => gpa_direct_header_bytes (zlen ranges) ++ gpa_ranges_bytes ranges
  | OutTransferPages id ranges =>
      transfer_page_header_bytes id (zlen ranges) ++ concat (map transfer_range_bytes ranges)
  | _ => []
  end.

Definition packet_descriptor (pkt : OutgoingPacket) : PacketDescriptor :=
  let '(ptype, hs, fl) := packet_header (out_typ pkt) in
  mkDescriptor ptype (hs / 8) (msg_len pkt / 8) fl (out_transaction_id pkt).

Definition head_bytes (pkt : OutgoingPacket) : list Z :=
  descriptor_bytes (packet_descriptor pkt) ++ extension_bytes (out_typ pkt).

(** The packets whose sizes fit the descriptor's 16-bit fields. *)
Record packet_ok (pkt : OutgoingPacket) : Prop := {
  pkt_size : 0 <= out_size pkt;
  pkt_header : header_size (out_typ pkt) < 2 ^ 16;
  pkt_length : msg_len pkt / 8 < 2 ^ 16;
  pkt_tid : 0 <= out_transaction_id pkt < 2 ^ 64;
  pkt_typ :
    match out_typ pkt with
    | OutGpaDirect ranges => ranges <> []
    | OutTransferPages id _ => 0 <= id < 2 ^ 16
    | _ => True
    end;
}.

Definition packet_written (l : list Z) (i : Z) (pkt : OutgoingPacket) : list Z :=
  ring_update (ring_update l i (head_bytes pkt)) (i + msg_len pkt) (footer_bytes i).

Lemma zlen_gpns_bytes gpns : zlen (gpns_bytes gpns) = 8 * zlen gpns.
Proof.
  unfold gpns_bytes. induction gpns as [|g gpns IH]; [done|].
  cbn [map concat]. rewrite zlen_app, IH. unfold zlen. cbn [length]. rewrite length_le_bytes. lia.
Qed.

Lemma foldl_gpa ranges a :
  foldl (fun a rg => a + 8 + 8 * zlen (pr_gpns rg)) a ranges = a + zlen (gpa_ranges_bytes ranges).
Proof.
  revert a. induction ranges as [|rg ranges IH]; intros a; simpl; [unfold zlen; simpl; lia|].
  rewrite IH. unfold gpa_ranges_bytes. cbn [map concat]. rewrite !zlen_app, zlen_gpns_bytes.
  change (zlen (gpa_range_bytes rg)) with 8. lia.
Qed.

Lemma zlen_transfer_ranges ranges : zlen (concat (map transfer_range_bytes ranges)) = 8 * zlen ranges.
Proof.
  induction ranges as [|t ranges IH]; [done|]. cbn [map concat]. rewrite zlen_app, IH.
  change (zlen (transfer_range_bytes t)) with 8. unfold zlen. cbn [length]. lia.
Qed.

Lemma zlen_extension t : zlen (extension_bytes t) = header_size t - DESCRIPTOR_SIZE.
Proof.
  destruct t as [| | |ranges|id ranges]; try done; unfold header_size; cbn [packet_header fst snd extension_bytes].
  - rewrite zlen_app, foldl_gpa. change (zlen (gpa_direct_header_bytes _)) with 8. lia.
  - rewrite zlen_app, zlen_transfer_ranges. change (zlen (transfer_page_header_bytes _ _)) with 8. lia.
Qed.

Lemma zlen_head_bytes pkt : zlen (head_bytes pkt) = header_size (out_typ pkt).
Proof.
  unfold head_bytes. rewrite zlen_app, zlen_extension.
  change (zlen (descriptor_bytes _)) with 16. unfold DESCRIPTOR_SIZE. lia.
Qed.

Lemma header_size_min t : 16 <= header_size t.
Proof. pose proof (zlen_extension t). pose proof (zlen_nonneg (extension_bytes t)). unfold DESCRIPTOR_SIZE in *. lia. Qed.

Lemma header_size_mod8 t : header_size t mod 8 = 0.
Proof.
  destruct t as [| | |ranges|id ranges]; try done; unfold header_size; cbn [packet_header fst snd]; unfold DESCRIPTOR_SIZE.
  - apply mod8_add; [done|].
    assert (forall a, a mod 8 = 0 ->
      foldl (fun a rg => a + 8 + 8 * zlen (pr_gpns rg)) a ranges mod 8 = 0) as Hf; [|by apply Hf].
    induction ranges as [|rg ranges IH]; intros a Ha; cbn [foldl]; [done|]. apply IH.
    rewrite (Z.mul_comm 8), Z_mod_plus_full. by apply mod8_add.
  - rewrite (Z.mul_comm 8), Z_mod_plus_full. done.
Qed.

Lemma msg_len_bounds pkt :
  0 <= out_size pkt ->
  header_size (out_typ pkt) + out_size pkt <= msg_len pkt < header_size (out_typ pkt) + out_size pkt + 8 /\
  msg_len pkt mod 8 = 0.
Proof.
  intros Hs. unfold msg_len, div_ceil8.
  pose proof (Z.div_mod (out_size pkt + header_size (out_typ pkt) + 7) 8).
  pose proof (Z.mod_pos_bound (out_size pkt + header_size (out_typ pkt) + 7) 8).
  split; [lia|]. by rewrite Z_mod_mult.
Qed.

(** * The sender's memory accesses *)

Lemma writer_write_ok m c d :
  ring_wf m -> 0 <= c_start c -> c_start c + zlen d <= c_end c -> c_end c < 2 ^ 32 ->
  c_start c + zlen d <= 2 * ring_len m -> zlen d <= ring_len m ->
  exists m', writer_write m c d = Ok (m', mkCursor (c_start c + zlen d) (c_end c)) /\ ring_wf m' /\
    ring_bytes m' = ring_update (ring_bytes m) (c_start c) d.
Proof.
  intros Hwf Hs He Hmax H2 Hd. pose proof (zlen_nonneg d). unfold writer_write, cursor_len.
  rewrite usub_ok by lia. cbn [res_bind]. destruct (Z.ltb_spec (c_end c - c_start c) (zlen d)); [lia|].
  destruct (write_at_spec (E:=AccessError) m (c_start c) d) as (m' & -> & ? & ?); try done.
  cbn [res_bind]. unfold ucast. rewrite Z.mod_small, uadd_ok by lia. cbn [res_bind]. eauto.
Qed.

Lemma ring_len_update m m' a d :
  ring_wf m -> ring_wf m' -> ring_bytes m' = ring_update (ring_bytes m) a d -> ring_len m' = ring_len m.
Proof. intros Hwf Hwf' Hb. by rewrite !ring_len_bytes, Hb, zlen_ring_update. Qed.

Lemma ring_bytes_pos m : ring_wf m -> 0 < zlen (ring_bytes m).
Proof. intros Hwf. rewrite <-ring_len_bytes by done. by apply ring_len_pos. Qed.

Lemma write_gpa_ranges_ok m c ranges :
  ring_wf m -> 0 <= c_start c -> c_start c + zlen (gpa_ranges_bytes ranges) <= c_end c ->
  c_end c < 2 ^ 32 -> c_start c + zlen (gpa_ranges_bytes ranges) <= 2 * ring_len m ->
  zlen (gpa_ranges_bytes ranges) <= ring_len m ->
  exists m' c', write_gpa_ranges m c ranges = Ok (m', c') /\ ring_wf m' /\
    ring_bytes m' = ring_update (ring_bytes m) (c_start c) (gpa_ranges_bytes ranges).
Proof.
  revert m c. induction ranges as [|rg ranges IH]; intros m c Hwf Hs He Hmax H2 Hd.
  { exists m, c; split_and!; [done|done|]. by rewrite ring_update_nil by (by apply ring_bytes_pos). }
  unfold gpa_ranges_bytes in *. cbn [map concat] in *. fold (gpa_ranges_bytes ranges) in *.
  cbn [write_gpa_ranges]. rewrite !zlen_app in *. set (b1 := gpa_range_bytes rg) in *. set (b2 := gpns_bytes (pr_gpns rg)) in *.
  pose proof (zlen_nonneg b1). pose proof (zlen_nonneg b2). pose proof (zlen_nonneg (gpa_ranges_bytes ranges)).
  destruct (writer_write_ok m c b1) as (m1 & -> & Hwf1 & Hb1); try (done || lia). cbn [res_bind].
  pose proof (ring_len_update _ _ _ _ Hwf Hwf1 Hb1) as Hl1.
  destruct (writer_write_ok m1 (mkCursor (c_start c + zlen b1) (c_end c)) b2) as (m2 & -> & Hwf2 & Hb2);
    cbn [c_start c_end]; try (done || lia). cbn [res_bind].
  pose proof (ring_len_update _ _ _ _ Hwf1 Hwf2 Hb2) as Hl2.
  destruct (IH m2 (mkCursor (c_start c + zlen b1 + zlen b2) (c_end c))) as (m3 & c3 & -> & Hwf3 & Hb3);
    cbn [c_start c_end]; try (done || lia).
  exists m3, c3; split_and!; [done|done|]. rewrite Hb3, Hb2, Hb1. cbn [c_start].
  rewrite (ring_len_bytes m Hwf) in *. pose proof (ring_bytes_pos m Hwf).
  rewrite !ring_update_update by (rewrite ?zlen_ring_update, ?zlen_app; lia). by rewrite app_assoc.
Qed.

Lemma write_transfer_ranges_ok {E} m base i ranges :
  ring_wf m -> 0 <= base + i * 8 -> base mod 8 = 0 ->
  base + i * 8 + 8 * zlen ranges <= 2 * ring_len m -> 8 * zlen ranges <= ring_len m ->
  exists m', write_transfer_ranges m base i ranges = Ok (E:=E) m' /\ ring_wf m' /\
    ring_bytes m' = ring_update (ring_bytes m) (base + i * 8) (concat (map transfer_range_bytes ranges)).
Proof.
  intros Hwf Ha Hb8. revert m i Hwf Ha. induction ranges as [|t ranges IH]; intros m i Hwf Ha H2 Hd.
  { exists m; split_and!; [done|done|]. by rewrite ring_update_nil by (by apply ring_bytes_pos). }
  cbn [write_transfer_ranges map concat]. set (b := transfer_range_bytes t).
  assert (zlen b = 8) as Hb by done. pose proof (zlen_nonneg ranges).
  assert (zlen (t :: ranges) = 1 + zlen ranges) as Hc by (unfold zlen; cbn [length]; lia).
  destruct (write_aligned_spec (E:=E) m (base + i * 8) b) as (m1 & -> & Hwf1 & Hb1);
    try (done || lia); [by rewrite Z_mod_plus_full|]. cbn [res_bind].
  pose proof (ring_len_update _ _ _ _ Hwf Hwf1 Hb1) as Hl1.
  destruct (IH m1 (i + 1)) as (m2 & -> & Hwf2 & Hb2); try (done || lia).
  exists m2; split_and!; [done|done|]. rewrite Hb2, Hb1.
  rewrite (ring_len_bytes m Hwf) in *. pose proof (ring_bytes_pos m Hwf).
  replace (base + (i + 1) * 8) with (base + i * 8 + zlen b) by lia.
  rewrite ring_update_update by (rewrite ?zlen_transfer_ranges; lia). done.
Qed.

Lemma write_extension_ok m o t :
  ring_wf m -> 0 <= o -> o mod 8 = 0 -> header_size t < 2 ^ 16 -> header_size t <= ring_len m ->
  o + header_size t <= 2 * ring_len m -> o + 2 ^ 17 < 2 ^ 32 ->
  exists m', write_extension m o (header_size t) t = Ok m' /\ ring_wf m' /\
    ring_bytes m' = ring_update (ring_bytes m) (o + DESCRIPTOR_SIZE) (extension_bytes t).
Proof.
  intros Hwf Ho Ho8 Hh Hl H2 Hmax. pose proof (zlen_extension t) as Hx.
  pose proof (header_size_min t). unfold DESCRIPTOR_SIZE in *.
  destruct t as [| | |ranges|id ranges]; cbn [write_extension extension_bytes] in *; unfold DESCRIPTOR_SIZE.
  1,2,3: exists m; split_and!; [done|done|]; by rewrite ring_update_nil by (by apply ring_bytes_pos).
  - rewrite zlen_app in Hx. change (zlen (gpa_direct_header_bytes _)) with 8 in Hx.
    pose proof (zlen_nonneg (gpa_ranges_bytes ranges)).
    assert (zlen ranges <= zlen (gpa_ranges_bytes ranges)) as Hcount.
    { clear. induction ranges as [|rg ranges IH]; [done|]. unfold gpa_ranges_bytes in *. cbn [map concat].
      rewrite !zlen_app. change (zlen (gpa_range_bytes rg)) with 8. pose proof (zlen_nonneg (gpns_bytes (pr_gpns rg))).
      unfold zlen at 1. cbn [length]. unfold zlen at 1 in IH. lia. }
    unfold ucast, range_cursor. cbn [off range_size]. pose proof (zlen_nonneg ranges).
    rewrite !Z.mod_small by lia. rewrite uadd_ok by lia. cbn [res_bind].
    set (hb := gpa_direct_header_bytes (zlen ranges)). assert (zlen hb = 8) by done.
    destruct (writer_write_ok m (mkCursor (o + 16) (o + 16 + header_size (OutGpaDirect ranges))) hb)
      as (m1 & -> & Hwf1 & Hb1); cbn [c_start c_end]; try (done || lia). cbn [res_bind].
    pose proof (ring_len_update _ _ _ _ Hwf Hwf1 Hb1) as Hl1. cbn [c_start c_end] in *.
    destruct (write_gpa_ranges_ok m1 (mkCursor (o + 16 + zlen hb) (o + 16 + header_size (OutGpaDirect ranges))) ranges)
      as (m2 & c2 & -> & Hwf2 & Hb2); cbn [c_start c_end]; try (done || lia). cbn.
    exists m2; split_and!; [done|done|]. rewrite Hb2, Hb1. cbn [c_start].
    rewrite (ring_len_bytes m Hwf) in *. pose proof (ring_bytes_pos m Hwf).
    apply ring_update_update; lia.
  - rewrite zlen_app, zlen_transfer_ranges in Hx.
    change (zlen (transfer_page_header_bytes _ _)) with 8 in Hx. pose proof (zlen_nonneg ranges).
    unfold ucast. rewrite Z.mod_small by lia.
    set (hb := transfer_page_header_bytes id (zlen ranges)). assert (zlen hb = 8) by done.
    destruct (write_aligned_spec (E:=WriteError) m (o + 16) hb) as (m1 & -> & Hwf1 & Hb1);
      try (done || lia); [by apply mod8_add|]. cbn [res_bind].
    pose proof (ring_len_update _ _ _ _ Hwf Hwf1 Hb1) as Hl1.
    destruct (write_transfer_ranges_ok (E:=WriteError) m1 (o + 16 + 8) 0 ranges) as (m2 & -> & Hwf2 & Hb2);
      try (done || lia); [by repeat apply mod8_add|].
    exists m2; split_and!; [done|done|]. rewrite Hb2, Hb1, Z.mul_0_l, Z.add_0_r.
    rewrite (ring_len_bytes m Hwf) in *. pose proof (ring_bytes_pos m Hwf).
    replace (o + 16 + 8) with (o + 16 + zlen hb) by lia.
    apply ring_update_update; rewrite ?zlen_transfer_ranges; lia.
Qed.

End spec.
