(* ===== verification/VmbusRingFifo.v ===== *)
(** The VMBus ring refines a transactional stream of packets.

    A [System] is one ring with its two endpoints. Its operations are those of
    [OutgoingRing] and [IncomingRing], with the payload of a packet written and
    read through the range the ring returned, as the channel code does. The
    specification is a list of all the packets ever committed, the packets
    written and not committed, and two positions of the reader in the list. *)

From S2P Require Import Prelude RingMem VmbusRing VmbusRingSpec.

Section fifo.
Context {M : Type} `{RingMemOk M}.
Implicit Types (r : Ring M).

(** * Writing one packet *)

Lemma total_len_bounds pkt :
  packet_ok pkt -> 24 <= total_len pkt < 2 ^ 20 /\ total_len pkt mod 8 = 0.
Proof.
  intros Hp. destruct (msg_len_bounds pkt (pkt_size _ Hp)) as [Hm Hm8].
  pose proof (header_size_min (out_typ pkt)). pose proof (pkt_size _ Hp). pose proof (pkt_length _ Hp).
  pose proof (Z.div_mod (msg_len pkt) 8). unfold total_len, FOOTER_SIZE.
  split; [lia|]. by apply mod8_add.
Qed.

Lemma write_too_long r p pkt :
  ring_ok r -> packet_ok pkt -> size r - 8 <= total_len pkt ->
  write r p pkt = Err (WriteCorrupt InvalidMessageLength).
Proof.
  intros Hr Hp Hlen. pose proof (total_len_bounds pkt Hp) as [Ht _]. pose proof (ok_min _ Hr).
  unfold write, total_len, msg_len, header_size, FOOTER_SIZE in *.
  destruct (packet_header (out_typ pkt)) as [[ptype hs] fl]. cbn [fst snd] in *.
  unfold ucast. rewrite Z.mod_small by lia. rewrite usub_ok by lia. cbn [res_bind].
  destruct (Z.leb_spec (size r - 8) (div_ceil8 (out_size pkt + hs) * 8 + 8)); [done|lia].
Qed.

Lemma ring_ok_mem r m' :
  ring_ok r -> ring_wf m' -> ring_len m' = ring_len (mem r) -> ring_ok (r <| mem := m' |>).
Proof. intros [] ? ?. constructor; simpl; congruence || done. Qed.

(** The bytes [write] stores, once the space is known to be free. *)
Lemma write_stores r i pkt :
  ring_ok r -> pointer r i -> packet_ok pkt -> total_len pkt < size r - 8 ->
  exists m1 m2 m3,
    write_aligned (mem r) i (descriptor_bytes (packet_descriptor pkt)) = Ok (E:=WriteError) m1 /\
    write_extension m1 i (header_size (out_typ pkt)) (out_typ pkt) = Ok m2 /\
    write_aligned m2 (i + msg_len pkt) (footer_bytes i) = Ok (E:=WriteError) m3 /\
    ring_wf m3 /\ ring_bytes m3 = packet_written (ring_bytes (mem r)) i pkt.
Proof.
  intros Hr [Hi Hi8] Hp Hlen. pose proof (total_len_bounds pkt Hp) as [Ht Ht8].
  destruct (msg_len_bounds pkt (pkt_size _ Hp)) as [Hm Hm8].
  pose proof (header_size_min (out_typ pkt)). pose proof (pkt_size _ Hp). pose proof (pkt_header _ Hp).
  pose proof (ok_len _ Hr) as Hsz. pose proof (ok_mem _ Hr) as Hwf. pose proof (ok_max _ Hr).
  unfold total_len, FOOTER_SIZE in *. set (db := descriptor_bytes (packet_descriptor pkt)).
  assert (zlen db = 16) as Hdb by done.
  destruct (write_aligned_spec (E:=WriteError) (mem r) i db) as (m1 & -> & Hwf1 & Hb1);
    [done|lia|lia|lia|done|done|].
  pose proof (ring_len_update _ _ _ _ Hwf Hwf1 Hb1) as Hl1.
  destruct (write_extension_ok m1 i (out_typ pkt)) as (m2 & He & Hwf2 & Hb2); try (done || lia).
  pose proof (ring_len_update _ _ _ _ Hwf1 Hwf2 Hb2) as Hl2.
  assert (zlen (footer_bytes i) = 8) as Hf by done.
  destruct (write_aligned_spec (E:=WriteError) m2 (i + msg_len pkt) (footer_bytes i)) as (m3 & Hw & Hwf3 & Hb3);
    [done|lia|lia|lia|by apply mod8_add|done|].
  exists m1, m2, m3. split_and!; [done..|]. rewrite Hb3, Hb2, Hb1. unfold packet_written, head_bytes.
  fold db. change DESCRIPTOR_SIZE with (zlen db). pose proof (ring_bytes_pos _ Hwf).
  pose proof (zlen_extension (out_typ pkt)). unfold DESCRIPTOR_SIZE in *.
  rewrite (ring_len_bytes _ Hwf) in *. rewrite (ring_update_update _ i) by lia. done.
Qed.

(** The consumer's pointer [write] uses: it fetches the shared one when the
    cached one shows too little space. *)
Definition fetched_out r (p : OutgoingOffset) (len : Z) : Z :=
  if size r - used r (next_in p) (cached_out p) - 8 <? len then outp (control r) else cached_out p.

Lemma write_spec r p pkt :
  ring_ok r -> pointer r (next_in p) -> pointer r (cached_out p) -> pointer r (outp (control r)) ->
  packet_ok pkt -> total_len pkt < size r - 8 ->
  let co := fetched_out r p (total_len pkt) in
  if size r - used r (next_in p) co - 8 <? total_len pkt
  then write r p pkt = Err (Full (total_len pkt))
  else exists m',
    write r p pkt = Ok (r <| mem := m' |>,
      mkOutgoingOffset co (committed_in p) ((next_in p + total_len pkt) mod size r),
      mkRange (next_in p + header_size (out_typ pkt)) (out_size pkt)) /\
    ring_wf m' /\ ring_bytes m' = packet_written (ring_bytes (mem r)) (next_in p) pkt.
Proof.
  intros Hr Hni Hco Ho Hp Hlen co.
  destruct (write_stores r (next_in p) pkt Hr Hni Hp Hlen) as (m1 & m2 & m3 & Hw1 & Hw2 & Hw3 & Hwf & Hb).
  pose proof (total_len_bounds pkt Hp) as [Ht Ht8]. pose proof (ok_max _ Hr).
  destruct (msg_len_bounds pkt (pkt_size _ Hp)) as [Hm Hm8]. pose proof (pkt_size _ Hp).
  pose proof (header_size_min (out_typ pkt)). pose proof (pkt_header _ Hp). pose proof (pkt_length _ Hp).
  destruct (add_pointer_spec (E:=WriteError) r (next_in p) (total_len pkt)) as [Hadd _]; [done|done|lia|done|].
  assert (0 <= next_in p < size r) as Hn by apply Hni.
  assert (packet_header (out_typ pkt) =
    (packet_type (packet_descriptor pkt), header_size (out_typ pkt), flags (packet_descriptor pkt))) as Hh.
  { unfold packet_descriptor, header_size. by destruct (packet_header (out_typ pkt)) as [[]]. }
  assert (packet_descriptor pkt = mkDescriptor (packet_type (packet_descriptor pkt))
    (ucast 16 (header_size (out_typ pkt)) / 8) (ucast 16 (msg_len pkt / 8))
    (flags (packet_descriptor pkt)) (out_transaction_id pkt)) as Hd.
  { unfold ucast. rewrite !Z.mod_small by (try split; try apply Z.div_pos; lia).
    unfold packet_descriptor, header_size. by destruct (packet_header (out_typ pkt)) as [[]]. }
  unfold write. rewrite Hh. fold (msg_len pkt). rewrite <-Hd. fold (total_len pkt).
  assert (ucast 32 (total_len pkt) = total_len pkt) as -> by (unfold ucast; apply Z.mod_small; lia).
  rewrite usub_ok by lia. cbn [res_bind].
  destruct (Z.leb_spec (size r - 8) (total_len pkt)); [lia|].
  rewrite free_spec by done. cbn [res_bind]. unfold co, fetched_out.
  assert (ucast 32 (header_size (out_typ pkt)) = header_size (out_typ pkt)) as Hch
    by (unfold ucast; apply Z.mod_small; lia).
  assert (ucast 32 (out_size pkt) = out_size pkt) as Hcs
    by (unfold ucast; apply Z.mod_small; unfold total_len, FOOTER_SIZE in *; lia).
  destruct (Z.ltb_spec (size r - used r (next_in p) (cached_out p) - 8) (total_len pkt)).
  - rewrite validate_ok by done. cbn [map_err res_bind]. rewrite free_spec by done. cbn [res_bind].
    destruct (Z.ltb_spec (size r - used r (next_in p) (outp (control r)) - 8) (total_len pkt)); [done|].
    cbn [res_bind]. rewrite Hw1. cbn [res_bind]. rewrite Hw2. cbn [res_bind]. rewrite Hw3. cbn [res_bind].
    rewrite Hadd, Hch. cbn [res_bind]. rewrite uadd_ok by (unfold total_len, FOOTER_SIZE in *; lia).
    cbn [res_bind]. rewrite Hcs. eauto.
  - destruct (Z.ltb_spec (size r - used r (next_in p) (cached_out p) - 8) (total_len pkt)); [lia|].
    cbn [res_bind]. rewrite Hw1. cbn [res_bind]. rewrite Hw2. cbn [res_bind]. rewrite Hw3. cbn [res_bind].
    rewrite Hadd, Hch. cbn [res_bind]. rewrite uadd_ok by (unfold total_len, FOOTER_SIZE in *; lia).
    cbn [res_bind]. rewrite Hcs. eauto.
Qed.

(** * Parsing the packet back *)

(** What [parse_packet] makes of [pkt] when it is stored at [pos]. *)
Definition view (pos : Z) (pkt : OutgoingPacket) : IncomingPacket :=
  let hs := header_size (out_typ pkt) in
  mkIncoming
    match out_typ pkt with
    | OutInBandNoCompletion => None
    | _ => Some (out_transaction_id pkt)
    end
    match out_typ pkt with
    | OutInBandNoCompletion | OutInBandWithCompletion => InBand
    | OutCompletion => Completion
    | OutGpaDirect ranges => GpaDirect (zlen ranges) (mkRange (pos + 24) (hs - 24))
    | OutTransferPages id ranges => TransferPages id (zlen ranges) (mkRange (pos + 24) (hs - 24))
    end
    (mkRange (pos + hs) (msg_len pkt - hs)).

Lemma field_app (a b c : list Z) n :
  length b = n -> field (a ++ b ++ c) (length a) n = le_value b.
Proof.
  intros <-. unfold field. by rewrite drop_app_length, take_app_length.
Qed.

Lemma field_le (a c : list Z) n v k :
  length a = k -> 0 <= v < 256 ^ Z.of_nat n -> field (a ++ le_bytes n v ++ c) k n = v.
Proof. intros <- Hv. rewrite field_app by apply length_le_bytes. by apply le_value_bytes. Qed.

Lemma descriptor_roundtrip d rest :
  0 <= packet_type d < 2 ^ 16 -> 0 <= data_offset8 d < 2 ^ 16 -> 0 <= length8 d < 2 ^ 16 ->
  0 <= flags d < 2 ^ 16 -> 0 <= desc_transaction_id d < 2 ^ 64 ->
  descriptor_of_bytes (descriptor_bytes d ++ rest) = d.
Proof.
  intros Ht Hd Hl Hf Hi. unfold descriptor_of_bytes, descriptor_bytes. destruct d as [t o l f i].
  cbn [packet_type data_offset8 length8 flags desc_transaction_id] in *.
  f_equal.
  - rewrite <-!app_assoc. by apply (field_le []).
  - rewrite <-!app_assoc. by apply field_le.
  - rewrite <-!app_assoc, (app_assoc (le_bytes 2 t)). by apply field_le.
  - rewrite <-!app_assoc, (app_assoc (le_bytes 2 t)), (app_assoc (_ ++ _)). by apply field_le.
  - rewrite <-!app_assoc, (app_assoc (le_bytes 2 t)), (app_assoc (_ ++ _)), (app_assoc (_ ++ _)).
    by apply field_le.
Qed.

Lemma packet_descriptor_fields pkt :
  packet_descriptor pkt =
  mkDescriptor (packet_header (out_typ pkt)).1.1 (header_size (out_typ pkt) / 8) (msg_len pkt / 8)
    (packet_header (out_typ pkt)).2 (out_transaction_id pkt).
Proof. unfold packet_descriptor, header_size. by destruct (packet_header (out_typ pkt)) as [[]]. Qed.

Lemma ranges_count_bound {A} (l : list A) t :
  8 * zlen l <= header_size t - 24 -> header_size t < 2 ^ 16 -> 0 <= zlen l < 2 ^ 32.
Proof. pose proof (zlen_nonneg l). lia. Qed.

Lemma gpa_count ranges : 8 * zlen ranges <= header_size (OutGpaDirect ranges) - 24.
Proof.
  pose proof (zlen_extension (OutGpaDirect ranges)) as Hx. cbn [extension_bytes] in Hx.
  rewrite zlen_app in Hx. change (zlen (gpa_direct_header_bytes _)) with 8 in Hx. unfold DESCRIPTOR_SIZE in Hx.
  assert (8 * zlen ranges <= zlen (gpa_ranges_bytes ranges)) as Hc; [|lia].
  clear. induction ranges as [|rg ranges IH]; [done|]. unfold gpa_ranges_bytes in *. cbn [map concat].
  rewrite !zlen_app. change (zlen (gpa_range_bytes rg)) with 8.
  pose proof (zlen_nonneg (gpns_bytes (pr_gpns rg))). unfold zlen at 1. cbn [length].
  unfold zlen at 1 in IH. lia.
Qed.

(** The extension of the descriptor, as the parser reads it. *)
Lemma parse_type_view r o pkt :
  ring_ok r -> pointer r o -> packet_ok pkt ->
  ring_slice (ring_bytes (mem r)) o (Z.to_nat (header_size (out_typ pkt))) = head_bytes pkt ->
  parse_type (mem r) o (packet_descriptor pkt) = Ok (typ (view o pkt)).
Proof.
  intros Hr Ho Hp Hs. pose proof (pkt_header _ Hp) as Hh. pose proof (pkt_typ _ Hp) as Ht.
  pose proof (ok_max _ Hr). assert (0 <= o < size r) by apply Ho.
  pose proof (header_size_mod8 (out_typ pkt)) as H8.
  pose proof (Z.div_mod (header_size (out_typ pkt)) 8).
  unfold parse_type. rewrite packet_descriptor_fields. cbn [packet_type data_offset8].
  assert (forall n, DESCRIPTOR_SIZE + 8 <= header_size (out_typ pkt) ->
    n = 8 -> ring_slice (ring_bytes (mem r)) (o + 16) (Z.to_nat n) = take 8 (extension_bytes (out_typ pkt))) as Hext.
  { intros n Hge ->. rewrite <-(ring_slice_take _ _ 8 (Z.to_nat (header_size (out_typ pkt)) - 16))
      by (unfold DESCRIPTOR_SIZE in *; lia).
    rewrite <-(ring_slice_drop _ o 16) by (unfold DESCRIPTOR_SIZE in *; lia). rewrite Hs. done. }
  unfold view, TRANSFER_PAGE_HEADER_SIZE8, GPA_DIRECT_HEADER_SIZE8.
  destruct (out_typ pkt) as [| | |ranges|id ranges] eqn:Htyp; cbn [typ]; try done.
  - pose proof (gpa_count ranges) as Hc. pose proof (ranges_count_bound ranges _ Hc Hh).
    assert (0 < zlen ranges) by (destruct ranges; [done|unfold zlen; cbn [length]; lia]).
    cbn [packet_header fst snd].
    change (PACKET_TYPE_GPA_DIRECT =? PACKET_TYPE_IN_BAND) with false. cbn iota.
    change (PACKET_TYPE_GPA_DIRECT =? PACKET_TYPE_COMPLETION) with false. cbn iota.
    change (PACKET_TYPE_GPA_DIRECT =? PACKET_TYPE_TRANSFER_PAGES) with false. cbn iota.
    change (PACKET_TYPE_GPA_DIRECT =? PACKET_TYPE_GPA_DIRECT) with true. cbn iota.
    destruct (Z.ltb_spec (header_size (OutGpaDirect ranges) / 8) 3); [lia|].
    unfold DESCRIPTOR_SIZE in *. rewrite read_desc by (done || lia). cbn [res_bind].
    rewrite Hext by lia. cbn [extension_bytes]. rewrite take_app_le by done.
    assert (field (take 8 (gpa_direct_header_bytes (zlen ranges))) 4 4 = zlen ranges) as Hf.
    { rewrite take_ge by done. unfold gpa_direct_header_bytes.
      rewrite <-(app_nil_r (le_bytes 4 (zlen ranges))). by apply field_le. }
    rewrite Hf. destruct (Z.eqb_spec (zlen ranges) 0); [lia|].
    rewrite uadd_ok by lia. cbn [res_bind]. rewrite usub_ok by lia. cbn [res_bind]. repeat f_equal. lia.
  - assert (8 * zlen ranges <= header_size (OutTransferPages id ranges) - 24) as Hc
      by (unfold header_size; cbn [packet_header fst snd]; unfold DESCRIPTOR_SIZE; lia).
    pose proof (ranges_count_bound ranges _ Hc Hh). pose proof (zlen_nonneg ranges).
    cbn [packet_header fst snd].
    change (PACKET_TYPE_TRANSFER_PAGES =? PACKET_TYPE_IN_BAND) with false. cbn iota.
    change (PACKET_TYPE_TRANSFER_PAGES =? PACKET_TYPE_COMPLETION) with false. cbn iota.
    change (PACKET_TYPE_TRANSFER_PAGES =? PACKET_TYPE_TRANSFER_PAGES) with true. cbn iota.
    destruct (Z.ltb_spec (header_size (OutTransferPages id ranges) / 8) 3); [lia|].
    unfold DESCRIPTOR_SIZE in *. rewrite read_desc by (done || lia). cbn [res_bind].
    rewrite Hext by lia. cbn [extension_bytes]. rewrite take_app_le by done.
    rewrite take_ge by done. unfold transfer_page_header_bytes.
    assert (field (le_bytes 2 id ++ le_bytes 2 0 ++ le_bytes 4 (zlen ranges)) 0 2 = id) as ->
      by (by apply (field_le [])).
    assert (field (le_bytes 2 id ++ le_bytes 2 0 ++ le_bytes 4 (zlen ranges)) 4 4 = zlen ranges) as ->.
    { rewrite app_assoc, <-(app_nil_r (le_bytes 4 (zlen ranges))). by apply field_le. }
    rewrite uadd_ok by lia. cbn [res_bind]. rewrite usub_ok by lia. cbn [res_bind]. repeat f_equal. lia.
Qed.

Lemma parse_packet_view r o avail pkt :
  ring_ok r -> pointer r o -> packet_ok pkt -> msg_len pkt <= avail ->
  ring_slice (ring_bytes (mem r)) o (Z.to_nat (header_size (out_typ pkt))) = head_bytes pkt ->
  parse_packet (mem r) o avail = Ok (msg_len pkt, view o pkt).
Proof.
  intros Hr Ho Hp Hav Hs. pose proof (parse_type_view r o pkt Hr Ho Hp Hs) as Ht.
  pose proof (pkt_header _ Hp). pose proof (header_size_min (out_typ pkt)).
  pose proof (header_size_mod8 (out_typ pkt)). pose proof (pkt_length _ Hp). pose proof (pkt_size _ Hp).
  destruct (msg_len_bounds pkt (pkt_size _ Hp)) as [Hm Hm8]. pose proof (pkt_tid _ Hp).
  pose proof (Z.div_mod (header_size (out_typ pkt)) 8). pose proof (Z.div_mod (msg_len pkt) 8).
  pose proof (ok_max _ Hr). assert (0 <= o < size r) by apply Ho.
  unfold parse_packet, DESCRIPTOR_SIZE. rewrite read_desc_0 by done. cbn [res_bind].
  assert (descriptor_of_bytes (ring_slice (ring_bytes (mem r)) o 16) = packet_descriptor pkt) as ->.
  { rewrite <-(ring_slice_take _ _ 16 (Z.to_nat (header_size (out_typ pkt)))) by lia. rewrite Hs.
    unfold head_bytes. rewrite take_app_le by done. rewrite take_ge by done.
    rewrite <-(app_nil_r (descriptor_bytes _)). apply descriptor_roundtrip; rewrite packet_descriptor_fields;
      cbn [packet_type data_offset8 length8 flags desc_transaction_id]; try lia;
      by destruct (out_typ pkt). }
  rewrite Ht. rewrite packet_descriptor_fields.
  cbn [packet_type data_offset8 length8 flags desc_transaction_id]. unfold DESCRIPTOR_SIZE8.
  destruct (Z.ltb_spec (msg_len pkt / 8) (header_size (out_typ pkt) / 8)); [lia|].
  destruct (Z.ltb_spec (header_size (out_typ pkt) / 8) 2); [lia|].
  destruct (Z.ltb_spec avail (msg_len pkt / 8 * 8)); [lia|]. cbn [orb].
  assert (Z.land (packet_header (out_typ pkt)).2 (unot 16 PACKET_FLAG_COMPLETION_REQUESTED) = 0) as ->
    by (by destruct (out_typ pkt)).
  cbn [negb Z.eqb res_bind]. rewrite uadd_ok by lia. cbn [res_bind]. rewrite usub_ok by lia. cbn [res_bind].
  do 2 f_equal; [lia|]. unfold view. destruct (out_typ pkt); cbn [typ]; repeat f_equal; lia.
Qed.

(** * The system *)

Record System : Type := mkSystem {
  ring : Ring M;
  tx : OutgoingOffset;
  rx : IncomingOffset;
}.

(** What a receiver sees of a packet: its transaction, its kind, the bytes of
    its external ranges and its payload. *)
Inductive Kind : Type :=
| KInBand
| KCompletion
| KGpaDirect (count : Z)
| KTransferPages (id count : Z).

Record Received : Type := mkReceived {
  rcv_transaction : option Z;
  rcv_kind : Kind;
  rcv_ranges : list Z;
  rcv_payload : list Z;
}.

Inductive Fault : Type :=
| RingFault (e : RingError)
| AccessFault (e : AccessError).

Definition read_range (m : M) (rg : RingRange) : res Fault (list Z) :=
  map_err AccessFault
    (let! c := range_cursor rg in
     let! dc := reader_read m c (range_size rg) in
     Ok dc.1).

Definition write_range (m : M) (rg : RingRange) (data : list Z) : res Fault M :=
  map_err AccessFault
    (let! c := range_cursor rg in
     let! mc := writer_write m c data in
     Ok mc.1).

Definition receive (m : M) (pkt : IncomingPacket) : res Fault Received :=
  let! data := read_range m (payload pkt) in
  match typ pkt with
  | InBand => Ok (mkReceived (transaction_id pkt) KInBand [] data)
  | Completion => Ok (mkReceived (transaction_id pkt) KCompletion [] data)
  | GpaDirect count rg =>
      let! ext := read_range m rg in
      Ok (mkReceived (transaction_id pkt) (KGpaDirect count) ext data)
  | TransferPages id count rg =>
      let! ext := read_range m rg in
      Ok (mkReceived (transaction_id pkt) (KTransferPages id count) ext data)
  end.

Inductive Op : Type :=
| Send (pkt : OutgoingPacket) (data : list Z)
| CommitWrite
| RevertWrite
| Receive
| CommitRead
| RevertRead
| SetMask (state : bool)
| SetPending (len : Z).

Inductive Out : Type :=
| Done
| RingFull (len : Z)
| Rejected
| Got (x : Received)
| NoPacket
| Signal (b : bool).

Definition step (op : Op) (s : System) : res Fault (System * Out) :=
  let r := ring s in
  match op with
  | Send pkt data =>
      match write r (tx s) pkt with
      | Ok (r, p, rg) =>
          let! m := write_range (mem r) rg data in
          Ok (mkSystem (r <| mem := m |>) p (rx s), Done)
      | Err (Full len) => Ok (s, RingFull len)
      | Err (WriteCorrupt InvalidMessageLength) => Ok (s, Rejected)
      | Err (WriteCorrupt e) => Err (RingFault e)
      | Panic => Panic
      end
  | CommitWrite =>
      let '(r, p, signal) := commit_write r (tx s) in
      Ok (mkSystem r p (rx s), Signal signal)
  | RevertWrite => Ok (mkSystem r (outgoing_revert (tx s)) (rx s), Done)
  | Receive =>
      match read r (rx s) with
      | (p, Ok pkt) =>
          let! x := receive (mem r) pkt in
          Ok (mkSystem r (tx s) p, Got x)
      | (p, Err Empty) => Ok (mkSystem r (tx s) p, NoPacket)
      | (p, Err (ReadCorrupt e)) => Err (RingFault e)
      | (p, Panic) => Panic
      end
  | CommitRead =>
      let! rps := commit_read r (rx s) in
      let '(r, p, signal) := rps in
      Ok (mkSystem r (tx s) p, Signal signal)
  | RevertRead => Ok (mkSystem r (tx s) (incoming_revert (rx s)), Done)
  | SetMask state => Ok (mkSystem (set_interrupt_mask r state) (tx s) (rx s), Done)
  | SetPending len =>
      match set_pending_send_size r len with
      | Ok r => Ok (mkSystem r (tx s) (rx s), Done)
      | Err InvalidMessageLength => Ok (s, Rejected)
      | Err e => Err (RingFault e)
      | Panic => Panic
      end
  end.

(** * The specification *)

Definition Msg : Type := OutgoingPacket * list Z.

(** [stream] is every packet ever committed by the sender; the receiver has
    consumed the first [committed] of them for good, and the first [taken]
    until it reverts. *)
Record Stream : Type := mkStream {
  stream : list Msg;
  unsent : list Msg;
  committed : nat;
  taken : nat;
  masked : bool;
  pending : Z;
}.

#[global] Instance Stream_settable : Settable Stream := fun q =>
  mkStream (stream q) (unsent q) (committed q) (taken q) (masked q) (pending q).

Definition live (q : Stream) : list Msg := drop (committed q) (stream q).

Definition span (ms : list Msg) : Z := foldr (fun m a => total_len m.1 + a) 0 ms.

Definition empty_slot (sz : Z) (ms : list Msg) : Z := sz - 8 - span ms.

Definition kind_of (pkt : OutgoingPacket) : Kind :=
  match out_typ pkt with
  | OutInBandNoCompletion | OutInBandWithCompletion => KInBand
  | OutCompletion => KCompletion
  | OutGpaDirect ranges => KGpaDirect (zlen ranges)
  | OutTransferPages id ranges => KTransferPages id (zlen ranges)
  end.

Definition ranges_of (pkt : OutgoingPacket) : list Z :=
  match out_typ pkt with
  | OutGpaDirect ranges => gpa_ranges_bytes ranges
  | OutTransferPages _ ranges => concat (map transfer_range_bytes ranges)
  | _ => []
  end.

(** [x] is [m] as the receiver sees it: the payload is padded to a multiple of
    eight bytes. *)
Definition received_as (m : Msg) (x : Received) : Prop :=
  rcv_transaction x =
    match out_typ m.1 with OutInBandNoCompletion => None | _ => Some (out_transaction_id m.1) end /\
  rcv_kind x = kind_of m.1 /\ rcv_ranges x = ranges_of m.1 /\
  exists pad, rcv_payload x = m.2 ++ pad /\ zlen pad < 8.

Definition read_signal (sz : Z) (q : Stream) : bool :=
  negb (taken q =? committed q)%nat && negb (pending q =? 0) &&
  (empty_slot sz (live q) <? pending q) &&
  (pending q <=? empty_slot sz (drop (taken q) (stream q))).

Definition write_signal (q : Stream) : bool :=
  negb (length (unsent q) =? 0)%nat && negb (masked q) && (committed q =? length (stream q))%nat.

Inductive astep (sz : Z) : Op -> Stream -> Out -> Stream -> Prop :=
| AWrite pkt data q :
    total_len pkt < sz - 8 -> total_len pkt <= empty_slot sz (live q ++ unsent q) ->
    astep sz (Send pkt data) q Done (q <| unsent := unsent q ++ [(pkt, data)] |>)
| AFull pkt data q :
    total_len pkt < sz - 8 -> empty_slot sz (live q ++ unsent q) < total_len pkt ->
    astep sz (Send pkt data) q (RingFull (total_len pkt)) q
| ARejected pkt data q :
    sz - 8 <= total_len pkt -> astep sz (Send pkt data) q Rejected q
| ACommitWrite q :
    astep sz CommitWrite q (Signal (write_signal q))
      (q <| stream := stream q ++ unsent q |> <| unsent := [] |>)
| ARevertWrite q : astep sz RevertWrite q Done (q <| unsent := [] |>)
| ARead q m x :
    stream q !! taken q = Some m -> received_as m x ->
    astep sz Receive q (Got x) (q <| taken := S (taken q) |>)
| AEmpty q : taken q = length (stream q) -> astep sz Receive q NoPacket q
| ACommitRead q : astep sz CommitRead q (Signal (read_signal sz q)) (q <| committed := taken q |>)
| ARevertRead q : astep sz RevertRead q Done (q <| taken := committed q |>)
| AMask b q : astep sz (SetMask b) q Done (q <| masked := b |>)
| APending len q :
    len <= sz - 8 -> astep sz (SetPending len) q Done (q <| pending := (len + 7) / 8 * 8 |>)
| APendingRejected len q : sz - 8 < len -> astep sz (SetPending len) q Rejected q.

(** * Positions *)

Definition msg_ok (m : Msg) : Prop := packet_ok m.1 /\ zlen m.2 = out_size m.1.

Lemma span_app a b : span (a ++ b) = span a + span b.
Proof. induction a as [|m a IH]; simpl; [done|]. rewrite IH. lia. Qed.

Lemma span_bounds ms :
  Forall msg_ok ms -> 24 * Z.of_nat (length ms) <= span ms /\ span ms mod 8 = 0.
Proof.
  induction 1 as [|m ms [Hm _] _ [IH IH8]]; simpl; [done|].
  destruct (total_len_bounds m.1 Hm). split; [lia|by apply mod8_add].
Qed.

Lemma span_take_drop n ms : span (take n ms) + span (drop n ms) = span ms.
Proof. by rewrite <-span_app, take_drop. Qed.

Lemma span_drop_pos n ms :
  Forall msg_ok ms -> (n < length ms)%nat -> 24 <= span (drop n ms).
Proof.
  intros Hms Hn. destruct (span_bounds (drop n ms)) as [Hb _]; [by apply Forall_drop|].
  rewrite length_drop in Hb. lia.
Qed.

Lemma span_take_bounds n ms :
  Forall msg_ok ms -> 0 <= span (take n ms) <= span ms /\ span (take n ms) mod 8 = 0.
Proof.
  intros Hms. destruct (span_bounds (take n ms)) as [Hb Hb8]; [by apply Forall_take|].
  destruct (span_bounds (drop n ms)) as [Hd _]; [by apply Forall_drop|].
  pose proof (span_take_drop n ms). split; [lia|done].
Qed.

(** The pointer [k] bytes after [p]. *)
Definition at_ r (p k : Z) : Z := (p + k) mod size r.

Lemma mod8_at r p k : ring_ok r -> p mod 8 = 0 -> k mod 8 = 0 -> at_ r p k mod 8 = 0.
Proof.
  intros Hr Hp Hk. unfold at_. pose proof (ok_min _ Hr). rewrite (Z.mod_eq _ (size r)) by lia.
  apply mod8_sub; [by apply mod8_add|]. rewrite Z.mul_comm, Z.mul_mod, (ok_aligned _ Hr), Z.mul_0_r by lia. done.
Qed.

Lemma at_pointer r p k : ring_ok r -> pointer r p -> k mod 8 = 0 -> pointer r (at_ r p k).
Proof.
  intros Hr [_ Hp] Hk. split; [|by apply mod8_at]. pose proof (ok_min _ Hr). apply Z.mod_pos_bound. lia.
Qed.

Lemma at_0 r p : pointer r p -> at_ r p 0 = p.
Proof. intros [Hp _]. unfold at_. rewrite Z.add_0_r. by apply Z.mod_small. Qed.

Lemma at_at r p j k : at_ r (at_ r p j) k = at_ r p (j + k).
Proof. unfold at_. by rewrite Zplus_mod_idemp_l, Z.add_assoc. Qed.

Lemma used_at r p a b : 0 <= a - b < size r -> used r (at_ r p a) (at_ r p b) = a - b.
Proof.
  intros Hab. unfold used, at_. rewrite <-Zminus_mod.
  replace (p + a - (p + b)) with (a - b) by lia. by apply Z.mod_small.
Qed.

Lemma at_inj r p a b : Z.abs (a - b) < size r -> at_ r p a = at_ r p b -> a = b.
Proof.
  intros Hab Heq. destruct (decide (b <= a)).
  - pose proof (used_at r p a b ltac:(lia)) as Hu. rewrite Heq in Hu. unfold used in Hu.
    rewrite Z.sub_diag, Zmod_0_l in Hu. lia.
  - pose proof (used_at r p b a ltac:(lia)) as Hu. rewrite Heq in Hu. unfold used in Hu.
    rewrite Z.sub_diag, Zmod_0_l in Hu. lia.
Qed.

(** * The packets in memory *)

Definition laid_one (l : list Z) (pos : Z) (m : Msg) : Prop :=
  let hs := header_size (out_typ m.1) in
  ring_slice l pos (Z.to_nat hs) = head_bytes m.1 /\
  ring_slice l (pos + hs) (length m.2) = m.2 /\
  ring_slice l (pos + msg_len m.1) 8 = footer_bytes (pos mod zlen l).

Fixpoint laid (l : list Z) (pos : Z) (ms : list Msg) : Prop :=
  match ms with
  | [] => True
  | m :: ms => laid_one l pos m /\ laid l (pos + total_len m.1) ms
  end.

Lemma laid_app l pos a b : laid l pos (a ++ b) <-> laid l pos a /\ laid l (pos + span a) b.
Proof.
  revert pos. induction a as [|m a IH]; intros pos; simpl; [rewrite Z.add_0_r; tauto|].
  rewrite IH, Z.add_assoc. tauto.
Qed.

Lemma ring_slice_congr l a b n : a mod zlen l = b mod zlen l -> ring_slice l a n = ring_slice l b n.
Proof. intros Hab. by rewrite <-ring_slice_mod, Hab, ring_slice_mod. Qed.

Lemma ring_update_congr l a b d : a mod zlen l = b mod zlen l -> ring_update l a d = ring_update l b d.
Proof. intros Hab. by rewrite <-ring_update_mod, Hab, ring_update_mod. Qed.

Lemma mod_add_congr a b k n : a mod n = b mod n -> (a + k) mod n = (b + k) mod n.
Proof. intros Hab. by rewrite <-Zplus_mod_idemp_l, Hab, Zplus_mod_idemp_l. Qed.

Lemma laid_one_congr l a b m : a mod zlen l = b mod zlen l -> laid_one l a m -> laid_one l b m.
Proof.
  intros Hab (Hh & Hd & Hf). unfold laid_one.
  rewrite <-Hab, <-(ring_slice_congr l a b), <-(ring_slice_congr l (a + _) (b + _)),
    <-(ring_slice_congr l (a + msg_len _) (b + _)) by auto using mod_add_congr. done.
Qed.

Lemma laid_congr l a b ms : a mod zlen l = b mod zlen l -> laid l a ms -> laid l b ms.
Proof.
  revert a b. induction ms as [|m ms IH]; intros a b Hab; [done|]. intros [Hm Hms]. split.
  - by eapply laid_one_congr.
  - eapply IH, Hms. by apply mod_add_congr.
Qed.

Lemma laid_one_update l pos m e i d :
  0 < zlen l -> msg_ok m -> total_len m.1 <= e < zlen l -> e + zlen d <= zlen l ->
  i mod zlen l = (pos + e) mod zlen l -> laid_one l pos m -> laid_one (ring_update l i d) pos m.
Proof.
  intros Hl [Hm Hlen] He Hd Hi (Hh & Hp & Hf).
  destruct (msg_len_bounds m.1 (pkt_size _ Hm)) as [Hb _]. pose proof (header_size_min (out_typ m.1)).
  unfold total_len, FOOTER_SIZE in *. pose proof (zlen_nonneg m.2). pose proof (zlen_nonneg d).
  assert (forall k n, 0 <= k -> k + Z.of_nat n <= e ->
    ring_slice (ring_update l i d) (pos + k) n = ring_slice l (pos + k) n) as Hk.
  { intros k n Hk Hn. rewrite (ring_update_congr l i (pos + e)) by done.
    apply ring_slice_update_disjoint; [done|..];
      replace (pos + e - (pos + k)) with (e - k) by lia; rewrite Z.mod_small; lia. }
  unfold laid_one. rewrite zlen_ring_update. pose proof (Hk 0 (Z.to_nat (header_size (out_typ m.1)))) as H0'.
  rewrite Z.add_0_r in H0'. rewrite H0' by lia. rewrite !Hk by (unfold zlen in *; lia). done.
Qed.

Lemma laid_update l pos ms e i d :
  0 < zlen l -> Forall msg_ok ms -> span ms <= e < zlen l -> e + zlen d <= zlen l ->
  i mod zlen l = (pos + e) mod zlen l -> laid l pos ms -> laid (ring_update l i d) pos ms.
Proof.
  intros Hl Hms. revert pos e. induction Hms as [|m ms Hm Hms IH]; intros pos e He Hd Hi; [done|].
  intros [Hone Hrest]. destruct (span_bounds ms Hms). destruct (total_len_bounds m.1 (proj1 Hm)).
  cbn [span foldr] in He. fold (span ms) in He. split.
  - eapply (laid_one_update l pos m e); (done || lia).
  - apply (IH _ (e - total_len m.1)); try (done || lia). rewrite Hi. f_equal. lia.
Qed.

(** The memory after [write] and the copy of the payload. *)
Definition stored (l : list Z) (i : Z) (m : Msg) : list Z :=
  ring_update (packet_written l i m.1) (i + header_size (out_typ m.1)) m.2.

Lemma zlen_stored l i m : zlen (stored l i m) = zlen l.
Proof. unfold stored, packet_written. by rewrite !zlen_ring_update. Qed.

Lemma stored_laid l i m :
  msg_ok m -> total_len m.1 < zlen l -> 0 <= i < zlen l -> laid_one (stored l i m) i m.
Proof.
  intros [Hm Hlen] Ht Hi. destruct (msg_len_bounds m.1 (pkt_size _ Hm)) as [Hb _].
  pose proof (header_size_min (out_typ m.1)). unfold total_len, FOOTER_SIZE in *.
  pose proof (zlen_nonneg m.2). assert (0 < zlen l) as Hl by lia.
  pose proof (zlen_head_bytes m.1) as Hh. assert (zlen (footer_bytes i) = 8) as Hf by done.
  assert (length (head_bytes m.1) = Z.to_nat (header_size (out_typ m.1))) as Hhl by (unfold zlen in Hh; lia).
  unfold laid_one. rewrite zlen_stored, Z.mod_small by done. unfold stored, packet_written. split_and!.
  - rewrite (ring_slice_update_disjoint _ (i + header_size _)), (ring_slice_update_disjoint _ (i + msg_len _));
      try (by rewrite ?zlen_ring_update);
      rewrite ?zlen_ring_update;
      try (replace (i + header_size (out_typ m.1) - i) with (header_size (out_typ m.1)) by lia;
           rewrite Z.mod_small; lia);
      try (replace (i + msg_len m.1 - i) with (msg_len m.1) by lia; rewrite Z.mod_small; lia).
    rewrite <-Hhl. apply ring_slice_update_same; lia.
  - apply ring_slice_update_same; rewrite ?zlen_ring_update; lia.
  - destruct (decide (m.2 = [])) as [->|Hne].
    { rewrite ring_update_nil by (by rewrite !zlen_ring_update).
      change 8%nat with (length (footer_bytes i)). apply ring_slice_update_same; rewrite ?zlen_ring_update; lia. }
    assert (0 < zlen m.2) by (destruct m.2; [done|unfold zlen; cbn [length]; lia]).
    assert ((i + header_size (out_typ m.1) - (i + msg_len m.1)) mod zlen l =
      zlen l + header_size (out_typ m.1) - msg_len m.1) as Hmod.
    { rewrite <-(Z_mod_plus_full _ 1), Z.mod_small; lia. }
    rewrite ring_slice_update_disjoint; rewrite ?zlen_ring_update; rewrite ?Hmod; try lia.
    change 8%nat with (length (footer_bytes i)). apply ring_slice_update_same; rewrite ?zlen_ring_update; lia.
Qed.

Lemma laid_stored l pos ms m i :
  Forall msg_ok ms -> msg_ok m -> span ms + total_len m.1 < zlen l -> 0 <= i < zlen l ->
  i mod zlen l = (pos + span ms) mod zlen l ->
  laid l pos ms -> laid (stored l i m) pos (ms ++ [m]).
Proof.
  intros Hms Hm Ht Hi Heq Hl. apply laid_app.
  destruct (span_bounds ms Hms). destruct (msg_len_bounds m.1 (pkt_size _ (proj1 Hm))) as [Hb _].
  pose proof (header_size_min (out_typ m.1)). pose proof (zlen_head_bytes m.1).
  pose proof (proj2 Hm). pose proof (zlen_nonneg m.2). assert (zlen (footer_bytes i) = 8) as Hf by done.
  unfold total_len, FOOTER_SIZE in *. split; [|split; [|done]].
  - unfold stored, packet_written.
    apply (laid_update _ _ _ (span ms + header_size (out_typ m.1))); rewrite ?zlen_ring_update; try (done || lia).
    { rewrite Z.add_assoc. by apply mod_add_congr. }
    apply (laid_update _ _ _ (span ms + msg_len m.1)); rewrite ?zlen_ring_update; try (done || lia).
    { rewrite Z.add_assoc. by apply mod_add_congr. }
    apply (laid_update _ _ _ (span ms)); try (done || lia).
  - apply (laid_one_congr _ i); [by rewrite zlen_stored|]. apply stored_laid; try done.
    unfold total_len, FOOTER_SIZE. lia.
Qed.

(** * Reading one packet *)

Lemma read_range_ok r rg :
  ring_ok r -> 0 <= off rg -> 0 <= range_size rg -> off rg + range_size rg <= 2 * size r ->
  read_range (mem r) rg = Ok (ring_slice (ring_bytes (mem r)) (off rg) (Z.to_nat (range_size rg))).
Proof.
  intros Hr Ho Hs He. unfold read_range.
  destruct (cursor_read_safe r 0 (2 * size r) rg (range_size rg)) as (c & -> & Hc); try (done || lia).
  cbn [res_bind]. destruct (reader_read _ _ _) as [[data c']|[]|]; [|lia|done].
  by destruct Hc as [-> _].
Qed.

Lemma ranges_of_slice r pos pkt :
  ring_slice (ring_bytes (mem r)) pos (Z.to_nat (header_size (out_typ pkt))) = head_bytes pkt ->
  24 <= header_size (out_typ pkt) ->
  ring_slice (ring_bytes (mem r)) (pos + 24) (Z.to_nat (header_size (out_typ pkt) - 24)) =
  drop 8 (extension_bytes (out_typ pkt)).
Proof.
  intros Hs H24. replace (Z.to_nat (header_size (out_typ pkt) - 24))
    with (Z.to_nat (header_size (out_typ pkt)) - 24)%nat by lia.
  rewrite <-(ring_slice_drop _ pos 24) by lia. rewrite Hs. done.
Qed.

Lemma receive_ok r pos m :
  ring_ok r -> msg_ok m -> 0 <= pos < size r -> total_len m.1 <= size r ->
  laid_one (ring_bytes (mem r)) pos m ->
  exists x, receive (mem r) (view pos m.1) = Ok x /\ received_as m x.
Proof.
  intros Hr [Hm Hlen] Hpos Ht (Hh & Hd & _). destruct (msg_len_bounds m.1 (pkt_size _ Hm)) as [Hb _].
  pose proof (header_size_min (out_typ m.1)). unfold total_len, FOOTER_SIZE in *.
  pose proof (zlen_nonneg m.2). pose proof (ranges_of_slice r pos m.1 Hh) as Hr'.
  pose proof (zlen_extension (out_typ m.1)) as Hx. unfold DESCRIPTOR_SIZE in Hx.
  assert (exists pad, read_range (mem r) (payload (view pos m.1)) = Ok (m.2 ++ pad) /\ zlen pad < 8)
    as (pad & Hpay & Hpad).
  { rewrite read_range_ok by (cbn; done || lia). cbn [view payload off range_size].
    exists (ring_slice (ring_bytes (mem r)) (pos + header_size (out_typ m.1) + zlen m.2)
      (Z.to_nat (msg_len m.1 - header_size (out_typ m.1)) - length m.2)). split.
    - f_equal. replace (Z.to_nat (msg_len m.1 - header_size (out_typ m.1)))
        with (length m.2 + (Z.to_nat (msg_len m.1 - header_size (out_typ m.1)) - length m.2))%nat at 1
        by (unfold zlen in *; lia).
      by rewrite ring_slice_app, Hd.
    - unfold zlen. rewrite length_ring_slice. unfold zlen in *. lia. }
  unfold receive. rewrite Hpay. cbn [res_bind]. unfold received_as, kind_of, ranges_of, view in *.
  destruct (out_typ m.1) as [| | |ranges|id ranges] eqn:Ht'; cbn [typ transaction_id].
  1-3: eexists; split; [done|]; cbn; eauto 10.
  - assert (24 <= header_size (OutGpaDirect ranges)).
    { pose proof (gpa_count ranges). pose proof (zlen_nonneg ranges). lia. }
    rewrite read_range_ok by (cbn [off range_size]; done || lia). cbn [res_bind off range_size].
    rewrite Hr' by lia. cbn [extension_bytes]. eexists; split; [done|]. cbn [rcv_transaction rcv_kind rcv_ranges rcv_payload].
    eauto 10.
  - assert (24 <= header_size (OutTransferPages id ranges)).
    { unfold header_size. cbn [packet_header fst snd]. unfold DESCRIPTOR_SIZE. pose proof (zlen_nonneg ranges). lia. }
    rewrite read_range_ok by (cbn [off range_size]; done || lia). cbn [res_bind off range_size].
    rewrite Hr' by lia. cbn [extension_bytes]. eexists; split; [done|]. cbn [rcv_transaction rcv_kind rcv_ranges rcv_payload].
    eauto 10.
Qed.

(** The producer's pointer [read] uses. *)
Definition fetched_in r (p : IncomingOffset) : Z :=
  if cached_in p =? next_out p then inp (control r) else cached_in p.

Lemma read_empty r p :
  pointer r (inp (control r)) -> cached_in p = next_out p -> inp (control r) = next_out p ->
  read r p = (p, Err Empty).
Proof.
  intros Hi Hc Ho. unfold read. rewrite Hc, Z.eqb_refl, validate_ok by done. cbn [map_err res_bind].
  by rewrite Ho, Z.eqb_refl.
Qed.

Lemma read_spec r p m :
  ring_ok r -> pointer r (next_out p) -> pointer r (cached_in p) -> pointer r (inp (control r)) ->
  msg_ok m -> total_len m.1 <= used r (fetched_in r p) (next_out p) ->
  laid_one (ring_bytes (mem r)) (next_out p) m ->
  read r p = (mkIncomingOffset (fetched_in r p) (committed_out p) ((next_out p + total_len m.1) mod size r),
              Ok (view (next_out p) m.1)).
Proof.
  intros Hr Ho Hc Hi [Hm Hlen] Hu (Hh & _ & _). destruct (total_len_bounds m.1 Hm) as [Ht Ht8].
  pose proof (used_range r (fetched_in r p) (next_out p) Hr).
  assert (forall i, pointer r i -> i = fetched_in r p ->
    (let! avail := available r i (next_out p) in
     if avail <? 16 then Err (ReadCorrupt InvalidDataAvailable)
     else
       let! lp := parse_packet (mem r) (next_out p) avail in
       let '(len, packet) := lp in
       let! total := uadd 32 len FOOTER_SIZE in
       let! no := add_pointer r (next_out p) total in
       Ok (no, packet)) = Ok ((next_out p + total_len m.1) mod size r, view (next_out p) m.1)) as Hparse.
  { intros i Hpi ->. rewrite available_spec; [|done..|].
    2: { intros Heq. rewrite Heq in Hu. unfold used in Hu. rewrite Z.sub_diag, Zmod_0_l in Hu. lia. }
    cbn [res_bind]. destruct (Z.ltb_spec (used r (fetched_in r p) (next_out p)) 16); [lia|].
    rewrite (parse_packet_view r (next_out p) _ m.1) by (done || unfold total_len, FOOTER_SIZE in *; lia).
    cbn [res_bind]. rewrite uadd_ok by (unfold total_len in *; pose proof (ok_max _ Hr); lia). cbn [res_bind].
    fold (total_len m.1).
    by destruct (add_pointer_spec (E:=ReadError) r (next_out p) (total_len m.1)) as [-> _]; [done|done|lia|done|]. }
  unfold read, fetched_in in *. destruct (Z.eqb_spec (cached_in p) (next_out p)) as [Heq|Hne].
  - rewrite validate_ok by done. cbn [map_err res_bind].
    destruct (Z.eqb_spec (inp (control r)) (next_out p)) as [Hq|Hne].
    { rewrite Hq in Hu. unfold used in Hu. rewrite Z.sub_diag, Zmod_0_l in Hu. lia. }
    change (next_out (p <| cached_in := inp (control r) |>)) with (next_out p).
    by rewrite Hparse.
  - by rewrite Hparse.
Qed.

(** * The simulation *)

(** The packets of the ring, from the first one whose space is not released. *)
Definition window (q : Stream) : list Msg := live q ++ unsent q.

Record refines (s : System) (q : Stream) : Prop := {
  rf_ok : ring_ok (ring s);
  rf_order : (committed q <= taken q <= length (stream q))%nat;
  rf_base : pointer (ring s) (committed_out (rx s));
  rf_outp : outp (control (ring s)) = committed_out (rx s);
  rf_next_out :
    next_out (rx s) = at_ (ring s) (committed_out (rx s)) (span (take (taken q - committed q) (live q)));
  rf_cached_in : exists k, (taken q <= k <= length (stream q))%nat /\
    cached_in (rx s) = at_ (ring s) (committed_out (rx s)) (span (take (k - committed q) (live q)));
  rf_inp : inp (control (ring s)) = committed_in (tx s);
  rf_committed_in : committed_in (tx s) = at_ (ring s) (committed_out (rx s)) (span (live q));
  rf_next_in : next_in (tx s) = at_ (ring s) (committed_out (rx s)) (span (window q));
  rf_cached_out : exists d, 0 <= d /\ d mod 8 = 0 /\ d + span (window q) <= size (ring s) - 8 /\
    cached_out (tx s) = at_ (ring s) (committed_out (rx s)) (- d);
  rf_msgs : Forall msg_ok (window q);
  rf_laid : laid (ring_bytes (mem (ring s))) (committed_out (rx s)) (window q);
  rf_mask : interrupt_mask (control (ring s)) = b2z (masked q);
  rf_pending : pending_send_size (control (ring s)) = pending q /\ 0 <= pending q /\ pending q mod 8 = 0;
}.

Lemma refines_room s q : refines s q -> 0 <= span (window q) <= size (ring s) - 8.
Proof.
  intros R. destruct (rf_cached_out _ _ R) as (d & ? & _ & ? & _).
  destruct (span_bounds (window q) (rf_msgs _ _ R)). lia.
Qed.

Lemma live_ok s q : refines s q -> Forall msg_ok (live q).
Proof. intros R. by destruct (proj1 (Forall_app _ _ _) (rf_msgs _ _ R)). Qed.

Lemma live_length q : (committed q <= length (stream q))%nat -> length (live q) = (length (stream q) - committed q)%nat.
Proof. intros. unfold live. by rewrite length_drop. Qed.

Lemma live_room s q : refines s q -> 0 <= span (live q) <= size (ring s) - 8.
Proof.
  intros R. pose proof (refines_room s q R) as Hr. unfold window in Hr. rewrite span_app in Hr.
  destruct (span_bounds (live q) (live_ok s q R)).
  destruct (span_bounds (unsent q) (proj2 (proj1 (Forall_app _ _ _) (rf_msgs _ _ R)))). lia.
Qed.

Lemma neg_mod8 d : d mod 8 = 0 -> (- d) mod 8 = 0.
Proof. intros. by apply Z_mod_zero_opp_full. Qed.

Definition valid_op (op : Op) : Prop :=
  match op with
  | Send pkt data => msg_ok (pkt, data)
  | SetPending len => 0 <= len
  | _ => True
  end.

Lemma write_range_ok r rg data :
  ring_ok r -> 0 <= off rg -> range_size rg = zlen data -> off rg + range_size rg <= 2 * size r ->
  zlen data <= size r ->
  exists m', write_range (mem r) rg data = Ok m' /\ ring_wf m' /\ ring_len m' = ring_len (mem r) /\
    ring_bytes m' = ring_update (ring_bytes (mem r)) (off rg) data.
Proof.
  intros Hr Ho Hs He Hd. pose proof (ok_max _ Hr). pose proof (ok_len _ Hr). unfold write_range, range_cursor.
  rewrite uadd_ok by lia. cbn [res_bind].
  destruct (writer_write_ok (mem r) (mkCursor (off rg) (off rg + range_size rg)) data)
    as (m' & -> & Hwf & Hb); cbn [c_start c_end]; try (apply Hr || lia).
  exists m'. cbn. split_and!; [done|done| |done].
  eapply ring_len_update; [apply Hr|done|exact Hb].
Qed.

(** [write] and the copy of the payload, when there is room. *)
Lemma write_payload r p pkt data :
  ring_ok r -> pointer r (next_in p) -> pointer r (cached_out p) -> pointer r (outp (control r)) ->
  msg_ok (pkt, data) -> total_len pkt < size r - 8 ->
  let co := fetched_out r p (total_len pkt) in
  total_len pkt <= size r - used r (next_in p) co - 8 ->
  exists r1 rg m', write r p pkt =
      Ok (r1, mkOutgoingOffset co (committed_in p) ((next_in p + total_len pkt) mod size r), rg) /\
    write_range (mem r1) rg data = Ok m' /\ r1 <| mem := m' |> = r <| mem := m' |> /\
    ring_ok (r <| mem := m' |>) /\
    ring_bytes m' = stored (ring_bytes (mem r)) (next_in p) (pkt, data).
Proof.
  intros Hr Hni Hco Ho [Hp Hlen] Hshort co Hfits. cbn [fst snd] in *.
  pose proof (write_spec r p pkt Hr Hni Hco Ho Hp Hshort) as Hw. cbv zeta in Hw. fold co in Hw.
  destruct (Z.ltb_spec (size r - used r (next_in p) co - 8) (total_len pkt)); [lia|].
  destruct Hw as (m' & Hw & Hwf & Hb).
  assert (ring_len m' = ring_len (mem r)) as Hl'.
  { rewrite (ring_len_bytes _ Hwf), Hb, (ring_len_bytes _ (ok_mem _ Hr)). unfold packet_written.
    by rewrite !zlen_ring_update. }
  pose proof (ring_ok_mem _ _ Hr Hwf Hl') as Hr'.
  assert (0 <= next_in p < size r) as Hnb by apply Hni.
  destruct (msg_len_bounds pkt (pkt_size _ Hp)) as [Hmb _]. pose proof (header_size_min (out_typ pkt)).
  pose proof (pkt_size _ Hp). unfold total_len, FOOTER_SIZE in Hshort, Hfits.
  destruct (write_range_ok (r <| mem := m' |>) (mkRange (next_in p + header_size (out_typ pkt)) (out_size pkt)) data)
    as (m2 & Hwr & Hwf2 & Hl2 & Hb2); cbn [off range_size]; try done;
    try (change (size (r <| mem := m' |>)) with (size r); lia).
  eexists _, _, m2. split; [exact Hw|]. split_and!; [done|done|..].
  - apply ring_ok_mem; [done|done|]. by rewrite Hl2.
  - rewrite Hb2. change (mem (r <| mem := m' |>)) with m'. by rewrite Hb.
Qed.

Lemma refines_tx s q :
  refines s q ->
  pointer (ring s) (next_in (tx s)) /\ pointer (ring s) (cached_out (tx s)) /\
  pointer (ring s) (outp (control (ring s))).
Proof.
  intros R. destruct (rf_cached_out _ _ R) as (d & _ & Hd8 & _ & ->).
  rewrite (rf_next_in _ _ R), (rf_outp _ _ R).
  destruct (span_bounds _ (rf_msgs _ _ R)) as [_ H8].
  pose proof (rf_ok _ _ R). pose proof (rf_base _ _ R). auto using at_pointer, neg_mod8.
Qed.

(** The pointer the sender works with is behind the committed one, and is the
    committed one itself when it shows too little space. *)
Lemma fetched_out_at s q len :
  refines s q ->
  let co := fetched_out (ring s) (tx s) len in
  let u := used (ring s) (next_in (tx s)) co in
  exists d, 0 <= d /\ d mod 8 = 0 /\ co = at_ (ring s) (committed_out (rx s)) (- d) /\
    u = span (window q) + d /\ (d = 0 \/ len <= size (ring s) - u - 8).
Proof.
  intros R co u. pose proof (refines_room s q R). pose proof (rf_base _ _ R) as Hbase.
  destruct (rf_cached_out _ _ R) as (d & Hd & Hd8 & Hdroom & Hco).
  assert (used (ring s) (next_in (tx s)) (cached_out (tx s)) = span (window q) + d) as Hud.
  { rewrite (rf_next_in _ _ R), Hco, used_at; lia. }
  assert (used (ring s) (next_in (tx s)) (outp (control (ring s))) = span (window q)) as Huo.
  { rewrite (rf_next_in _ _ R), (rf_outp _ _ R).
    rewrite <-(at_0 (ring s) (committed_out (rx s))) at 2 by done. rewrite used_at; lia. }
  unfold u, co, fetched_out.
  destruct (Z.ltb_spec (size (ring s) - used (ring s) (next_in (tx s)) (cached_out (tx s)) - 8) len).
  - exists 0. rewrite Huo, (rf_outp _ _ R). split_and!; try (done || lia). by rewrite at_0.
  - exists d. rewrite Hud. split_and!; try (done || lia).
Qed.

Definition simulates (op : Op) (s : System) (q : Stream) : Prop :=
  exists s' out q', step op s = Ok (s', out) /\ astep (size (ring s)) op q out q' /\
    refines s' q' /\ size (ring s') = size (ring s).

Lemma sim_send s q pkt data : refines s q -> msg_ok (pkt, data) -> simulates (Send pkt data) s q.
Proof.
  intros R Hm. destruct (refines_tx s q R) as (Hni & Hcop & Hop). pose proof (rf_ok _ _ R) as Hr.
  pose proof (refines_room s q R) as Hroom. destruct (total_len_bounds pkt (proj1 Hm)) as [Ht Ht8].
  unfold simulates, step. destruct (decide (size (ring s) - 8 <= total_len pkt)) as [Hlong|Hshort].
  { rewrite write_too_long by (done || apply Hm). exists s, Rejected, q. split_and!; [done| |done|done].
    by constructor. }
  destruct (fetched_out_at s q (total_len pkt) R) as (d & Hd & Hd8 & Hco & Hu & Hcase).
  pose proof (write_spec (ring s) (tx s) pkt Hr Hni Hcop Hop (proj1 Hm) ltac:(lia)) as Hw. cbv zeta in Hw.
  pose proof (write_payload (ring s) (tx s) pkt data Hr Hni Hcop Hop Hm ltac:(lia)) as Hwp. cbv zeta in Hwp.
  set (co := fetched_out (ring s) (tx s) (total_len pkt)) in *.
  destruct (Z.ltb_spec (size (ring s) - used (ring s) (next_in (tx s)) co - 8) (total_len pkt)) as [Hfull|Hfits].
  { rewrite Hw. exists s, (RingFull (total_len pkt)), q. split_and!; [done| |done|done].
    constructor; [lia|]. unfold empty_slot. fold (window q). lia. }
  clear Hw. destruct (Hwp Hfits) as (r1 & rg & m2 & -> & -> & Hr1 & Hr2 & Hb). cbn [res_bind]. rewrite Hr1.
  eexists _, Done, (q <| unsent := unsent q ++ [(pkt, data)] |>). split_and!; [done| | |done].
  { constructor; [lia|]. unfold empty_slot. fold (window q). lia. }
  assert (zlen (ring_bytes (mem (ring s))) = size (ring s)) as Hsz.
  { by rewrite <-ring_len_bytes, (ok_len _ Hr) by apply Hr. }
  assert (window (q <| unsent := unsent q ++ [(pkt, data)] |>) = window q ++ [(pkt, data)]) as Hwin
    by (unfold window; simpl; by rewrite app_assoc).
  assert (span [(pkt, data)] = total_len pkt) as Hs1 by (simpl; lia).
  assert (0 <= next_in (tx s) < size (ring s)) as Hnb by apply Hni.
  destruct R. constructor; cbn [ring tx rx next_in committed_in cached_out control]; rewrite ?Hwin; try done.
  - rewrite rf_next_in0. unfold at_. change (size (_ <| mem := m2 |>)) with (size (ring s)).
    rewrite Zplus_mod_idemp_l, span_app, Hs1. f_equal. lia.
  - exists d. rewrite span_app, Hs1. change (size (_ <| mem := m2 |>)) with (size (ring s)).
    split_and!; try (done || lia).
  - apply Forall_app; split; [done|by constructor].
  - change (mem (_ <| mem := m2 |>)) with m2. rewrite Hb.
    apply laid_stored; cbn [fst snd]; rewrite ?Hsz; try (done || lia).
    rewrite rf_next_in0. unfold at_. by rewrite Zmod_mod.
Qed.

Lemma ring_ok_control r c : ring_ok r -> ring_ok (r <| control := c |>).
Proof. by intros []. Qed.

Lemma live_commit q : (committed q <= length (stream q))%nat -> drop (committed q) (stream q ++ unsent q) = window q.
Proof. intros. unfold window, live. by rewrite drop_app_le. Qed.

Lemma span_zero ms : Forall msg_ok ms -> span ms = 0 -> ms = [].
Proof.
  intros Hms Hs. destruct (span_bounds ms Hms) as [Hb _].
  destruct ms; [done|]. cbn [length] in Hb. lia.
Qed.

Lemma unsent_ok s q : refines s q -> Forall msg_ok (unsent q).
Proof. intros R. by destruct (proj1 (Forall_app _ _ _) (rf_msgs _ _ R)). Qed.

(** The indices of the stream are positions of the ring. *)
Lemma take_live_app q k rest :
  (committed q <= k <= length (stream q))%nat ->
  take (k - committed q) (live q ++ rest) = take (k - committed q) (live q).
Proof. intros. apply take_app_le. rewrite live_length; lia. Qed.

Lemma sim_commit_write s q : refines s q -> simulates CommitWrite s q.
Proof.
  intros R. pose proof (rf_order _ _ R) as Hord. pose proof (unsent_ok s q R) as Hun.
  pose proof (refines_room s q R) as Hroom. pose proof (live_room s q R) as Hlive.
  assert (window (q <| stream := stream q ++ unsent q |> <| unsent := [] |>) = window q) as Hwin.
  { unfold window, live. simpl. rewrite app_nil_r, drop_app_le by lia. done. }
  assert (live (q <| stream := stream q ++ unsent q |> <| unsent := [] |>) = window q) as Hlv.
  { unfold window, live. simpl. rewrite drop_app_le by lia. done. }
  assert (forall k, (taken q <= k <= length (stream q))%nat ->
    take (k - committed q) (window q) = take (k - committed q) (live q)) as Htk.
  { intros k Hk. apply take_live_app. lia. }
  unfold simulates, step, commit_write.
  destruct (Z.eqb_spec (committed_in (tx s)) (next_in (tx s))) as [Heq|Hne].
  - assert (unsent q = []) as Hnil.
    { rewrite (rf_committed_in _ _ R), (rf_next_in _ _ R) in Heq. apply at_inj in Heq; [|lia].
      unfold window in Heq. rewrite span_app in Heq. apply span_zero; [done|lia]. }
    eexists _, _, (q <| stream := stream q ++ unsent q |> <| unsent := [] |>).
    split_and!; [done| | |done].
    + replace false with (write_signal q) by (unfold write_signal; by rewrite Hnil). constructor.
    + rewrite Hnil, app_nil_r. by destruct R, s, q; simpl in *; subst.
  - assert (unsent q <> []) as Hnnil.
    { intros Hnil. apply Hne. rewrite (rf_committed_in _ _ R), (rf_next_in _ _ R).
      unfold window. by rewrite Hnil, app_nil_r. }
    eexists _, _, (q <| stream := stream q ++ unsent q |> <| unsent := [] |>).
    split_and!; [done| | |done].
    + match goal with |- astep _ _ _ (Signal ?b) _ => replace b with (write_signal q) end; [constructor|].
      unfold write_signal. destruct (length (unsent q) =? 0)%nat eqn:Hlen.
      { apply Nat.eqb_eq, nil_length_inv in Hlen. done. }
      simpl. rewrite (rf_mask _ _ R), (rf_outp _ _ R), (rf_committed_in _ _ R).
      f_equal; [by destruct (masked q)|]. apply eq_bool_prop_intro. rewrite !Is_true_true, Nat.eqb_eq, Z.eqb_eq.
      rewrite <-(at_0 (ring s) (committed_out (rx s))) at 1 by apply R. split.
      * intros Hc. unfold live. rewrite drop_ge by lia. done.
      * intros Hc%at_inj; [|lia]. symmetry in Hc. apply span_zero in Hc; [|by eapply live_ok].
        pose proof (live_length q ltac:(lia)) as Hl. rewrite Hc in Hl. simpl in Hl. lia.
    + destruct R as [? ? ? ? Hno (k & Hk & Hci) ? ? Hni Hco ? ? ? ?].
      constructor; cbn [ring tx rx next_in committed_in cached_out]; rewrite ?Hwin, ?Hlv; try done.
      * by apply ring_ok_control.
      * simpl. rewrite length_app. lia.
      * simpl. rewrite Htk by lia. done.
      * exists k. simpl. rewrite length_app, Htk by lia. split; [lia|done].
Qed.

Lemma sim_revert_write s q : refines s q -> simulates RevertWrite s q.
Proof.
  intros R. pose proof (live_room s q R). destruct (refines_room s q R) as [_ Hroom].
  eexists _, _, (q <| unsent := [] |>). split_and!; [done|constructor| |done].
  assert (window (q <| unsent := [] |>) = live q) as Hwin by (unfold window; simpl; by rewrite app_nil_r).
  assert (span (live q) <= span (window q)) as Hle.
  { unfold window. rewrite span_app. destruct (span_bounds _ (unsent_ok s q R)). lia. }
  pose proof (live_ok s q R). destruct R as [? ? ? ? ? ? ? ? ? (d & ? & ? & ? & ?) ? Hlaid ? ?].
  apply laid_app in Hlaid as [Hlaid _].
  constructor; cbn [ring tx rx]; rewrite ?Hwin; try done.
  exists d. split_and!; (done || lia).
Qed.

Lemma sim_revert_read s q : refines s q -> simulates RevertRead s q.
Proof.
  intros R. eexists _, _, (q <| taken := committed q |>). split_and!; [done|constructor| |done].
  destruct R as [? ? Hbase ? ? (k & ? & ?) ? ? ? ? ? ? ? ?].
  constructor; try done; cbn [ring tx rx].
  - simpl. lia.
  - simpl. rewrite Nat.sub_diag. symmetry. by apply at_0.
  - exists k. simpl. split; [lia|done].
Qed.

Lemma sim_set_mask s q b : refines s q -> simulates (SetMask b) s q.
Proof.
  intros R. eexists _, _, (q <| masked := b |>). split_and!; [done|constructor| |done].
  destruct R. constructor; try done. by apply ring_ok_control.
Qed.

Lemma ldiff_ones_mul x n : 0 <= n -> Z.ldiff x (Z.ones n) = x / 2 ^ n * 2 ^ n.
Proof. intros. by rewrite Z.ldiff_ones_r, Z.shiftl_mul_pow2, Z.shiftr_div_pow2. Qed.

Lemma sim_set_pending s q len : refines s q -> 0 <= len -> simulates (SetPending len) s q.
Proof.
  intros R Hlen. pose proof (rf_ok _ _ R) as Hr. pose proof (ok_min _ Hr). pose proof (ok_max _ Hr).
  unfold simulates, step, set_pending_send_size, maximum_packet_size. rewrite usub_ok by lia. cbn [res_bind].
  destruct (Z.ltb_spec (size (ring s) - 8) len).
  { exists s, Rejected, q. split_and!; [done|by constructor|done|done]. }
  unfold ucast. rewrite Z.mod_small, uadd_ok by lia. cbn [res_bind].
  eexists _, _, (q <| pending := (len + 7) / 8 * 8 |>). split_and!; [done|by constructor| |done].
  destruct R. constructor; try done; [by apply ring_ok_control|]. simpl.
  rewrite (ldiff_ones_mul _ 3) by lia. change (2 ^ 3) with 8. split_and!; [done| |by rewrite Z_mod_mult].
  pose proof (Z.div_pos (len + 7) 8). lia.
Qed.

Lemma span_take_lt ms i j (m : Msg) :
  Forall msg_ok ms -> ms !! i = Some m -> (i < j)%nat ->
  span (take i ms) + total_len m.1 <= span (take j ms).
Proof.
  intros Hms Hi Hij. destruct (span_take_bounds (S i) (take j ms)) as [Hb _]; [by apply Forall_take|].
  rewrite take_take, Nat.min_l in Hb by lia. rewrite (take_S_r _ _ _ Hi), span_app in Hb. simpl in Hb. lia.
Qed.

Lemma refines_rx s q :
  refines s q ->
  pointer (ring s) (next_out (rx s)) /\ pointer (ring s) (cached_in (rx s)) /\
  pointer (ring s) (inp (control (ring s))).
Proof.
  intros R. destruct (rf_cached_in _ _ R) as (k & _ & ->).
  rewrite (rf_inp _ _ R), (rf_committed_in _ _ R), (rf_next_out _ _ R). pose proof (live_ok s q R) as Hok.
  pose proof (rf_ok _ _ R). pose proof (rf_base _ _ R).
  destruct (span_bounds _ Hok). destruct (span_take_bounds (taken q - committed q) _ Hok).
  destruct (span_take_bounds (k - committed q) _ Hok). auto using at_pointer.
Qed.

(** The pointer the receiver works with is the end of a packet of the stream,
    and past the next packet if there is one. *)
Lemma fetched_in_at s q :
  refines s q ->
  exists k, (taken q <= k <= length (stream q))%nat /\
    fetched_in (ring s) (rx s) =
      at_ (ring s) (committed_out (rx s)) (span (take (k - committed q) (live q))) /\
    ((taken q < length (stream q))%nat -> (taken q < k)%nat).
Proof.
  intros R. pose proof (rf_order _ _ R) as Hord. pose proof (live_ok s q R) as Hok.
  pose proof (live_room s q R) as Hroom. destruct (rf_cached_in _ _ R) as (k & Hk & Hci).
  unfold fetched_in. destruct (Z.eqb_spec (cached_in (rx s)) (next_out (rx s))) as [Heq|Hne].
  - exists (length (stream q)). rewrite (rf_inp _ _ R), (rf_committed_in _ _ R). split_and!; try lia.
    rewrite take_ge; [done|]. rewrite live_length; lia.
  - exists k. split_and!; try (done || lia). intros Hlt.
    destruct (decide (k = taken q)) as [->|]; [|lia]. by rewrite <-(rf_next_out _ _ R) in Hci.
Qed.

Lemma live_lookup q (m : Msg) :
  (committed q <= taken q)%nat -> stream q !! taken q = Some m -> live q !! (taken q - committed q)%nat = Some m.
Proof. intros Hc Hm. unfold live. rewrite lookup_drop. by replace (committed q + (taken q - committed q))%nat with (taken q) by lia. Qed.

Lemma laid_next s q (m : Msg) :
  refines s q -> stream q !! taken q = Some m ->
  msg_ok m /\ total_len m.1 <= size (ring s) - 8 /\ laid_one (ring_bytes (mem (ring s))) (next_out (rx s)) m.
Proof.
  intros R Hm. pose proof (rf_order _ _ R) as Hord. apply live_lookup in Hm; [|lia].
  pose proof (live_ok s q R) as Hok. pose proof (live_room s q R) as Hroom.
  assert (msg_ok m) as Hmok by (by eapply Forall_lookup_1). split; [done|].
  pose proof (rf_laid _ _ R) as Hlaid. unfold window in Hlaid. apply laid_app in Hlaid as [Hlaid _].
  pose proof (take_drop_middle _ _ _ Hm) as Hmid. rewrite <-Hmid in Hlaid.
  apply laid_app in Hlaid as [_ [Hone _]]. split.
  - destruct (span_take_bounds (taken q - committed q) _ Hok).
    pose proof (span_take_lt _ _ (length (live q)) _ Hok Hm (lookup_lt_Some _ _ _ Hm)) as Hs.
    rewrite (take_ge (live q) (length (live q))) in Hs by lia. lia.
  - eapply laid_one_congr; [|exact Hone]. rewrite (rf_next_out _ _ R). unfold at_.
    rewrite (ok_len _ (rf_ok _ _ R)), <-ring_len_bytes by apply R. by rewrite Zmod_mod.
Qed.

Lemma sim_receive s q : refines s q -> simulates Receive s q.
Proof.
  intros R. destruct (refines_rx s q R) as (Ho & Hc & Hi). pose proof (rf_ok _ _ R) as Hr.
  pose proof (rf_order _ _ R) as Hord. pose proof (live_ok s q R) as Hok.
  pose proof (live_room s q R) as Hroom. unfold simulates, step.
  destruct (stream q !! taken q) as [m|] eqn:Hm.
  - pose proof (lookup_lt_Some _ _ _ Hm) as Hlt. destruct (laid_next s q m R Hm) as (Hmok & Htot & Hone).
    destruct (fetched_in_at s q R) as (k & Hk & Hfi & Hnext). specialize (Hnext Hlt).
    pose proof (span_take_lt _ _ (k - committed q) _ Hok (live_lookup q m ltac:(lia) Hm) ltac:(lia)) as Hs.
    destruct (span_take_bounds (k - committed q) _ Hok) as [Hkb _].
    destruct (span_take_bounds (taken q - committed q) _ Hok) as [Htb _].
    pose proof (total_len_bounds m.1 (proj1 Hmok)) as [Ht _].
    rewrite (read_spec (ring s) (rx s) m); try done.
    2: { rewrite Hfi, (rf_next_out _ _ R), used_at; lia. }
    destruct (receive_ok (ring s) (next_out (rx s)) m) as (x & -> & Hx); try (done || lia). { apply Ho. }
    cbn [res_bind]. eexists _, _, (q <| taken := S (taken q) |>). split_and!; [done|by econstructor| |done].
    destruct R. constructor; try done; cbn [ring tx rx next_out cached_in committed_out].
    + simpl. lia.
    + simpl. rewrite rf_next_out0. unfold at_. rewrite Zplus_mod_idemp_l. f_equal.
      replace (S (taken q) - committed q)%nat with (S (taken q - committed q)) by lia.
      change (live (q <| taken := S (taken q) |>)) with (live q).
      rewrite (take_S_r _ _ m), span_app by (apply live_lookup; [lia|done]). simpl. lia.
    + exists k. simpl. split; [lia|]. by rewrite Hfi.
  - apply lookup_ge_None in Hm. assert (taken q = length (stream q)) as Ht by lia.
    assert (inp (control (ring s)) = next_out (rx s)) as Hio.
    { rewrite (rf_inp _ _ R), (rf_committed_in _ _ R), (rf_next_out _ _ R).
      rewrite take_ge by (rewrite live_length; lia). done. }
    rewrite read_empty; try done.
    2: { destruct (rf_cached_in _ _ R) as (k & Hk & ->). rewrite (rf_next_out _ _ R).
         by replace k with (taken q) by lia. }
    exists s, NoPacket, q. split_and!; [by destruct s|by constructor|done|done].
Qed.

Lemma drop_live q : (committed q <= taken q)%nat -> drop (taken q - committed q) (live q) = drop (taken q) (stream q).
Proof. intros. unfold live. rewrite drop_drop. f_equal. lia. Qed.

Lemma take_live_split q k :
  (committed q <= taken q <= k)%nat ->
  span (take (k - committed q) (live q)) =
  span (take (taken q - committed q) (live q)) + span (take (k - taken q) (drop (taken q) (stream q))).
Proof.
  intros Hk. rewrite <-drop_live by lia. rewrite <-span_app. f_equal.
  rewrite <-(take_drop (taken q - committed q) (take (k - committed q) (live q))).
  rewrite take_take, Nat.min_l by lia. f_equal. rewrite skipn_firstn_comm. f_equal. lia.
Qed.

Lemma mod8_ldiff x : 0 <= x -> x mod 8 = 0 -> Z.ldiff x 7 = x.
Proof. intros Hx H8. change 7 with (Z.ones 3); rewrite ldiff_ones_mul by lia. change (2 ^ 3) with 8. pose proof (Z.div_mod x 8). lia. Qed.

(** The state after the receiver releases what it has taken. *)
Lemma refines_commit_read s q :
  refines s q ->
  refines (mkSystem (ring s <| control := control (ring s) <| outp := next_out (rx s) |> |>) (tx s)
             (rx s <| committed_out := next_out (rx s) |>))
    (q <| committed := taken q |>).
Proof.
  intros R. destruct (refines_rx s q R) as (Ho & _ & _). pose proof (rf_order _ _ R) as Hord.
  pose proof (live_ok s q R) as Hok. set (pre := span (take (taken q - committed q) (live q))).
  assert (0 <= pre /\ pre mod 8 = 0) as [Hpre Hpre8] by (destruct (span_take_bounds (taken q - committed q) _ Hok); split; [lia|done]).
  set (q' := q <| committed := taken q |>).
  assert (live q' = drop (taken q) (stream q)) as Hlive by done.
  assert (span (live q) = pre + span (live q')) as Hsl.
  { rewrite Hlive, <-drop_live by lia. symmetry. apply span_take_drop. }
  assert (window q = take (taken q - committed q) (live q) ++ window q') as Hwin.
  { unfold window. rewrite Hlive, <-drop_live, app_assoc, take_drop by lia. done. }
  assert (span (window q) = pre + span (window q')) as Hsw by (by rewrite Hwin, span_app).
  assert (forall x, at_ (ring s) (committed_out (rx s)) (pre + x) = at_ (ring s) (next_out (rx s)) x) as Hat.
  { intros x. by rewrite (rf_next_out _ _ R), at_at. }
  destruct R as [? ? ? ? Hno (k & Hk & Hci) ? Hci' Hni (d & ? & ? & ? & Hco) Hmsgs Hlaid ? ?].
  rewrite Hwin in Hlaid, Hmsgs. apply laid_app in Hlaid as [_ Hlaid]. apply Forall_app in Hmsgs as [_ Hmsgs].
  constructor; try done; cbn [ring tx rx]; try (change (committed_out (rx s <| committed_out := next_out (rx s) |>)) with (next_out (rx s))).
  - by apply ring_ok_control.
  - simpl. lia.
  - change (next_out (rx s) = at_ (ring s) (next_out (rx s)) (span (take (taken q - taken q) (live q')))).
    rewrite Nat.sub_diag. symmetry. by apply at_0.
  - exists k. split; [done|].
    change (cached_in (rx s) = at_ (ring s) (next_out (rx s)) (span (take (k - taken q) (live q')))).
    by rewrite Hci, take_live_split, <-Hat by lia.
  - change (committed_in (tx s) = at_ (ring s) (next_out (rx s)) (span (live q'))). by rewrite Hci', Hsl, Hat.
  - change (next_in (tx s) = at_ (ring s) (next_out (rx s)) (span (window q'))). by rewrite Hni, Hsw, Hat.
  - exists (d + pre). split_and!; [lia|by apply mod8_add| |].
    + change (d + pre + span (window q') <= size (ring s) - 8). lia.
    + change (cached_out (tx s) = at_ (ring s) (next_out (rx s)) (- (d + pre))).
      rewrite Hco, <-Hat. f_equal. lia.
  - eapply laid_congr; [|exact Hlaid]. change (mem (ring s <| control := _ |>)) with (mem (ring s)).
    rewrite <-ring_len_bytes by apply rf_ok0.
    rewrite <-(ok_len (ring s)) by done. rewrite Hno. unfold at_. by rewrite Zmod_mod.
Qed.

Lemma used_live s q :
  refines s q ->
  used (ring s) (inp (control (ring s))) (committed_out (rx s)) = span (live q) /\
  used (ring s) (inp (control (ring s))) (next_out (rx s)) = span (drop (taken q) (stream q)).
Proof.
  intros R. pose proof (rf_order _ _ R) as Hord. pose proof (rf_base _ _ R) as Hbase.
  pose proof (live_room s q R) as Hroom.
  destruct (span_take_bounds (taken q - committed q) _ (live_ok s q R)) as [Hpre _].
  rewrite (rf_inp _ _ R), (rf_committed_in _ _ R), (rf_next_out _ _ R). split.
  - rewrite <-(at_0 (ring s) (committed_out (rx s))) at 2 by done. rewrite used_at; lia.
  - rewrite <-drop_live by lia. pose proof (span_take_drop (taken q - committed q) (live q)).
    rewrite used_at; lia.
Qed.

Lemma sim_commit_read s q : refines s q -> simulates CommitRead s q.
Proof.
  intros R. destruct (refines_rx s q R) as (Ho & _ & Hi). pose proof (rf_order _ _ R) as Hord.
  pose proof (live_ok s q R) as Hok. pose proof (live_room s q R) as Hroom. pose proof (rf_base _ _ R) as Hbase.
  pose proof (refines_commit_read s q R) as R'. pose proof (rf_ok _ _ R') as Hr'. cbn [ring] in Hr'.
  destruct (span_take_bounds (taken q - committed q) _ Hok) as [Hpre _].
  assert (committed_out (rx s) = next_out (rx s) <-> taken q = committed q) as Hiff.
  { rewrite (rf_next_out _ _ R). rewrite <-(at_0 (ring s) (committed_out (rx s))) at 1 by done. split.
    - intros Heq%at_inj; [|lia]. destruct (decide (taken q = committed q)); [done|].
      destruct (span_bounds (take (taken q - committed q) (live q))) as [Hb _]; [by apply Forall_take|].
      rewrite length_take, live_length in Hb by lia. lia.
    - intros ->. by rewrite Nat.sub_diag. }
  unfold simulates, step, commit_read.
  destruct (Z.eqb_spec (committed_out (rx s)) (next_out (rx s))) as [Heq|Hne].
  - apply Hiff in Heq as Ht. cbn [res_bind]. eexists _, _, (q <| committed := taken q |>).
    split_and!; [done| | |done].
    + replace false with (read_signal (size (ring s)) q); [constructor|].
      unfold read_signal. by rewrite Ht, Nat.eqb_refl.
    + rewrite Ht. by destruct s, q, R.
  - assert (taken q <> committed q) as Ht by (by rewrite <-Hiff).
    change (control (ring s <| control := ?c |>)) with c. cbn [pending_send_size].
    destruct (rf_pending _ _ R) as (Hp & Hp0 & Hp8).
    change (pending_send_size (control (ring s) <| outp := next_out (rx s) |>)) with (pending_send_size (control (ring s))).
    change (inp (control (ring s) <| outp := next_out (rx s) |>)) with (inp (control (ring s))).
    rewrite Hp, mod8_ldiff by done. rewrite validate_ok by done. rewrite !free_spec by done.
    set (r' := ring s <| control := _ |>) in *.
    destruct (used_live s q R) as [Hu1 Hu2].
    change (used (ring s)) with (used r') in Hu1, Hu2.
    cbn [res_bind]. rewrite Hu1, Hu2.
    assert (forall b, read_signal (size (ring s)) q = b -> exists s' out q',
      Ok (mkSystem r' (tx s) (rx s <| committed_out := next_out (rx s) |>), Signal b) = Ok (E:=Fault) (s', out) /\
      astep (size (ring s)) CommitRead q out q' /\ refines s' q' /\ size (ring s') = size (ring s)) as Hfin.
    { intros b <-. eexists _, _, (q <| committed := taken q |>). split_and!; [done|constructor|done|done]. }
    unfold read_signal, empty_slot in Hfin. apply Nat.eqb_neq in Ht. rewrite Ht in Hfin. cbn [negb andb] in Hfin.
    destruct (negb (pending q =? 0)); cbn [res_bind andb] in *; apply Hfin; [|done].
    change (size r') with (size (ring s)). do 2 f_equal; lia.
Qed.

Lemma sim_step s q op : refines s q -> valid_op op -> simulates op s q.
Proof.
  intros R Hv. destruct op; [by apply sim_send|by apply sim_commit_write|by apply sim_revert_write|
    by apply sim_receive|by apply sim_commit_read|by apply sim_revert_read|by apply sim_set_mask|
    by apply sim_set_pending].
Qed.

(** * Runs *)

Fixpoint run (ops : list Op) (s : System) : res Fault (System * list Out) :=
  match ops with
  | [] => Ok (s, [])
  | op :: ops =>
      let! so := step op s in
      let! sos := run ops so.1 in
      Ok (sos.1, so.2 :: sos.2)
  end.

Inductive aruns (sz : Z) : list Op -> Stream -> list Out -> Stream -> Prop :=
| ADone q : aruns sz [] q [] q
| AStep op ops q out q1 outs q2 :
    astep sz op q out q1 -> aruns sz ops q1 outs q2 -> aruns sz (op :: ops) q (out :: outs) q2.

Lemma sim_run ops s q :
  refines s q -> Forall valid_op ops ->
  exists s' outs q', run ops s = Ok (s', outs) /\ aruns (size (ring s)) ops q outs q' /\
    refines s' q' /\ size (ring s') = size (ring s).
Proof.
  intros R Hops. revert s q R. induction Hops as [|op ops Hop Hops IH]; intros s q R; simpl.
  { exists s, [], q. split_and!; [done|constructor|done|done]. }
  destruct (sim_step s q op R Hop) as (s1 & out & q1 & -> & Ha & R1 & Hsz). cbn [res_bind fst snd].
  destruct (IH s1 q1 R1) as (s2 & outs & q2 & -> & Hr & R2 & Hsz2). cbn [res_bind fst snd].
  exists s2, (out :: outs), q2. split_and!; [done| |done|congruence].
  econstructor; [done|by rewrite <-Hsz].
Qed.

(** The two endpoints opened on the same memory. *)
Definition open_ring (m : M) (c : Control) : res RingError System :=
  let! r := incoming_new m c in
  let! r := outgoing_new (mem r) (control r) in
  let! p := outgoing r in
  let! q := incoming r in
  Ok (mkSystem r p q).

Definition empty_stream : Stream := mkStream [] [] 0 0 true 0.

Lemma open_refines m c s :
  ring_wf m -> 2 * ring_len m < 2 ^ 32 -> 0 <= inp c -> inp c = outp c -> open_ring m c = Ok s ->
  refines s empty_stream /\ size (ring s) = ring_len m.
Proof.
  intros Hwf Hmax Hi Hio. pose proof (ring_len_pos m Hwf). unfold open_ring, incoming_new, inner_new.
  destruct (Z.leb_spec (2 ^ 32) (ring_len m)); [done|].
  destruct (Z.eqb_spec (ring_len m mod 4096) 0) as [Hpage|]; [|done]. cbn [negb res_bind].
  unfold outgoing_new, inner_new. change (mem (_ <| control := _ |>)) with m.
  destruct (Z.leb_spec (2 ^ 32) (ring_len m)); [done|]. rewrite Hpage. cbn [Z.eqb negb res_bind].
  unfold outgoing, incoming. set (r := _ <| control := _ |>).
  change (inp (control r)) with (inp c). change (outp (control r)) with (outp c). rewrite <-Hio.
  pose proof (Z.div_mod (ring_len m) 4096).
  assert (ring_ok r) as Hr.
  { constructor; change (size r) with (ring_len m); try (done || lia).
    replace (ring_len m) with (ring_len m / 4096 * 512 * 8) by lia. by rewrite Z_mod_mult. }
  destruct (validate_spec r (inp c) Hi) as [[-> Hp]|[-> _]]; cbn [res_bind]; [|done].
  intros [= <-]. split; [|done].
  constructor; cbn [ring tx rx committed_out next_out cached_in committed_in next_in cached_out]; try done.
  - by rewrite at_0.
  - exists 0%nat. split; [done|]. by rewrite at_0.
  - by rewrite at_0.
  - by rewrite at_0.
  - exists 0. change (span _) with 0. change (size r) with (ring_len m). rewrite at_0 by done.
    split_and!; try (done || lia).
Qed.

(** C1: every operation of the two endpoints is simulated by the stream
    specification. From a state that represents a stream of packets, sending
    succeeds exactly when the packet fits the free space, a commit publishes
    and signals exactly as specified, receiving returns the next packet of the
    stream with the sender's transaction, ranges and payload, or reports an
    empty ring exactly when there is none; no operation panics or reports
    corruption, and the new state represents the new stream. The packets sent keep
    the caller's contract [packet_ok]: their sizes fit the 16-bit fields of the
    descriptor, and a direct packet has ranges. *)
Theorem ring_refines_stream s q op :
  refines s q -> valid_op op ->
  exists s' out q', step op s = Ok (s', out) /\ astep (size (ring s)) op q out q' /\
    refines s' q' /\ size (ring s') = size (ring s).
Proof. apply sim_step. Qed.

(** * End to end *)

(** The packets sent, and the packets received, of a run. *)
Definition sent (ops : list Op) (outs : list Out) : list Msg :=
  omap (fun oo => match oo with (Send pkt data, Done) => Some (pkt, data) | _ => None end) (zip ops outs).

Definition got (outs : list Out) : list Received :=
  omap (fun o => match o with Got x => Some x | _ => None end) outs.

Definition no_revert (op : Op) : Prop :=
  match op with RevertWrite | RevertRead => False | _ => True end.

Definition pipeline (q : Stream) (rest : list Msg) : list Msg := stream q ++ unsent q ++ rest.

Lemma aruns_delivers sz ops q outs q' :
  aruns sz ops q outs q' -> Forall no_revert ops ->
  Forall2 received_as (take (length (got outs)) (drop (taken q) (pipeline q (sent ops outs)))) (got outs).
Proof.
  induction 1 as [q|op ops q out q1 outs q2 Hstep Hrun IH]; intros Hops; [constructor|].
  inversion Hops as [|? ? Hop Hops']; subst. specialize (IH Hops').
  destruct Hstep as [pkt data q| | |q| |q m x Hm Hx| | | | | |]; try done.
  - unfold pipeline in *. simpl in *. by rewrite <-!app_assoc in IH.
  - unfold pipeline in *. simpl in *. by rewrite <-!app_assoc in IH.
  - assert (pipeline q (sent (Receive :: ops) (Got x :: outs)) !! taken q = Some m) as Hl.
    { unfold pipeline. by apply lookup_app_l_Some. }
    change (got (Got x :: outs)) with (x :: got outs). cbn [length].
    rewrite (drop_S _ _ _ Hl). cbn [take]. constructor; [done|]. exact IH.
Qed.

(** C35: packets are delivered in order, once, and unaltered. From the two
    endpoints opened on an empty ring, any sequence of valid operations without
    reverts runs without a fault, and what the receiver got is what the sender
    sent, from the first packet on: same transactions, kinds, ranges and
    payloads. *)
Theorem delivery m c s ops :
  ring_wf m -> 2 * ring_len m < 2 ^ 32 -> 0 <= inp c -> inp c = outp c -> open_ring m c = Ok s ->
  Forall valid_op ops -> Forall no_revert ops ->
  exists s' outs, run ops s = Ok (s', outs) /\
    Forall2 received_as (take (length (got outs)) (sent ops outs)) (got outs).
Proof.
  intros Hwf Hmax Hi Hio Hopen Hops Hnr.
  destruct (open_refines m c s Hwf Hmax Hi Hio Hopen) as [R _].
  destruct (sim_run ops s _ R Hops) as (s' & outs & q' & Hrun & Ha & _ & _).
  exists s', outs. split; [done|]. exact (aruns_delivers _ _ _ _ _ Ha Hnr).
Qed.

(** * Sizes and space queries *)

Lemma total_len_eq pkt hs :
  0 <= out_size pkt -> header_size (out_typ pkt) = hs -> hs mod 8 = 0 ->
  total_len pkt = hs + Z.ldiff (out_size pkt + 7) 7 + 8.
Proof.
  intros Hs Hh H8. unfold total_len, msg_len, div_ceil8, FOOTER_SIZE. rewrite Hh.
  assert (Z.ldiff (out_size pkt + 7) 7 = (out_size pkt + 7) / 8 * 8) as ->
    by (apply (ldiff_ones_mul _ 3); lia).
  pose proof (Z.div_mod hs 8).
  replace (out_size pkt + hs + 7) with (out_size pkt + 7 + hs / 8 * 8) by lia.
  rewrite Z.div_add by lia. lia.
Qed.

(** The sizes [PacketSize] announces are the space the packet occupies, for
    in-band, completion and transfer-page packets of any payload length. *)
Theorem packet_size_exact n tid id ranges :
  0 <= n ->
  packet_size_in_band n = total_len (mkOutgoing tid n OutInBandNoCompletion) /\
  packet_size_in_band n = total_len (mkOutgoing tid n OutInBandWithCompletion) /\
  packet_size_completion n = total_len (mkOutgoing tid n OutCompletion) /\
  packet_size_transfer_pages (zlen ranges) n = total_len (mkOutgoing tid n (OutTransferPages id ranges)).
Proof.
  intros Hn. unfold packet_size_transfer_pages, packet_size_completion, packet_size_in_band.
  split_and!; symmetry.
  1-3: rewrite (total_len_eq _ 16) by done; reflexivity.
  rewrite (total_len_eq _ (24 + zlen ranges * 8)); [|done|..].
  - cbn [out_size]. unfold DESCRIPTOR_SIZE, FOOTER_SIZE. lia.
  - unfold header_size. cbn [out_typ packet_header fst snd]. unfold DESCRIPTOR_SIZE. lia.
  - by rewrite Z_mod_plus_full.
Qed.

Lemma can_write_spec r p len :
  ring_ok r -> pointer r (next_in p) -> pointer r (cached_out p) -> pointer r (outp (control r)) ->
  can_write r p len =
  Ok (p <| cached_out := fetched_out r p len |>,
      len <=? size r - used r (next_in p) (fetched_out r p len) - 8).
Proof.
  intros Hr Hni Hco Ho. unfold can_write, fetched_out. rewrite free_spec by done. cbn [res_bind].
  destruct (Z.leb_spec len (size r - used r (next_in p) (cached_out p) - 8)),
    (Z.ltb_spec (size r - used r (next_in p) (cached_out p) - 8) len); try lia.
  - destruct (Z.leb_spec len (size r - used r (next_in p) (cached_out p) - 8)); [by destruct p|lia].
  - rewrite validate_ok by done. cbn [res_bind].
    change (next_in (p <| cached_out := outp (control r) |>)) with (next_in p).
    by rewrite free_spec by done.
Qed.

(** [can_write] decides whether [write] succeeds. Asked for the size of a
    packet smaller than the limit of [write], it answers true exactly when the
    packet can be written, and a refused packet is reported as [Full]. *)
Theorem can_write_decides r p pkt :
  ring_ok r -> pointer r (next_in p) -> pointer r (cached_out p) -> pointer r (outp (control r)) ->
  packet_ok pkt -> total_len pkt < size r - 8 ->
  exists p' b, can_write r p (total_len pkt) = Ok (p', b) /\
    if b then exists r' p'' rg, write r p' pkt = Ok (r', p'', rg)
    else write r p' pkt = Err (Full (total_len pkt)).
Proof.
  intros Hr Hni Hco Ho Hp Hlen. rewrite can_write_spec by done.
  set (co := fetched_out r p (total_len pkt)). eexists _, _; split; [done|].
  assert (pointer r co) as Hco' by (unfold co, fetched_out; by destruct (_ <? _)).
  assert (fetched_out r (p <| cached_out := co |>) (total_len pkt) = co) as Hfix.
  { unfold co, fetched_out. simpl.
    destruct (Z.ltb_spec (size r - used r (next_in p) (cached_out p) - 8) (total_len pkt));
      [by destruct (_ <? _)|].
    by destruct (Z.ltb_spec (size r - used r (next_in p) (cached_out p) - 8) (total_len pkt)); [lia|]. }
  clearbody co. set (p1 := p <| cached_out := co |>) in *.
  pose proof (write_spec r p1 pkt Hr Hni Hco' Ho Hp Hlen) as Hw. cbv zeta in Hw.
  change (next_in p1) with (next_in p) in Hw.
  rewrite Hfix in Hw.
  destruct (Z.leb_spec (total_len pkt) (size r - used r (next_in p) co - 8)),
    (Z.ltb_spec (size r - used r (next_in p) co - 8) (total_len pkt)); try lia; [|done].
  destruct Hw as (m' & -> & _). eauto.
Qed.

(** A packet of exactly [maximum_packet_size] bytes cannot be sent: on an
    empty ring [can_write] answers true for it, and [write] refuses it as a
    message of invalid length. *)
Theorem maximum_size_rejected r p pkt :
  ring_ok r -> pointer r (next_in p) -> cached_out p = next_in p -> packet_ok pkt ->
  maximum_packet_size r = Ok (E:=void) (total_len pkt) ->
  can_write r p (total_len pkt) = Ok (p, true) /\
  write r p pkt = Err (WriteCorrupt InvalidMessageLength).
Proof.
  intros Hr Hni Hco Hp Hmax. pose proof (ok_min _ Hr). unfold maximum_packet_size in Hmax.
  rewrite usub_ok in Hmax by lia. injection Hmax as Hmax. split.
  - unfold can_write. rewrite Hco, free_spec by done. cbn [res_bind]. unfold used.
    rewrite Z.sub_diag, Zmod_0_l. by destruct (Z.leb_spec (total_len pkt) (size r - 0 - 8)); [|lia].
  - apply write_too_long; [done|done|lia].
Qed.

End fifo.

(** * A ring of one page *)

Definition page_mem : FlatRingMem := flat_new 4096.

Definition page_control : Control := mkControl 4088 4088 0 0 0.

Definition page_ring : Ring FlatRingMem := mkRing page_mem (mkControl 4088 4088 1 0 1) 4096.

Definition page_system : System :=
  mkSystem page_ring (mkOutgoingOffset 4088 4088 4088) (mkIncomingOffset 4088 4088 4088).

Definition hello : Msg := (mkOutgoing 7 5 OutInBandWithCompletion, [104; 101; 108; 108; 111]).

Definition pages : Msg := (mkOutgoing 9 0 (OutGpaDirect [mkPagedRange 16 4096 [1; 2]]), []).

Lemma hello_ok : msg_ok hello.
Proof. split; [|done]. constructor; vm_compute; try done; split; congruence. Qed.

Lemma pages_ok : msg_ok pages.
Proof. split; [|done]. constructor; vm_compute; try done; split; congruence. Qed.

Lemma page_opens : open_ring page_mem page_control = Ok page_system.
Proof. vm_compute. reflexivity. Qed.

Lemma page_refines : refines page_system empty_stream.
Proof. by destruct (open_refines page_mem page_control page_system); [done..|exact page_opens|]. Qed.

Lemma ring_refines_stream_witness :
  exists s' out q', step (Send hello.1 hello.2) page_system = Ok (s', out) /\
    astep (size (ring page_system)) (Send hello.1 hello.2) empty_stream out q' /\
    refines s' q' /\ size (ring s') = size (ring page_system).
Proof.
  apply (ring_refines_stream page_system empty_stream (Send hello.1 hello.2)).
  - exact page_refines.
  - exact hello_ok.
Defined.

Lemma delivery_witness :
  let ops := [Send hello.1 hello.2; Send pages.1 pages.2; CommitWrite; Receive; Receive; CommitRead] in
  exists s' outs, run ops page_system = Ok (s', outs) /\
    Forall2 received_as (take (length (got outs)) (sent ops outs)) (got outs).
Proof.
  intros ops. apply (delivery page_mem page_control page_system ops).
  - done.
  - done.
  - done.
  - done.
  - exact page_opens.
  - repeat constructor; apply hello_ok || apply pages_ok.
  - repeat constructor.
Defined.

Lemma page_ring_ok : ring_ok page_ring.
Proof. by constructor. Qed.

Lemma read_safe_witness :
  let p := mkIncomingOffset 4088 0 0 in
  offset_ok page_ring (read page_ring p).1 /\
  match (read page_ring p).2 with
  | Panic => False
  | Err _ => next_out (read page_ring p).1 = next_out p
  | Ok pkt => forall rg n, packet_range pkt rg -> 0 <= n ->
      exists c, range_cursor rg = Ok (E:=AccessError) c /\ reader_read (mem page_ring) c n <> Panic
  end.
Proof.
  intros p. apply (read_safe page_ring p).
  - exact page_ring_ok.
  - apply Forall_replicate. split; [lia|done].
  - done.
  - by split.
Defined.

Lemma packet_size_exact_witness :
  packet_size_in_band 5 = total_len (mkOutgoing 1 5 OutInBandNoCompletion) /\
  packet_size_in_band 5 = total_len (mkOutgoing 1 5 OutInBandWithCompletion) /\
  packet_size_completion 5 = total_len (mkOutgoing 1 5 OutCompletion) /\
  packet_size_transfer_pages (zlen [mkTransferPageRange 8 0]) 5 =
    total_len (mkOutgoing 1 5 (OutTransferPages 2 [mkTransferPageRange 8 0])).
Proof. apply (packet_size_exact 5 1 2 [mkTransferPageRange 8 0]). lia. Defined.

Lemma can_write_decides_witness :
  let p := mkOutgoingOffset 4088 4088 4088 in
  exists p' b, can_write page_ring p (total_len hello.1) = Ok (p', b) /\
    if b then exists r' p'' rg, write page_ring p' hello.1 = Ok (r', p'', rg)
    else write page_ring p' hello.1 = Err (Full (total_len hello.1)).
Proof.
  intros p. apply (can_write_decides page_ring p hello.1).
  - exact page_ring_ok.
  - by split.
  - by split.
  - by split.
  - exact (proj1 hello_ok).
  - done.
Defined.

Lemma maximum_size_rejected_witness :
  let p := mkOutgoingOffset 0 0 0 in
  let pkt := mkOutgoing 1 4064 OutInBandNoCompletion in
  can_write page_ring p (total_len pkt) = Ok (p, true) /\
  write page_ring p pkt = Err (WriteCorrupt InvalidMessageLength).
Proof.
  intros p pkt. apply (maximum_size_rejected page_ring p pkt).
  - exact page_ring_ok.
  - by split.
  - done.
  - constructor; vm_compute; try done; split; congruence.
  - done.
Defined.
