(* ===== verification/VmTime.v ===== *)
(** VM time ([vm/vmcore/src/vmtime.rs]): the VM's own clock, the timer state
    shared by the waiters of one time source, and the accessors that devices
    use to read the clock and to wait for a time.

    A [VmTime] is a 64-bit count of 100ns units, an [Instant] a 64-bit count of
    nanoseconds of the host's monotonic clock, a [Duration] a number of
    nanoseconds. Every function that reads the host clock takes the reading as
    an argument. A [Waker] is kept as whether one is registered, the calls to
    [wake] as the log [woken]; the host timer as the deadline last set on it.
    [Slab<WaiterState>] is the list of its slots, iterated in index order. *)

From S2P Require Import Prelude.

(** * Times *)

Definition as_i64 (x : Z) : Z := if x <? 2 ^ 63 then x else x - 2 ^ 64.

Definition vmtime_wrapping_add (t d : Z) : Z := ucast 64 (wrapping_add 128 t (d / 100)).

Definition is_before (self t : Z) : bool :=
  let delta := wrapping_sub 64 self t in
  as_i64 delta <? 0.

Definition is_after (self t : Z) : bool :=
  let delta := wrapping_sub 64 self t in
  0 <? as_i64 delta.

Definition duration_from_100ns (n : Z) : Z :=
  let NUM_100NS_IN_SEC := 10 * 1000 * 1000 in
  (n / NUM_100NS_IN_SEC) * 1000000000 + ucast 32 (n mod NUM_100NS_IN_SEC) * 100.

Definition checked_sub (self t : Z) : option Z :=
  let delta := wrapping_sub 64 self t in
  if 0 <=? as_i64 delta then Some (duration_from_100ns delta) else None.

Definition vmtime_min (self t : Z) : Z := if is_before self t then self else t.
Definition vmtime_max (self t : Z) : Z := if is_before self t then t else self.

(** [Instant + Duration] and [Instant - Instant] of [pal_async::timer]. *)
Definition instant_add {E} (os d : Z) : res E Z :=
  if d <? 2 ^ 64 then uadd 64 os d else Panic.

Definition instant_sub {E} (os os' : Z) : res E Z := usub os os'.

(** * The shared timer state *)

Record Timestamp : Type := mkTimestamp { ts_vmtime : Z; ts_os_time : Z }.

Inductive TimeState : Type :=
| Stopped (t : Z)
| Started (start : Timestamp).

Definition start_time (ts : TimeState) : option Timestamp :=
  match ts with
  | Stopped _ => None
  | Started t => Some t
  end.

Definition is_started (ts : TimeState) : bool :=
  match start_time ts with Some _ => true | None => false end.

Definition stop_time (ts : TimeState) : option Z :=
  match ts with
  | Stopped t => Some t
  | Started _ => None
  end.

Definition timestate_now {E} (ts : TimeState) (now_os : Z) : res E Timestamp :=
  match ts with
  | Stopped t => Ok (mkTimestamp t now_os)
  | Started start =>
      if ts_os_time start <=? now_os
      then
        let! d := instant_sub now_os (ts_os_time start) in
        Ok (mkTimestamp (vmtime_wrapping_add (ts_vmtime start) d) now_os)
      else Ok start
  end.

Record WaiterState : Type := mkWaiterState { waiter_next : option Z; waker : bool }.

#[global] Instance WaiterState_settable : Settable WaiterState := fun w =>
  mkWaiterState (waiter_next w) (waker w).

Definition waiter_new : WaiterState := mkWaiterState None false.

Record TimerState : Type := mkTimerState {
  time : TimeState;
  deadline : option Z;
  waiters : list (option WaiterState);
  timer_next : option Z;
  timer_last : Z;
  woken : list nat;
}.

#[global] Instance TimerState_settable : Settable TimerState := fun s =>
  mkTimerState (time s) (deadline s) (waiters s) (timer_next s) (timer_last s) (woken s).

Definition timer_new (uptime : Z) : TimerState :=
  mkTimerState (Stopped uptime) None [] None uptime [].

(** [waiters[index]], which panics on a vacant slot. *)
Definition slab_get {E} (ws : list (option WaiterState)) (i : nat) : res E WaiterState :=
  match ws !! i with
  | Some (Some w) => Ok w
  | _ => Panic
  end.

Definition slab_set (i : nat) (w : WaiterState) (s : TimerState) : TimerState :=
  s <| waiters := <[i := Some w]> (waiters s) |>.

(** [if let Some(waker) = state.waker.take() { waker.wake() }]. *)
Definition take_wake (i : nat) (w : WaiterState) : WaiterState * list nat :=
  if waker w then (w <| waker := false |>, [i]) else (w, []).

Definition timer_now {E} (s : TimerState) (now_os : Z) : res E Timestamp :=
  timestate_now (time s) now_os.

Definition timestamp {E} (s : TimerState) (t : Z) : res E (option Timestamp) :=
  match start_time (time s) with
  | None => Ok None
  | Some start =>
      let since := default 0 (checked_sub t (ts_vmtime start)) in
      let! os := instant_add (ts_os_time start) since in
      Ok (Some (mkTimestamp t os))
  end.

Definition unwrap {E A} (o : option A) : res E A :=
  match o with Some a => Ok a | None => Panic end.

Definition is_none_or {A} (p : A -> bool) (o : option A) : bool :=
  match o with None => true | Some a => p a end.

Definition is_some_and {A} (p : A -> bool) (o : option A) : bool :=
  match o with None => false | Some a => p a end.

Definition set_next {E} (next : Z) (s : TimerState) : res E TimerState :=
  if negb (is_started (time s)) then Ok s
  else if is_none_or (fun current_next => is_before next current_next) (timer_next s)
  then
    let! o := timestamp s next in
    let! ts := unwrap o in
    Ok (s <| deadline := Some (ts_os_time ts) |> <| timer_next := Some next |>)
  else Ok s.

(** The body of the loop of [wake], for the waiter in slot [i]. *)
Definition wake_waiter (now : Z) (i : nat) (w : WaiterState) (next : option Z)
  : WaiterState * option Z * list nat :=
  match waiter_next w with
  | Some this_next =>
      if is_after this_next now
      then
        (w,
         if is_none_or (fun next => is_before this_next next) next
         then Some this_next else next,
         [])
      else let '(w, log) := take_wake i w in (w, next, log)
  | None => (w, next, [])
  end.

(** The loop of [wake] over the waiters, from slot [i] on. *)
Fixpoint wake_waiters (now : Z) (i : nat) (ws : list (option WaiterState)) (next : option Z)
  : list (option WaiterState) * option Z * list nat :=
  match ws with
  | [] => ([], next, [])
  | None :: ws =>
      let '(ws, next, log) := wake_waiters now (S i) ws next in
      (None :: ws, next, log)
  | Some w :: ws =>
      let '(w, next, log) := wake_waiter now i w next in
      let '(ws, next, log') := wake_waiters now (S i) ws next in
      (Some w :: ws, next, log ++ log')
  end.

Definition wake {E} (now : Timestamp) (s : TimerState) : res E TimerState :=
  assert! negb (is_before (ts_vmtime now) (timer_last s)) in
  let s := s <| timer_last := ts_vmtime now |> in
  let '(ws, next, log) := wake_waiters (ts_vmtime now) 0 (waiters s) None in
  let s := s <| waiters := ws |> <| woken := woken s ++ log |> in
  match next with
  | Some next => set_next next s
  | None => Ok s
  end.

Definition timer_start {E} (now : Timestamp) (s : TimerState) : res E TimerState :=
  let! vmtime := unwrap (stop_time (time s)) in
  assert! ts_vmtime now =? vmtime in
  wake now (s <| time := Started now |>).

Definition timer_stop {E} (now_os : Z) (s : TimerState) : res E (TimerState * Z) :=
  assert! is_started (time s) in
  let! now := timer_now s now_os in
  Ok (s <| time := Stopped (ts_vmtime now) |>, ts_vmtime now).

(** The loop of [reset] that wakes every waiter, from slot [i] on. *)
Fixpoint wake_all (i : nat) (ws : list (option WaiterState))
  : list (option WaiterState) * list nat :=
  match ws with
  | [] => ([], [])
  | None :: ws => let '(ws, log) := wake_all (S i) ws in (None :: ws, log)
  | Some w :: ws =>
      let '(w, log) := take_wake i w in
      let '(ws, log') := wake_all (S i) ws in
      (Some w :: ws, log ++ log')
  end.

Definition timer_reset {E} (t : Z) (s : TimerState) : res E TimerState :=
  assert! negb (is_started (time s)) in
  let s := s <| time := Stopped t |> <| timer_last := t |> <| timer_next := None |> in
  let '(ws, log) := wake_all 0 (waiters s) in
  Ok (s <| waiters := ws |> <| woken := woken s ++ log |>).

Definition timer_cancel_timeout {E} (index : nat) (s : TimerState) : res E TimerState :=
  let! w := slab_get (waiters s) index in
  Ok (slab_set index (w <| waiter_next := None |>) s).

Definition update_timeout {E} (index : nat) (t : Z) (s : TimerState) : res E TimerState :=
  let! w := slab_get (waiters s) index in
  let w := w <| waiter_next := Some t |> in
  if is_before t (timer_last s)
  then
    let '(w, log) := take_wake index w in
    Ok (slab_set index w s <| woken := woken s ++ log |>)
  else
    let s := slab_set index w s in
    if is_some_and (fun next => is_before next t) (timer_next s) then Ok s
    else set_next t s.

(** [Poll::Ready(now)] is [Some now], [Poll::Pending] is [None]. *)
Definition timer_poll_timeout {E} (index : nat) (now_os : Z) (next : option Z) (s : TimerState)
  : res E (TimerState * option Timestamp) :=
  let! now := timer_now s now_os in
  let! w := slab_get (waiters s) index in
  if is_some_and (fun next => is_before next (ts_vmtime now)) next
  then Ok (slab_set index (w <| waker := false |> <| waiter_next := None |>) s, Some now)
  else
    let s := slab_set index (w <| waiter_next := next |> <| waker := true |>) s in
    match next with
    | Some next => let! s := set_next next s in Ok (s, None)
    | None => Ok (s, None)
    end.

(** The start of an iteration of [poll]: an idle timer gets a long deadline. *)
Definition poll_deadline {E} (reading : Z) (s : TimerState) : res E TimerState :=
  match timer_next s with
  | Some _ => Ok s
  | None =>
      let! d := instant_add reading (86400 * 1000000000) in
      Ok (s <| deadline := Some d |>)
  end.

(** [TimerState::poll]. Each iteration reads the host clock and polls the host
    timer; [polls] lists the readings and the results, [Some now] for
    [Poll::Ready(now)]. *)
Fixpoint timer_poll {E} (polls : list (Z * option Z)) (s : TimerState) : res E TimerState :=
  match polls with
  | [] => Ok s
  | (reading, ready) :: polls =>
      if is_started (time s)
      then
        let! s := poll_deadline reading s in
        match ready with
        | Some now =>
            let s := s <| timer_next := None |> in
            let! now := timer_now s now in
            let! s := wake now s in
            timer_poll polls s
        | None => Ok s
        end
      else Ok s
  end.

(** * Accessors *)

Record VmTimeAccess : Type := mkVmTimeAccess {
  timeout : option Z;
  waiting : bool;
  index : nat;
}.

#[global] Instance VmTimeAccess_settable : Settable VmTimeAccess := fun a =>
  mkVmTimeAccess (timeout a) (waiting a) (index a).

(** [VmTimeSource::access]; [key] is the vacant slot that the slab picks. *)
Definition source_access (key : nat) (s : TimerState) : VmTimeAccess * TimerState :=
  (mkVmTimeAccess None false key,
   if (key <? length (waiters s))%nat then slab_set key waiter_new s
   else s <| waiters := waiters s ++ [Some waiter_new] |>).

(** [Drop for VmTimeAccess]; [Slab::remove] panics on a vacant slot. *)
Definition access_drop {E} (a : VmTimeAccess) (s : TimerState) : res E TimerState :=
  let! _ := slab_get (waiters s) (index a) in
  Ok (s <| waiters := <[index a := None]> (waiters s) |>).

Definition access_now {E} (s : TimerState) (now_os : Z) : res E Z :=
  let! now := timer_now s now_os in
  Ok (ts_vmtime now).

Definition host_time {E} (t : Z) (s : TimerState) : res E (option Z) :=
  let! o := timestamp s t in
  Ok (ts_os_time <$> o).

Definition get_timeout (a : VmTimeAccess) : option Z := timeout a.

Definition set_timeout {E} (t : Z) (a : VmTimeAccess) (s : TimerState)
  : res E (VmTimeAccess * TimerState) :=
  let a := a <| timeout := Some t |> in
  if waiting a
  then let! s := update_timeout (index a) t s in Ok (a, s)
  else Ok (a, s).

Definition set_timeout_if_before {E} (t : Z) (a : VmTimeAccess) (s : TimerState)
  : res E (VmTimeAccess * TimerState) :=
  if is_none_or (fun timeout => is_before t timeout) (timeout a)
  then set_timeout t a s
  else Ok (a, s).

Definition cancel_timeout {E} (a : VmTimeAccess) (s : TimerState)
  : res E (VmTimeAccess * TimerState) :=
  let! s :=
    if waiting a && (match timeout a with Some _ => true | None => false end)
    then timer_cancel_timeout (index a) s else Ok s in
  Ok (a <| timeout := None |>, s).

Definition poll_timeout {E} (now_os : Z) (a : VmTimeAccess) (s : TimerState)
  : res E (VmTimeAccess * TimerState * option Z) :=
  let! r := timer_poll_timeout (index a) now_os (timeout a) s in
  match r with
  | (s, Some now) => Ok (a <| waiting := false |> <| timeout := None |>, s, Some (ts_vmtime now))
  | (s, None) => Ok (a <| waiting := true |>, s, None)
  end.

(** * What a device sees of VM time

    The operations of [VmTimeAccess] that device emulators call, over an
    abstract carrier, so that a device is modelled and verified without the
    shared timer state. *)
Class TimeAccess (C : Type) : Type := {
  ta_now : forall {E}, Z -> C -> res E Z;
  ta_set_timeout_if_before : forall {E}, Z -> C -> res E C;
  ta_poll_timeout : forall {E}, Z -> C -> res E (C * option Z);
}.

#[global] Instance accessor_time_access : TimeAccess (VmTimeAccess * TimerState) := {
  ta_now _ os c := access_now c.2 os;
  ta_set_timeout_if_before _ t c := set_timeout_if_before t c.1 c.2;
  ta_poll_timeout _ os c := poll_timeout os c.1 c.2;
}.
