(* ===== verification/VmTimeSpec.v ===== *)
(** Correctness of VM time ([vm/vmcore/src/vmtime.rs]).

    A [Clock] is one time source: the shared [TimerState], the live accessors
    by slot and the latest reading of the host clock. [clock_exec] runs one
    operation of the keeper, of the timer task or of an accessor. The invariant
    [clock_inv] says that the host timer is never set later than the earliest
    time a registered waiter waits for.

    Times are bounded ([2^56] units of 100ns is 228 years, [2^62] ns of host
    time 146 years), so that the relative comparisons of [VmTime] are the
    comparisons of integers and [Instant + Duration] does not overflow. *)

From stdpp Require Import gmap.
From S2P Require Import Prelude VmTime.

#[local] Open Scope Z_scope.

(** * The operations on bounded times *)

Definition small (t : Z) : Prop := 0 <= t < 2 ^ 62.

Lemma wrapping_sub_small a b :
  small a -> small b -> wrapping_sub 64 a b = if b <=? a then a - b else a - b + 2 ^ 64.
Proof.
  unfold small, wrapping_sub. intros. destruct (Z.leb_spec b a).
  - rewrite Z.mod_small; lia.
  - rewrite <-(Z_mod_plus_full _ 1), Z.mod_small; lia.
Qed.

Lemma as_i64_sub a b : small a -> small b -> as_i64 (wrapping_sub 64 a b) = a - b.
Proof.
  intros Ha Hb. rewrite wrapping_sub_small by done. unfold small, as_i64 in *.
  destruct (Z.leb_spec b a); [destruct (Z.ltb_spec (a - b) (2 ^ 63))
    |destruct (Z.ltb_spec (a - b + 2 ^ 64) (2 ^ 63))]; lia.
Qed.

Lemma is_before_ltb a b : small a -> small b -> is_before a b = (a <? b).
Proof.
  intros. unfold is_before. rewrite as_i64_sub by done.
  destruct (Z.ltb_spec (a - b) 0), (Z.ltb_spec a b); done || lia.
Qed.

Lemma is_after_ltb a b : small a -> small b -> is_after a b = (b <? a).
Proof.
  intros. unfold is_after. rewrite as_i64_sub by done.
  destruct (Z.ltb_spec 0 (a - b)), (Z.ltb_spec b a); done || lia.
Qed.

Lemma duration_100ns n : 0 <= n -> duration_from_100ns n = n * 100.
Proof.
  intros. unfold duration_from_100ns, ucast. change (10 * 1000 * 1000) with 10000000.
  pose proof (Z.mod_pos_bound n 10000000). pose proof (Z.div_mod n 10000000).
  rewrite (Z.mod_small (n mod _)) by lia. lia.
Qed.

Lemma checked_sub_small a b :
  small a -> small b -> checked_sub a b = if b <=? a then Some ((a - b) * 100) else None.
Proof.
  intros Ha Hb. unfold checked_sub. rewrite as_i64_sub, wrapping_sub_small by done.
  destruct (Z.leb_spec 0 (a - b)), (Z.leb_spec b a); try lia; [|done].
  rewrite duration_100ns by lia. done.
Qed.

Lemma vmtime_add_small t d :
  0 <= t -> 0 <= d -> t + d / 100 < 2 ^ 62 -> vmtime_wrapping_add t d = t + d / 100.
Proof.
  intros. unfold vmtime_wrapping_add, wrapping_add, ucast.
  assert (0 <= d / 100) by (apply Z.div_pos; lia). rewrite (Z.mod_small (t + d / 100) (2 ^ 128)), Z.mod_small; lia.
Qed.

(** * One time source *)

Record Clock : Type := mkClock {
  timer : TimerState;
  accesses : gmap nat VmTimeAccess;
  host : Z;
}.

Inductive ClockOp : Type :=
| OpStart (os : Z)
| OpStop (os : Z)
| OpReset (t : Z)
| OpPoll (polls : list (Z * option Z))
| OpAccess (key : nat)
| OpDrop (k : nat)
| OpSetTimeout (k : nat) (t : Z)
| OpSetTimeoutIfBefore (k : nat) (t : Z)
| OpCancelTimeout (k : nat)
| OpPollTimeout (k : nat) (os : Z).

(** The latest reading of a run of polls. *)
Fixpoint polls_end (h : Z) (polls : list (Z * option Z)) : Z :=
  match polls with
  | [] => h
  | (r, None) :: polls => polls_end r polls
  | (_, Some now) :: polls => polls_end now polls
  end.

Definition on_access {E} (c : Clock) (k : nat)
    (f : VmTimeAccess -> TimerState -> res E (VmTimeAccess * TimerState)) : res E Clock :=
  let! a := unwrap (accesses c !! k) in
  let! r := f a (timer c) in
  let '(a, s) := r in
  Ok (mkClock s (<[k := a]> (accesses c)) (host c)).

Definition clock_exec {E} (op : ClockOp) (c : Clock) : res E Clock :=
  match op with
  | OpStart os =>
      let! t := unwrap (stop_time (time (timer c))) in
      let! s := timer_start (mkTimestamp t os) (timer c) in
      Ok (mkClock s (accesses c) os)
  | OpStop os =>
      let! r := timer_stop os (timer c) in
      Ok (mkClock r.1 (accesses c) os)
  | OpReset t =>
      let! s := timer_reset t (timer c) in
      Ok (mkClock s (accesses c) (host c))
  | OpPoll polls =>
      let! s := timer_poll polls (timer c) in
      Ok (mkClock s (accesses c) (polls_end (host c) polls))
  | OpAccess key =>
      let '(a, s) := source_access key (timer c) in
      Ok (mkClock s (<[key := a]> (accesses c)) (host c))
  | OpDrop k =>
      let! a := unwrap (accesses c !! k) in
      let! s := access_drop a (timer c) in
      Ok (mkClock s (delete k (accesses c)) (host c))
  | OpSetTimeout k t => on_access c k (set_timeout t)
  | OpSetTimeoutIfBefore k t => on_access c k (set_timeout_if_before t)
  | OpCancelTimeout k => on_access c k cancel_timeout
  | OpPollTimeout k os =>
      on_access c k (fun a s => let! r := poll_timeout os a s in Ok r.1)
  end.

(** What the callers respect: the keeper starts a stopped clock and stops a
    started one, the host clock is monotonic, the slab picks a vacant slot, and
    the targets are bounded. *)
Fixpoint polls_ok (h : Z) (polls : list (Z * option Z)) : Prop :=
  match polls with
  | [] => True
  | (r, None) :: polls => h <= r < 2 ^ 62 /\ polls_ok r polls
  | (r, Some now) :: polls => h <= r /\ r <= now < 2 ^ 62 /\ polls_ok now polls
  end.

Definition target_ok (t : Z) : Prop := 0 <= t < 2 ^ 56.

Definition clock_op_ok (op : ClockOp) (c : Clock) : Prop :=
  match op with
  | OpStart os => is_started (time (timer c)) = false /\ host c <= os < 2 ^ 62
  | OpStop os => is_started (time (timer c)) = true /\ host c <= os < 2 ^ 62
  | OpReset t => is_started (time (timer c)) = false /\ 0 <= t <= 2 ^ 54
  | OpPoll polls => polls_ok (host c) polls
  | OpAccess key => waiters (timer c) !! key = Some None \/ key = length (waiters (timer c))
  | OpDrop k | OpCancelTimeout k => is_Some (accesses c !! k)
  | OpSetTimeout k t | OpSetTimeoutIfBefore k t => is_Some (accesses c !! k) /\ target_ok t
  | OpPollTimeout k os => is_Some (accesses c !! k) /\ 0 <= os < 2 ^ 62
  end.

Inductive clock_reachable : Clock -> Prop :=
| clock_init uptime os :
    0 <= uptime <= 2 ^ 54 -> 0 <= os < 2 ^ 62 ->
    clock_reachable (mkClock (timer_new uptime) ∅ os)
| clock_op op c c' :
    clock_reachable c -> clock_op_ok op c -> clock_exec (E:=void) op c = Ok c' ->
    clock_reachable c'.

(** * The invariant *)

(** The host time at which VM time reaches [n], if the clock runs from [host] on. *)
Definition due (h : Z) (ts : TimeState) (n : Z) : Z :=
  match ts with
  | Stopped t => h + Z.max 0 (n - t) * 100
  | Started st => ts_os_time st + Z.max 0 (n - ts_vmtime st) * 100
  end.

(** The VM time at the latest host reading. *)
Definition vm_at (h : Z) (ts : TimeState) : Z :=
  match ts with
  | Stopped t => t
  | Started st => ts_vmtime st + (h - ts_os_time st) / 100
  end.

Definition time_ok (h : Z) (ts : TimeState) : Prop :=
  0 <= h < 2 ^ 62 /\
  match ts with
  | Stopped t => 0 <= t <= 2 ^ 54 + h / 100
  | Started st =>
      0 <= ts_os_time st <= h /\ 0 <= ts_vmtime st <= 2 ^ 54 + ts_os_time st / 100
  end.

Definition deadline_ok (h : Z) (s : TimerState) : Prop :=
  forall n, timer_next s = Some n ->
    target_ok n /\ exists dl, deadline s = Some dl /\ dl <= due h (time s) n.

Definition covers (s : TimerState) (t : Z) : Prop :=
  is_started (time s) = true -> exists n, timer_next s = Some n /\ n <= t.

Definition waiter_ok (s : TimerState) (w : WaiterState) : Prop :=
  forall t, waiter_next w = Some t -> target_ok t /\ (waker w = true -> covers s t).

Record timer_inv (h : Z) (s : TimerState) : Prop := {
  inv_time : time_ok h (time s);
  inv_last : 0 <= timer_last s <= vm_at h (time s);
  inv_deadline : deadline_ok h s;
  inv_waiters : forall i w, waiters s !! i = Some (Some w) -> waiter_ok s w;
}.

(** An accessor and its waiter agree. *)
Definition access_ok (a : VmTimeAccess) (w : WaiterState) : Prop :=
  (forall t, timeout a = Some t -> target_ok t) /\
  (waker w = true -> waiting a = true) /\
  (waiting a = true -> waiter_next w = timeout a).

Record clock_inv (c : Clock) : Prop := {
  inv_timer : timer_inv (host c) (timer c);
  inv_accesses : forall i a, accesses c !! i = Some a ->
    index a = i /\ exists w, waiters (timer c) !! i = Some (Some w) /\ access_ok a w;
  inv_slots : forall i w, waiters (timer c) !! i = Some (Some w) -> is_Some (accesses c !! i);
}.

Lemma time_ok_vm h ts : time_ok h ts -> 0 <= vm_at h ts <= 2 ^ 54 + h / 100 /\ small (vm_at h ts).
Proof.
  unfold time_ok, vm_at, small. intros [Hh Ht]. assert (h / 100 < 2 ^ 56) by div_lia.
  destruct ts as [t|st]; [lia|].
  assert ((h - ts_os_time st) / 100 + ts_os_time st / 100 <= h / 100) by div_lia.
  assert (0 <= (h - ts_os_time st) / 100) by (apply Z.div_pos; lia). lia.
Qed.

Lemma target_small t : target_ok t -> small t.
Proof. unfold target_ok, small. lia. Qed.

#[export] Hint Resolve target_small : word.

(** A reading of the clock at or after the latest one. *)
Lemma timer_now_ok {E} h ts os :
  time_ok h ts -> h <= os < 2 ^ 62 ->
  timestate_now (E:=E) ts os = Ok (mkTimestamp (vm_at os ts) os).
Proof.
  intros [Hh Ht] Hos. destruct ts as [t|st]; cbn [timestate_now vm_at]; [done|].
  destruct (Z.leb_spec (ts_os_time st) os); [|lia].
  unfold instant_sub. rewrite usub_ok by lia. cbn [res_bind].
  rewrite vmtime_add_small by div_lia. done.
Qed.

Lemma timestamp_ok {E} h s st t :
  time s = Started st -> time_ok h (time s) -> target_ok t ->
  timestamp (E:=E) s t = Ok (Some (mkTimestamp t (due h (time s) t))).
Proof.
  intros Hs Ht Hn. pose proof (time_ok_vm _ _ Ht). unfold timestamp. rewrite Hs in *. cbn [start_time due].
  destruct Ht as [Hh Ht]. rewrite checked_sub_small by (unfold small, target_ok in *; div_lia).
  unfold target_ok, instant_add in *.
  destruct (Z.leb_spec (ts_vmtime st) t); cbn [default from_option id];
    match goal with |- context [?d <? 2 ^ 64] => destruct (Z.ltb_spec d (2 ^ 64)); [|lia] end;
    rewrite uadd_ok by lia; cbn; do 3 f_equal; lia.
Qed.

(** * The shared timer state keeps the invariant *)

(** [s'] differs from [s] only in the host timer. *)
Definition same_waiters (s s' : TimerState) : Prop :=
  time s' = time s /\ waiters s' = waiters s /\ timer_last s' = timer_last s /\ woken s' = woken s.

(** The invariant, but for waiters that wait for [t] or later. *)
Record timer_inv_from (h : Z) (s : TimerState) (t : Z) : Prop := {
  from_time : time_ok h (time s);
  from_last : 0 <= timer_last s <= vm_at h (time s);
  from_deadline : deadline_ok h s;
  from_waiters : forall i w u, waiters s !! i = Some (Some w) -> waiter_next w = Some u ->
    target_ok u /\ (waker w = true -> covers s u \/ t <= u);
}.

Lemma deadline_target h s n : deadline_ok h s -> timer_next s = Some n -> target_ok n.
Proof. intros Hd Hn. by destruct (Hd n Hn). Qed.

Lemma set_next_ok {E} h s t :
  time_ok h (time s) -> deadline_ok h s -> target_ok t ->
  exists s', set_next (E:=E) t s = Ok s' /\ same_waiters s s' /\ deadline_ok h s' /\
    covers s' t /\ (forall u, covers s u -> covers s' u).
Proof.
  intros Ht Hd Htt. unfold set_next.
  destruct (time s) as [stop|st] eqn:Es; cbn [is_started start_time negb].
  { exists s. unfold covers. rewrite Es. by split_and!. }
  assert (is_started (time s) = true) as Hst by by rewrite Es.
  destruct (is_none_or _ (timer_next s)) eqn:En.
  - rewrite <-Es in Ht. rewrite (timestamp_ok h s st t Es Ht Htt). cbn [res_bind unwrap ts_os_time].
    eexists. split; [reflexivity|]. split; [by split_and!|]. split; [|split].
    + intros n [= <-]. split; [done|]. by eexists.
    + intros _. exists t. by split; [|lia].
    + intros u Hu _. exists t. split; [done|]. destruct (Hu Hst) as (n & Hn & Hle).
      rewrite Hn in En. cbn in En. rewrite is_before_ltb in En by eauto using deadline_target with word.
      apply Z.ltb_lt in En. lia.
  - exists s. split_and!; [done..| |done]. intros _.
    destruct (timer_next s) as [n|] eqn:Hn; cbn in En; [|done]. exists n. split; [done|].
    rewrite is_before_ltb in En by eauto using deadline_target with word.
    apply Z.ltb_ge in En. lia.
Qed.

Lemma set_next_inv {E} h s t :
  timer_inv_from h s t -> target_ok t ->
  exists s', set_next (E:=E) t s = Ok s' /\ same_waiters s s' /\ timer_inv h s'.
Proof.
  intros [Ht Hl Hd Hw] Htt.
  destruct (set_next_ok (E:=E) h s t Ht Hd Htt) as (s' & -> & Hs & Hd' & Hc & Hu).
  pose proof Hs as (Hst & Hsw & Hsl & _). eexists. split; [reflexivity|]. split; [done|]. constructor.
  - by rewrite Hst.
  - by rewrite Hst, Hsl.
  - done.
  - rewrite Hsw. intros i w Hi u Hun. destruct (Hw i w u Hi Hun) as [Hok Hk]. split; [done|].
    intros Hwk. destruct (Hk Hwk) as [|Hle]; [by apply Hu|].
    intros Hst'. destruct (Hc Hst') as (n & Hn & ?). exists n. split; [done|lia].
Qed.

(** What [wake] does to one slot at time [now]. *)
Definition woken_slot (now : Z) (w : WaiterState) : bool :=
  waker w && match waiter_next w with Some t => t <=? now | None => false end.

Definition wake_slot (now : Z) (o : option WaiterState) : option WaiterState :=
  (fun w => if woken_slot now w then w <| waker := false |> else w) <$> o.

Definition slots_ok (ws : list (option WaiterState)) : Prop :=
  forall i w t, ws !! i = Some (Some w) -> waiter_next w = Some t -> target_ok t.

Lemma slots_ok_cons o ws : slots_ok (o :: ws) -> slots_ok ws.
Proof. intros H i w t Hi. by apply (H (S i)). Qed.

(** The earliest of the times after [now], [next] among them. *)
Definition earliest (now : Z) (ws : list (option WaiterState)) (next next' : option Z) : Prop :=
  (forall n, next' = Some n -> target_ok n) /\
  (forall n, next = Some n -> exists n', next' = Some n' /\ n' <= n) /\
  (forall i w t, ws !! i = Some (Some w) -> waiter_next w = Some t -> now < t ->
     exists n', next' = Some n' /\ n' <= t).

Lemma wake_waiter_ok now i w next :
  small now -> (forall t, waiter_next w = Some t -> target_ok t) ->
  (forall n, next = Some n -> target_ok n) ->
  exists w' next' log, wake_waiter now i w next = (w', next', log) /\
    wake_slot now (Some w) = Some w' /\
    (forall n, next' = Some n -> target_ok n) /\
    (forall n, next = Some n -> exists n', next' = Some n' /\ n' <= n) /\
    (forall t, waiter_next w = Some t -> now < t -> exists n', next' = Some n' /\ n' <= t) /\
    (woken_slot now w = true -> In i log).
Proof.
  intros Hnow Hw Hnext. unfold wake_waiter, wake_slot, woken_slot, take_wake.
  cbn [fmap option_fmap option_map]. destruct (waiter_next w) as [t|] eqn:Et.
  2: { rewrite andb_false_r. do 3 eexists. split; [reflexivity|].
       split_and!; [done|done|eauto with lia|done|done]. }
  assert (target_ok t) as Htt by by apply Hw.
  rewrite is_after_ltb by eauto with word.
  destruct (Z.ltb_spec now t), (Z.leb_spec t now); try lia; rewrite ?andb_false_r, ?andb_true_r.
  - do 3 eexists. split; [reflexivity|]. destruct next as [n|]; cbn [is_none_or].
    + rewrite is_before_ltb by eauto with word.
      destruct (Z.ltb_spec t n); split_and!; try done; naive_solver eauto with lia.
    + split_and!; try done; naive_solver eauto with lia.
  - destruct (waker w); do 3 eexists; (split; [reflexivity|]);
      split_and!; try done; naive_solver eauto with lia.
Qed.

Lemma wake_waiters_ok now i ws next :
  small now -> slots_ok ws -> (forall n, next = Some n -> target_ok n) ->
  exists next' log, wake_waiters now i ws next = (wake_slot now <$> ws, next', log) /\
    earliest now ws next next' /\
    (forall k w, ws !! k = Some (Some w) -> woken_slot now w = true -> In (i + k)%nat log).
Proof.
  intros Hnow. revert i next. induction ws as [|o ws IH]; intros i next Hws Hnext.
  { do 2 eexists. split; [reflexivity|]. split; [|done]. split_and!; [done|eauto with lia|done]. }
  pose proof (slots_ok_cons _ _ Hws) as Hws'. destruct o as [w|]; cbn [wake_waiters].
  2: { destruct (IH (S i) next Hws' Hnext) as (n' & log & -> & (He1 & He2 & He3) & Hlog).
       do 2 eexists. split; [reflexivity|]. split.
       - split_and!; [done|done|]. intros [|j] w t Hj; [done|]. by apply (He3 j).
       - intros [|k] w Hk Hwk; [done|]. rewrite Nat.add_succ_r. by apply (Hlog k w). }
  destruct (wake_waiter_ok now i w next Hnow (fun t => Hws 0%nat w t eq_refl) Hnext)
    as (w' & next1 & log1 & -> & Hslot & H1 & H2 & H3 & H4).
  destruct (IH (S i) next1 Hws' H1) as (n' & log & -> & (He1 & He2 & He3) & Hlog).
  do 2 eexists. split; [cbn [fmap list_fmap]; by rewrite <-Hslot|]. split.
  - split_and!; [done| |].
    + intros n Hn. destruct (H2 n Hn) as (m & Hm & ?). destruct (He2 m Hm) as (m' & ? & ?). eauto with lia.
    + intros [|j] v t Hj; [|by apply (He3 j)]. injection Hj as ->. intros Ht Hlt.
      destruct (H3 t Ht Hlt) as (m & Hm & ?). destruct (He2 m Hm) as (m' & ? & ?). eauto with lia.
  - intros [|k] v Hk Hwk; apply in_or_app.
    + injection Hk as ->. rewrite Nat.add_0_r. auto.
    + right. rewrite Nat.add_succ_r. by apply (Hlog k v).
Qed.

(** The invariant without the claim that the host timer covers the waiters. *)
Record timer_pre (h : Z) (s : TimerState) : Prop := {
  pre_time : time_ok h (time s);
  pre_last : 0 <= timer_last s <= vm_at h (time s);
  pre_deadline : deadline_ok h s;
  pre_slots : slots_ok (waiters s);
}.

Lemma timer_inv_pre h s : timer_inv h s -> timer_pre h s.
Proof. intros [? ? ? Hw]. constructor; [done..|]. intros i w t Hi Ht. by destruct (Hw i w Hi t Ht). Qed.

Lemma timer_pre_later h h' s : timer_pre h s -> h <= h' < 2 ^ 62 -> timer_pre h' s.
Proof.
  intros [[Hh Ht] Hl Hd Hs] Hh'. constructor; [| | |done].
  - unfold time_ok in *. destruct (time s); div_lia.
  - unfold vm_at in *. destruct (time s) as [|st]; [lia|].
    assert ((h - ts_os_time st) / 100 <= (h' - ts_os_time st) / 100) by (apply Z.div_le_mono; lia). lia.
  - intros n Hn. destruct (Hd n Hn) as (? & dl & ? & Hdl). split; [done|]. exists dl. split; [done|].
    unfold due in *. destruct (time s); lia.
Qed.

Lemma timer_inv_later h h' s : timer_inv h s -> h <= h' < 2 ^ 62 -> timer_inv h' s.
Proof.
  intros Hi Hh. destruct (timer_pre_later h h' s (timer_inv_pre h s Hi) Hh).
  destruct Hi. by constructor.
Qed.

(** [w'] is [w], perhaps woken. *)
Definition perhaps_woken (w w' : WaiterState) : Prop :=
  waiter_next w' = waiter_next w /\ (waker w' = true -> waker w = true).

Definition slots_woken : list (option WaiterState) -> list (option WaiterState) -> Prop :=
  Forall2 (option_Forall2 perhaps_woken).

Lemma wake_slot_woken now o w' :
  wake_slot now o = Some w' -> exists w, o = Some w /\ perhaps_woken w w'.
Proof.
  destruct o as [w|]; [|done]. cbn. intros [= <-]. exists w. split; [done|].
  unfold perhaps_woken. destruct (woken_slot now w); by destruct w.
Qed.

Lemma wake_ok {E} h s :
  timer_pre h s ->
  let now := mkTimestamp (vm_at h (time s)) h in
  exists s', wake (E:=E) now s = Ok s' /\ timer_inv h s' /\ time s' = time s /\
    waiters s' = wake_slot (vm_at h (time s)) <$> waiters s /\
    (forall k w, waiters s !! k = Some (Some w) -> woken_slot (vm_at h (time s)) w = true ->
       In k (woken s')).
Proof.
  intros [Ht Hl Hd Hs]. cbn zeta. set (v := vm_at h (time s)) in *.
  destruct (time_ok_vm _ _ Ht) as [Hv Hvs]. fold v in Hv, Hvs.
  unfold wake. cbn [ts_vmtime]. rewrite is_before_ltb by (done || unfold small in *; lia).
  destruct (Z.ltb_spec v (timer_last s)); [lia|]. cbn [negb].
  change (waiters (s <| timer_last := v |>)) with (waiters s).
  destruct (wake_waiters_ok v 0 (waiters s) None Hvs Hs) as (nx & log & -> & (He1 & _ & He3) & Hlog); [done|].
  set (s1 := set_field _ _).
  assert (forall i w' u, waiters s1 !! i = Some (Some w') -> waiter_next w' = Some u ->
    target_ok u /\ (waker w' = true -> exists n, nx = Some n /\ n <= u)) as Hcov.
  { intros i w' u Hi Hu. change (waiters s1) with (wake_slot v <$> waiters s) in Hi.
    apply list_lookup_fmap_Some in Hi as (o & Hw' & Ho). symmetry in Hw'.
    pose proof Hw' as (w & -> & [Hn Hk])%wake_slot_woken. rewrite Hu in Hn. symmetry in Hn.
    split; [by apply (Hs i w)|]. intros Hwk. apply (He3 i w u Ho Hn).
    cbn in Hw'. injection Hw' as Hw'. unfold woken_slot in Hw'. rewrite (Hk Hwk), Hn in Hw'. cbn in Hw'.
    destruct (Z.leb_spec u v); [|lia]. by subst w'. }
  assert (forall k w, waiters s !! k = Some (Some w) -> woken_slot v w = true -> In k (woken s1)) as Hlog'.
  { intros k w Hk Hwk. change (woken s1) with (woken s ++ log). apply in_or_app. right. by apply (Hlog k w). }
  destruct nx as [n|].
  - destruct (set_next_inv (E:=E) h s1 n) as (s' & -> & (Hst & Hsw & _ & Hwo) & Hi).
    { constructor; [done|change (0 <= v <= vm_at h (time s)); lia|done|].
      intros i w u Hi Hu. destruct (Hcov i w u Hi Hu) as [? Hc]. split; [done|].
      intros Hwk. destruct (Hc Hwk) as (n' & [= ->] & ?). by right. }
    { by apply He1. }
    exists s'. rewrite Hst, Hsw, Hwo. by split_and!.
  - exists s1. split; [done|]. split; [|done]. constructor; [done|change (0 <= v <= vm_at h (time s)); lia|done|].
    intros i w Hi u Hu. destruct (Hcov i w u Hi Hu) as [? Hc]. split; [done|].
    intros Hwk. by destruct (Hc Hwk) as (n' & ? & _).
Qed.

Lemma slots_woken_fmap f ws :
  (forall w, exists w', f (Some w) = Some w' /\ perhaps_woken w w') -> f None = None ->
  slots_woken ws (f <$> ws).
Proof.
  intros Hf HN. apply Forall2_fmap_r. apply Forall_Forall2_diag, Forall_true. intros [w|]; unfold compose.
  - destruct (Hf w) as (w' & -> & ?). by constructor.
  - rewrite HN. constructor.
Qed.

Lemma wake_slots_woken now ws : slots_woken ws (wake_slot now <$> ws).
Proof.
  apply slots_woken_fmap; [|done]. intros w. eexists. split; [reflexivity|].
  by destruct (wake_slot_woken now (Some w) _ eq_refl) as (? & [= <-] & ?).
Qed.

Lemma timer_start_ok {E} h s t os :
  timer_inv h s -> time s = Stopped t -> h <= os < 2 ^ 62 ->
  exists s', timer_start (E:=E) (mkTimestamp t os) s = Ok s' /\ timer_inv os s' /\
    slots_woken (waiters s) (waiters s').
Proof.
  intros Hi Hs Hos. destruct (timer_pre_later h os s (timer_inv_pre h s Hi) Hos) as [Ht Hl Hd Hw].
  unfold timer_start. rewrite Hs in *. cbn [stop_time unwrap res_bind ts_vmtime]. rewrite Z.eqb_refl.
  set (s1 := set_field _ _). assert (vm_at os (time s1) = t) as Hv.
  { change (vm_at os (time s1)) with (t + (os - os) / 100). rewrite Z.sub_diag, Z.div_0_l by lia. lia. }
  destruct (wake_ok (E:=E) os s1) as (s' & He & Hi' & _ & Hws & _).
  - constructor; [|by rewrite Hv| |done].
    + destruct Ht as [? Ht]. split; [done|]. change (time s1) with (Started (mkTimestamp t os)).
      cbn [ts_os_time ts_vmtime]. lia.
    + intros n Hn. destruct (Hd n Hn) as (? & dl & ? & Hdl). split; [done|]. exists dl. split; [done|].
      rewrite Hs in Hdl. exact Hdl.
  - rewrite Hv in He, Hws. exists s'. split; [done|]. split; [done|]. rewrite Hws. apply wake_slots_woken.
Qed.

Lemma timer_stop_ok {E} h s os :
  timer_inv h s -> is_started (time s) = true -> h <= os < 2 ^ 62 ->
  exists s', timer_stop (E:=E) os s = Ok (s', vm_at os (time s)) /\ timer_inv os s' /\
    waiters s' = waiters s.
Proof.
  intros Hi Hs Hos. destruct (timer_inv_later h os s Hi Hos) as [Ht Hl Hd Hw].
  unfold timer_stop, timer_now. rewrite Hs, (timer_now_ok os) by (done || lia).
  cbn [res_bind ts_vmtime]. eexists. split; [reflexivity|]. split; [|done].
  pose proof (time_ok_vm _ _ Ht) as [Hv _]. constructor.
  - split; [apply Ht|]. exact Hv.
  - exact Hl.
  - intros n Hn. destruct (Hd n Hn) as (? & dl & ? & Hdl). split; [done|]. exists dl. split; [done|].
    cbn [due]. etrans; [exact Hdl|]. change (due os (time s) n <= os + Z.max 0 (n - vm_at os (time s)) * 100).
    unfold time_ok in Ht. destruct (time s) as [t|st]; [done|]. cbn [due vm_at]. div_lia.
  - intros i w Hiw t Htt. destruct (Hw i w Hiw t Htt) as [? _]. by split.
Qed.

Lemma wake_all_ok i ws :
  exists log, wake_all i ws = (fmap (M:=option) (fun w => w <| waker := false |>) <$> ws, log).
Proof.
  revert i. induction ws as [|[w|] ws IH]; intros i; cbn [wake_all]; [by eexists| |].
  - destruct (IH (S i)) as [log ->]. unfold take_wake. destruct w as [n []]; by eexists.
  - destruct (IH (S i)) as [log ->]. by eexists.
Qed.

Lemma timer_reset_ok {E} h s t :
  timer_inv h s -> is_started (time s) = false -> 0 <= t <= 2 ^ 54 ->
  exists s', timer_reset (E:=E) t s = Ok s' /\ timer_inv h s' /\
    slots_woken (waiters s) (waiters s').
Proof.
  intros Hi Hs Ht. destruct (timer_inv_pre h s Hi) as [[Hh _] _ _ Hw].
  unfold timer_reset. rewrite Hs. cbn [negb].
  set (s1 := set_field _ _). change (waiters s1) with (waiters s).
  destruct (wake_all_ok 0 (waiters s)) as [log ->]. eexists. split; [reflexivity|]. split.
  - constructor; [|split; [apply Ht|done]|done|].
    + split; [done|]. change (0 <= t <= 2 ^ 54 + h / 100). div_lia.
    + intros i w Hiw u Hu. split; [|intros _ [=]].
      apply list_lookup_fmap_Some in Hiw as ([v|] & [= ->] & Hv). by apply (Hw i v).
  - apply slots_woken_fmap; [|done]. intros w. eexists. split; [reflexivity|]. by split.
Qed.

(** ** Operations on one waiter *)

Lemma slab_get_ok {E} ws i w : ws !! i = Some (Some w) -> slab_get (E:=E) ws i = Ok w.
Proof. intros H. unfold slab_get. by rewrite H. Qed.

Lemma slab_set_lookup s i w j v :
  waiters (slab_set i w s) !! j = Some (Some v) ->
  v = w \/ waiters s !! j = Some (Some v).
Proof.
  change (waiters (slab_set i w s)) with (<[i := Some w]> (waiters s)).
  rewrite list_lookup_insert_Some. naive_solver.
Qed.

Lemma slab_set_from h s i w t :
  timer_inv h s ->
  (forall u, waiter_next w = Some u -> target_ok u /\ (waker w = true -> covers s u \/ t <= u)) ->
  timer_inv_from h (slab_set i w s) t.
Proof.
  intros [Ht Hl Hd Hw] Hn. constructor; [done..|]. intros j v u Hj Hu.
  apply slab_set_lookup in Hj as [->|Hj]; [by apply Hn|].
  destruct (Hw j v Hj u Hu). split; [done|]. by left; auto.
Qed.

Lemma slab_set_inv h s i w :
  timer_inv h s -> waiter_ok s w -> timer_inv h (slab_set i w s).
Proof.
  intros [Ht Hl Hd Hw] Hok. constructor; [done..|]. intros j v Hj.
  apply slab_set_lookup in Hj as [->|Hj]; [done|by apply (Hw j)].
Qed.

Lemma timer_inv_log h s log : timer_inv h s -> timer_inv h (s <| woken := log |>).
Proof. intros [? ? ? ?]. by constructor. Qed.

Lemma timer_cancel_timeout_ok {E} h s i w :
  timer_inv h s -> waiters s !! i = Some (Some w) ->
  exists s', timer_cancel_timeout (E:=E) i s = Ok s' /\ timer_inv h s' /\ time s' = time s /\
    waiters s' = <[i := Some (w <| waiter_next := None |>)]> (waiters s).
Proof.
  intros Hi Hw. unfold timer_cancel_timeout. rewrite (slab_get_ok _ _ w Hw). cbn [res_bind].
  eexists. split; [reflexivity|]. split; [|done]. by apply slab_set_inv.
Qed.

Lemma update_timeout_ok {E} h s i w t :
  timer_inv h s -> waiters s !! i = Some (Some w) -> target_ok t ->
  exists s' w', update_timeout (E:=E) i t s = Ok s' /\ timer_inv h s' /\ time s' = time s /\
    waiters s' = <[i := Some w']> (waiters s) /\ waiter_next w' = Some t /\
    (waker w' = true -> waker w = true).
Proof.
  intros Hi Hw Ht. unfold update_timeout. rewrite (slab_get_ok _ _ w Hw). cbn [res_bind].
  set (w1 := set_field _ w). pose proof (time_ok_vm _ _ (inv_time _ _ Hi)) as [_ Hsm].
  pose proof (inv_last _ _ Hi) as Hlast.
  rewrite is_before_ltb by (eauto with word || unfold small in *; lia).
  destruct (Z.ltb_spec t (timer_last s)).
  - unfold take_wake. destruct (waker w1) eqn:Ek.
    all: eexists _, _; (split; [reflexivity|]); (split; [|split; [reflexivity|split; [reflexivity|by split; [|rewrite ?Ek]]]]).
    all: apply timer_inv_log, slab_set_inv; [done|]; intros u [= <-]; by rewrite ?Ek.
  - change (timer_next (slab_set i w1 s)) with (timer_next s).
    assert (timer_inv_from h (slab_set i w1 s) t) as Hfrom.
    { apply slab_set_from; [done|]. intros u [= <-]. split; [done|]. right. lia. }
    destruct (is_some_and _ (timer_next s)) eqn:En.
    + exists (slab_set i w1 s), w1. split; [done|]. split; [|done]. apply slab_set_inv; [done|].
      intros u [= <-]. split; [done|]. intros _ _.
      destruct (timer_next s) as [n|] eqn:Hn; [|done]. cbn in En. exists n. split; [done|].
      rewrite is_before_ltb in En by eauto using deadline_target, inv_deadline with word.
      apply Z.ltb_lt in En. lia.
    + destruct (set_next_inv (E:=E) h _ t Hfrom Ht) as (s' & -> & (Hst & Hsw & _) & Hi').
      exists s', w1. by rewrite Hst, Hsw.
Qed.

(** The VM time at any reading of the host clock. *)
Definition reading (ts : TimeState) (os : Z) : Z :=
  match ts with
  | Stopped t => t
  | Started st => if ts_os_time st <=? os then vm_at os ts else ts_vmtime st
  end.

Lemma timer_now_reading {E} h ts os :
  time_ok h ts -> 0 <= os < 2 ^ 62 ->
  exists now, timestate_now (E:=E) ts os = Ok now /\ ts_vmtime now = reading ts os /\
    small (ts_vmtime now).
Proof.
  intros Ht Hos. destruct ts as [t|st]; cbn [timestate_now reading].
  { eexists. split; [reflexivity|]. split; [done|]. apply (time_ok_vm _ _ Ht). }
  destruct (Z.leb_spec (ts_os_time st) os).
  - destruct Ht as [Hh Ht]. assert (time_ok os (Started st)) as Ht' by (unfold time_ok; lia).
    pose proof (timer_now_ok (E:=E) os _ os Ht' ltac:(lia)) as He. cbn [timestate_now] in He.
    destruct (Z.leb_spec (ts_os_time st) os); [|lia]. rewrite He.
    eexists. split; [reflexivity|]. split; [done|]. apply (time_ok_vm _ _ Ht').
  - eexists. split; [reflexivity|]. split; [done|].
    pose proof (proj1 Ht). destruct (proj2 Ht). unfold small. div_lia.
Qed.

Lemma timer_poll_timeout_ok {E} h s i w os next :
  timer_inv h s -> waiters s !! i = Some (Some w) -> 0 <= os < 2 ^ 62 ->
  (forall t, next = Some t -> target_ok t) ->
  exists s' w' r, timer_poll_timeout (E:=E) i os next s = Ok (s', r) /\ timer_inv h s' /\
    time s' = time s /\
    waiters s' = <[i := Some w']> (waiters s) /\
    match r with
    | Some now => ts_vmtime now = reading (time s) os /\ waiter_next w' = None /\ waker w' = false /\
        exists t, next = Some t /\ t < ts_vmtime now
    | None => waiter_next w' = next /\ waker w' = true /\
        forall t, next = Some t -> reading (time s) os <= t
    end.
Proof.
  intros Hi Hw Hos Hn. unfold timer_poll_timeout, timer_now.
  destruct (timer_now_reading (E:=E) h (time s) os (inv_time _ _ Hi) Hos) as (now & -> & Hr & Hsm).
  cbn [res_bind]. rewrite (slab_get_ok _ _ w Hw). cbn [res_bind].
  destruct next as [t|]; cbn [is_some_and].
  2: { eexists _, _, None. split; [reflexivity|]. split; [|split; [done|split; [reflexivity|done]]].
       apply slab_set_inv; [done|]. by intros u [=]. }
  pose proof (Hn t eq_refl) as Ht. rewrite is_before_ltb by eauto with word.
  destruct (Z.ltb_spec t (ts_vmtime now)).
  - eexists _, _, (Some now). split; [reflexivity|]. split; [|split; [done|split; [reflexivity|by split_and!; [..|exists t]]]].
    apply slab_set_inv; [done|]. by intros u [=].
  - set (w1 := set_field _ (set_field _ w)).
    destruct (set_next_inv (E:=E) h (slab_set i w1 s) t) as (s' & -> & (Hst & Hsw & _) & Hi').
    { apply slab_set_from; [done|]. intros u [= <-]. split; [done|]. right. lia. }
    { done. }
    eexists s', w1, None. rewrite Hst, Hsw. do 6 (split; [done|]). intros u [= <-]. lia.
Qed.

(** ** The timer task *)

#[global] Instance perhaps_woken_refl : Reflexive perhaps_woken.
Proof. by split. Qed.

#[global] Instance perhaps_woken_trans : Transitive perhaps_woken.
Proof. intros w1 w2 w3 [H1 H2] [H3 H4]. split; [by rewrite H3|auto]. Qed.

#[global] Instance slots_woken_preorder : PreOrder slots_woken.
Proof. unfold slots_woken. split; apply _. Qed.

Lemma polls_end_bounds h polls :
  polls_ok h polls -> h < 2 ^ 62 -> h <= polls_end h polls < 2 ^ 62.
Proof.
  revert h. induction polls as [|[r [now|]] polls IH]; cbn; intros h Hp Hh; [lia| |].
  - destruct Hp as (? & ? & Hp). specialize (IH now Hp). lia.
  - destruct Hp as (? & Hp). specialize (IH r Hp). lia.
Qed.

(** The long deadline of an idle timer. *)
Lemma idle_deadline_inv h s d :
  timer_inv h s -> timer_next s = None -> timer_inv h (s <| deadline := Some d |>).
Proof.
  intros [? ? Hd Hw] Hn. constructor; [done..| |done].
  intros n Hn'. change (timer_next s = Some n) in Hn'. congruence.
Qed.

Lemma poll_deadline_ok {E} h s r :
  timer_inv h s -> h <= r < 2 ^ 62 ->
  exists s1, poll_deadline (E:=E) r s = Ok s1 /\ timer_inv h s1 /\ waiters s1 = waiters s /\
    time s1 = time s.
Proof.
  intros Hi Hr. unfold poll_deadline. destruct (timer_next s) eqn:En; [by exists s|].
  unfold instant_add. destruct (Z.ltb_spec (86400 * 1000000000) (2 ^ 64)); [|lia].
  rewrite uadd_ok by (pose proof (proj1 (inv_time _ _ Hi)); lia). cbn [res_bind].
  eexists. split; [reflexivity|]. split; [by apply idle_deadline_inv|done].
Qed.

Lemma clear_next_pre h s : timer_inv h s -> timer_pre h (s <| timer_next := None |>).
Proof. intros Hi. destruct (timer_inv_pre h s Hi). by constructor. Qed.

Lemma timer_poll_ok {E} h polls s :
  timer_inv h s -> polls_ok h polls ->
  exists s', timer_poll (E:=E) polls s = Ok s' /\ timer_inv (polls_end h polls) s' /\
    slots_woken (waiters s) (waiters s').
Proof.
  revert h s. induction polls as [|[r ready] polls IH]; intros h s Hi Hp.
  { by exists s. }
  pose proof (polls_end_bounds h _ Hp (proj2 (proj1 (inv_time _ _ Hi)))) as Hend.
  cbn [timer_poll]. destruct (is_started (time s)) eqn:Est.
  2: { exists s. split; [done|]. split; [by eapply timer_inv_later|reflexivity]. }
  assert (h <= r < 2 ^ 62) as Hr by (destruct ready; cbn in Hp; lia).
  destruct (poll_deadline_ok (E:=E) h s r Hi Hr) as (s1 & -> & Hi1 & <- & _).
  cbn [res_bind]. destruct ready as [now|].
  2: { exists s1. split; [done|]. split; [by eapply timer_inv_later|reflexivity]. }
  destruct Hp as (_ & Hnow & Hp). set (s2 := set_field _ s1).
  assert (timer_pre now s2) as Hpre.
  { apply (timer_pre_later h); [|lia]. by apply clear_next_pre. }
  unfold timer_now. rewrite (timer_now_ok now) by (apply Hpre || lia). cbn [res_bind].
  destruct (wake_ok (E:=E) now s2 Hpre) as (s3 & -> & Hi3 & _ & Hws & _). cbn [res_bind].
  destruct (IH now s3 Hi3 Hp) as (s' & He & Hi' & Hsw). exists s'.
  split; [done|]. split; [done|]. rewrite Hws in Hsw. etrans; [|exact Hsw]. apply (wake_slots_woken _ (waiters s1)).
Qed.

(** * Accessors *)

Lemma slots_woken_back ws ws' i w' :
  slots_woken ws ws' -> ws' !! i = Some (Some w') ->
  exists w, ws !! i = Some (Some w) /\ perhaps_woken w w'.
Proof.
  intros Hs Hi. destruct (Forall2_lookup_r _ _ _ _ _ Hs Hi) as (o & Ho & Hw).
  inversion Hw; subst; eauto.
Qed.

Lemma slots_woken_fwd ws ws' i w :
  slots_woken ws ws' -> ws !! i = Some (Some w) ->
  exists w', ws' !! i = Some (Some w') /\ perhaps_woken w w'.
Proof.
  intros Hs Hi. destruct (Forall2_lookup_l _ _ _ _ _ Hs Hi) as (o & Ho & Hw).
  inversion Hw; subst; eauto.
Qed.

Lemma clock_inv_woken c h s :
  clock_inv c -> timer_inv h s -> slots_woken (waiters (timer c)) (waiters s) ->
  clock_inv (mkClock s (accesses c) h).
Proof.
  intros [_ Ha Hs] Hi Hsw. constructor; cbn [timer accesses host]; [done| |].
  - intros i a Hia. destruct (Ha i a Hia) as (? & w & Hw & Hok & Hk & Hn). split; [done|].
    destruct (slots_woken_fwd _ _ _ _ Hsw Hw) as (w' & Hw' & Hnx & Hkx). exists w'. split; [done|].
    unfold access_ok. rewrite Hnx. by split_and!; auto.
  - intros i w' Hi'. destruct (slots_woken_back _ _ _ _ Hsw Hi') as (w & Hw & _). eauto.
Qed.

(** One accessor and the shared state after an operation of the accessor. *)
Definition accessor_step (h : Z) (a : VmTimeAccess) (s : TimerState) (a' : VmTimeAccess)
    (s' : TimerState) : Prop :=
  timer_inv h s' /\ time s' = time s /\ index a' = index a /\
  exists w', waiters s' = <[index a := Some w']> (waiters s) /\ access_ok a' w'.

Definition accessor_inv (h : Z) (a : VmTimeAccess) (s : TimerState) : Prop :=
  timer_inv h s /\ exists w, waiters s !! index a = Some (Some w) /\ access_ok a w.

Lemma accessor_step_inv h a s a' s' :
  accessor_inv h a s -> accessor_step h a s a' s' -> accessor_inv h a' s'.
Proof.
  intros (_ & w & Hw & _) (Hi & _ & Hidx & w' & Hws & Hok). split; [done|]. exists w'.
  rewrite Hidx, Hws. split; [|done]. apply list_lookup_insert_eq, (lookup_lt_Some _ _ _ Hw).
Qed.

(** An operation that leaves the shared state as it is. *)
Lemma accessor_step_local h a s a' w :
  timer_inv h s -> waiters s !! index a = Some (Some w) -> index a' = index a -> access_ok a' w ->
  accessor_step h a s a' s.
Proof. intros ? Hw ? ?. split_and!; [done..|]. exists w. by rewrite list_insert_id. Qed.

Lemma set_timeout_ok {E} h a s t :
  accessor_inv h a s -> target_ok t ->
  exists a' s', set_timeout (E:=E) t a s = Ok (a', s') /\ timeout a' = Some t /\
    accessor_step h a s a' s'.
Proof.
  intros (Hi & w & Hw & Hok & Hk & Hn) Ht. unfold set_timeout. set (a1 := set_field _ a).
  change (waiting a1) with (waiting a). change (index a1) with (index a).
  destruct (waiting a) eqn:Ewait.
  - destruct (update_timeout_ok (E:=E) h s (index a) w t Hi Hw Ht) as (s' & w' & -> & Hi' & Hst & Hws & Hnx & Hkx).
    exists a1, s'. split; [done|]. split; [done|]. do 3 (split; [done|]). exists w'. split; [done|].
    split_and!; [by intros u [= <-]|done|done].
  - exists a1, s. split; [done|]. split; [done|].
    apply (accessor_step_local h a s a1 w); [done..|].
    split_and!; [by intros u [= <-]|intros H; by apply Hk in H|].
    intros H. change (waiting a = true) in H. congruence.
Qed.

Lemma set_timeout_if_before_ok {E} h a s t :
  accessor_inv h a s -> target_ok t ->
  exists a' s', set_timeout_if_before (E:=E) t a s = Ok (a', s') /\ accessor_step h a s a' s' /\
    (exists u, timeout a' = Some u /\ u <= t) /\
    (forall u, timeout a = Some u -> exists v, timeout a' = Some v /\ v <= u).
Proof.
  intros Ha Ht. unfold set_timeout_if_before.
  destruct (timeout a) as [u|] eqn:Eu; cbn [is_none_or].
  - pose proof Ha as (_ & w & _ & Hok & _). rewrite is_before_ltb by eauto with word.
    destruct (Z.ltb_spec t u).
    + destruct (set_timeout_ok (E:=E) h a s t Ha Ht) as (a' & s' & -> & Hto & Hs).
      exists a', s'. rewrite Hto. split_and!; [done..| |]; naive_solver eauto with lia.
    + pose proof Ha as (Hi & v & Hw & Hacc). exists a, s. rewrite Eu.
      split; [done|]. split; [by eapply accessor_step_local|]. naive_solver eauto with lia.
  - destruct (set_timeout_ok (E:=E) h a s t Ha Ht) as (a' & s' & -> & Hto & Hs).
    exists a', s'. rewrite Hto. split_and!; [done..| |]; naive_solver eauto with lia.
Qed.

Lemma cancel_timeout_ok {E} h a s :
  accessor_inv h a s ->
  exists a' s', cancel_timeout (E:=E) a s = Ok (a', s') /\ timeout a' = None /\
    accessor_step h a s a' s'.
Proof.
  intros (Hi & w & Hw & Hok & Hk & Hn). unfold cancel_timeout.
  destruct (waiting a) eqn:Ewait; [destruct (timeout a) as [t|] eqn:Et|]; cbn [andb].
  - destruct (timer_cancel_timeout_ok (E:=E) h s (index a) w Hi Hw) as (s' & -> & Hi' & Hst & Hws).
    cbn [res_bind]. eexists _, s'. split; [reflexivity|]. do 4 (split; [done|]).
    eexists. split; [exact Hws|]. by split_and!.
  - eexists _, _. split; [reflexivity|]. split; [done|].
    apply (accessor_step_local _ _ _ _ w); [done..|]. split_and!; [done|done|]. intros _. by rewrite Hn.
  - eexists _, _. split; [reflexivity|]. split; [done|].
    apply (accessor_step_local _ _ _ _ w); [done..|].
    split_and!; [done|intros H; by apply Hk in H|].
    intros H. change (waiting a = true) in H. congruence.
Qed.

Lemma poll_timeout_ok {E} h a s os :
  accessor_inv h a s -> 0 <= os < 2 ^ 62 ->
  exists a' s' r, poll_timeout (E:=E) os a s = Ok (a', s', r) /\ accessor_step h a s a' s' /\
    match r with
    | Some now => timeout a' = None /\ now = reading (time s) os /\
        exists t, timeout a = Some t /\ t < now
    | None => timeout a' = timeout a /\
        forall t, timeout a = Some t -> reading (time s) os <= t
    end.
Proof.
  intros (Hi & w & Hw & Hok & Hk & Hn) Hos. unfold poll_timeout.
  destruct (timer_poll_timeout_ok (E:=E) h s (index a) w os (timeout a) Hi Hw Hos Hok)
    as (s' & w' & r & -> & Hi' & Hst & Hws & Hr). cbn [res_bind]. destruct r as [now|].
  - destruct Hr as (Hnow & Hnx & Hkx & Ht). eexists _, s', _. split; [reflexivity|]. split; [|by split].
    do 3 (split; [done|]). exists w'. split; [done|]. split_and!; [done|by rewrite Hkx|done].
  - destruct Hr as (Hnx & Hkx & Hle). eexists _, s', _. split; [reflexivity|]. split; [|done].
    do 3 (split; [done|]). exists w'. split; [done|]. by split_and!.
Qed.

Lemma clock_inv_step c k a a' s :
  clock_inv c -> accesses c !! k = Some a -> accessor_step (host c) a (timer c) a' s ->
  clock_inv (mkClock s (<[k := a']> (accesses c)) (host c)).
Proof.
  intros [_ Ha Hs] Hk (Hi & _ & Hidx & w' & Hws & Hok).
  destruct (Ha k a Hk) as (<- & w & Hw & _). constructor; cbn [timer accesses host]; [done| |].
  - intros i b. rewrite Hws, lookup_insert_Some. intros [[<- <-]|[Hne Hb]].
    + split; [done|]. exists w'. split; [|done].
      apply list_lookup_insert_eq, (lookup_lt_Some _ _ _ Hw).
    + rewrite list_lookup_insert_ne by done. by apply Ha.
  - intros i v. rewrite Hws. destruct (decide (index a = i)) as [<-|Hne].
    + rewrite lookup_insert_eq. by eexists.
    + rewrite list_lookup_insert_ne, lookup_insert_ne by done. apply Hs.
Qed.

(** The accessor of slot [k]. *)
Lemma clock_access c k :
  clock_inv c -> is_Some (accesses c !! k) ->
  exists a, accesses c !! k = Some a /\ index a = k /\ accessor_inv (host c) a (timer c).
Proof.
  intros Hc [a Ha]. destruct (inv_accesses _ Hc k a Ha) as (<- & w & ? & ?).
  exists a. split; [done|]. split; [done|]. split; [apply Hc|eauto].
Qed.

Lemma on_access_ok {E} c k f :
  clock_inv c -> is_Some (accesses c !! k) ->
  (forall a, accessor_inv (host c) a (timer c) -> exists a' s',
     f a (timer c) = Ok (E:=E) (a', s') /\ accessor_step (host c) a (timer c) a' s') ->
  exists c', on_access c k f = Ok c' /\ clock_inv c'.
Proof.
  intros Hc Hk Hf. destruct (clock_access c k Hc Hk) as (a & Ha & _ & Hinv).
  destruct (Hf a Hinv) as (a' & s' & He & Hs). unfold on_access. rewrite Ha. cbn [unwrap res_bind].
  rewrite He. eexists. split; [reflexivity|]. by eapply clock_inv_step.
Qed.

Lemma source_access_inv c key :
  clock_inv c -> waiters (timer c) !! key = Some None \/ key = length (waiters (timer c)) ->
  let '(a, s) := source_access key (timer c) in
  clock_inv (mkClock s (<[key := a]> (accesses c)) (host c)).
Proof.
  intros Hc Hkey. unfold source_access. set (s := if (_ <? _)%nat then _ else _).
  assert (time s = time (timer c) /\ timer_last s = timer_last (timer c) /\
    timer_next s = timer_next (timer c) /\ deadline s = deadline (timer c)) as (H1 & H2 & H3 & H4).
  { unfold s. by destruct (_ <? _)%nat. }
  assert (forall i, waiters s !! i = if decide (i = key) then Some (Some waiter_new)
    else waiters (timer c) !! i) as Hlook.
  { intros i. unfold s. destruct (Nat.ltb_spec key (length (waiters (timer c)))) as [Hlt|Hge].
    - change (waiters (slab_set _ _ _)) with (<[key := Some waiter_new]> (waiters (timer c))).
      destruct (decide (i = key)) as [->|]; [by apply list_lookup_insert_eq|by apply list_lookup_insert_ne].
    - destruct Hkey as [Hk| ->]; [apply lookup_lt_Some in Hk; lia|].
      change (waiters (set_field _ _)) with (waiters (timer c) ++ [Some waiter_new]).
      destruct (decide (i = _)) as [->|Hne]; [by apply list_lookup_middle|].
      destruct (decide (i < length (waiters (timer c)))%nat).
      + by apply lookup_app_l.
      + rewrite !lookup_ge_None_2; [done|lia|rewrite length_app; cbn; lia]. }
  destruct Hc as [[Ht Hl Hd Hw] Ha Hs]. constructor; cbn [timer accesses host].
  - constructor; [by rewrite H1|by rewrite H1, H2|unfold deadline_ok; by rewrite H1, H3, H4|].
    intros i w. rewrite Hlook. unfold waiter_ok, covers. rewrite H1, H3.
    destruct (decide (i = key)); [by intros [= <-]|apply Hw].
  - intros i a. rewrite lookup_insert_Some, Hlook. intros [[<- <-]|[Hne Hia]].
    + rewrite decide_True by done. by split; [|exists waiter_new].
    + rewrite decide_False by done. by apply Ha.
  - intros i w. rewrite Hlook. destruct (decide (i = key)) as [->|Hne].
    + rewrite lookup_insert_eq. by eexists.
    + rewrite lookup_insert_ne by done. apply Hs.
Qed.

Lemma access_drop_inv {E} c k a :
  clock_inv c -> accesses c !! k = Some a ->
  exists s, access_drop (E:=E) a (timer c) = Ok s /\
    clock_inv (mkClock s (delete k (accesses c)) (host c)).
Proof.
  intros [[Ht Hl Hd Hwt] Ha Hs] Hk. destruct (Ha k a Hk) as (Hidx & w & Hw & _). unfold access_drop.
  rewrite Hidx, (slab_get_ok _ _ w Hw). cbn [res_bind]. eexists. split; [reflexivity|].
  assert (forall i v, <[k := None]> (waiters (timer c)) !! i = Some (Some v) <->
    i <> k /\ waiters (timer c) !! i = Some (Some v)) as Hlook.
  { intros i v. rewrite list_lookup_insert_Some. naive_solver. }
  constructor; cbn [timer accesses host].
  - constructor; [done..|]. intros i v. change (waiters (set_field _ _)) with (<[k := None]> (waiters (timer c))).
    rewrite Hlook. intros [_ Hi]. by apply (Hwt i).
  - intros i b. rewrite lookup_delete_Some. intros [Hne Hb].
    destruct (Ha i b Hb) as (? & v & Hv & ?). split; [done|]. exists v. split; [|done].
    change (waiters (set_field _ _)) with (<[k := None]> (waiters (timer c))). by rewrite Hlook.
  - intros i v. change (waiters (set_field _ _)) with (<[k := None]> (waiters (timer c))).
    rewrite Hlook. intros [Hne Hv]. rewrite lookup_delete_ne by done. by eapply Hs.
Qed.

(** * What a device may rely on *)

(** The contract of [TimeAccess]: [ta_reading c os] is the VM time at the host
    reading [os], [ta_timeout c] the timeout that is set. No operation of an
    accessor changes the readings. *)
Class TimeAccessLaws (C : Type) `{TimeAccess C} : Type := {
  ta_inv : C -> Prop;
  ta_reading : C -> Z -> Z;
  ta_timeout : C -> option Z;
  ta_now_ok : forall {E} os c, ta_inv c -> 0 <= os < 2 ^ 62 ->
    ta_now (E:=E) os c = Ok (ta_reading c os) /\ 0 <= ta_reading c os < 2 ^ 56 - 2 ^ 40;
  ta_set_ok : forall {E} t c, ta_inv c -> target_ok t ->
    exists c', ta_set_timeout_if_before (E:=E) t c = Ok c' /\ ta_inv c' /\
      ta_reading c' = ta_reading c /\
      (exists u, ta_timeout c' = Some u /\ u <= t) /\
      (forall u, ta_timeout c = Some u -> exists v, ta_timeout c' = Some v /\ v <= u);
  ta_poll_ok : forall {E} os c, ta_inv c -> 0 <= os < 2 ^ 62 ->
    exists c' r, ta_poll_timeout (E:=E) os c = Ok (c', r) /\ ta_inv c' /\
      ta_reading c' = ta_reading c /\
      match r with
      | Some now => ta_timeout c' = None /\ now = ta_reading c os /\
          exists t, ta_timeout c = Some t /\ t < now
      | None => ta_timeout c' = ta_timeout c /\
          forall t, ta_timeout c = Some t -> ta_reading c os <= t
      end;
}.

Lemma reading_bound h ts os :
  time_ok h ts -> 0 <= os < 2 ^ 62 -> 0 <= reading ts os < 2 ^ 56 - 2 ^ 40.
Proof.
  intros [Hh Ht] Hos. destruct ts as [t|st]; cbn [reading vm_at]; [div_lia|].
  destruct (Z.leb_spec (ts_os_time st) os); div_lia.
Qed.

#[global] Instance accessor_laws : TimeAccessLaws (VmTimeAccess * TimerState).
Proof.
  refine {|
    ta_inv := fun c : VmTimeAccess * TimerState => exists h, accessor_inv h c.1 c.2;
    ta_reading := fun c os => reading (time c.2) os;
    ta_timeout := fun c => timeout c.1;
  |}.
  - intros E os [a s] [h [Hi _]] Hos. cbn [ta_now accessor_time_access fst snd].
    destruct (timer_now_reading (E:=E) h (time s) os (inv_time _ _ Hi) Hos) as (now & Hnow & Hv & _).
    unfold access_now, timer_now. rewrite Hnow. cbn [res_bind]. rewrite Hv.
    split; [done|]. by apply (reading_bound h), Hos; apply Hi.
  - intros E t [a s] [h Ha] Ht. cbn [ta_set_timeout_if_before accessor_time_access fst snd] in *.
    destruct (set_timeout_if_before_ok (E:=E) h a s t Ha Ht) as (a' & s' & -> & Hs & ? & ?).
    exists (a', s'). cbn [fst snd]. split; [done|].
    split; [exists h; by apply (accessor_step_inv h a s)|]. split; [|done].
    destruct Hs as (_ & -> & _). done.
  - intros E os [a s] [h Ha] Hos. cbn [ta_poll_timeout accessor_time_access fst snd] in *.
    destruct (poll_timeout_ok (E:=E) h a s os Ha Hos) as (a' & s' & r & -> & Hs & Hr).
    exists (a', s'), r. cbn [fst snd]. split; [done|].
    split; [exists h; by apply (accessor_step_inv h a s)|].
    split; [destruct Hs as (_ & -> & _); done|done].
Defined.

(** * Every operation keeps the invariant *)

Lemma clock_exec_ok {E} op c :
  clock_inv c -> clock_op_ok op c -> exists c', clock_exec (E:=E) op c = Ok c' /\ clock_inv c'.
Proof.
  intros Hc. destruct op as [os|os|t|polls|key|k|k t|k t|k|k os]; cbn [clock_op_ok clock_exec].
  - intros [Hs Hos]. destruct (time (timer c)) as [t|] eqn:Et; [|done]. cbn [stop_time unwrap res_bind].
    destruct (timer_start_ok (E:=E) (host c) (timer c) t os (inv_timer _ Hc) Et Hos) as (s & -> & Hi & Hsw).
    eexists. split; [reflexivity|]. by apply clock_inv_woken.
  - intros [Hs Hos]. destruct (timer_stop_ok (E:=E) (host c) (timer c) os (inv_timer _ Hc) Hs Hos) as (s & -> & Hi & Hws).
    eexists. split; [reflexivity|]. apply clock_inv_woken; [done..|]. cbn [fst]. by rewrite Hws.
  - intros [Hs Ht]. destruct (timer_reset_ok (E:=E) (host c) (timer c) t (inv_timer _ Hc) Hs Ht) as (s & -> & Hi & Hsw).
    eexists. split; [reflexivity|]. by apply clock_inv_woken.
  - intros Hp. destruct (timer_poll_ok (E:=E) (host c) polls (timer c) (inv_timer _ Hc) Hp) as (s & -> & Hi & Hsw).
    eexists. split; [reflexivity|]. by apply clock_inv_woken.
  - intros Hkey. pose proof (source_access_inv c key Hc Hkey) as H.
    destruct (source_access key (timer c)) as [a s]. by eexists.
  - intros [a Ha]. rewrite Ha. cbn [unwrap res_bind].
    destruct (access_drop_inv (E:=E) c k a Hc Ha) as (s & -> & ?). by eexists.
  - intros [Hk Ht]. apply on_access_ok; [done..|]. intros a Ha.
    destruct (set_timeout_ok (E:=E) _ _ _ t Ha Ht) as (a' & s & ? & _ & ?). eauto.
  - intros [Hk Ht]. apply on_access_ok; [done..|]. intros a Ha.
    destruct (set_timeout_if_before_ok (E:=E) _ _ _ t Ha Ht) as (a' & s & ? & ? & _). eauto.
  - intros Hk. apply on_access_ok; [done..|]. intros a Ha.
    destruct (cancel_timeout_ok (E:=E) _ _ _ Ha) as (a' & s & ? & _ & ?). eauto.
  - intros [Hk Hos]. apply on_access_ok; [done..|]. intros a Ha.
    destruct (poll_timeout_ok (E:=E) _ _ _ os Ha Hos) as (a' & s & r & -> & ? & _). cbn. eauto.
Qed.

Lemma clock_reachable_inv c : clock_reachable c -> clock_inv c.
Proof.
  induction 1 as [uptime os Hu Hos|op c c' _ Hc Hop He].
  - constructor; [constructor|done|done]; cbn; [|lia|done|done].
    unfold time_ok. div_lia.
  - destruct (clock_exec_ok (E:=void) op c Hc Hop) as (c'' & He' & Hc'). congruence.
Qed.

(** * Properties *)

(** VM time never panics. In a reachable state of a time source every
    operation of the keeper, the timer task and the accessors that respects
    its caller's contract returns: the assertions that time does not run
    backward and that the clock is started or stopped hold, no waiter slot is
    vacant and no host time overflows. *)
Theorem vmtime_never_panics (c : Clock) (op : ClockOp) :
  clock_reachable c -> clock_op_ok op c -> exists c', clock_exec (E:=void) op c = Ok c'.
Proof.
  intros Hc%clock_reachable_inv Hop. destruct (clock_exec_ok (E:=void) op c Hc Hop) as (c' & ? & _). eauto.
Qed.

(** C4: no wakeup is lost. While the clock runs, if the task of an accessor is
    registered to be woken at [t], then the host timer is armed with a deadline
    no later than the host time at which VM time reaches [t]. *)
Theorem no_lost_wakeup (c : Clock) (k : nat) (a : VmTimeAccess) (w : WaiterState) (st : Timestamp) (t : Z) :
  clock_reachable c -> time (timer c) = Started st ->
  accesses c !! k = Some a -> waiters (timer c) !! index a = Some (Some w) -> waker w = true ->
  timeout a = Some t ->
  exists n dl, timer_next (timer c) = Some n /\ n <= t /\ deadline (timer c) = Some dl /\
    host_time (E:=void) t (timer c) = Ok (Some (ts_os_time st + Z.max 0 (t - ts_vmtime st) * 100)) /\
    dl <= ts_os_time st + Z.max 0 (t - ts_vmtime st) * 100.
Proof.
  intros Hc%clock_reachable_inv Hst Ha Hw Hk Ht.
  destruct (inv_accesses _ Hc k a Ha) as (Hidx & w' & Hw' & Hok & Hwt & Hn).
  rewrite Hidx, Hw' in Hw. injection Hw as ->.
  pose proof (inv_timer _ Hc) as [Hti _ Hd Hws].
  assert (waiter_next w = Some t) as Hnx by (rewrite Hn by auto; done).
  destruct (Hws k w Hw' t Hnx) as [Htt Hcov].
  destruct (Hcov Hk) as (n & Hnn & Hle); [by rewrite Hst|].
  destruct (Hd n Hnn) as (_ & dl & Hdl & Hdue). exists n, dl. split_and!; [done..| |].
  - unfold host_time. rewrite (timestamp_ok (host c) _ st) by done. cbn. by rewrite Hst.
  - rewrite Hst in Hdue. cbn [due] in Hdue. lia.
Qed.

(** An expired waiter is woken. When the host timer fires at a reading
    [now] at which VM time has reached the timeout of a registered accessor,
    the timer task wakes the accessor's task. *)
Theorem expired_waiter_woken (c c' : Clock) (k : nat) (a : VmTimeAccess) (w : WaiterState) (r now t v : Z) :
  clock_reachable c -> is_started (time (timer c)) = true ->
  accesses c !! k = Some a -> waiters (timer c) !! index a = Some (Some w) -> waker w = true ->
  timeout a = Some t -> host c <= r <= now -> now < 2 ^ 62 ->
  access_now (E:=void) (timer c) now = Ok v -> t <= v ->
  clock_exec (E:=void) (OpPoll [(r, Some now)]) c = Ok c' ->
  In k (woken (timer c')).
Proof.
  intros Hc%clock_reachable_inv Hst Ha Hw Hk Ht Hr Hnow Hv Hle.
  destruct (inv_accesses _ Hc k a Ha) as (Hidx & w' & Hw' & Hok & Hwt & Hn).
  rewrite Hidx, Hw' in Hw. injection Hw as ->. pose proof (inv_timer _ Hc) as Hi.
  cbn [clock_exec timer_poll]. rewrite Hst.
  destruct (poll_deadline_ok (E:=void) (host c) (timer c) r Hi) as (s1 & -> & Hi1 & Hws1 & Ht1); [lia|].
  cbn [res_bind]. set (s2 := set_field _ s1).
  assert (timer_pre now s2) as Hpre.
  { apply (timer_pre_later (host c)); [|lia]. by apply clear_next_pre. }
  unfold access_now, timer_now in *. rewrite (timer_now_ok (host c)) in Hv by (apply Hi || lia).
  injection Hv as <-. rewrite (timer_now_ok now) by (apply Hpre || lia). cbn [res_bind ts_vmtime] in *.
  destruct (wake_ok (E:=void) now s2 Hpre) as (s3 & -> & _ & _ & _ & Hwo). cbn [res_bind].
  intros [= <-]. cbn [timer]. apply (Hwo k w).
  - change (waiters s2) with (waiters s1). by rewrite Hws1.
  - unfold woken_slot. change (time s2) with (time s1). rewrite Ht1, Hk, Hn, Ht by auto.
    cbn. by apply Z.leb_le.
Qed.

(** Polling an accessor is exact. It returns ready if and only if the
    timeout is before the VM time of the reading; it then returns that time
    and clears the timeout. Otherwise the timeout stays as it is. *)
Theorem poll_timeout_exact (c : Clock) (k : nat) (a : VmTimeAccess) (os : Z) :
  clock_reachable c -> accesses c !! k = Some a -> 0 <= os < 2 ^ 62 ->
  exists a' s r v, poll_timeout (E:=void) os a (timer c) = Ok (a', s, r) /\
    access_now (E:=void) (timer c) os = Ok v /\
    match r with
    | Some now => now = v /\ timeout a' = None /\ exists t, timeout a = Some t /\ t < v
    | None => timeout a' = timeout a /\ forall t, timeout a = Some t -> v <= t
    end.
Proof.
  intros Hc%clock_reachable_inv Ha Hos.
  destruct (clock_access c k Hc) as (b & Hb & _ & Hinv); [by eexists|].
  rewrite Ha in Hb. injection Hb as <-.
  destruct (poll_timeout_ok (E:=void) _ _ _ os Hinv Hos) as (a' & s & r & He & _ & Hr).
  destruct (timer_now_reading (E:=void) (host c) (time (timer c)) os) as (now & Hnow & Hv & _);
    [apply Hc|done|]. exists a', s, r, (ts_vmtime now). split; [done|].
  split; [unfold access_now, timer_now; by rewrite Hnow|]. rewrite Hv.
  destruct r as [x|]; [destruct Hr as (? & -> & t & ? & ?)|done]. by split_and!; [..|exists t].
Qed.

(** Adding a duration and subtracting the start gives the duration back,
    rounded down to 100ns, and the sum is later than the start when the
    duration is at least 100ns, also where the 64-bit count wraps. *)
Theorem vmtime_add_sub (t d : Z) :
  is_u 64 t -> 0 <= d -> d / 100 < 2 ^ 63 ->
  checked_sub (vmtime_wrapping_add t d) t = Some (d / 100 * 100) /\
  is_after (vmtime_wrapping_add t d) t = (100 <=? d) /\
  is_before t (vmtime_wrapping_add t d) = (100 <=? d).
Proof.
  intros Ht Hd Hlt. assert (0 <= d / 100) as Hq by (apply Z.div_pos; lia).
  unfold checked_sub, is_after, is_before, vmtime_wrapping_add, wrapping_add, wrapping_sub, ucast.
  unfold is_u in Ht. rewrite (Z.mod_small _ (2 ^ 128)) by lia.
  assert (((t + d / 100) mod 2 ^ 64 - t) mod 2 ^ 64 = d / 100) as ->.
  { rewrite Zminus_mod_idemp_l. replace (t + d / 100 - t) with (d / 100) by lia. apply Z.mod_small. lia. }
  assert ((t - (t + d / 100) mod 2 ^ 64) mod 2 ^ 64 = (- (d / 100)) mod 2 ^ 64) as ->.
  { rewrite Zminus_mod_idemp_r. f_equal. lia. }
  unfold as_i64. destruct (Z.ltb_spec (d / 100) (2 ^ 63)); [|lia].
  destruct (Z.leb_spec 0 (d / 100)); [|lia]. rewrite duration_100ns by done. split; [done|].
  assert (forall b, (1 <=? d / 100) = b -> (100 <=? d) = b) as Hb.
  { intros b <-. destruct (Z.leb_spec 100 d), (Z.leb_spec 1 (d / 100)); (done || div_lia). }
  destruct (Z.eq_dec (d / 100) 0) as [E0|Hne].
  - rewrite E0. by rewrite (Hb false) by (by rewrite E0).
  - rewrite (Hb true) by (apply Z.leb_le; lia). split; [apply Z.ltb_lt; lia|].
    rewrite <-(Z_mod_plus_full _ 1), Z.mod_small by lia.
    destruct (Z.ltb_spec (- (d / 100) + 1 * 2 ^ 64) (2 ^ 63)); [lia|]. apply Z.ltb_lt. lia.
Qed.

Lemma vmtime_add_sub_witness :
  checked_sub (vmtime_wrapping_add (2 ^ 64 - 1) 838) (2 ^ 64 - 1) = Some 800.
Proof. apply (vmtime_add_sub (2 ^ 64 - 1) 838); [split; lia|lia|reflexivity]. Defined.

(** ** A running clock with one registered waiter *)

Definition idle_clock : Clock := mkClock (timer_new 7) ∅ 1000.

Definition example_ops : list ClockOp :=
  [OpAccess 0; OpStart 2000; OpSetTimeout 0 57; OpPollTimeout 0 2100].

Fixpoint clock_run {E} (ops : list ClockOp) (c : Clock) : res E Clock :=
  match ops with
  | [] => Ok c
  | op :: ops => let! c := clock_exec op c in clock_run ops c
  end.

(** A decision procedure for the contracts of [example_ops]. *)
Definition clock_op_okb (op : ClockOp) (c : Clock) : bool :=
  match op with
  | OpStart os => negb (is_started (time (timer c))) && (host c <=? os) && (os <? 2 ^ 62)
  | OpAccess key => Nat.eqb key (length (waiters (timer c)))
  | OpSetTimeout k t => (match accesses c !! k with Some _ => true | None => false end) && (0 <=? t) && (t <? 2 ^ 56)
  | OpPollTimeout k os => (match accesses c !! k with Some _ => true | None => false end) && (0 <=? os) && (os <? 2 ^ 62)
  | _ => false
  end.

Lemma clock_op_okb_ok op c : clock_op_okb op c = true -> clock_op_ok op c.
Proof.
  destruct op; cbn; try done; rewrite ?andb_true_iff, ?Z.leb_le, ?Z.ltb_lt, ?negb_true_iff; intros H.
  - intuition.
  - right. by apply Nat.eqb_eq.
  - destruct (accesses c !! k); [|by destruct H as [[? _] _]]. split; [by eexists|unfold target_ok; tauto].
  - destruct (accesses c !! k); [|by destruct H as [[? _] _]]. split; [by eexists|tauto].
Qed.

Fixpoint clock_ops_okb (ops : list ClockOp) (c : Clock) : bool :=
  match ops with
  | [] => true
  | op :: ops =>
      clock_op_okb op c &&
      match clock_exec (E:=void) op c with Ok c => clock_ops_okb ops c | _ => false end
  end.

Lemma clock_run_reachable ops c c' :
  clock_reachable c -> clock_ops_okb ops c = true -> clock_run (E:=void) ops c = Ok c' ->
  clock_reachable c'.
Proof.
  revert c. induction ops as [|op ops IH]; intros c Hc; cbn; [by intros _ [= <-]|].
  intros [Hop Hops]%andb_true_iff. destruct (clock_exec op c) as [c1| |] eqn:E1; try done. cbn.
  apply IH; [|done]. eapply clock_op; [done|by apply clock_op_okb_ok|done].
Qed.

Definition example_clock : Clock :=
  match clock_run (E:=void) example_ops idle_clock with Ok c => c | _ => idle_clock end.

Lemma example_clock_reachable : clock_reachable example_clock.
Proof.
  apply (clock_run_reachable example_ops idle_clock).
  - apply clock_init; lia.
  - by vm_compute.
  - by vm_compute.
Qed.

Definition example_access : VmTimeAccess := mkVmTimeAccess (Some 57) true 0.
Definition example_waiter : WaiterState := mkWaiterState (Some 57) true.

Lemma vmtime_never_panics_witness :
  exists c', clock_exec (E:=void) (OpStop 5000) example_clock = Ok c'.
Proof.
  apply (vmtime_never_panics example_clock (OpStop 5000) example_clock_reachable).
  vm_compute. done.
Defined.

Lemma no_lost_wakeup_witness :
  exists n dl, timer_next (timer example_clock) = Some n /\ n <= 57 /\
    deadline (timer example_clock) = Some dl /\
    host_time (E:=void) 57 (timer example_clock) = Ok (Some 7000) /\ dl <= 7000.
Proof.
  exact (no_lost_wakeup example_clock 0 example_access example_waiter (mkTimestamp 7 2000) 57
    example_clock_reachable eq_refl eq_refl eq_refl eq_refl eq_refl).
Defined.

Lemma expired_waiter_woken_witness :
  exists c', clock_exec (E:=void) (OpPoll [(7000, Some 7000)]) example_clock = Ok c' /\
    In 0%nat (woken (timer c')).
Proof.
  eexists. split; [vm_compute; reflexivity|].
  apply (expired_waiter_woken example_clock _ 0 example_access example_waiter 7000 7000 57 57
    example_clock_reachable eq_refl eq_refl eq_refl eq_refl eq_refl); done.
Defined.

Lemma poll_timeout_exact_witness :
  exists a' s r v, poll_timeout (E:=void) 7100 example_access (timer example_clock) = Ok (a', s, r) /\
    access_now (E:=void) (timer example_clock) 7100 = Ok v /\
    match r with
    | Some now => now = v /\ timeout a' = None /\ exists t, timeout example_access = Some t /\ t < v
    | None => timeout a' = timeout example_access /\
        forall t, timeout example_access = Some t -> v <= t
    end.
Proof.
  apply (poll_timeout_exact example_clock 0 example_access 7100 example_clock_reachable);
    [reflexivity|lia].
Defined.

(** The accessor as a source of time for a device. *)

Definition example_source : VmTimeAccess * TimerState := (example_access, timer example_clock).

Lemma example_source_inv : ta_inv example_source.
Proof.
  destruct (clock_access example_clock 0 (clock_reachable_inv _ example_clock_reachable)) as (a & Ha & _ & Hi).
  { by eexists. }
  exists (host example_clock). change (accesses example_clock !! 0%nat) with (Some example_access) in Ha.
  by injection Ha as <-.
Qed.
