(* ===== verification/Pit.v ===== *)
(** The 8254 programmable interval timer ([vm/devices/chipset/src/pit/mod.rs]).

    [Timer] is one of the three channels, [PitDevice] the device. The line
    interrupt of a channel is kept as the levels driven on it, the latest
    first. VM time is the interface [TimeAccess]; every operation that reads
    the clock takes the host reading as an argument. Tracing and inspection
    have no model. *)

From S2P Require Import Prelude ChipsetDevice VmTime.

Definition PIT_TIMER_RANGE_START : Z := 0x40.
Definition PIT_TIMER_RANGE_END : Z := 0x42.
Definition PIT_CONTROL_REGISTER : Z := 0x43.
Definition PIT_PORT61_REGISTER : Z := 0x61.

(** The bit fields of [ControlWord], [StatusWord] and [ReadBackCommand]. *)
Definition cw_bcd (c : Z) : bool := Z.testbit c 0.
Definition cw_mode (c : Z) : Z := Z.land (Z.shiftr c 1) 7.
Definition cw_rw (c : Z) : Z := Z.land (Z.shiftr c 4) 3.
Definition cw_select (c : Z) : Z := Z.land (Z.shiftr c 6) 3.
Definition cw_with_rw (c rw : Z) : Z := Z.lor (Z.ldiff c 0x30) (Z.shiftl (Z.land rw 3) 4).
Definition cw_with_select (c s : Z) : Z := Z.lor (Z.ldiff c 0xc0) (Z.shiftl (Z.land s 3) 6).

Definition sw_with_null (s : Z) (b : bool) : Z := Z.lor (Z.ldiff s 0x40) (Z.shiftl (b2z b) 6).
Definition sw_with_out (s : Z) (b : bool) : Z := Z.lor (Z.ldiff s 0x80) (Z.shiftl (b2z b) 7).

Definition rb_counter0 (c : Z) : bool := Z.testbit c 1.
Definition rb_counter1 (c : Z) : bool := Z.testbit c 2.
Definition rb_counter2 (c : Z) : bool := Z.testbit c 3.
Definition rb_status (c : Z) : bool := Z.testbit c 4.
Definition rb_count (c : Z) : bool := Z.testbit c 5.

Inductive CountState : Type :=
| Inactive
| WaitingForGate
| Reloading
| Active
| Counting.

#[global] Instance CountState_eq_dec : EqDecision CountState.
Proof. solve_decision. Defined.

Inductive Mode : Type :=
| TerminalCount
| HardwareOneShot
| RateGenerator
| SquareWave
| SoftwareStrobe
| HardwareStrobe.

#[global] Instance Mode_eq_dec : EqDecision Mode.
Proof. solve_decision. Defined.

Definition mode_from {E} (v : Z) : res E Mode :=
  match v with
  | 0 => Ok TerminalCount
  | 1 => Ok HardwareOneShot
  | 2 | 6 => Ok RateGenerator
  | 3 | 7 => Ok SquareWave
  | 4 => Ok SoftwareStrobe
  | 5 => Ok HardwareStrobe
  | _ => Panic
  end.

Definition gate_stops_count (m : Mode) : bool :=
  match m with
  | TerminalCount | RateGenerator | SquareWave | SoftwareStrobe => true
  | HardwareOneShot | HardwareStrobe => false
  end.

(** [RwMode]. *)
Definition RW_LOW : Z := 1.
Definition RW_HIGH : Z := 2.
Definition RW_LOW_HIGH : Z := 3.

Record TimerState : Type := mkTimerState {
  ce : Z;
  cr : Z;
  ol : option Z;
  sl : option Z;
  count_state : CountState;
  control : Z;
  out : bool;
  gate : bool;
  null : bool;
  read_high : bool;
  cr_low : option Z;
}.

#[global] Instance TimerState_settable : Settable TimerState := fun s =>
  mkTimerState (ce s) (cr s) (ol s) (sl s) (count_state s) (control s) (out s) (gate s) (null s)
    (read_high s) (cr_low s).

Record Timer : Type := mkTimer {
  enabled_at_reset : bool;
  interrupt : option (list bool);
  tstate : TimerState;
}.

#[global] Instance Timer_settable : Settable Timer := fun t =>
  mkTimer (enabled_at_reset t) (interrupt t) (tstate t).

(** The sums stay below [2^16], so 16-bit arithmetic computes them exactly. *)
Definition from_bcd (n : Z) : Z :=
  Z.land n 0xf + Z.shiftr (Z.land n 0xf0) 4 * 10 + Z.shiftr (Z.land n 0xf00) 8 * 100
    + Z.shiftr (Z.land n 0xf000) 12 * 1000.

Definition to_bcd (n : Z) : Z :=
  n mod 10 + Z.shiftl ((n / 10) mod 10) 4 + Z.shiftl ((n / 100) mod 10) 8
    + Z.shiftl ((n / 1000) mod 10) 12.

Definition counter_sub (ce n : Z) (bcd : bool) : Z :=
  if bcd
  then
    let ce := from_bcd ce in
    let n := ucast 16 (n mod 10000) in
    if n <=? ce then ce - n else 10000 - (n - ce)
  else wrapping_sub 16 ce (ucast 16 n).

Definition NANOS_PER_TICK : Z := 838.

(** * One channel *)

Definition state_new (enabled : bool) : TimerState :=
  mkTimerState 0 0 None None Inactive (cw_with_rw 0 1) false enabled true false None.

Definition op_mode {E} (s : TimerState) : res E Mode := mode_from (cw_mode (control s)).

Definition timer_new (enabled : bool) (line : option (list bool)) : Timer :=
  mkTimer enabled line (state_new enabled).

Definition sync_interrupt (t : Timer) : Timer :=
  match interrupt t with
  | Some levels => t <| interrupt := Some (out (tstate t) :: levels) |>
  | None => t
  end.

Definition timer_reset (t : Timer) : Timer :=
  sync_interrupt (t <| tstate := state_new (enabled_at_reset t) |>).

Definition set_out (o : bool) (t : Timer) : Timer :=
  if negb (Bool.eqb (out (tstate t)) o)
  then sync_interrupt (t <| tstate := tstate t <| out := o |> |>)
  else t.

Definition load_ce (t : Timer) : Timer :=
  t <| tstate := tstate t <| ce := cr (tstate t) |> <| null := false |> |>.

Definition put_ce (v : Z) (t : Timer) : Timer := t <| tstate := tstate t <| ce := v |> |>.

Definition put_state (c : CountState) (t : Timer) : Timer :=
  t <| tstate := tstate t <| count_state := c |> |>.

Definition set_ce (v : Z) (t : Timer) : Timer :=
  if cw_bcd (control (tstate t))
  then put_ce (to_bcd (ucast 16 (v mod 10000))) t
  else put_ce (ucast 16 v) t.

Definition periodic (m : Mode) : bool :=
  match m with RateGenerator | SquareWave => true | _ => false end.

(** The number of counts that the count register stands for. *)
Definition period_of (bcd : bool) (cr : Z) : Z :=
  let reload := if bcd then from_bcd cr else cr in
  if reload =? 0 then (if bcd then 10000 else 0x10000) else reload.

(** What an iteration of the loop of [evaluate] does next: [continue] or fall
    through to the next iteration, or [break]. *)
Inductive flow : Type :=
| Continue
| Break.

(** The first statement of the loop: whole periods are skipped. *)
Definition skip_periods (mode : Mode) (bcd : bool) (ticks : Z) (t : Timer) : Timer * Z * flow :=
  let s := tstate t in
  if bool_decide (count_state s = Active) && (ce s =? cr s) && periodic mode
  then
    let period := period_of bcd (cr s) in
    if period <=? ticks
    then
      let o := out s in
      let t := set_out o (set_out (negb o) t) in
      let ticks := ticks mod period in
      (t, ticks, if ticks =? 0 then Break else Continue)
    else (t, ticks, Continue)
  else (t, ticks, Continue).

(** The counter reaches its terminal state. *)
Definition terminal (mode : Mode) (t : Timer) : Timer :=
  match mode with
  | TerminalCount | HardwareOneShot => put_state Counting (set_out true t)
  | RateGenerator => load_ce (set_out true t)
  | SquareWave => load_ce (set_out (negb (out (tstate t))) t)
  | SoftwareStrobe | HardwareStrobe => put_state Counting (set_out false t)
  end.

(** An active counter counts [per] per tick, up to its terminal state. *)
Definition count_down {E} (mode : Mode) (bcd : bool) (per ticks : Z) (t : Timer)
  : res E (Timer * Z) :=
  if ce (tstate t) =? per
  then
    let! ticks := usub ticks 1 in
    Ok (terminal mode (put_ce 0 t), ticks)
  else if counter_sub (ce (tstate t)) per bcd / per <=? ticks
  then
    let! ticks := usub ticks (counter_sub (ce (tstate t)) per bcd / per) in
    let t := put_ce (ucast 16 per) t in
    Ok (if bool_decide (mode = RateGenerator) then set_out false t else t, ticks)
  else
    let! n := umul 64 ticks per in
    Ok (set_ce (counter_sub (ce (tstate t)) n bcd) t, 0).

(** The [match] on the state of the counter. *)
Definition eval_state {E} (mode : Mode) (bcd : bool) (ticks : Z) (t : Timer)
  : res E (Timer * Z * flow) :=
  let s := tstate t in
  match count_state s with
  | Inactive | WaitingForGate => Ok (t, ticks, Break)
  | Reloading =>
      let! ticks := usub ticks 1 in
      Ok (put_state Active (load_ce t), ticks, Continue)
  | Active =>
      if negb (gate s) && gate_stops_count mode then Ok (t, ticks, Break)
      else
        match mode with
        | SquareWave =>
            if negb (Z.land (ce s) 1 =? 0)
            then
              let t := put_ce (Z.land (ce s) (unot 16 1)) t in
              if out s
              then let! ticks := usub ticks 1 in Ok (t, ticks, Continue)
              else let! r := count_down mode bcd 2 ticks t in Ok (r, Continue)
            else let! r := count_down mode bcd 2 ticks t in Ok (r, Continue)
        | _ => let! r := count_down mode bcd 1 ticks t in Ok (r, Continue)
        end
  | Counting =>
      if negb (gate s) && gate_stops_count mode then Ok (t, ticks, Break)
      else Ok (set_out true (set_ce (counter_sub (ce s) ticks bcd) t), 0, Continue)
  end.

(** One iteration of the loop. *)
Definition eval_step {E} (mode : Mode) (bcd : bool) (ticks : Z) (t : Timer)
  : res E (Timer * Z * flow) :=
  match skip_periods mode bcd ticks t with
  | (t, ticks, Break) => Ok (t, ticks, Break)
  | (t, ticks, Continue) => eval_state mode bcd ticks t
  end.

Fixpoint eval_loop {E} (fuel : nat) (mode : Mode) (bcd : bool) (ticks : Z) (t : Timer)
  : res E Timer :=
  match fuel with
  | O => Panic
  | S fuel =>
      if 0 <? ticks
      then
        let! r := eval_step mode bcd ticks t in
        match r with
        | (t, ticks, Continue) => eval_loop fuel mode bcd ticks t
        | (t, _, Break) => Ok t
        end
      else Ok t
  end.

(** Every iteration that continues uses up a tick. *)
Definition timer_evaluate {E} (ticks : Z) (t : Timer) : res E Timer :=
  let! mode := op_mode (tstate t) in
  let bcd := cw_bcd (control (tstate t)) in
  eval_loop (S (Z.to_nat ticks)) mode bcd ticks t.

Definition latch_status (s : TimerState) : TimerState :=
  match sl s with
  | None => s <| sl := Some (sw_with_out (sw_with_null (control s) (null s)) (out s)) |>
  | Some _ => s
  end.

Definition latch_counter (s : TimerState) : TimerState :=
  match ol s with
  | None => s <| ol := Some (ce s) |>
  | Some _ => s
  end.

Definition set_control {E} (c : Z) (t : Timer) : res E Timer :=
  if cw_rw c =? 0 then Ok (t <| tstate := latch_counter (tstate t) |>)
  else
    let s := tstate t <| control := cw_with_select c 0 |> <| ce := 0 |> <| cr := 0 |>
               <| cr_low := None |> <| read_high := false |> <| count_state := Inactive |>
               <| null := true |> in
    let! mode := op_mode s in
    Ok (set_out
          match mode with
          | TerminalCount => false
          | HardwareOneShot | RateGenerator | SquareWave | SoftwareStrobe | HardwareStrobe => true
          end (t <| tstate := s |>)).

(** The count register that a byte completes, or the low byte that it leaves to
    be completed. *)
Definition write_cr {E} (n : Z) (s : TimerState) : res E (Z + Z) :=
  let rw := cw_rw (control s) in
  if rw =? RW_LOW then Ok (inl n)
  else if rw =? RW_HIGH then Ok (inl (ucast 16 (Z.shiftl n 8)))
  else if rw =? RW_LOW_HIGH then
    match cr_low s with
    | Some low => Ok (inl (Z.lor (ucast 16 (Z.shiftl n 8)) low))
    | None => Ok (inr (ucast 8 n))
    end
  else Panic.

Definition write {E} (n : Z) (t : Timer) : res E Timer :=
  let! r := write_cr n (tstate t) in
  match r with
  | inr low => Ok (t <| tstate := tstate t <| cr_low := Some low |> |>)
  | inl v =>
      let t := t <| tstate := tstate t <| cr := v |> <| null := true |> |> in
      let! mode := op_mode (tstate t) in
      match mode with
      | TerminalCount => Ok (set_out false (put_state Reloading t))
      | HardwareOneShot => Ok (put_state WaitingForGate t)
      | RateGenerator | SquareWave =>
          Ok (if bool_decide (count_state (tstate t) = Active) then t else put_state Reloading t)
      | SoftwareStrobe => Ok (put_state Reloading t)
      | HardwareStrobe => Ok (put_state WaitingForGate t)
      end
  end.

Definition read {E} (t : Timer) : res E (Timer * Z) :=
  let s := tstate t in
  match sl s with
  | Some v => Ok (t <| tstate := s <| sl := None |> |>, v)
  | None =>
      let value := default (ce s) (ol s) in
      let rw := cw_rw (control s) in
      let! r :=
        if rw =? RW_LOW then Ok (s, ucast 8 value)
        else if rw =? RW_HIGH then Ok (s, ucast 8 (Z.shiftr value 8))
        else if rw =? RW_LOW_HIGH then
          let s := s <| read_high := negb (read_high s) |> in
          Ok (s, if read_high s then ucast 8 value else ucast 8 (Z.shiftr value 8))
        else Panic in
      let '(s, value) := r in
      let s := if negb (read_high s) then s <| ol := None |> else s in
      Ok (t <| tstate := s |>, value)
  end.

Definition set_gate {E} (g : bool) (t : Timer) : res E Timer :=
  let s := tstate t in
  let! mode := op_mode s in
  let rising := negb (gate s) && g in
  let t :=
    match mode with
    | TerminalCount => t
    | HardwareOneShot =>
        if rising && bool_decide (count_state s = WaitingForGate)
        then set_out false (put_state Reloading t) else t
    | RateGenerator | SquareWave =>
        if g && negb (gate s)
        then if bool_decide (count_state s = Active) then put_state Reloading t else t
        else if negb g then set_out true t else t
    | SoftwareStrobe => t
    | HardwareStrobe =>
        if rising && bool_decide (count_state s = WaitingForGate)
        then put_state Reloading t else t
    end in
  Ok (t <| tstate := tstate t <| gate := g |> |>).

(** The number of ticks until the output changes next. *)
Definition next_wakeup {E} (s : TimerState) : res E (option Z) :=
  let! mode := op_mode s in
  let bcd := cw_bcd (control s) in
  match count_state s with
  | Inactive => Ok None
  | WaitingForGate => Ok None
  | (Reloading | Active) as st =>
      if negb (gate s) && gate_stops_count mode then Ok None
      else
        let '(ce, extra) := match st with Reloading => (cr s, 1) | _ => (ce s, 0) end in
        let! v :=
          match mode with
          | TerminalCount | HardwareOneShot | SoftwareStrobe | HardwareStrobe =>
              uadd 64 (counter_sub ce 1 bcd) 1
          | RateGenerator =>
              if ce =? 1 then Ok 1 else Ok (counter_sub ce 1 bcd)
          | SquareWave =>
              let! n := uadd 64 (counter_sub ce 2 bcd) 2 in
              uadd 64 (n / 2) (b2z (out s && negb (Z.land ce 1 =? 0)))
          end in
        let! v := uadd 64 v extra in
        Ok (Some v)
  | Counting =>
      if out s || (negb (gate s) && gate_stops_count mode) then Ok None else Ok (Some 1)
  end.

(** * The device *)

Record PitDevice (C : Type) : Type := mkPitDevice {
  vmtime : C;
  timers : list Timer;
  dram_refresh : bool;
  time_abi : bool;
  last_time : Z;
}.
Arguments mkPitDevice {C}.
Arguments vmtime {C}.
Arguments timers {C}.
Arguments dram_refresh {C}.
Arguments time_abi {C}.
Arguments last_time {C}.

#[global] Instance PitDevice_settable C : Settable (PitDevice C) := fun d =>
  mkPitDevice (vmtime d) (timers d) (dram_refresh d) (time_abi d) (last_time d).

(** [PitActiveError]. *)
Inductive PitActiveError : Type := PitActive (mode : Mode).

(** The saved state, with the fields of the protobuf messages. *)
Inductive SavedCountState : Type :=
| SavedInactive
| SavedWaitingForGate
| SavedReloading
| SavedActive
| SavedCounting.

Record SavedTimerState : Type := mkSavedTimerState {
  saved_ce : Z;
  saved_cr : Z;
  saved_ol : option Z;
  saved_sl : option Z;
  saved_state : SavedCountState;
  saved_control : Z;
  saved_out : bool;
  saved_gate : bool;
  saved_null : bool;
  saved_read_high : bool;
  saved_cr_low : option Z;
}.

Record SavedState : Type := mkSavedState { saved_timers : list SavedTimerState; saved_last : Z }.

Inductive PitRestoreError : Type :=
| InvalidLastTick
| RestoreActive (e : PitActiveError).

Definition save_count_state (c : CountState) : SavedCountState :=
  match c with
  | Inactive => SavedInactive
  | WaitingForGate => SavedWaitingForGate
  | Reloading => SavedReloading
  | Active => SavedActive
  | Counting => SavedCounting
  end.

Definition save_timer (s : TimerState) : SavedTimerState :=
  mkSavedTimerState (ce s) (cr s) (ol s) (sl s) (save_count_state (count_state s)) (control s)
    (out s) (gate s) (null s) (read_high s) (cr_low s).

Definition restore_count_state (c : SavedCountState) : CountState :=
  match c with
  | SavedInactive => Inactive
  | SavedWaitingForGate => WaitingForGate
  | SavedReloading => Reloading
  | SavedActive => Active
  | SavedCounting => Counting
  end.

Definition restore_state (s : SavedTimerState) : TimerState :=
  mkTimerState (saved_ce s) (saved_cr s) (saved_ol s) (saved_sl s)
    (restore_count_state (saved_state s)) (saved_control s) (saved_out s) (saved_gate s)
    (saved_null s) (saved_read_high s) (saved_cr_low s).

Section Device.

Context {C : Type} `{TimeAccess C}.

Definition pit_new {E} (line : list bool) (c : C) (os : Z) : res E (PitDevice C) :=
  let! now := ta_now os c in
  Ok (mkPitDevice c
        [timer_new true (Some line); timer_new true None; timer_new false None] false false now).

Definition with_time_abi (d : PitDevice C) : PitDevice C := d <| time_abi := true |>.

Definition on_timer {E} (i : Z) (f : Timer -> res E Timer) (d : PitDevice C) : res E (PitDevice C) :=
  let! t := vec_get (timers d) i in
  let! t := f t in
  let! ts := vec_set (timers d) i t in
  Ok (d <| timers := ts |>).

Definition check_time_abi (d : PitDevice C) : res PitActiveError unit :=
  let! t := vec_get (timers d) 0 in
  let s := tstate t in
  let! mode := op_mode s in
  if time_abi d && periodic mode && negb (bool_decide (count_state s = Inactive))
  then Err (PitActive mode)
  else Ok tt.

Definition pit_evaluate {E} (now : Z) (d : PitDevice C) : res E (PitDevice C) :=
  let delta := default 0 (checked_sub now (last_time d)) in
  let ticks := ucast 64 delta / NANOS_PER_TICK in
  let! nanos := umul 64 ticks NANOS_PER_TICK in
  let d := d <| last_time := vmtime_wrapping_add (last_time d) nanos |> in
  let! d := on_timer 0 (timer_evaluate ticks) d in
  let! d := on_timer 1 (timer_evaluate ticks) d in
  on_timer 2 (timer_evaluate ticks) d.

Definition arm_wakeup {E} (d : PitDevice C) : res E (PitDevice C) :=
  let! t := vec_get (timers d) 0 in
  let! next := next_wakeup (tstate t) in
  match next with
  | Some next =>
      let next := Z.max next 20 in
      let! nanos := umul 64 next NANOS_PER_TICK in
      let! c := ta_set_timeout_if_before (vmtime_wrapping_add (last_time d) nanos) (vmtime d) in
      Ok (d <| vmtime := c |>)
  | None => Ok d
  end.

Definition pit_start {E} (os : Z) (d : PitDevice C) : res E (PitDevice C) :=
  let! now := ta_now os (vmtime d) in
  let! d := pit_evaluate now d in
  arm_wakeup d.

Definition pit_reset {E} (os : Z) (d : PitDevice C) : res E (PitDevice C) :=
  let d := d <| timers := timer_reset <$> timers d |> in
  let! now := ta_now os (vmtime d) in
  Ok (d <| last_time := now |>).

Definition poll_device {E} (os os' : Z) (d : PitDevice C) : res E (PitDevice C) :=
  let! r := ta_poll_timeout os (vmtime d) in
  let d := d <| vmtime := r.1 |> in
  match r.2 with
  | Some now =>
      let! d := pit_evaluate now d in
      let! r := ta_poll_timeout os' (vmtime d) in
      let d := d <| vmtime := r.1 |> in
      assert! (match r.2 with None => true | Some _ => false end) in
      arm_wakeup d
  | None => Ok d
  end.

(** The device, the data of the access and [IoResult]. *)
Definition pit_io_read {E} (io_port : Z) (data : list Z) (os : Z) (d : PitDevice C)
  : res E (PitDevice C * list Z * option IoError) :=
  match data with
  | [_] =>
      let! now := ta_now os (vmtime d) in
      let! d := pit_evaluate now d in
      if (PIT_TIMER_RANGE_START <=? io_port) && (io_port <=? PIT_TIMER_RANGE_END)
      then
        let offset := io_port - PIT_TIMER_RANGE_START in
        let! t := vec_get (timers d) offset in
        let! r := read t in
        let! ts := vec_set (timers d) offset r.1 in
        let! d := arm_wakeup (d <| timers := ts |>) in
        Ok (d, [r.2], None)
      else if io_port =? PIT_CONTROL_REGISTER
      then let! d := arm_wakeup d in Ok (d, [unot 8 0], None)
      else if io_port =? PIT_PORT61_REGISTER
      then
        let! t := vec_get (timers d) 2 in
        let b := Z.lor (Z.lor (Z.shiftl (b2z (out (tstate t))) 5) (Z.shiftl (b2z (dram_refresh d)) 4))
                   (b2z (gate (tstate t))) in
        let! d := arm_wakeup (d <| dram_refresh := negb (dram_refresh d) |>) in
        Ok (d, [b], None)
      else Ok (d, data, Some InvalidRegister)
  | _ => Ok (d, data, Some InvalidAccessSize)
  end.

Definition read_back (command : Z) (t : Timer) : Timer :=
  let s := tstate t in
  let s := if negb (rb_status command) then latch_status s else s in
  let s := if negb (rb_count command) then latch_counter s else s in
  t <| tstate := s |>.

(** The loop over the selected counters of a read-back command. *)
Definition read_back_all {E} (command : Z) (d : PitDevice C) : res E (PitDevice C) :=
  let select (b : bool) (i : Z) (d : PitDevice C) :=
    if b then on_timer i (fun t => Ok (read_back command t)) d else Ok d in
  let! d := select (rb_counter0 command) 0 d in
  let! d := select (rb_counter1 command) 1 d in
  select (rb_counter2 command) 2 d.

Definition write_control {E} (b : Z) (d : PitDevice C) : res E (PitDevice C) :=
  let i := cw_select b in
  if i <=? 2 then on_timer i (set_control b) d
  else if i =? 3 then read_back_all b d
  else Panic.

Definition pit_io_write {E} (io_port : Z) (data : list Z) (os : Z) (d : PitDevice C)
  : res E (PitDevice C * option IoError) :=
  match data with
  | [b] =>
      let! now := ta_now os (vmtime d) in
      let! d := pit_evaluate now d in
      let finish (r : res E (PitDevice C)) :=
        let! d := r in let! d := arm_wakeup d in Ok (d, None) in
      if (PIT_TIMER_RANGE_START <=? io_port) && (io_port <=? PIT_TIMER_RANGE_END)
      then finish (on_timer (io_port - PIT_TIMER_RANGE_START) (write b) d)
      else if io_port =? PIT_CONTROL_REGISTER
      then finish (write_control b d)
      else if io_port =? PIT_PORT61_REGISTER
      then finish (on_timer 2 (set_gate (negb (Z.land b 1 =? 0))) d)
      else Ok (d, Some InvalidRegister)
  | _ => Ok (d, Some InvalidAccessSize)
  end.

Definition pit_save (d : PitDevice C) : res PitActiveError SavedState :=
  let! _ := check_time_abi d in
  Ok (mkSavedState ((fun t => save_timer (tstate t)) <$> timers d) (last_time d)).

(** The device as [restore] leaves it, with its result. *)
Definition pit_restore {E} (st : SavedState) (os : Z) (d : PitDevice C)
  : res E (PitDevice C * option PitRestoreError) :=
  let restored := zip_with (fun t s => sync_interrupt (t <| tstate := restore_state s |>))
                    (timers d) (saved_timers st) in
  let d := d <| timers := restored ++ drop (length restored) (timers d) |>
             <| last_time := saved_last st |> in
  let! now := ta_now os (vmtime d) in
  if is_after (saved_last st) now then Ok (d, Some InvalidLastTick)
  else
    match check_time_abi d with
    | Ok _ => Ok (d, None)
    | Err e => Ok (d, Some (RestoreActive e))
    | Panic => Panic
    end.

End Device.
