(* ===== verification/PitTick.v ===== *)
(** The counting of one 8254 channel: [Timer::evaluate] of
    [vm/devices/chipset/src/pit/mod.rs] against a reference that counts one
    tick at a time.

    [evaluate] advances a channel by any number of ticks in a few steps. [tick]
    is the reference: the effect of one clock pulse on the state of a channel.
    A counter holds a number of counts in [1, M], [M] being 10000 for a BCD
    counter and 65536 for a binary one, zero standing for [M]. *)

From S2P Require Import Prelude ChipsetDevice VmTime Pit.

(** * Counter values *)

Definition modulus (bcd : bool) : Z := if bcd then 10000 else 0x10000.

(** The register contents for a count. *)
Definition encode (bcd : bool) (v : Z) : Z :=
  if bcd then to_bcd (v mod 10000) else v mod 0x10000.

(** A 16-bit register; of decimal digits, if the counter is BCD. *)
Definition count_ok (bcd : bool) (c : Z) : bool :=
  (0 <=? c) && (c <? 0x10000) && (if bcd then to_bcd (from_bcd c) =? c else true).

Definition all_counts (n : Z) (p : Z -> bool) : bool := forallb p (seqZ 0 n).

Lemma all_counts_spec n p : all_counts n p = true -> forall x, 0 <= x < n -> p x = true.
Proof.
  unfold all_counts. rewrite forallb_forall. intros H x Hx. apply H.
  apply list_elem_of_In, elem_of_seqZ. lia.
Qed.

(** The hexadecimal digits of a register, read as decimal ones. *)
Lemma from_bcd_digits c :
  0 <= c < 0x10000 ->
  exists d0 d1 d2 d3, 0 <= d0 < 16 /\ 0 <= d1 < 16 /\ 0 <= d2 < 16 /\ 0 <= d3 < 16 /\
    c = d0 + 16 * d1 + 256 * d2 + 4096 * d3 /\ from_bcd c = d0 + 10 * d1 + 100 * d2 + 1000 * d3.
Proof.
  intros Hc. exists (c mod 16), (c / 16 mod 16), (c / 256 mod 16), (c / 4096 mod 16).
  assert (forall k, 0 <= k -> Z.shiftr (Z.land c (Z.shiftl 15 k)) k = c / 2 ^ k mod 16) as Hd.
  { intros k Hk. change 16 with (2 ^ 4). rewrite <-Z.land_ones, Z.shiftr_land by lia.
    rewrite Z.shiftr_shiftl_l, Z.sub_diag, Z.shiftr_div_pow2 by lia. done. }
  unfold from_bcd.
  change 0xf0 with (Z.shiftl 15 4). change 0xf00 with (Z.shiftl 15 8). change 0xf000 with (Z.shiftl 15 12).
  rewrite !Hd by lia. change 0xf with (Z.ones 4). rewrite Z.land_ones by lia.
  change (2 ^ 4) with 16. change (2 ^ 8) with 256. change (2 ^ 12) with 4096. div_lia.
Qed.

(** The decimal digits of a number, as the digits of a register. *)
Lemma to_bcd_digits x :
  0 <= x < 10000 ->
  exists d0 d1 d2 d3, 0 <= d0 < 10 /\ 0 <= d1 < 10 /\ 0 <= d2 < 10 /\ 0 <= d3 < 10 /\
    x = d0 + 10 * d1 + 100 * d2 + 1000 * d3 /\ to_bcd x = d0 + 16 * d1 + 256 * d2 + 4096 * d3.
Proof.
  intros Hx. exists (x mod 10), (x / 10 mod 10), (x / 100 mod 10), (x / 1000 mod 10).
  unfold to_bcd. rewrite !Z.shiftl_mul_pow2 by lia.
  change (2 ^ 4) with 16. change (2 ^ 8) with 256. change (2 ^ 12) with 4096. div_lia.
Qed.

Lemma land_even x : 0 <= x < 0x10000 -> Z.land x (unot 16 1) = x - x mod 2.
Proof.
  intros Hx. replace (Z.land x (unot 16 1)) with (Z.ldiff x (Z.ones 1)).
  - rewrite Z.ldiff_ones_r, Z.shiftr_div_pow2, Z.shiftl_mul_pow2 by lia.
    change (2 ^ 1) with 2. div_lia.
  - apply Z.bits_inj'. intros i Hi. rewrite Z.ldiff_spec, Z.land_spec.
    destruct (decide (16 <= i)) as [Hb|Hb].
    + rewrite (Z.bits_above_log2 x i); [done|lia|].
      destruct (decide (x = 0)) as [->|]; [cbn; lia|]. apply Z.log2_lt_pow2; [lia|].
      apply (Z.lt_le_trans _ (2 ^ 16)); [lia|]. apply Z.pow_le_mono_r; lia.
    + f_equal. apply eqb_prop. apply (all_counts_spec 16
        (fun i => Bool.eqb (negb (Z.testbit (Z.ones 1) i)) (Z.testbit (unot 16 1) i))); [done|lia].
Qed.

Lemma bcd_digits x :
  0 <= x < 10000 ->
  from_bcd (to_bcd x) = x /\ 0 <= to_bcd x < 0x10000 /\
  Z.odd (to_bcd x) = Z.odd x /\
  (Z.odd x = true -> Z.land (to_bcd x) (unot 16 1) = to_bcd (x - 1)) /\
  (to_bcd x = 1 -> x = 1) /\ (to_bcd x = 2 -> x = 2).
Proof.
  intros Hx. destruct (to_bcd_digits x Hx) as (d0 & d1 & d2 & d3 & H0 & H1 & H2 & H3 & Ex & E).
  assert (0 <= to_bcd x < 0x10000) as Hb by lia.
  split; [|split; [done|split; [|split; [|lia]]]].
  - destruct (from_bcd_digits _ Hb) as (e0 & e1 & e2 & e3 & ? & ? & ? & ? & ? & ->). lia.
  - pose proof (Zmod_odd (to_bcd x)). pose proof (Zmod_odd x).
    destruct (Z.odd (to_bcd x)), (Z.odd x); (reflexivity || div_lia).
  - intros Ho. rewrite land_even by lia. pose proof (Zmod_odd x) as Hm. rewrite Ho in Hm.
    destruct (to_bcd_digits (x - 1)) as (e0 & e1 & e2 & e3 & ? & ? & ? & ? & Ey & Ey'); [div_lia|].
    rewrite Ey', E. div_lia.
Qed.

Lemma from_bcd_bound c : 0 <= c < 0x10000 -> 0 <= from_bcd c <= 16665.
Proof. intros Hc. destruct (from_bcd_digits c Hc) as (d0 & d1 & d2 & d3 & ? & ? & ? & ? & _ & ->). lia. Qed.

Lemma to_bcd_wrap x : to_bcd (x + 10000) = to_bcd x.
Proof.
  unfold to_bcd. assert (forall k q, 0 < k -> k * q = 10000 -> (x + 10000) / k = x / k + q) as Hd.
  { intros k q Hk <-. rewrite Z.mul_comm. by rewrite Z.div_add by lia. }
  rewrite (Hd 10 1000), (Hd 100 100), (Hd 1000 10) by lia.
  rewrite <-(Z_mod_plus_full x 1000 10), <-(Z_mod_plus_full (x / 10) 100 10),
    <-(Z_mod_plus_full (x / 100) 10 10), <-(Z_mod_plus_full (x / 1000) 1 10). done.
Qed.

Lemma from_bcd_valid c : count_ok true c = true -> 0 <= from_bcd c < 10000.
Proof.
  unfold count_ok. rewrite !andb_true_iff, Z.leb_le, Z.ltb_lt, Z.eqb_eq. intros [[H0 H1] H2].
  pose proof (from_bcd_bound c). destruct (Z.ltb_spec (from_bcd c) 10000); [lia|]. exfalso.
  pose proof (to_bcd_wrap (from_bcd c - 10000)) as E. rewrite Z.sub_add in E.
  pose proof (bcd_digits (from_bcd c - 10000) ltac:(lia)) as [Hd _].
  rewrite <-E, H2 in Hd. lia.
Qed.

Section Count.

Context (bcd : bool).

Lemma modulus_pos : 0 < modulus bcd.
Proof. by destruct bcd. Qed.

Lemma period_bounds c : count_ok bcd c = true -> 1 <= period_of bcd c <= modulus bcd.
Proof.
  intros Hc. unfold period_of, modulus. destruct bcd.
  - pose proof (from_bcd_valid c Hc). destruct (Z.eqb_spec (from_bcd c) 0); lia.
  - unfold count_ok in Hc. rewrite !andb_true_iff, Z.leb_le, Z.ltb_lt in Hc.
    destruct (Z.eqb_spec c 0); lia.
Qed.

Lemma period_mod c :
  count_ok bcd c = true -> period_of bcd c mod modulus bcd = if bcd then from_bcd c else c.
Proof.
  intros Hc. unfold period_of, modulus. destruct bcd.
  - pose proof (from_bcd_valid c Hc). destruct (Z.eqb_spec (from_bcd c) 0) as [->|]; [done|].
    apply Z.mod_small. lia.
  - unfold count_ok in Hc. rewrite !andb_true_iff, Z.leb_le, Z.ltb_lt in Hc.
    destruct (Z.eqb_spec c 0) as [->|]; [done|]. apply Z.mod_small. lia.
Qed.

Lemma encode_period c : count_ok bcd c = true -> encode bcd (period_of bcd c) = c.
Proof.
  intros Hc. pose proof (period_mod c Hc) as Hm. unfold encode, modulus, count_ok in *.
  destruct bcd; rewrite Hm; [|done]. rewrite !andb_true_iff, Z.eqb_eq in Hc. tauto.
Qed.

Lemma encode_ok v : count_ok bcd (encode bcd v) = true.
Proof.
  unfold count_ok, encode. destruct bcd.
  - pose proof (Z.mod_pos_bound v 10000). destruct (bcd_digits (v mod 10000)) as (H1 & H2 & _); [lia|].
    rewrite H1, Z.eqb_refl, !andb_true_iff, Z.leb_le, Z.ltb_lt. lia.
  - pose proof (Z.mod_pos_bound v 0x10000). rewrite !andb_true_iff, Z.leb_le, Z.ltb_lt. lia.
Qed.

Lemma period_encode v : 1 <= v <= modulus bcd -> period_of bcd (encode bcd v) = v.
Proof.
  intros Hv. unfold period_of, encode, modulus in *. destruct bcd.
  - pose proof (Z.mod_pos_bound v 10000). destruct (bcd_digits (v mod 10000)) as (-> & _); [lia|].
    destruct (Z.eqb_spec (v mod 10000) 0); div_lia.
  - destruct (Z.eqb_spec (v mod 0x10000) 0); div_lia.
Qed.

Lemma encode_mod v : encode bcd (v mod modulus bcd) = encode bcd v.
Proof. unfold encode, modulus. destruct bcd; by rewrite Z.mod_mod by lia. Qed.

Lemma counter_sub_mod c n :
  count_ok bcd c = true -> 0 <= n -> counter_sub c n bcd = (period_of bcd c - n) mod modulus bcd.
Proof.
  intros Hc Hn. rewrite <-Zminus_mod_idemp_l, period_mod by done.
  unfold counter_sub, modulus, wrapping_sub, ucast. destruct bcd.
  - pose proof (from_bcd_valid c Hc). pose proof (Z.mod_pos_bound n 10000).
    rewrite (Z.mod_small (n mod 10000)) by lia. rewrite <-Zminus_mod_idemp_r.
    destruct (Z.leb_spec (n mod 10000) (from_bcd c)).
    + symmetry. apply Z.mod_small. lia.
    + rewrite <-(Z_mod_plus_full (from_bcd c - n mod 10000) 1), (Z.mod_small (_ + _)) by lia. lia.
  - change (2 ^ 16) with 65536. by rewrite Zminus_mod_idemp_r.
Qed.

Lemma counter_sub_range c n : count_ok bcd c = true -> 0 <= n -> 0 <= counter_sub c n bcd < modulus bcd.
Proof. intros. rewrite counter_sub_mod by done. apply Z.mod_pos_bound, modulus_pos. Qed.

(** The parity of a count is the parity of its register. *)
Lemma period_odd c : count_ok bcd c = true -> Z.odd (period_of bcd c) = Z.odd c.
Proof.
  intros Hc. rewrite <-(encode_period c Hc) at 2. pose proof (period_bounds c Hc) as Hb.
  unfold encode, modulus in *. assert (forall x, Z.odd (x mod 65536) = Z.odd x) as H2.
  { intros x. rewrite <-!Z.bit0_odd. change 65536 with (2 ^ 16). by rewrite Z.mod_pow2_bits_low by lia. }
  destruct bcd; [|by rewrite H2].
  pose proof (Z.mod_pos_bound (period_of true c) 10000).
  destruct (bcd_digits (period_of true c mod 10000)) as (_ & _ & -> & _); [lia|].
  destruct (Z.eq_dec (period_of true c) 10000) as [->|]; [done|]. by rewrite Z.mod_small by lia.
Qed.

(** Clearing the low bit of an odd counter. *)
Lemma clear_low_bit c :
  count_ok bcd c = true -> Z.odd c = true ->
  Z.land c (unot 16 1) = encode bcd (period_of bcd c - 1).
Proof.
  intros Hc Ho. pose proof (period_bounds c Hc) as Hb. pose proof (period_odd c Hc) as Hpo.
  rewrite <-(encode_period c Hc) at 1. rewrite Ho in Hpo.
  assert (period_of bcd c <> modulus bcd) by (intros E; rewrite E in Hpo; by destruct bcd).
  unfold encode, modulus in *. destruct bcd.
  - rewrite !Z.mod_small by lia.
    destruct (bcd_digits (period_of true c)) as (_ & _ & _ & H2 & _); [lia|]. by apply H2.
  - rewrite !Z.mod_small by lia. change 1 with (2 ^ 1 - 1) at 1. rewrite land_not_mask by (unfold is_u; lia).
    change (2 ^ 1) with 2. rewrite Z.odd_spec in Hpo. destruct Hpo as [m Hm]. div_lia.
Qed.

Lemma encode_eq_small v k : 1 <= v <= modulus bcd -> k = 1 \/ k = 2 -> encode bcd v = k -> v = k.
Proof.
  intros Hv Hk E. unfold encode, modulus in *. destruct bcd; [|div_lia].
  pose proof (Z.mod_pos_bound v 10000).
  destruct (bcd_digits (v mod 10000)) as (_ & _ & _ & _ & H1 & H2); [lia|].
  destruct Hk as [->| ->]; [specialize (H1 E)|specialize (H2 E)]; div_lia.
Qed.

Lemma encode_small k : k = 1 \/ k = 2 -> encode bcd k = k.
Proof. by destruct bcd; intros [->| ->]. Qed.

Lemma period_eq_small c k :
  count_ok bcd c = true -> k = 1 \/ k = 2 -> (c =? k) = (period_of bcd c =? k).
Proof.
  intros Hc Hk. pose proof (period_bounds c Hc). pose proof (encode_period c Hc) as He.
  destruct (Z.eqb_spec c k) as [E|Hne], (Z.eqb_spec (period_of bcd c) k) as [E'|Hne']; try done.
  - rewrite E in He at 2. by apply encode_eq_small in He.
  - rewrite E', encode_small in He by done. done.
Qed.

End Count.

(** * The reference: one clock pulse *)

Definition mode_of (s : TimerState) : Mode :=
  match op_mode (E:=void) s with Ok m => m | _ => TerminalCount end.

Definition stopped (s : TimerState) : bool := negb (gate s) && gate_stops_count (mode_of s).

Definition tick (s : TimerState) : TimerState :=
  let bcd := cw_bcd (control s) in
  let v := period_of bcd (ce s) in
  match count_state s with
  | Inactive | WaitingForGate => s
  | Reloading => s <| ce := cr s |> <| null := false |> <| count_state := Active |>
  | Active =>
      if stopped s then s
      else
        match mode_of s with
        | TerminalCount | HardwareOneShot =>
            if v =? 1 then s <| ce := 0 |> <| out := true |> <| count_state := Counting |>
            else s <| ce := encode bcd (v - 1) |>
        | SoftwareStrobe | HardwareStrobe =>
            if v =? 1 then s <| ce := 0 |> <| out := false |> <| count_state := Counting |>
            else s <| ce := encode bcd (v - 1) |>
        | RateGenerator =>
            if v =? 1 then s <| ce := cr s |> <| null := false |> <| out := true |>
            else s <| ce := encode bcd (v - 1) |> <| out := if v =? 2 then false else out s |>
        | SquareWave =>
            if Z.odd v && out s then s <| ce := encode bcd (v - 1) |>
            else
              let v := if Z.odd v then (if v =? 1 then modulus bcd else v - 1) else v in
              if v =? 2 then s <| ce := cr s |> <| null := false |> <| out := negb (out s) |>
              else s <| ce := encode bcd (v - 2) |>
        end
  | Counting => if stopped s then s else s <| ce := encode bcd (v - 1) |> <| out := true |>
  end.

(** [n] clock pulses. *)
Definition ticks (n : Z) (s : TimerState) : TimerState := Nat.iter (Z.to_nat n) tick s.

Lemma ticks_0 s : ticks 0 s = s.
Proof. done. Qed.

Lemma ticks_1 s : ticks 1 s = tick s.
Proof. done. Qed.

Lemma ticks_add a b s : 0 <= a -> 0 <= b -> ticks (a + b) s = ticks b (ticks a s).
Proof.
  intros. unfold ticks. rewrite Z2Nat.inj_add, Nat.add_comm by done. apply Nat.iter_add.
Qed.

Lemma ticks_succ n s : 0 <= n -> ticks (n + 1) s = tick (ticks n s).
Proof. intros. rewrite ticks_add by lia. apply ticks_1. Qed.

Lemma ticks_pred n s : 0 < n -> ticks n s = ticks (n - 1) (tick s).
Proof. intros. replace n with (1 + (n - 1)) at 1 by lia. rewrite ticks_add by lia. done. Qed.

Lemma ticks_fixed n s : tick s = s -> ticks n s = s.
Proof. intros Hs. unfold ticks. induction (Z.to_nat n) as [|k IH]; [done|]. by rewrite Nat.iter_succ, IH. Qed.

Lemma ticks_period p k s : 0 <= p -> 0 <= k -> ticks p s = s -> ticks (k * p) s = s.
Proof.
  intros Hp Hk Hs. revert k Hk. apply natlike_ind; [done|]. intros k Hk IH.
  rewrite Z.mul_succ_l, ticks_add, IH by lia. done.
Qed.

Lemma op_mode_ok {E} s : op_mode (E:=E) s = Ok (mode_of s).
Proof.
  unfold mode_of, op_mode, cw_mode. change 7 with (Z.ones 3). rewrite Z.land_ones by lia.
  change (2 ^ 3) with 8. pose proof (Z.mod_pos_bound (Z.shiftr (control s) 1) 8 ltac:(lia)) as H.
  generalize dependent (Z.shiftr (control s) 1 mod 8). intros x Hx.
  assert (x = 0 \/ x = 1 \/ x = 2 \/ x = 3 \/ x = 4 \/ x = 5 \/ x = 6 \/ x = 7) as Hc by lia.
  by repeat destruct Hc as [->|Hc]; [..|rewrite Hc].
Qed.

(** ** States the reference applies to *)

(** Valid counts, of at least 2 in the periodic modes (1 is illegal there); the
    count register of an active periodic counter has been loaded; the output of
    a rate generator is high but for the last count. *)
Definition settled (s : TimerState) : bool :=
  let bcd := cw_bcd (control s) in
  count_ok bcd (ce s) && count_ok bcd (cr s) &&
  match mode_of s with
  | RateGenerator =>
      negb (cr s =? 1) &&
      match count_state s with
      | Reloading => out s
      | Active => negb (null s) && ((ce s =? 1) || out s)
      | _ => true
      end
  | SquareWave =>
      negb (cr s =? 1) && match count_state s with Active => negb (null s) | _ => true end
  | _ => true
  end.

Lemma settled_ce s : settled s = true -> count_ok (cw_bcd (control s)) (ce s) = true.
Proof. unfold settled. rewrite !andb_true_iff. tauto. Qed.

Lemma settled_cr s : settled s = true -> count_ok (cw_bcd (control s)) (cr s) = true.
Proof. unfold settled. rewrite !andb_true_iff. tauto. Qed.

Lemma settled_periodic s :
  settled s = true -> periodic (mode_of s) = true ->
  (cr s =? 1) = false /\ (count_state s = Active -> null s = false).
Proof.
  unfold settled. rewrite !andb_true_iff. intros [_ H] Hp.
  destruct (mode_of s); try done; rewrite andb_true_iff, negb_true_iff in H; (split; [tauto|]);
    intros E; rewrite E in H; destruct (null s); naive_solver.
Qed.

Lemma settled_rate s :
  settled s = true -> mode_of s = RateGenerator ->
  (count_state s = Reloading -> out s = true) /\ (count_state s = Active -> ce s <> 1 -> out s = true).
Proof.
  unfold settled. rewrite !andb_true_iff. intros [_ H] Hm. rewrite Hm in H.
  apply andb_true_iff in H as [_ H]. split; intros E; rewrite E in H; [done|].
  intros Hne. apply Z.eqb_neq in Hne. rewrite Hne in H. by destruct (null s).
Qed.

(** The fields that counting leaves alone. *)
Lemma tick_static s :
  control (tick s) = control s /\ cr (tick s) = cr s /\ gate (tick s) = gate s.
Proof.
  unfold tick. destruct (count_state s); [done..| |]; destruct (stopped s); try done.
  destruct (mode_of s); repeat case_match; done.
Qed.

Lemma tick_mode s : mode_of (tick s) = mode_of s.
Proof. unfold mode_of, op_mode. by rewrite (proj1 (tick_static s)). Qed.

Lemma mode_of_control s s' : control s' = control s -> mode_of s' = mode_of s.
Proof. intros E. unfold mode_of, op_mode. by rewrite E. Qed.

Lemma settled_intro s :
  count_ok (cw_bcd (control s)) (ce s) = true -> count_ok (cw_bcd (control s)) (cr s) = true ->
  (periodic (mode_of s) = true -> (cr s =? 1) = false /\ (count_state s = Active -> null s = false)) ->
  (mode_of s = RateGenerator -> (count_state s = Reloading -> out s = true) /\
     (count_state s = Active -> ce s <> 1 -> out s = true)) ->
  settled s = true.
Proof.
  intros H1 H2 Hp Hr. unfold settled. rewrite H1, H2. cbn [andb].
  destruct (mode_of s); try done; destruct (Hp eq_refl) as [-> Hn]; cbn [negb andb].
  - destruct (Hr eq_refl) as [Ha Hb]. destruct (count_state s); try done; [by apply Ha|].
    rewrite (Hn eq_refl). destruct (Z.eqb_spec (ce s) 1); [done|]. by rewrite Hb.
  - destruct (count_state s); try done. by rewrite (Hn eq_refl).
Qed.

Lemma count_ok_0 bcd : count_ok bcd 0 = true.
Proof. by destruct bcd. Qed.

Lemma tick_settled s : settled s = true -> settled (tick s) = true.
Proof.
  intros Hs. pose proof (settled_ce s Hs) as Hce. pose proof (settled_cr s Hs) as Hcr.
  destruct (tick_static s) as (Hc & Hr & _). pose proof (tick_mode s) as Hm.
  apply settled_intro; rewrite ?Hc, ?Hr, ?Hm; [|done| |].
  - unfold tick. destruct (count_state s); [done..| |]; destruct (stopped s); try done; [|apply encode_ok].
    destruct (mode_of s); repeat case_match; first [done|apply encode_ok|apply count_ok_0].
  - intros Hp. destruct (settled_periodic s Hs Hp) as [? Hn]. split; [done|].
    unfold tick. destruct (count_state s) eqn:Ec; try done; destruct (stopped s); try (by rewrite ?Ec).
    + destruct (mode_of s); try done; repeat case_match; auto.
    + intros E. change (count_state s = Active) in E. congruence.
  - intros Hmode. destruct (settled_rate s Hs Hmode) as [Ha Hb]. unfold tick. rewrite Hmode.
    destruct (count_state s) eqn:Ec; try (by rewrite ?Ec); cbn [stopped].
    + split; [done|]. intros _ _. by apply Ha.
    + destruct (stopped s); [by rewrite Ec|].
      pose proof (period_eq_small _ (ce s) 1 Hce (or_introl eq_refl)) as E1.
      destruct (Z.eqb_spec (period_of (cw_bcd (control s)) (ce s)) 1) as [|Hne]; [done|].
      split; [intros E; change (count_state s = Reloading) in E; congruence|]. intros _ Hne1.
      destruct (Z.eqb_spec (period_of (cw_bcd (control s)) (ce s)) 2) as [E2|].
      * exfalso. apply Hne1. change (encode (cw_bcd (control s)) (period_of (cw_bcd (control s)) (ce s) - 1) = 1).
        rewrite E2. by apply encode_small; left.
      * apply Hb; [done|]. by apply Z.eqb_neq.
    + destruct (stopped s); [by rewrite Ec|].
      split; intros E; [change (count_state s = Reloading) in E|change (count_state s = Active) in E]; congruence.
Qed.

Lemma ticks_settled n s : settled s = true -> settled (ticks n s) = true.
Proof.
  intros Hs. unfold ticks. induction (Z.to_nat n); [done|]. rewrite Nat.iter_succ. by apply tick_settled.
Qed.

(** ** Runs of the reference *)

Definition rate_out (m : Mode) (k left : Z) (o : bool) : bool :=
  if bool_decide (m = RateGenerator) && (0 <? k) && (left =? 1) then false else o.

(** Counting down, one per tick. *)
Lemma ticks_down s k :
  count_state s = Active -> stopped s = false -> mode_of s <> SquareWave ->
  count_ok (cw_bcd (control s)) (ce s) = true ->
  let bcd := cw_bcd (control s) in
  let v := period_of bcd (ce s) in
  0 <= k < v ->
  ticks k s = s <| ce := encode bcd (v - k) |> <| out := rate_out (mode_of s) k (v - k) (out s) |>.
Proof.
  intros Hst Hrun Hm Hok bcd v Hk. pose proof (period_bounds bcd (ce s) Hok) as Hv. fold v in Hv.
  destruct Hk as [Hk0 Hkv]. revert k Hk0 Hkv. apply (natlike_ind (fun k => k < v -> _)).
  { intros _. rewrite ticks_0. unfold rate_out. rewrite andb_false_r, Z.sub_0_r. unfold v.
    rewrite encode_period by done. by destruct s. }
  intros k Hk IH Hlt. change (Z.succ k) with (k + 1). rewrite ticks_succ, IH by lia.
  set (u := set_field _ _).
  assert (period_of bcd (ce u) = v - k) as Hu by (apply (period_encode bcd (v - k)); lia).
  assert (out u = out s) as Ho.
  { change (rate_out (mode_of s) k (v - k) (out s) = out s). unfold rate_out.
    destruct (Z.eqb_spec (v - k) 1); [lia|]. by rewrite andb_false_r. }
  unfold tick. change (count_state u) with (count_state s). rewrite Hst.
  change (stopped u) with (stopped s). rewrite Hrun. change (cw_bcd (control u)) with bcd. rewrite Hu.
  change (mode_of u) with (mode_of s). rewrite Ho. unfold rate_out.
  destruct (Z.eqb_spec (v - k) 1); [lia|]. destruct (Z.ltb_spec 0 (k + 1)); [|lia].
  replace (v - k - 1) with (v - (k + 1)) by lia.
  destruct (mode_of s); try done.
  rewrite bool_decide_true by done. cbn [andb].
  by destruct (Z.eqb_spec (v - (k + 1)) 1), (Z.eqb_spec (v - k) 2); try lia.
Qed.

(** Counting down an even count, two per tick. *)
Lemma ticks_down2 s k :
  count_state s = Active -> stopped s = false -> mode_of s = SquareWave ->
  count_ok (cw_bcd (control s)) (ce s) = true ->
  let bcd := cw_bcd (control s) in
  let v := period_of bcd (ce s) in
  Z.odd v = false -> 0 <= k -> 2 * k < v ->
  ticks k s = s <| ce := encode bcd (v - 2 * k) |>.
Proof.
  intros Hst Hrun Hm Hok bcd v Hev. pose proof (period_bounds bcd (ce s) Hok) as Hv. fold v in Hv.
  revert k. apply (natlike_ind (fun k => 2 * k < v -> _)).
  { intros _. rewrite ticks_0, Z.sub_0_r. unfold v. rewrite encode_period by done. by destruct s. }
  intros k Hk IH Hlt. change (Z.succ k) with (k + 1). rewrite ticks_succ, IH by lia.
  set (u := set_field _ _).
  assert (period_of bcd (ce u) = v - 2 * k) as Hu by (apply (period_encode bcd (v - 2 * k)); lia).
  unfold tick. change (count_state u) with (count_state s). rewrite Hst.
  change (stopped u) with (stopped s). rewrite Hrun. change (cw_bcd (control u)) with bcd. rewrite Hu.
  change (mode_of u) with (mode_of s). rewrite Hm.
  assert (Z.odd (v - 2 * k) = false) as ->.
  { rewrite Z.odd_sub, Hev, Z.odd_mul. done. }
  cbn [andb]. destruct (Z.eqb_spec (v - 2 * k) 2); [lia|].
  by replace (v - 2 * k - 2) with (v - 2 * (k + 1)) by lia.
Qed.

(** The length of the current half of a square wave. *)
Definition half_wave (o : bool) (v : Z) : Z := if o then (v + 1) / 2 else v / 2.

(** An even counter inverts the output when it has counted down. *)
Lemma ticks_half_even s :
  count_state s = Active -> stopped s = false -> mode_of s = SquareWave ->
  count_ok (cw_bcd (control s)) (ce s) = true ->
  let v := period_of (cw_bcd (control s)) (ce s) in
  Z.odd v = false ->
  ticks (v / 2) s = s <| ce := cr s |> <| null := false |> <| out := negb (out s) |>.
Proof.
  intros Hst Hrun Hm Hok v Hev. pose proof (period_bounds _ (ce s) Hok) as Hv. fold v in Hv.
  assert (v = 2 * (v / 2)) as Hv2.
  { rewrite <-Z.negb_even, negb_false_iff, Z.even_spec in Hev. destruct Hev as [m ->]. div_lia. }
  replace (v / 2) with (v / 2 - 1 + 1) by lia. rewrite ticks_succ by lia.
  rewrite ticks_down2 by (done || fold v; lia). fold v.
  replace (v - 2 * (v / 2 - 1)) with 2 by lia. rewrite encode_small by (by right).
  set (u := set_field _ s). unfold tick. change (count_state u) with (count_state s). rewrite Hst.
  change (stopped u) with (stopped s). rewrite Hrun. change (cw_bcd (control u)) with (cw_bcd (control s)).
  change (mode_of u) with (mode_of s). rewrite Hm. change (ce u) with 2.
  assert (period_of (cw_bcd (control s)) 2 = 2) as -> by (by destruct (cw_bcd _)). done.
Qed.

(** A tick of an odd counter. *)
Lemma tick_odd s :
  count_state s = Active -> stopped s = false -> mode_of s = SquareWave ->
  count_ok (cw_bcd (control s)) (ce s) = true ->
  let bcd := cw_bcd (control s) in
  let v := period_of bcd (ce s) in
  Z.odd v = true ->
  let u := s <| ce := encode bcd (v - 1) |> in
  count_ok bcd (ce u) = true /\ Z.odd (period_of bcd (ce u)) = false /\
  (v <> 1 -> period_of bcd (ce u) = v - 1) /\
  tick s = if out s then u else tick u.
Proof.
  intros Hst Hrun Hm Hok bcd v Hodd u. pose proof (period_bounds bcd (ce s) Hok) as Hv. fold v in Hv.
  assert (period_of bcd (ce u) = if v =? 1 then modulus bcd else v - 1) as Hu.
  { change (period_of bcd (encode bcd (v - 1)) = if v =? 1 then modulus bcd else v - 1).
    destruct (Z.eqb_spec v 1) as [->|]; [by destruct bcd|]. apply period_encode. lia. }
  assert (Z.odd (period_of bcd (ce u)) = false) as Heu.
  { rewrite Hu. destruct (Z.eqb_spec v 1); [by destruct bcd|]. by rewrite Z.odd_sub, Hodd. }
  split; [apply encode_ok|]. split; [done|]. split.
  { intros Hne. rewrite Hu. by destruct (Z.eqb_spec v 1). }
  unfold tick. change (count_state u) with (count_state s). rewrite Hst.
  change (stopped u) with (stopped s). rewrite Hrun. change (cw_bcd (control u)) with bcd.
  change (mode_of u) with (mode_of s). rewrite Hm. fold bcd v. rewrite Heu, Hodd, Hu. cbn [andb].
  change (out u) with (out s). by destruct (out s).
Qed.

(** A loaded square wave inverts its output after half a wave. *)
Lemma ticks_half s :
  count_state s = Active -> stopped s = false -> mode_of s = SquareWave ->
  count_ok (cw_bcd (control s)) (ce s) = true ->
  let v := period_of (cw_bcd (control s)) (ce s) in
  v <> 1 ->
  ticks (half_wave (out s) v) s = s <| ce := cr s |> <| null := false |> <| out := negb (out s) |>.
Proof.
  intros Hst Hrun Hm Hok v Hne. pose proof (period_bounds _ (ce s) Hok) as Hv. fold v in Hv.
  unfold half_wave. destruct (Z.odd v) eqn:Hodd.
  2: { pose proof Hodd as Hev. rewrite <-Z.negb_even, negb_false_iff, Z.even_spec in Hev.
       destruct Hev as [m Hev]. replace (if out s then (v + 1) / 2 else v / 2) with (v / 2)
         by (destruct (out s); div_lia). by apply ticks_half_even. }
  destruct (tick_odd s Hst Hrun Hm Hok Hodd) as (Hu1 & Hu2 & Hu3 & Htick).
  fold v in Hu1, Hu2, Hu3, Htick. set (u := s <| ce := _ |>) in *. specialize (Hu3 Hne).
  pose proof (ticks_half_even u Hst Hrun Hm Hu1 Hu2) as Hh.
  change (cw_bcd (control u)) with (cw_bcd (control s)) in Hh. rewrite Hu3 in Hh.
  apply Z.odd_spec in Hodd as [m Hodd]. rewrite ticks_pred by (destruct (out s); div_lia).
  rewrite Htick. destruct (out s) eqn:Eo.
  - replace ((v + 1) / 2 - 1) with ((v - 1) / 2) by div_lia. rewrite Hh. change (out u) with (out s).
    rewrite Eo. done.
  - rewrite <-ticks_pred by div_lia. replace (v / 2) with ((v - 1) / 2) by div_lia.
    rewrite Hh. change (out u) with (out s). by rewrite Eo.
Qed.

(** A counter past its terminal count wraps. *)
Lemma ticks_counting s n :
  count_state s = Counting -> stopped s = false -> count_ok (cw_bcd (control s)) (ce s) = true ->
  0 < n ->
  ticks n s = s <| ce := encode (cw_bcd (control s)) (period_of (cw_bcd (control s)) (ce s) - n) |>
                <| out := true |>.
Proof.
  intros Hst Hrun Hok Hn. set (bcd := cw_bcd (control s)). set (v := period_of bcd (ce s)).
  replace n with (n - 1 + 1) by lia. assert (0 <= n - 1) as Hn1 by lia. revert Hn1. generalize (n - 1).
  apply natlike_ind; [change (ticks (0 + 1) s) with (tick s); unfold tick; by rewrite Hst, Hrun|].
  intros k Hk IH. change (Z.succ k) with (k + 1). rewrite ticks_succ, IH by lia. set (u := set_field _ _).
  unfold tick. change (count_state u) with (count_state s). rewrite Hst.
  change (stopped u) with (stopped s). rewrite Hrun. change (cw_bcd (control u)) with bcd.
  assert (encode bcd (period_of bcd (ce u) - 1) = encode bcd (v - (k + 1 + 1))) as ->; [|done].
  rewrite <-encode_mod, <-Zminus_mod_idemp_l. change (ce u) with (encode bcd (v - (k + 1))).
  rewrite <-(encode_mod bcd (v - (k + 1))). pose proof (modulus_pos bcd).
  pose proof (Z.mod_pos_bound (v - (k + 1)) (modulus bcd)) as Hb.
  assert (period_of bcd (encode bcd ((v - (k + 1)) mod modulus bcd)) mod modulus bcd
    = (v - (k + 1)) mod modulus bcd) as ->.
  { destruct (Z.eq_dec ((v - (k + 1)) mod modulus bcd) 0) as [->|]; [by destruct bcd|].
    rewrite period_encode by lia. by rewrite Z.mod_mod by lia. }
  rewrite Zminus_mod_idemp_l, encode_mod. f_equal. lia.
Qed.

(** A loaded periodic counter is back where it was after a period. *)
Lemma ticks_whole s :
  settled s = true -> count_state s = Active -> stopped s = false -> periodic (mode_of s) = true ->
  ce s = cr s -> ticks (period_of (cw_bcd (control s)) (cr s)) s = s.
Proof.
  intros Hs Hst Hrun Hp Hload. pose proof (settled_ce s Hs) as Hok.
  pose proof (period_bounds _ (ce s) Hok) as Hv. destruct (settled_periodic s Hs Hp) as [Hne Hnull].
  specialize (Hnull Hst). rewrite <-Hload in *.
  pose proof (period_eq_small _ (ce s) 1 Hok (or_introl eq_refl)) as Heq1. rewrite Hne in Heq1. symmetry in Heq1.
  set (v := period_of _ _) in *. apply Z.eqb_neq in Heq1, Hne.
  destruct (mode_of s) eqn:Hm; try done.
  - destruct (settled_rate s Hs Hm) as [_ Ho]. specialize (Ho Hst Hne).
    replace v with (v - 1 + 1) by lia. rewrite ticks_succ, ticks_down by (done || congruence || fold v; lia).
    fold v. replace (v - (v - 1)) with 1 by lia. rewrite encode_small by (by left).
    unfold tick. set (u := set_field _ _). change (count_state u) with (count_state s). rewrite Hst.
    change (stopped u) with (stopped s). rewrite Hrun. change (mode_of u) with (mode_of s). rewrite Hm.
    change (ce u) with 1. assert (forall b, period_of b 1 = 1) as -> by (by intros []).
    cbn [Z.eqb Pos.eqb]. change (cr u) with (cr s). unfold u. rewrite <-Hload, <-Ho, <-Hnull. by destruct s.
  - pose proof (ticks_half s Hst Hrun Hm Hok Heq1) as H1. fold v in H1.
    replace v with (half_wave (out s) v + half_wave (negb (out s)) v) by (destruct (out s); cbn; div_lia).
    rewrite ticks_add by (destruct (out s); cbn; div_lia). rewrite H1. set (u := set_field _ _).
    assert (ce u = ce s) as Hcu by (by symmetry).
    pose proof (ticks_half u Hst Hrun Hm) as H2. change (out u) with (negb (out s)) in H2.
    change (cw_bcd (control u)) with (cw_bcd (control s)) in H2. rewrite Hcu in H2. fold v in H2.
    rewrite H2 by done. rewrite negb_involutive. change (cr u) with (cr s). unfold u.
    rewrite <-Hload, <-Hnull. by destruct s.
Qed.

(** * [evaluate] against the reference *)

Lemma tstate_set_out o t : tstate (set_out o t) = tstate t <| out := o |>.
Proof.
  unfold set_out, sync_interrupt. destruct (Bool.eqb (out (tstate t)) o) eqn:E; cbn [negb].
  - apply eqb_prop in E. rewrite <-E. by destruct t as [? ? []].
  - by destruct t as [? [|] []].
Qed.

Lemma tstate_set_ce v t :
  tstate (set_ce v t) = tstate t <| ce := encode (cw_bcd (control (tstate t))) v |>.
Proof.
  unfold set_ce, encode. destruct (cw_bcd (control (tstate t))); [|done].
  pose proof (Z.mod_pos_bound v 10000). unfold ucast. rewrite (Z.mod_small (v mod 10000)) by lia. done.
Qed.

(** The result of a part of an iteration that continues with [n'] of [n] ticks. *)
Definition advanced (s : TimerState) (n : Z) (t' : Timer) (n' : Z) : Prop :=
  0 <= n' < n /\ tstate t' = ticks (n - n') s.

Lemma terminal_rate t m :
  mode_of (tstate t) = m -> m <> SquareWave -> count_state (tstate t) = Active ->
  stopped (tstate t) = false -> period_of (cw_bcd (control (tstate t))) (ce (tstate t)) = 1 ->
  tstate (terminal m (put_ce 0 t)) = tick (tstate t).
Proof.
  intros Hm Hne Hst Hrun Hv. unfold tick. rewrite Hst, Hrun, Hv, Hm.
  destruct m; try done; unfold terminal, put_state, load_ce; cbn [tstate];
    change (tstate (?t <| tstate := ?s |>)) with s; by rewrite tstate_set_out.
Qed.

Lemma count_down1 {E} t m n :
  let s := tstate t in
  mode_of s = m -> m <> SquareWave -> settled s = true -> count_state s = Active ->
  stopped s = false -> 0 < n < 2 ^ 64 ->
  exists t' n', count_down (E:=E) m (cw_bcd (control s)) 1 n t = Ok (t', n') /\ advanced s n t' n'.
Proof.
  intros s Hm Hne Hs Hst Hrun Hn. pose proof (settled_ce s Hs) as Hok.
  set (bcd := cw_bcd (control s)) in *. pose proof (period_bounds bcd (ce s) Hok) as Hv.
  unfold count_down. fold s. rewrite (period_eq_small bcd) by (done || by left).
  destruct (Z.eqb_spec (period_of bcd (ce s)) 1) as [H1|H1].
  { rewrite usub_ok by lia. eexists _, _. split; [reflexivity|]. split; [lia|].
    replace (n - (n - 1)) with 1 by lia. by apply terminal_rate. }
  rewrite counter_sub_mod, (Z.mod_small (_ - 1)), Z.div_1_r by (done || lia).
  set (v := period_of bcd (ce s)) in *. destruct (Z.leb_spec (v - 1) n).
  - rewrite usub_ok by lia. cbn [res_bind]. eexists _, _. split; [reflexivity|]. split; [lia|].
    replace (n - (n - (v - 1))) with (v - 1) by lia.
    rewrite ticks_down by (done || fold s; congruence || fold bcd v; lia). fold bcd v. rewrite Hm. unfold rate_out.
    destruct (Z.ltb_spec 0 (v - 1)); [|lia]. replace (v - (v - 1)) with 1 by lia.
    rewrite encode_small by (by left). destruct (bool_decide (m = RateGenerator)); cbn [andb Z.eqb Pos.eqb].
    + rewrite tstate_set_out. done.
    + by destruct t as [? ? []].
  - rewrite umul_ok by lia. cbn [res_bind]. eexists _, _. split; [reflexivity|]. split; [lia|].
    rewrite tstate_set_ce. fold s bcd. rewrite counter_sub_mod, encode_mod by (done || lia). fold v.
    rewrite Z.sub_0_r, Z.mul_1_r, ticks_down by (done || congruence || fold bcd v; lia). fold bcd v.
    unfold rate_out. destruct (Z.eqb_spec (v - n) 1); [lia|]. rewrite andb_false_r. by destruct s.
Qed.

Lemma count_down2 {E} t n :
  let s := tstate t in
  mode_of s = SquareWave -> count_ok (cw_bcd (control s)) (ce s) = true -> count_state s = Active ->
  stopped s = false -> Z.odd (period_of (cw_bcd (control s)) (ce s)) = false -> 0 < n < 2 ^ 62 ->
  exists t' n', count_down (E:=E) SquareWave (cw_bcd (control s)) 2 n t = Ok (t', n') /\ advanced s n t' n'.
Proof.
  intros s Hm Hok Hst Hrun Hev Hn.
  set (bcd := cw_bcd (control s)) in *. pose proof (period_bounds bcd (ce s) Hok) as Hv.
  unfold count_down. fold s. rewrite (period_eq_small bcd) by (done || by right).
  pose proof Hev as Hev'. rewrite <-Z.negb_even, negb_false_iff, Z.even_spec in Hev'. destruct Hev' as [h Hh].
  destruct (Z.eqb_spec (period_of bcd (ce s)) 2) as [H2|H2].
  { rewrite usub_ok by lia. eexists _, _. split; [reflexivity|]. split; [lia|].
    replace (n - (n - 1)) with (period_of bcd (ce s) / 2) by (rewrite H2; div_lia).
    unfold bcd in *. rewrite ticks_half_even by done. unfold terminal, load_ce.
    change (tstate (?t <| tstate := ?s |>)) with s. by rewrite tstate_set_out. }
  rewrite counter_sub_mod, (Z.mod_small (_ - 2)) by (done || lia).
  set (v := period_of bcd (ce s)) in *. replace ((v - 2) / 2) with (h - 1) by div_lia.
  destruct (Z.leb_spec (h - 1) n).
  - rewrite usub_ok by lia. cbn [res_bind]. eexists _, _. split; [reflexivity|]. split; [lia|].
    replace (n - (n - (h - 1))) with (h - 1) by lia.
    rewrite ticks_down2 by (done || fold bcd v; lia). fold bcd v.
    replace (v - 2 * (h - 1)) with 2 by lia. rewrite encode_small by (by right). done.
  - rewrite umul_ok by lia. cbn [res_bind]. eexists _, _. split; [reflexivity|]. split; [lia|].
    rewrite tstate_set_ce. fold s bcd. rewrite counter_sub_mod, encode_mod by (done || lia). fold v.
    rewrite Z.sub_0_r, ticks_down2 by (done || fold bcd v; lia). fold bcd v.
    by replace (v - n * 2) with (v - 2 * n) by lia.
Qed.

Lemma odd_land c : (negb (Z.land c 1 =? 0)) = Z.odd c.
Proof.
  change 1 with (Z.ones 1). rewrite Z.land_ones by lia. change (2 ^ 1) with 2. rewrite Zmod_odd.
  by destruct (Z.odd c).
Qed.

(** The body of the loop for a square wave. *)
Lemma eval_square {E} t n :
  let s := tstate t in
  mode_of s = SquareWave -> settled s = true -> count_state s = Active -> stopped s = false ->
  0 < n < 2 ^ 62 ->
  exists t' n', eval_state (E:=E) SquareWave (cw_bcd (control s)) n t = Ok (t', n', Continue) /\
    advanced s n t' n'.
Proof.
  intros s Hm Hs Hst Hrun Hn. pose proof (settled_ce s Hs) as Hok. unfold eval_state. fold s. rewrite Hst.
  assert (negb (gate s) && gate_stops_count SquareWave = false) as -> by (rewrite <-Hm; exact Hrun).
  rewrite odd_land. destruct (Z.odd (ce s)) eqn:Hodd.
  2: { rewrite <-(period_odd (cw_bcd (control s))) in Hodd by done.
       destruct (count_down2 (E:=E) t n) as (t' & n' & He & Ha); [done..|].
       fold s in He. rewrite He. cbn [res_bind]. eauto. }
  rewrite (clear_low_bit (cw_bcd (control s))) by done.
  rewrite <-(period_odd (cw_bcd (control s))) in Hodd by done.
  destruct (tick_odd s Hst Hrun Hm Hok Hodd) as (Hu1 & Hu2 & _ & Htick).
  set (t1 := put_ce _ t). set (u := s <| ce := _ |>) in *. destruct (out s).
  - rewrite usub_ok by lia. cbn [res_bind]. eexists _, _. split; [reflexivity|]. split; [lia|].
    by replace (n - (n - 1)) with 1 by lia.
  - destruct (count_down2 (E:=E) t1 n) as (t' & n' & He & Hlt & Ht'); [done..|].
    change (cw_bcd (control (tstate t1))) with (cw_bcd (control s)) in He. rewrite He. cbn [res_bind].
    eexists _, _. split; [reflexivity|]. split; [done|]. rewrite Ht'. change (tstate t1) with u.
    by rewrite (ticks_pred _ s), Htick, <-ticks_pred by lia.
Qed.

(** The [match] on the counter's state, for any mode. *)
Lemma eval_state_ticks {E} t n :
  let s := tstate t in
  settled s = true -> 0 < n < 2 ^ 62 ->
  exists t' n' f, eval_state (E:=E) (mode_of s) (cw_bcd (control s)) n t = Ok (t', n', f) /\
    match f with
    | Continue => advanced s n t' n'
    | Break => tstate t' = ticks n s
    end.
Proof.
  intros s Hs Hn. destruct (count_state s) eqn:Hst.
  - exists t, n, Break. unfold eval_state. fold s. rewrite Hst. split; [done|].
    symmetry. apply ticks_fixed. unfold tick. by rewrite Hst.
  - exists t, n, Break. unfold eval_state. fold s. rewrite Hst. split; [done|].
    symmetry. apply ticks_fixed. unfold tick. by rewrite Hst.
  - unfold eval_state. fold s. rewrite Hst, usub_ok by lia. cbn [res_bind]. eexists _, _, Continue.
    split; [reflexivity|]. split; [lia|]. replace (n - (n - 1)) with 1 by lia.
    rewrite ticks_1. unfold tick. by rewrite Hst.
  - destruct (stopped s) eqn:Hrun.
    { exists t, n, Break. unfold eval_state. fold s. rewrite Hst. unfold stopped in Hrun. rewrite Hrun.
      split; [done|]. symmetry. apply ticks_fixed. unfold tick, stopped. by rewrite Hst, Hrun. }
    destruct (decide (mode_of s = SquareWave)) as [Hsq|Hsq].
    { rewrite Hsq. destruct (eval_square (E:=E) t n) as (t' & n' & ? & ?); [done..|]. by exists t', n', Continue. }
    destruct (count_down1 (E:=E) t (mode_of s) n) as (t' & n' & He & Ha); [done..|lia|].
    fold s in He. exists t', n', Continue. split; [|done]. unfold eval_state. fold s. rewrite Hst.
    unfold stopped in Hrun. rewrite Hrun. destruct (mode_of s); try done; by rewrite He.
  - unfold eval_state. fold s. rewrite Hst. destruct (stopped s) eqn:Hrun.
    { exists t, n, Break. unfold stopped in Hrun. rewrite Hrun.
      split; [done|]. fold s. symmetry. apply ticks_fixed. unfold tick, stopped. by rewrite Hst, Hrun. }
    pose proof Hrun as Hrun'. unfold stopped in Hrun'. rewrite Hrun'. eexists _, _, Continue.
    split; [reflexivity|]. split; [lia|]. rewrite tstate_set_out, tstate_set_ce. fold s. rewrite Z.sub_0_r.
    rewrite counter_sub_mod, encode_mod by (eauto using settled_ce || lia). symmetry.
    apply ticks_counting; [done..|by apply settled_ce|lia].
Qed.

(** Skipping whole periods. *)
Lemma skip_periods_ticks t n :
  let s := tstate t in
  settled s = true -> 0 < n ->
  exists t' n' f, skip_periods (mode_of s) (cw_bcd (control s)) n t = (t', n', f) /\ tstate t' = s /\
    match f with
    | Continue => 0 < n' <= n /\ ticks (n - n') s = s
    | Break => ticks n s = s
    end.
Proof.
  intros s Hs Hn. unfold skip_periods. fold s.
  assert (exists t' n' f, (t, n, Continue) = (t', n', f) /\ tstate t' = s /\
    match f with Continue => 0 < n' <= n /\ ticks (n - n') s = s | Break => ticks n s = s end) as Hno.
  { exists t, n, Continue. rewrite Z.sub_diag. split_and!; done || lia. }
  destruct (bool_decide (count_state s = Active) && (ce s =? cr s) && periodic (mode_of s)) eqn:Hc; [|done].
  destruct (Z.leb_spec (period_of (cw_bcd (control s)) (cr s)) n); [|done].
  rewrite !andb_true_iff, bool_decide_eq_true, Z.eqb_eq in Hc. destruct Hc as [[Hst Hload] Hp].
  set (p := period_of _ _) in *. pose proof (period_bounds _ _ (settled_cr s Hs)) as Hpb. fold p in Hpb.
  assert (ticks p s = s) as Hwhole.
  { destruct (stopped s) eqn:Hrun; [|by apply ticks_whole].
    apply ticks_fixed. unfold tick. by rewrite Hst, Hrun. }
  pose proof (Z.div_mod n p). pose proof (Z.mod_pos_bound n p).
  assert (ticks (n - n mod p) s = s) as Hskip.
  { replace (n - n mod p) with (n / p * p) by lia. apply ticks_period; [lia|apply Z.div_pos; lia|done]. }
  eexists _, _, _. split; [reflexivity|]. split.
  { rewrite !tstate_set_out. fold s. by destruct s. }
  destruct (Z.eqb_spec (n mod p) 0) as [E0|]; [by rewrite E0, Z.sub_0_r in Hskip|]. split; [lia|done].
Qed.

Lemma eval_step_ticks {E} t n :
  let s := tstate t in
  settled s = true -> 0 < n < 2 ^ 62 ->
  exists t' n' f, eval_step (E:=E) (mode_of s) (cw_bcd (control s)) n t = Ok (t', n', f) /\
    match f with
    | Continue => advanced s n t' n'
    | Break => tstate t' = ticks n s
    end.
Proof.
  intros s Hs Hn. unfold eval_step.
  destruct (skip_periods_ticks t n Hs ltac:(lia)) as (t1 & n1 & f1 & He1 & Ht1 & Hf1).
  fold s in He1, Ht1, Hf1. rewrite He1. destruct f1.
  2: { exists t1, n1, Break. split; [done|]. by rewrite Hf1. }
  destruct Hf1 as [Hn1 Hskip]. rewrite <-Ht1 in Hs.
  destruct (eval_state_ticks (E:=E) t1 n1 Hs ltac:(lia)) as (t2 & n2 & f2 & He2 & Hf2).
  rewrite Ht1 in He2, Hf2. exists t2, n2, f2. split; [done|].
  destruct f2; [destruct Hf2 as [Hlt Hf2]; split; [lia|]|]; rewrite Hf2.
  - replace (n - n2) with (n - n1 + (n1 - n2)) by lia. by rewrite ticks_add, Hskip by lia.
  - replace n with (n - n1 + n1) by lia. by rewrite ticks_add, Hskip by lia.
Qed.

Lemma eval_loop_ticks {E} fuel t n :
  let s := tstate t in
  settled s = true -> 0 <= n < 2 ^ 62 -> (Z.to_nat n < fuel)%nat ->
  exists t', eval_loop (E:=E) fuel (mode_of s) (cw_bcd (control s)) n t = Ok t' /\ tstate t' = ticks n s.
Proof.
  revert t n. induction fuel as [|fuel IH]; intros t n s Hs Hn Hf; [lia|]. cbn [eval_loop].
  destruct (Z.ltb_spec 0 n).
  2: { replace n with 0 by lia. by exists t. }
  destruct (eval_step_ticks (E:=E) t n Hs ltac:(lia)) as (t1 & n1 & f & He & Hf1).
  fold s in He, Hf1. rewrite He. cbn [res_bind]. destruct f; [|by exists t1]. destruct Hf1 as [Hn1 Ht1].
  assert (control (tstate t1) = control s) as Hc.
  { rewrite Ht1. unfold ticks. induction (Z.to_nat (n - n1)) as [|k IHk]; [done|].
    rewrite Nat.iter_succ. by rewrite (proj1 (tick_static _)). }
  destruct (IH t1 n1) as (t' & He' & Ht'); [rewrite Ht1; by apply ticks_settled|lia|lia|].
  rewrite (mode_of_control s) in He' by done. rewrite Hc in He'. exists t'. split; [done|].
  rewrite Ht', Ht1, <-ticks_add by lia. f_equal. lia.
Qed.

(** C3: batched counting is exact. Evaluating a settled channel by any number
    of ticks leaves it in the state that as many single clock pulses of the
    reference lead to; in particular the loop ends. *)
Theorem evaluate_counts_ticks (t : Timer) (n : Z) :
  settled (tstate t) = true -> 0 <= n < 2 ^ 62 ->
  exists t', timer_evaluate (E:=void) n t = Ok t' /\ tstate t' = ticks n (tstate t) /\
    settled (tstate t') = true.
Proof.
  intros Hs Hn. unfold timer_evaluate. rewrite op_mode_ok. cbn [res_bind].
  destruct (eval_loop_ticks (E:=void) (S (Z.to_nat n)) t n Hs Hn) as (t' & He & Ht'); [lia|].
  exists t'. split; [done|]. split; [done|]. rewrite Ht'. by apply ticks_settled.
Qed.

(** * The output of a channel *)

(** The output keeps its level for the first [k] ticks, the last one excluded. *)
Definition quiet (k : Z) (s : TimerState) : Prop := forall j, 0 <= j < k -> out (ticks j s) = out s.

Lemma quiet_fixed k s : tick s = s -> quiet k s.
Proof. intros Hs j _. by rewrite ticks_fixed. Qed.

Lemma quiet_step k s : out (tick s) = out s -> quiet k (tick s) -> quiet (k + 1) s.
Proof.
  intros Ho Hq j Hj. destruct (Z.eq_dec j 0) as [->|]; [done|].
  rewrite ticks_pred, Hq by lia. done.
Qed.

(** A counter that counts one per tick. *)
Lemma quiet_down s :
  count_state s = Active -> stopped s = false -> mode_of s <> SquareWave ->
  count_ok (cw_bcd (control s)) (ce s) = true ->
  let v := period_of (cw_bcd (control s)) (ce s) in
  quiet (if bool_decide (mode_of s = RateGenerator) then Z.max 1 (v - 1) else v) s.
Proof.
  intros Hst Hrun Hm Hok v j Hj. pose proof (period_bounds _ (ce s) Hok) as Hv. fold v in Hv.
  destruct (Z.eq_dec j 0) as [->|]; [done|].
  assert (j < v) by (destruct (bool_decide _); lia).
  rewrite ticks_down by (done || fold v; lia). fold v.
  change (out _) with (rate_out (mode_of s) j (v - j) (out s)) at 1. unfold rate_out.
  destruct (bool_decide (mode_of s = RateGenerator)); [|done].
  destruct (Z.eqb_spec (v - j) 1); [lia|]. by rewrite andb_false_r.
Qed.

(** The ticks left in the current half of a square wave. *)
Definition wave_left (bcd o : bool) (v : Z) : Z :=
  (if Z.odd v then (if v =? 1 then modulus bcd else v - 1) / 2 + b2z o else v / 2).

Lemma quiet_even s :
  count_state s = Active -> stopped s = false -> mode_of s = SquareWave ->
  count_ok (cw_bcd (control s)) (ce s) = true ->
  let v := period_of (cw_bcd (control s)) (ce s) in
  Z.odd v = false -> quiet (v / 2) s.
Proof.
  intros Hst Hrun Hm Hok v Hev j Hj. rewrite ticks_down2 by (done || fold v; div_lia). done.
Qed.

(** The output of a square wave inverts at the end of the half, not before. *)
Lemma square_half s :
  count_state s = Active -> stopped s = false -> mode_of s = SquareWave ->
  count_ok (cw_bcd (control s)) (ce s) = true ->
  let bcd := cw_bcd (control s) in
  let k := wave_left bcd (out s) (period_of bcd (ce s)) in
  0 < k /\ quiet k s /\
  ticks k s = s <| ce := cr s |> <| null := false |> <| out := negb (out s) |>.
Proof.
  intros Hst Hrun Hm Hok bcd k. pose proof (period_bounds bcd (ce s) Hok) as Hv.
  unfold wave_left in k. subst k. set (v := period_of bcd (ce s)) in *. destruct (Z.odd v) eqn:Hodd.
  2: { pose proof Hodd as Hev. rewrite <-Z.negb_even, negb_false_iff, Z.even_spec in Hev.
       destruct Hev as [m Hev]. split; [div_lia|]. split; [by apply quiet_even|by apply ticks_half_even]. }
  destruct (tick_odd s Hst Hrun Hm Hok Hodd) as (Hu1 & Hu2 & Hu3 & Htick).
  fold bcd v in Hu1, Hu2, Hu3, Htick. set (u := s <| ce := _ |>) in *.
  assert (period_of bcd (ce u) = if v =? 1 then modulus bcd else v - 1) as Hu.
  { destruct (Z.eqb_spec v 1) as [E|]; [|by apply Hu3]. unfold u.
    change (period_of bcd (encode bcd (v - 1)) = modulus bcd). rewrite E. by destruct bcd. }
  pose proof (ticks_half_even u Hst Hrun Hm Hu1 Hu2) as Hh. pose proof (quiet_even u Hst Hrun Hm Hu1 Hu2) as Hq.
  change (cw_bcd (control u)) with bcd in Hh, Hq. rewrite Hu in Hh, Hq. set (w := (if v =? 1 then _ else _) / 2) in *.
  assert (0 < w) as Hw.
  { unfold w. destruct (Z.eqb_spec v 1); [by destruct bcd|]. apply Z.odd_spec in Hodd as [m Hodd]. div_lia. }
  destruct (out s) eqn:Ho; cbn [b2z].
  - split; [lia|]. split.
    + apply quiet_step; rewrite Htick; [done|exact Hq].
    + rewrite ticks_pred, Htick by lia. replace (w + 1 - 1) with w by lia. rewrite Hh.
      change (out u) with (out s). by rewrite Ho.
  - rewrite Z.add_0_r. split; [done|]. split.
    + intros j Hj. destruct (Z.eq_dec j 0) as [->|]; [done|].
      rewrite ticks_pred, Htick, <-ticks_pred by lia. by apply Hq.
    + rewrite ticks_pred, Htick, <-ticks_pred, Hh by lia. change (out u) with (out s). by rewrite Ho.
Qed.

(** [next_wakeup] in terms of counts. *)
Definition wakeup_ticks (m : Mode) (bcd o : bool) (v : Z) : Z :=
  match m with
  | RateGenerator => Z.max 1 (v - 1)
  | SquareWave => wave_left bcd o v
  | _ => v
  end.

Lemma wave_left_count bcd o c :
  count_ok bcd c = true ->
  (counter_sub c 2 bcd + 2) / 2 + b2z (o && negb (Z.land c 1 =? 0)) = wave_left bcd o (period_of bcd c).
Proof.
  intros Hc. pose proof (period_bounds bcd c Hc) as Hp. pose proof (modulus_pos bcd).
  rewrite counter_sub_mod, odd_land, <-(period_odd bcd) by (done || lia). set (v := period_of bcd c) in *.
  unfold wave_left. destruct (Z.eqb_spec v 1) as [->|].
  - cbn [Z.odd]. rewrite andb_true_r. f_equal. by destruct bcd.
  - assert ((v - 2) mod modulus bcd = v - 2) as -> by (apply Z.mod_small; lia).
    replace (v - 2 + 2) with v by lia. destruct (Z.odd v) eqn:Ho; rewrite ?andb_true_r, ?andb_false_r.
    + f_equal. apply Z.odd_spec in Ho as [m ->]. div_lia.
    + cbn [b2z]. lia.
Qed.

Lemma wakeup_ticks_bound m bcd o v :
  1 <= v <= modulus bcd -> 0 < wakeup_ticks m bcd o v <= 65537.
Proof.
  intros Hv. assert (modulus bcd <= 65536) by (by destruct bcd). unfold wakeup_ticks.
  destruct m; try lia. unfold wave_left. destruct (Z.odd v) eqn:Ho.
  - destruct (Z.eqb_spec v 1); [by destruct bcd, o|]. apply Z.odd_spec in Ho as [m Ho].
    destruct o; cbn [b2z]; div_lia.
  - rewrite <-Z.negb_even, negb_false_iff, Z.even_spec in Ho. destruct Ho as [m Ho]. div_lia.
Qed.

Lemma next_wakeup_count {E} s :
  settled s = true ->
  let bcd := cw_bcd (control s) in
  next_wakeup (E:=E) s = Ok
    match count_state s with
    | Inactive | WaitingForGate => None
    | Reloading =>
        if stopped s then None else Some (wakeup_ticks (mode_of s) bcd (out s) (period_of bcd (cr s)) + 1)
    | Active =>
        if stopped s then None else Some (wakeup_ticks (mode_of s) bcd (out s) (period_of bcd (ce s)))
    | Counting => if out s || stopped s then None else Some 1
    end.
Proof.
  intros Hs bcd. unfold next_wakeup. rewrite op_mode_ok. cbn [res_bind]. fold bcd. fold (stopped s).
  assert (forall c, count_ok bcd c = true ->
    match mode_of s with
    | TerminalCount | HardwareOneShot | SoftwareStrobe | HardwareStrobe => uadd 64 (counter_sub c 1 bcd) 1
    | RateGenerator => if c =? 1 then Ok 1 else Ok (counter_sub c 1 bcd)
    | SquareWave => let! n := uadd 64 (counter_sub c 2 bcd) 2 in
        uadd 64 (n / 2) (b2z (out s && negb (Z.land c 1 =? 0)))
    end = Ok (E:=E) (wakeup_ticks (mode_of s) bcd (out s) (period_of bcd c))) as Hv.
  { intros c Hc. pose proof (period_bounds bcd c Hc) as Hp. assert (modulus bcd <= 65536) by (by destruct bcd).
    pose proof (wakeup_ticks_bound (mode_of s) bcd (out s) _ Hp) as Hw.
    pose proof (counter_sub_range bcd c 2 Hc ltac:(lia)).
    assert (counter_sub c 1 bcd = period_of bcd c - 1) as ->.
    { rewrite counter_sub_mod by (done || lia). apply Z.mod_small. lia. }
    rewrite (period_eq_small bcd) by (done || by left).
    unfold wakeup_ticks in *. destruct (mode_of s); try (rewrite uadd_ok by lia; f_equal; lia).
    - destruct (Z.eqb_spec (period_of bcd c) 1); f_equal; lia.
    - rewrite uadd_ok by lia. cbn [res_bind]. by rewrite uadd_ok, wave_left_count by (rewrite ?wave_left_count by done; lia || done). }
  assert (forall c, count_ok bcd c = true -> wakeup_ticks (mode_of s) bcd (out s) (period_of bcd c) <= 65537) as Hb.
  { intros c Hc. apply wakeup_ticks_bound. by apply period_bounds. }
  destruct (count_state s) eqn:Hst; try done.
  - destruct (stopped s); [done|]. rewrite Hv by by apply settled_cr. cbn [res_bind].
    rewrite uadd_ok; [done|]. pose proof (Hb (cr s) (settled_cr s Hs)). lia.
  - destruct (stopped s); [done|]. rewrite Hv by by apply settled_ce. cbn [res_bind].
    rewrite uadd_ok, Z.add_0_r; [done|]. pose proof (Hb (ce s) (settled_ce s Hs)). lia.
  - by destruct (out s || stopped s).
Qed.

(** The output has the level that the mode gives it before it changes next. *)
Definition resting (s : TimerState) : bool :=
  match count_state s, mode_of s with
  | Reloading, (TerminalCount | HardwareOneShot) => negb (out s)
  | Reloading, (SoftwareStrobe | HardwareStrobe) => out s
  | Active, (TerminalCount | HardwareOneShot) => negb (out s)
  | Active, (SoftwareStrobe | HardwareStrobe) => out s
  | Active, RateGenerator => negb (ce s =? 1) || negb (out s)
  | _, _ => true
  end.

Lemma active_next s :
  settled s = true -> count_state s = Active -> stopped s = false ->
  let bcd := cw_bcd (control s) in
  let k := wakeup_ticks (mode_of s) bcd (out s) (period_of bcd (ce s)) in
  quiet k s /\ (resting s = true -> out (ticks k s) = negb (out s)).
Proof.
  intros Hs Hst Hrun bcd k. pose proof (settled_ce s Hs) as Hok. fold bcd in Hok.
  pose proof (period_bounds bcd (ce s) Hok) as Hv. unfold k, wakeup_ticks, resting. rewrite Hst.
  destruct (decide (mode_of s = SquareWave)) as [Hsq|Hsq].
  { rewrite Hsq. destruct (square_half s Hst Hrun Hsq Hok) as (_ & Hq & Ht). split; [done|]. intros _.
    unfold bcd. by rewrite Ht. }
  pose proof (quiet_down s Hst Hrun Hsq Hok) as Hq. fold bcd in Hq. set (v := period_of bcd (ce s)) in *.
  pose proof (ticks_down s (v - 1) Hst Hrun Hsq Hok ltac:(fold bcd v; lia)) as Hd. fold bcd v in Hd.
  replace (v - (v - 1)) with 1 in Hd by lia. rewrite encode_small in Hd by (by left).
  destruct (decide (mode_of s = RateGenerator)) as [Hr|Hr].
  - rewrite bool_decide_true in Hq by done. rewrite Hr in *. split; [exact Hq|].
    pose proof (proj2 (settled_rate s Hs Hr) Hst) as Ho.
    rewrite (period_eq_small bcd (ce s) 1) by (done || by left). fold v. destruct (Z.eqb_spec v 1) as [E|Hne].
    + cbn [negb orb]. rewrite negb_true_iff, E. intros ->. change (Z.max 1 (1 - 1)) with 1. rewrite ticks_1.
      unfold tick. rewrite Hst, Hrun, Hr. fold bcd v. by rewrite E.
    + intros _. replace (Z.max 1 (v - 1)) with (v - 1) by lia. rewrite Hd.
      assert (ce s <> 1) as Hce.
      { intros E. apply Hne. apply Z.eqb_eq. unfold v. rewrite <-(period_eq_small bcd) by (done || by left). by apply Z.eqb_eq. }
      rewrite (Ho Hce). unfold rate_out. destruct (Z.ltb_spec 0 (v - 1)); [done|lia].
  - rewrite bool_decide_false in Hq by done. assert (tick (ticks (v - 1) s) = ticks v s) as Hlast.
    { rewrite <-ticks_succ by lia. f_equal. lia. }
    rewrite Hd in Hlast. unfold tick in Hlast. set (u := set_field _ _) in Hlast.
    change (count_state u) with (count_state s) in Hlast. change (stopped u) with (stopped s) in Hlast.
    change (mode_of u) with (mode_of s) in Hlast. change (ce u) with 1 in Hlast. rewrite Hst, Hrun in Hlast.
    assert (forall b, period_of b 1 = 1) as Hp1 by (by intros []). rewrite Hp1 in Hlast. cbn [Z.eqb Pos.eqb] in Hlast.
    destruct (mode_of s); try done; (split; [exact Hq|]); rewrite <-Hlast; try rewrite negb_true_iff; by intros ->.
Qed.

Lemma reload_static s :
  settled s = true -> count_state s = Reloading ->
  settled (tick s) = true /\ count_state (tick s) = Active /\ stopped (tick s) = stopped s /\
  mode_of (tick s) = mode_of s /\ control (tick s) = control s /\ ce (tick s) = cr s /\
  out (tick s) = out s /\ (resting s = true -> resting (tick s) = true).
Proof.
  intros Hs Hst. pose proof (tick_settled s Hs) as Hts. pose proof (settled_periodic s Hs) as Hper.
  unfold resting. rewrite tick_mode. assert (tick s = s <| ce := cr s |> <| null := false |> <| count_state := Active |>) as Ht.
  { unfold tick. by rewrite Hst. }
  rewrite Ht in *. set (u := s <| ce := _ |> <| null := _ |> <| count_state := _ |>) in *.
  split_and!; try done. rewrite Hst. change (count_state u) with Active.
  destruct (mode_of s) eqn:Hm; try done. intros _. change (ce u) with (cr s).
  destruct (Hper eq_refl) as [-> _]. done.
Qed.

Lemma reloading_next s :
  settled s = true -> count_state s = Reloading -> stopped s = false ->
  let bcd := cw_bcd (control s) in
  let k := wakeup_ticks (mode_of s) bcd (out s) (period_of bcd (cr s)) + 1 in
  quiet k s /\ (resting s = true -> out (ticks k s) = negb (out s)).
Proof.
  intros Hs Hst Hrun bcd k.
  destruct (reload_static s Hs Hst) as (Hs' & Hst' & Hrun' & Hm' & Hc' & Hce' & Ho' & Hrest').
  rewrite Hrun in Hrun'. destruct (active_next (tick s) Hs' Hst' Hrun') as [Hq He].
  rewrite Hm', Hc', Hce', Ho' in Hq, He. fold bcd in Hq, He. split.
  - by apply (quiet_step _ s Ho' Hq).
  - pose proof (wakeup_ticks_bound (mode_of s) bcd (out s) _ (period_bounds bcd (cr s) (settled_cr s Hs))).
    intros Hr. rewrite ticks_pred by lia. unfold k. rewrite Z.add_simpl_r. by apply He, Hrest'.
Qed.

(** A channel whose output cannot change. *)
Lemma idle_quiet s j :
  settled s = true -> 0 <= j ->
  match count_state s with
  | Inactive | WaitingForGate => True
  | Reloading | Active => stopped s = true
  | Counting => out s || stopped s = true
  end -> out (ticks j s) = out s.
Proof.
  intros Hs Hj Hidle. destruct (Z.eq_dec j 0) as [->|]; [done|]. destruct (count_state s) eqn:Hst.
  - rewrite ticks_fixed; [done|]. unfold tick. by rewrite Hst.
  - rewrite ticks_fixed; [done|]. unfold tick. by rewrite Hst.
  - destruct (reload_static s Hs Hst) as (_ & Hst' & Hrun' & _ & _ & _ & Ho' & _).
    rewrite ticks_pred, ticks_fixed by (lia || unfold tick at 1; by rewrite Hst', Hrun', Hidle). done.
  - rewrite ticks_fixed; [done|]. unfold tick. by rewrite Hst, Hidle.
  - destruct (stopped s) eqn:Hrun.
    + rewrite ticks_fixed; [done|]. unfold tick. by rewrite Hst, Hrun.
    + rewrite orb_false_r in Hidle.
      rewrite ticks_counting by (done || lia || by apply settled_ce). done.
Qed.

Lemma evaluate_out {E} t j b :
  settled (tstate t) = true -> 0 <= j < 2 ^ 62 -> out (ticks j (tstate t)) = b ->
  exists t', timer_evaluate (E:=E) j t = Ok t' /\ out (tstate t') = b.
Proof.
  intros Hs Hj Ho. unfold timer_evaluate. rewrite op_mode_ok. cbn [res_bind].
  destruct (eval_loop_ticks (E:=E) (S (Z.to_nat j)) t j Hs Hj ltac:(lia)) as (t' & He & Ht').
  exists t'. split; [done|]. by rewrite Ht'.
Qed.

(** C36: the wakeup of a channel is exact. For a settled channel that
    [next_wakeup] gives [k] ticks, the output does not change before the [k]th
    tick, and changes at the [k]th if it has its resting level; where
    [next_wakeup] gives none the output does not change however far the channel
    is evaluated. The wakeup is at least one tick away. *)
Theorem next_wakeup_exact (t : Timer) :
  settled (tstate t) = true ->
  exists w, next_wakeup (E:=void) (tstate t) = Ok w /\
    match w with
    | Some k =>
        0 < k <= 65538 /\
        (forall j, 0 <= j < k -> exists t', timer_evaluate (E:=void) j t = Ok t' /\
           out (tstate t') = out (tstate t)) /\
        (resting (tstate t) = true -> exists t', timer_evaluate (E:=void) k t = Ok t' /\
           out (tstate t') = negb (out (tstate t)))
    | None =>
        forall j, 0 <= j < 2 ^ 62 -> exists t', timer_evaluate (E:=void) j t = Ok t' /\
          out (tstate t') = out (tstate t)
    end.
Proof.
  intros Hs. rewrite (next_wakeup_count (E:=void) _ Hs). eexists. split; [reflexivity|].
  set (s := tstate t) in *. set (bcd := cw_bcd (control s)) in *.
  pose proof (wakeup_ticks_bound (mode_of s) bcd (out s) _ (period_bounds bcd (ce s) (settled_ce s Hs))) as Hb1.
  pose proof (wakeup_ticks_bound (mode_of s) bcd (out s) _ (period_bounds bcd (cr s) (settled_cr s Hs))) as Hb2.
  assert (forall k, 0 < k <= 65538 -> quiet k s /\ (resting s = true -> out (ticks k s) = negb (out s)) ->
    0 < k <= 65538 /\
    (forall j, 0 <= j < k -> exists t', timer_evaluate (E:=void) j t = Ok t' /\ out (tstate t') = out s) /\
    (resting s = true -> exists t', timer_evaluate (E:=void) k t = Ok t' /\ out (tstate t') = negb (out s))) as Hsome.
  { intros k Hk [Hq He]. split; [done|]. split; [intros j Hj|intros Hr]; (apply evaluate_out; [done|lia|]); auto. }
  assert (match count_state s with Inactive | WaitingForGate => True | Reloading | Active => stopped s = true
    | Counting => out s || stopped s = true end -> forall j, 0 <= j < 2 ^ 62 -> exists t',
    timer_evaluate (E:=void) j t = Ok t' /\ out (tstate t') = out s) as Hnone.
  { intros Hi j Hj. apply evaluate_out; [done..|]. apply idle_quiet; (done || lia). }
  destruct (count_state s) eqn:Hst; [by apply Hnone|by apply Hnone| | |].
  - destruct (stopped s) eqn:Hrun; [by apply Hnone|]. apply Hsome; [lia|]. by apply reloading_next.
  - destruct (stopped s) eqn:Hrun; [by apply Hnone|]. apply Hsome; [lia|]. by apply active_next.
  - destruct (out s || stopped s) eqn:Ho; [by apply Hnone|]. apply Hsome; [lia|].
    apply orb_false_iff in Ho as [Ho Hrun]. split.
    + intros j Hj. by replace j with 0 by lia.
    + intros _. rewrite ticks_counting by (done || by apply settled_ce). by rewrite Ho.
Qed.

(** A rate generator of 5 counts that has just been loaded. *)
Definition rate_timer : Timer :=
  timer_new true (Some []) <| tstate := mkTimerState 5 5 None None Active 0x34 true true false false None |>.

Lemma evaluate_counts_ticks_witness :
  exists t', timer_evaluate (E:=void) 1234 rate_timer = Ok t' /\ tstate t' = ticks 1234 (tstate rate_timer) /\
    settled (tstate t') = true.
Proof. apply (evaluate_counts_ticks rate_timer 1234); [reflexivity|lia]. Defined.

Lemma next_wakeup_exact_witness :
  exists w, next_wakeup (E:=void) (tstate rate_timer) = Ok w /\
    match w with
    | Some k =>
        0 < k <= 65538 /\
        (forall j, 0 <= j < k -> exists t', timer_evaluate (E:=void) j rate_timer = Ok t' /\
           out (tstate t') = out (tstate rate_timer)) /\
        (resting (tstate rate_timer) = true -> exists t', timer_evaluate (E:=void) k rate_timer = Ok t' /\
           out (tstate t') = negb (out (tstate rate_timer)))
    | None =>
        forall j, 0 <= j < 2 ^ 62 -> exists t', timer_evaluate (E:=void) j rate_timer = Ok t' /\
          out (tstate t') = out (tstate rate_timer)
    end.
Proof. apply (next_wakeup_exact rate_timer). reflexivity. Defined.
