(* ===== verification/PitSpec.v ===== *)
(** Correctness of the 8254 timer ([vm/devices/chipset/src/pit/mod.rs]): the
    waveforms of a programmed channel, the safety of the device under any
    guest accesses, the wakeups it arms, saving and restoring, and the accesses
    at which the device departs from an 8254. *)

From S2P Require Import Prelude ChipsetDevice VmTime VmTimeSpec Pit PitTick.

(** * Waveforms *)

(** The output [j] ticks after a count of [n] was loaded. *)
Definition wave (m : Mode) (n j : Z) : bool :=
  match m with
  | TerminalCount | HardwareOneShot => n <=? j
  | RateGenerator => negb (j mod n =? n - 1)
  | SquareWave => j mod n <? (n + 1) / 2
  | SoftwareStrobe | HardwareStrobe => negb (j =? n)
  end.

(** The output at the time the count is loaded. *)
Definition wave_start (m : Mode) : bool :=
  match m with TerminalCount | HardwareOneShot => false | _ => true end.

Lemma ticks_mod s p j :
  0 < p -> 0 <= j -> ticks p s = s -> ticks j s = ticks (j mod p) s.
Proof.
  intros Hp Hj Hs. rewrite (Z.div_mod j p) at 1 by lia. pose proof (Z.mod_pos_bound j p Hp).
  assert (0 <= j / p) by (apply Z.div_pos; lia).
  rewrite ticks_add, Z.mul_comm, ticks_period by (done || nia). done.
Qed.

Lemma wave_rate s j :
  settled s = true -> count_state s = Active -> stopped s = false -> mode_of s = RateGenerator ->
  ce s = cr s -> out s = true -> 0 <= j ->
  out (ticks j s) = wave RateGenerator (period_of (cw_bcd (control s)) (cr s)) j.
Proof.
  intros Hs Hst Hrun Hm Hload Ho Hj. pose proof (settled_cr s Hs) as Hok.
  pose proof (period_bounds _ _ Hok) as Hv. set (n := period_of _ _) in *.
  assert (ticks n s = s) as Hw by (apply ticks_whole; rewrite ?Hm; done).
  pose proof (Z.mod_pos_bound j n). rewrite (ticks_mod s n) by (done || lia). unfold wave.
  rewrite <-Hload in Hok. rewrite ticks_down; [|done|done|congruence|done|rewrite Hload; fold n; lia].
  rewrite Hload. fold n. change (out _) with (rate_out (mode_of s) (j mod n) (n - j mod n) (out s)) at 1.
  unfold rate_out. rewrite Hm, Ho. cbn [andb bool_decide].
  destruct (settled_periodic s Hs) as [Hne _]; [by rewrite Hm|].
  rewrite (period_eq_small (cw_bcd (control s))) in Hne by (by rewrite <-?Hload || by left). fold n in Hne.
  apply Z.eqb_neq in Hne. rewrite bool_decide_true by done. cbn [andb].
  destruct (Z.ltb_spec 0 (j mod n)), (Z.eqb_spec (n - j mod n) 1), (Z.eqb_spec (j mod n) (n - 1)); done || lia.
Qed.

Lemma wave_square s j :
  settled s = true -> count_state s = Active -> stopped s = false -> mode_of s = SquareWave ->
  ce s = cr s -> out s = true -> 0 <= j ->
  out (ticks j s) = wave SquareWave (period_of (cw_bcd (control s)) (cr s)) j.
Proof.
  intros Hs Hst Hrun Hm Hload Ho Hj. pose proof (settled_cr s Hs) as Hok.
  pose proof (period_bounds _ _ Hok) as Hv. set (n := period_of _ _) in *.
  assert (ticks n s = s) as Hw by (apply ticks_whole; rewrite ?Hm; done).
  pose proof (Z.mod_pos_bound j n) as Hr. rewrite (ticks_mod s n) by (done || lia). unfold wave.
  destruct (settled_periodic s Hs) as [Hne _]; [by rewrite Hm|].
  rewrite (period_eq_small (cw_bcd (control s))) in Hne by (done || by left). fold n in Hne. apply Z.eqb_neq in Hne.
  pose proof Hok as Hokc. rewrite <-Hload in Hokc.
  assert (forall o, wave_left (cw_bcd (control s)) o n = if o then (n + 1) / 2 else n / 2) as Hleft.
  { intros o. unfold wave_left. destruct (Z.eqb_spec n 1); [done|]. destruct (Z.odd n) eqn:E.
    - apply Z.odd_spec in E as [m E]. destruct o; cbn [b2z]; div_lia.
    - rewrite <-Z.negb_even, negb_false_iff, Z.even_spec in E. destruct E as [m E]. destruct o; div_lia. }
  destruct (square_half s Hst Hrun Hm Hokc) as (_ & Hq & Ht). rewrite Hload in Hq, Ht. fold n in Hq, Ht.
  rewrite Hleft, Ho in Hq, Ht. destruct (Z.ltb_spec (j mod n) ((n + 1) / 2)); [rewrite <-Ho; apply Hq; lia|].
  replace (j mod n) with ((n + 1) / 2 + (j mod n - (n + 1) / 2)) by lia.
  rewrite ticks_add, Ht by div_lia. set (u := set_field _ _).
  destruct (square_half u Hst Hrun Hm) as (_ & Hqu & _); [done|].
  change (out u) with false in Hqu. change (ce u) with (cr s) in Hqu.
  change (cw_bcd (control u)) with (cw_bcd (control s)) in Hqu. fold n in Hqu.
  rewrite Hleft in Hqu. rewrite Hqu by div_lia. done.
Qed.

(** The modes that count down once. *)
Lemma wave_once s j :
  settled s = true -> count_state s = Active -> stopped s = false -> periodic (mode_of s) = false ->
  ce s = cr s -> out s = wave_start (mode_of s) -> 0 <= j ->
  out (ticks j s) = wave (mode_of s) (period_of (cw_bcd (control s)) (cr s)) j.
Proof.
  intros Hs Hst Hrun Hp Hload Ho Hj. pose proof (settled_ce s Hs) as Hok.
  destruct (active_next s Hs Hst Hrun) as [Hq He]. pose proof (period_bounds _ _ Hok) as Hv.
  rewrite <-Hload. set (n := period_of _ _) in *.
  assert (wakeup_ticks (mode_of s) (cw_bcd (control s)) (out s) n = n) as Hk by (by destruct (mode_of s)).
  assert (resting s = true) as Hrest.
  { unfold resting. rewrite Hst, Ho. by destruct (mode_of s). }
  rewrite Hk in Hq, He. specialize (He Hrest).
  assert (count_state (ticks n s) = Counting /\ settled (ticks n s) = true /\ stopped (ticks n s) = false)
    as (Hst' & Hs' & Hrun').
  { split; [|split; [by apply ticks_settled|]].
    - replace n with (n - 1 + 1) by lia. rewrite ticks_succ, ticks_down by (done || fold n; lia || by intros E; rewrite E in Hp).
      fold n. replace (n - (n - 1)) with 1 by lia. rewrite encode_small by (by left). unfold tick.
      set (u := set_field _ _). change (count_state u) with (count_state s). change (stopped u) with (stopped s).
      change (mode_of u) with (mode_of s). change (ce u) with 1. rewrite Hst, Hrun.
      assert (forall b, period_of b 1 = 1) as -> by (by intros []). by destruct (mode_of s).
    - unfold stopped. unfold ticks. rewrite <-Hrun. unfold stopped. induction (Z.to_nat n) as [|k IH]; [done|].
      rewrite Nat.iter_succ, tick_mode. by rewrite (proj2 (proj2 (tick_static _))). }
  destruct (Z.ltb_spec j n).
  { rewrite Hq by lia. rewrite Ho. destruct (mode_of s); try done; cbn [wave wave_start];
      destruct (Z.leb_spec n j), (Z.eqb_spec j n); done || lia. }
  destruct (Z.eq_dec j n) as [->|].
  { rewrite He, Ho. destruct (mode_of s); try done; cbn [wave wave_start];
      destruct (Z.leb_spec n n), (Z.eqb_spec n n); done || lia. }
  replace j with (n + (j - n)) at 1 by lia.
  rewrite ticks_add, ticks_counting by (done || lia || by apply settled_ce).
  change (out _) with true at 1.
  destruct (mode_of s); try done; cbn [wave]; destruct (Z.leb_spec n j), (Z.eqb_spec j n); done || lia.
Qed.

Lemma wave_reload s j :
  settled s = true -> count_state s = Reloading -> stopped s = false ->
  out s = wave_start (mode_of s) -> 0 <= j ->
  out (ticks (1 + j) s) = wave (mode_of s) (period_of (cw_bcd (control s)) (cr s)) j.
Proof.
  intros Hs Hst Hrun Ho Hj. rewrite ticks_add, ticks_1 by lia.
  destruct (reload_static s Hs Hst) as (Hs' & Hst' & Hrun' & Hm' & Hc' & Hce' & Ho' & _).
  pose proof (proj1 (proj2 (tick_static s))) as Hcr'. rewrite Hrun in Hrun'. rewrite Ho in Ho'.
  rewrite <-Hm', <-Hc', <-Hcr'. rewrite <-Hm' in Ho'.
  destruct (periodic (mode_of (tick s))) eqn:Hp; [|by apply wave_once; rewrite ?Hce', ?Hcr'].
  destruct (mode_of (tick s)) eqn:Hm; try done; [apply wave_rate|apply wave_square]; by rewrite ?Hce', ?Hcr'.
Qed.

(** ** Programming a channel *)

(** The fields of a control word survive clearing its selector. *)
Definition control_check (c : Z) : bool :=
  let c' := cw_with_select c 0 in
  (cw_mode c' =? cw_mode c) && (cw_rw c' =? cw_rw c) && Bool.eqb (cw_bcd c') (cw_bcd c) &&
  (cw_select c' =? 0) && (0 <=? c') && (c' <? 2 ^ 8).

Lemma control_checked : all_counts 256 control_check = true.
Proof. vm_compute. reflexivity. Qed.

Lemma with_select_fields c :
  is_u 8 c ->
  let c' := cw_with_select c 0 in
  cw_mode c' = cw_mode c /\ cw_rw c' = cw_rw c /\ cw_bcd c' = cw_bcd c /\ cw_select c' = 0 /\ is_u 8 c'.
Proof.
  intros Hc. pose proof (all_counts_spec _ _ control_checked c Hc) as H. unfold control_check in H.
  rewrite !andb_true_iff, !Z.eqb_eq, Z.leb_le, Z.ltb_lt in H. destruct H as (((((? & ?) & Hb) & ?) & ?) & ?).
  apply eqb_prop in Hb. by split_and!.
Qed.

(** A control word that selects both bytes, then the count. *)
Definition program (c lo hi : Z) (t : Timer) : res void Timer :=
  let! t := set_control c t in
  let! t := write lo t in
  write hi t.

Definition hardware (m : Mode) : bool :=
  match m with HardwareOneShot | HardwareStrobe => true | _ => false end.

Lemma count_bytes lo hi :
  is_u 8 lo -> is_u 8 hi -> Z.lor (ucast 16 (Z.shiftl hi 8)) (ucast 8 lo) = lo + 256 * hi.
Proof.
  unfold is_u, ucast. change (2 ^ 8) with 256. change (2 ^ 16) with 65536. intros Hlo Hhi.
  rewrite Z.shiftl_mul_pow2 by lia. change (2 ^ 8) with 256. rewrite !Z.mod_small by lia.
  rewrite <-Z.lxor_lor, <-Z.add_nocarry_lxor; [lia|..];
    change 256 with (2 ^ 8); rewrite <-Z.shiftl_mul_pow2 by lia; apply Z.bits_inj'; intros i Hi;
    rewrite Z.land_spec, Z.shiftl_spec, Z.testbit_0_l by lia;
    (destruct (Z.ltb_spec i 8); [rewrite Z.testbit_neg_r by lia; done|]);
    rewrite (is_u_testbit_high 8 lo) by (unfold is_u; lia); apply andb_false_r.
Qed.

(** The state that programming leads to. *)
Lemma program_state t c lo hi m :
  is_u 8 c -> is_u 8 lo -> is_u 8 hi -> cw_rw c = 3 -> mode_from (E:=void) (cw_mode c) = Ok m ->
  exists t1, program c lo hi t = Ok t1 /\
    let s := tstate t in
    tstate t1 = mkTimerState 0 (lo + 256 * hi) (ol s) (sl s)
      (if hardware m then WaitingForGate else Reloading) (cw_with_select c 0) (negb (bool_decide (m = TerminalCount)))
      (gate s) true false (Some lo).
Proof.
  intros Hc Hlo Hhi Hrw Hm. destruct (with_select_fields c Hc) as (Em & Er & _).
  unfold program, set_control. rewrite Hrw. cbn [Z.eqb Pos.eqb]. unfold op_mode.
  change (control (set_field _ _)) with (cw_with_select c 0). rewrite Em.
  assert (forall E, mode_from (E:=E) (cw_mode c) = Ok m) as HmE.
  { intros E. revert Hm. unfold mode_from. by destruct (cw_mode c) as [|[[[]|[]|]|[[]|[]|]|]|]; intros [= ->]. }
  rewrite HmE. cbn [res_bind]. set (t1 := set_out _ _).
  assert (tstate t1 = mkTimerState 0 0 (ol (tstate t)) (sl (tstate t)) Inactive (cw_with_select c 0)
    (negb (bool_decide (m = TerminalCount))) (gate (tstate t)) true false None) as Ht1.
  { unfold t1. rewrite tstate_set_out. by destruct m. }
  clearbody t1. unfold write at 1, write_cr. rewrite Ht1. cbn [control cr_low].
  rewrite Er, Hrw. cbn [Z.eqb Pos.eqb RW_LOW RW_HIGH RW_LOW_HIGH res_bind].
  set (t2 := t1 <| tstate := _ |>).
  assert (tstate t2 = tstate t1 <| cr_low := Some (ucast 8 lo) |>) as Ht2 by (by rewrite Ht1). clearbody t2.
  unfold write, write_cr. rewrite Ht2, Ht1. change (control (set_field _ _)) with (cw_with_select c 0).
  change (cr_low (set_field _ _)) with (Some (ucast 8 lo)). rewrite Er, Hrw. cbn [Z.eqb Pos.eqb res_bind].
  rewrite count_bytes by done. unfold op_mode. change (control (tstate _)) with (cw_with_select c 0).
  rewrite Em, HmE. cbn [res_bind]. unfold ucast. rewrite (Z.mod_small lo) by done.
  destruct m; eexists; (split; [reflexivity|]); rewrite ?tstate_set_out; done.
Qed.

(** C33: a programmed channel produces the waveform of its mode. After a control
    word and a 16-bit count (and, in the hardware-triggered modes, a rising
    gate), the output [1 + j] ticks later is the one the 8254 specifies:
    terminal count and one-shot rise once the count has elapsed, the rate
    generator is low for one tick in every count, the square wave is high for
    the first half of every count, and a strobe is low for one tick. *)
Theorem programmed_waveform (t : Timer) (c lo hi j : Z) (m : Mode) :
  is_u 8 c -> is_u 8 lo -> is_u 8 hi -> cw_rw c = 3 -> mode_from (E:=void) (cw_mode c) = Ok m ->
  count_ok (cw_bcd c) (lo + 256 * hi) = true ->
  (periodic m = true -> lo + 256 * hi <> 1) ->
  gate (tstate t) = negb (hardware m) -> 0 <= j < 2 ^ 61 ->
  exists t1 t2 t', program c lo hi t = Ok t1 /\
    (if hardware m then set_gate (E:=void) true t1 else Ok t1) = Ok t2 /\
    timer_evaluate (E:=void) (1 + j) t2 = Ok t' /\
    out (tstate t') = wave m (period_of (cw_bcd c) (lo + 256 * hi)) j.
Proof.
  intros Hc Hlo Hhi Hrw Hm Hok Hne Hg Hj. destruct (with_select_fields c Hc) as (Em & _ & Eb & _).
  destruct (program_state t c lo hi m Hc Hlo Hhi Hrw Hm) as (t1 & Hp & Ht1). cbn zeta in Ht1. exists t1.
  assert (mode_of (tstate t1) = m) as Hm1.
  { unfold mode_of, op_mode. rewrite Ht1. cbn [control]. by rewrite Em, Hm. }
  assert (exists t2, (if hardware m then set_gate (E:=void) true t1 else Ok t1) = Ok t2 /\
    tstate t2 = mkTimerState 0 (lo + 256 * hi) (ol (tstate t)) (sl (tstate t)) Reloading (cw_with_select c 0)
      (wave_start m) true true false (Some lo)) as (t2 & Hgate & Ht2).
  { rewrite Hg in Ht1. destruct (hardware m) eqn:Hh; [|exists t1; split; [done|by rewrite Ht1; destruct m]].
    unfold set_gate. rewrite op_mode_ok, Hm1. cbn [res_bind]. rewrite Ht1. cbn [gate count_state].
    destruct m; try done; eexists; (split; [reflexivity|]); cbn [negb andb];
      change (tstate (?t <| tstate := ?s |>)) with s; rewrite bool_decide_true by done;
      rewrite ?tstate_set_out; unfold put_state; change (tstate (?t <| tstate := ?s |>)) with s; by rewrite Ht1. }
  exists t2. assert (mode_of (tstate t2) = m) as Hm2.
  { unfold mode_of, op_mode. rewrite Ht2. cbn [control]. by rewrite Em, Hm. }
  assert (cw_bcd (control (tstate t2)) = cw_bcd c) as Hb2 by (rewrite Ht2; exact Eb).
  assert (cr (tstate t2) = lo + 256 * hi) as Hcr2 by (by rewrite Ht2).
  assert (settled (tstate t2) = true) as Hs2.
  { apply settled_intro; rewrite ?Hb2, ?Hm2, ?Hcr2; [rewrite Ht2; apply count_ok_0|done| |].
    - intros Hper. split; [by apply Z.eqb_neq, Hne|by rewrite Ht2].
    - intros ->. by rewrite Ht2. }
  destruct (evaluate_out (E:=void) t2 (1 + j) (wave m (period_of (cw_bcd c) (lo + 256 * hi)) j) Hs2)
    as (t' & He & Ho); [lia| |by exists t'].
  rewrite <-Hm2, <-Hb2, <-Hcr2. apply wave_reload; [done|by rewrite Ht2| |by rewrite Hm2, Ht2|lia].
  unfold stopped. by rewrite Ht2.
Qed.

Definition idle_timer : Timer := timer_new true (Some []).

(** A square wave of 7 counts, at its 20th tick. *)
Lemma programmed_waveform_witness :
  exists t1 t2 t', program 0x36 7 0 idle_timer = Ok t1 /\ Ok (E:=void) t1 = Ok t2 /\
    timer_evaluate (E:=void) 21 t2 = Ok t' /\ out (tstate t') = false.
Proof.
  apply (programmed_waveform idle_timer 0x36 7 0 20 SquareWave); try (by vm_compute); lia.
Defined.

(** * Safety *)

(** Registers within their widths, and a byte order selected. *)
Record timer_ok (s : TimerState) : Prop := {
  ok_ce : is_u 16 (ce s);
  ok_cr : is_u 16 (cr s);
  ok_ol : forall v, ol s = Some v -> is_u 16 v;
  ok_sl : forall v, sl s = Some v -> is_u 8 v;
  ok_control : is_u 8 (control s);
  ok_rw : 1 <= cw_rw (control s);
  ok_cr_low : forall v, cr_low s = Some v -> is_u 8 v;
}.

Create HintDb pit.
#[export] Hint Resolve ok_ce ok_cr ok_ol ok_sl ok_control ok_rw ok_cr_low : pit.

Lemma timer_ok_out s o : timer_ok s -> timer_ok (s <| out := o |>).
Proof. intros []. by constructor. Qed.

Lemma timer_ok_ce s v : timer_ok s -> is_u 16 v -> timer_ok (s <| ce := v |>).
Proof. intros [] ?. by constructor. Qed.

Lemma timer_ok_state s c : timer_ok s -> timer_ok (s <| count_state := c |>).
Proof. intros []. by constructor. Qed.

Lemma timer_ok_gate s g : timer_ok s -> timer_ok (s <| gate := g |>).
Proof. intros []. by constructor. Qed.

Lemma timer_ok_null s b : timer_ok s -> timer_ok (s <| null := b |>).
Proof. intros []. by constructor. Qed.

#[export] Hint Resolve timer_ok_out timer_ok_ce timer_ok_state timer_ok_gate timer_ok_null : pit.

Lemma set_out_ok o t : timer_ok (tstate t) -> timer_ok (tstate (set_out o t)).
Proof. rewrite tstate_set_out. auto with pit. Qed.

Lemma put_ce_ok v t : timer_ok (tstate t) -> is_u 16 v -> timer_ok (tstate (put_ce v t)).
Proof. intros. change (timer_ok (tstate t <| ce := v |>)). auto with pit. Qed.

Lemma put_state_ok c t : timer_ok (tstate t) -> timer_ok (tstate (put_state c t)).
Proof. intros. change (timer_ok (tstate t <| count_state := c |>)). auto with pit. Qed.

Lemma load_ce_ok t : timer_ok (tstate t) -> timer_ok (tstate (load_ce t)).
Proof. intros. change (timer_ok (tstate t <| ce := cr (tstate t) |> <| null := false |>)). auto with pit. Qed.

Lemma set_ce_ok v t : timer_ok (tstate t) -> timer_ok (tstate (set_ce v t)).
Proof.
  intros. rewrite tstate_set_ce. apply timer_ok_ce; [done|].
  pose proof (encode_ok (cw_bcd (control (tstate t))) v) as H'. unfold count_ok in H'.
  rewrite !andb_true_iff, Z.leb_le, Z.ltb_lt in H'. unfold is_u. tauto.
Qed.

#[export] Hint Resolve set_out_ok put_ce_ok put_state_ok load_ce_ok set_ce_ok : pit.

Lemma is_u16_0 : is_u 16 0.
Proof. split; [lia|reflexivity]. Qed.

#[export] Hint Resolve is_u16_0 : pit.

Lemma terminal_ok m t : timer_ok (tstate t) -> timer_ok (tstate (terminal m t)).
Proof. intros. destruct m; cbn [terminal]; auto with pit. Qed.

#[export] Hint Resolve terminal_ok : pit.

(** A counter that has not reached its last step has at least one step left. *)
Lemma counter_sub_left c per bcd :
  is_u 16 c -> per = 1 \/ per = 2 /\ Z.odd c = false -> c <> per ->
  1 <= counter_sub c per bcd / per <= 65535.
Proof.
  unfold is_u, counter_sub, wrapping_sub, ucast. change (2 ^ 16) with 65536. intros Hc Hper Hne.
  assert (Z.odd c = false -> exists h, c = 2 * h) as Hev.
  { intros Ho. rewrite <-Z.negb_even, negb_false_iff, Z.even_spec in Ho. done. }
  destruct bcd.
  - destruct (from_bcd_digits c Hc) as (d0 & d1 & d2 & d3 & ? & ? & ? & ? & Hcd & ->).
    assert (per mod 10000 mod 65536 = per) as -> by (destruct Hper as [->|[-> _]]; done).
    destruct Hper as [->|[-> Ho]]; [|destruct (Hev Ho) as [h Hh]];
      destruct (Z.leb_spec 1 (d0 + 10 * d1 + 100 * d2 + 1000 * d3)), (Z.leb_spec 2 (d0 + 10 * d1 + 100 * d2 + 1000 * d3));
      try lia; div_lia.
  - assert (per mod 65536 = per) as -> by (destruct Hper as [->|[-> _]]; done).
    destruct Hper as [->|[-> Ho]]; [|destruct (Hev Ho) as [h Hh]]; div_lia.
Qed.

Lemma count_down_ok {E} m bcd per n t :
  timer_ok (tstate t) -> per = 1 \/ per = 2 /\ Z.odd (ce (tstate t)) = false -> 0 < n < 2 ^ 62 ->
  exists t' n', count_down (E:=E) m bcd per n t = Ok (t', n') /\ timer_ok (tstate t') /\ 0 <= n' < n.
Proof.
  intros Ht Hper Hn. unfold count_down.
  destruct (Z.eqb_spec (ce (tstate t)) per) as [|Hne].
  { rewrite usub_ok by lia. eexists _, _. split; [reflexivity|]. split; [auto with pit|lia]. }
  pose proof (counter_sub_left _ per bcd (ok_ce _ Ht) Hper Hne) as Hleft.
  destruct (Z.leb_spec (counter_sub (ce (tstate t)) per bcd / per) n).
  - rewrite usub_ok by lia. eexists _, _. split; [reflexivity|]. split; [|lia].
    destruct (bool_decide _); auto 6 with pit word.
  - rewrite umul_ok by lia. eexists _, _. split; [reflexivity|]. split; [auto with pit|lia].
Qed.

Lemma eval_state_ok {E} m bcd n t :
  timer_ok (tstate t) -> 0 < n < 2 ^ 62 ->
  exists t' n' f, eval_state (E:=E) m bcd n t = Ok (t', n', f) /\ timer_ok (tstate t') /\
    (f = Continue -> 0 <= n' < n).
Proof.
  intros Ht Hn. unfold eval_state. destruct (count_state (tstate t)).
  - by eexists _, _, _.
  - by eexists _, _, _.
  - rewrite usub_ok by lia. eexists _, _, _. split; [reflexivity|]. split; [auto with pit|lia].
  - destruct (negb (gate (tstate t)) && gate_stops_count m); [by eexists _, _, _|].
    assert (exists t' n' f, (let! r := count_down m bcd 1 n t in Ok (E:=E) (r, Continue)) = Ok (t', n', f) /\
      timer_ok (tstate t') /\ (f = Continue -> 0 <= n' < n)) as H1.
    { destruct (count_down_ok (E:=E) m bcd 1 n t Ht (or_introl eq_refl) Hn) as (t' & n' & -> & ? & ?).
      by eexists _, _, _. }
    destruct m; try done. clear H1. rewrite odd_land. destruct (Z.odd (ce (tstate t))) eqn:Ho.
    + set (t1 := put_ce _ t). assert (timer_ok (tstate t1)) as Ht1.
      { apply put_ce_ok; [done|]. apply is_u_land_l; [lia|by apply ok_ce]. }
      destruct (out (tstate t)).
      * rewrite usub_ok by lia. eexists _, _, _. split; [reflexivity|]. split; [done|lia].
      * destruct (count_down_ok (E:=E) SquareWave bcd 2 n t1 Ht1) as (t' & n' & -> & ? & ?); [|done|by eexists _, _, _].
        right. split; [done|]. change (Z.odd (Z.land (ce (tstate t)) (unot 16 1)) = false).
        rewrite <-Z.bit0_odd. by rewrite Z.land_spec, andb_false_r.
    + destruct (count_down_ok (E:=E) SquareWave bcd 2 n t Ht) as (t' & n' & -> & ? & ?); [by right|done|by eexists _, _, _].
  - destruct (negb (gate (tstate t)) && gate_stops_count m); [by eexists _, _, _|].
    eexists _, _, _. split; [reflexivity|]. split; [auto with pit|lia].
Qed.

Lemma skip_periods_ok m bcd n t :
  timer_ok (tstate t) -> 0 < n ->
  exists t' n' f, skip_periods m bcd n t = (t', n', f) /\ timer_ok (tstate t') /\
    (f = Continue -> 0 < n' <= n).
Proof.
  intros Ht Hn. unfold skip_periods. set (p := period_of bcd (cr (tstate t))).
  assert (0 < p) as Hp.
  { unfold p, period_of. pose proof (ok_cr _ Ht) as [Hc1 Hc2]. pose proof (from_bcd_bound (cr (tstate t)) ltac:(done)).
    destruct bcd; case_match; lia. }
  destruct (_ && _ && _); [|eexists _, _, _; split; [reflexivity|]; split; [done|lia]].
  destruct (Z.leb_spec p n); [|eexists _, _, _; split; [reflexivity|]; split; [done|lia]].
  eexists _, _, _. split; [reflexivity|]. split; [auto with pit|].
  pose proof (Z.mod_pos_bound n p). destruct (Z.eqb_spec (n mod p) 0); [done|]. lia.
Qed.

Lemma eval_loop_ok {E} fuel m bcd n t :
  timer_ok (tstate t) -> 0 <= n < 2 ^ 62 -> (Z.to_nat n < fuel)%nat ->
  exists t', eval_loop (E:=E) fuel m bcd n t = Ok t' /\ timer_ok (tstate t').
Proof.
  revert n t. induction fuel as [|fuel IH]; intros n t Ht Hn Hf; [lia|]. cbn [eval_loop].
  destruct (Z.ltb_spec 0 n); [|by exists t]. unfold eval_step.
  destruct (skip_periods_ok m bcd n t Ht ltac:(lia)) as (t1 & n1 & f1 & -> & Ht1 & Hn1).
  destruct f1; [|by exists t1]. specialize (Hn1 eq_refl).
  destruct (eval_state_ok (E:=E) m bcd n1 t1 Ht1 ltac:(lia)) as (t2 & n2 & f2 & -> & Ht2 & Hn2).
  cbn [res_bind]. destruct f2; [|by exists t2]. specialize (Hn2 eq_refl). apply IH; [done|lia|lia].
Qed.

Lemma timer_evaluate_ok {E} n t :
  timer_ok (tstate t) -> 0 <= n < 2 ^ 62 ->
  exists t', timer_evaluate (E:=E) n t = Ok t' /\ timer_ok (tstate t').
Proof.
  intros Ht Hn. unfold timer_evaluate. rewrite op_mode_ok. apply eval_loop_ok; [done..|lia].
Qed.

(** Evaluation ends for every register contents a guest can program,
    invalid BCD digits and illegal counts among them: one iteration more than
    there are ticks is enough, nothing overflows, and the registers stay
    within their widths. *)
Theorem evaluate_terminates (t : Timer) (n : Z) :
  timer_ok (tstate t) -> 0 <= n < 2 ^ 62 ->
  exists t', timer_evaluate (E:=void) n t = Ok t' /\ timer_ok (tstate t').
Proof. apply timer_evaluate_ok. Qed.

(** An invalid BCD count, counting down. *)
Definition odd_timer : Timer :=
  timer_new true None <| tstate := mkTimerState 0xfffe 1 None None Active 0x37 true true true false None |>.

Lemma evaluate_terminates_witness :
  exists t', timer_evaluate (E:=void) 20000 odd_timer = Ok t' /\ timer_ok (tstate t').
Proof.
  apply (evaluate_terminates odd_timer 20000); [|lia].
  constructor; try done; by split.
Defined.

(** ** The other operations of a channel *)

Lemma state_new_ok b : timer_ok (state_new b).
Proof. constructor; try done; by split. Qed.

Lemma latch_counter_ok s : timer_ok s -> timer_ok (latch_counter s).
Proof.
  intros Ht. unfold latch_counter. destruct (ol s); [done|]. destruct Ht. constructor; try done.
  by intros v [= <-].
Qed.

Lemma latch_status_ok s : timer_ok s -> timer_ok (latch_status s).
Proof.
  intros Ht. unfold latch_status. destruct (sl s); [done|].
  assert (is_u 8 (sw_with_out (sw_with_null (control s) (null s)) (out s))) as Hu.
  { unfold sw_with_out, sw_with_null. destruct (null s), (out s); cbn [b2z];
      repeat apply is_u_lor; try apply is_u_ldiff; try apply is_u_lor; try apply is_u_ldiff;
      try lia; try (by apply ok_control); by split. }
  destruct Ht. constructor; try done. by intros v [= <-].
Qed.

Lemma read_back_ok c t : timer_ok (tstate t) -> timer_ok (tstate (read_back c t)).
Proof.
  intros Ht. change (timer_ok (if negb (rb_count c) then latch_counter
    (if negb (rb_status c) then latch_status (tstate t) else tstate t)
    else if negb (rb_status c) then latch_status (tstate t) else tstate t)).
  destruct (rb_count c), (rb_status c); cbn [negb]; auto using latch_counter_ok, latch_status_ok.
Qed.

Lemma rw_cases c : 0 <= cw_rw c <= 3.
Proof.
  unfold cw_rw. change 3 with (Z.ones 2). rewrite Z.land_ones by lia.
  pose proof (Z.mod_pos_bound (Z.shiftr c 4) (2 ^ 2)). change (2 ^ 2) with 4 in *. change (Z.ones 2) with 3. lia.
Qed.

Lemma set_control_ok {E} c t :
  timer_ok (tstate t) -> is_u 8 c ->
  exists t', set_control (E:=E) c t = Ok t' /\ timer_ok (tstate t').
Proof.
  intros Ht Hc. unfold set_control. pose proof (rw_cases c). destruct (Z.eqb_spec (cw_rw c) 0).
  { eexists. split; [reflexivity|]. by apply latch_counter_ok. }
  rewrite op_mode_ok. cbn [res_bind]. eexists. split; [reflexivity|]. apply set_out_ok.
  destruct (with_select_fields c Hc) as (_ & Er & _ & _ & Hu). destruct Ht. constructor; try done; cbn.
  change (1 <= cw_rw (cw_with_select c 0)). lia.
Qed.

Lemma write_ok {E} n t :
  timer_ok (tstate t) -> is_u 8 n ->
  exists t', write (E:=E) n t = Ok t' /\ timer_ok (tstate t').
Proof.
  intros Ht Hn. unfold write, write_cr. pose proof (ok_rw _ Ht). pose proof (rw_cases (control (tstate t))).
  assert (forall v, is_u 16 v -> exists t',
    (let t := t <| tstate := tstate t <| cr := v |> <| null := true |> |> in
     let! mode := op_mode (E:=E) (tstate t) in
      match mode with
      | TerminalCount => Ok (set_out false (put_state Reloading t))
      | HardwareOneShot => Ok (put_state WaitingForGate t)
      | RateGenerator | SquareWave =>
          Ok (if bool_decide (count_state (tstate t) = Active) then t else put_state Reloading t)
      | SoftwareStrobe => Ok (put_state Reloading t)
      | HardwareStrobe => Ok (put_state WaitingForGate t)
      end) = Ok t' /\ timer_ok (tstate t')) as Hv.
  { intros v Hv. cbn zeta. set (t1 := t <| tstate := _ |>).
    assert (timer_ok (tstate t1)) by (destruct Ht; by constructor).
    rewrite op_mode_ok. cbn [res_bind]. destruct (mode_of (tstate t1)); try (case_bool_decide);
      eexists; (split; [reflexivity|]); auto with pit. }
  assert (is_u 16 (ucast 16 (Z.shiftl n 8))) by auto with word.
  destruct (Z.eqb_spec (cw_rw (control (tstate t))) RW_LOW); [apply Hv; by apply (is_u_mono 8)|].
  destruct (Z.eqb_spec (cw_rw (control (tstate t))) RW_HIGH); [by apply Hv|].
  destruct (Z.eqb_spec (cw_rw (control (tstate t))) RW_LOW_HIGH); [|unfold RW_LOW, RW_HIGH, RW_LOW_HIGH in *; lia].
  destruct (cr_low (tstate t)) as [low|] eqn:El; cbn [res_bind].
  - apply Hv, is_u_lor; [lia|done|]. apply (is_u_mono 8); [by apply (ok_cr_low _ Ht)|lia].
  - eexists. split; [reflexivity|]. destruct Ht. constructor; try done. intros v [= <-]. auto with word.
Qed.

Lemma read_ok {E} t :
  timer_ok (tstate t) -> exists t' v, read (E:=E) t = Ok (t', v) /\ timer_ok (tstate t') /\ is_u 8 v.
Proof.
  intros Ht. unfold read. pose proof (ok_rw _ Ht). pose proof (rw_cases (control (tstate t))).
  destruct (sl (tstate t)) as [v|] eqn:Es.
  { eexists _, _. split; [reflexivity|]. split; [|by apply (ok_sl _ Ht)]. destruct Ht. by constructor. }
  assert (forall s, timer_ok s -> timer_ok (if negb (read_high s) then s <| ol := None |> else s)) as Hol.
  { intros s []. destruct (negb _); by constructor. }
  destruct (Z.eqb_spec (cw_rw (control (tstate t))) RW_LOW);
    [|destruct (Z.eqb_spec (cw_rw (control (tstate t))) RW_HIGH);
      [|destruct (Z.eqb_spec (cw_rw (control (tstate t))) RW_LOW_HIGH);
        [|unfold RW_LOW, RW_HIGH, RW_LOW_HIGH in *; lia]]]; cbn [res_bind];
    eexists _, _; (split; [reflexivity|]); (split; [apply Hol|]); try (case_match); auto with word.
  destruct Ht. by constructor.
Qed.

Lemma set_gate_ok {E} g t :
  timer_ok (tstate t) -> exists t', set_gate (E:=E) g t = Ok t' /\ timer_ok (tstate t').
Proof.
  intros Ht. unfold set_gate. rewrite op_mode_ok. cbn [res_bind]. eexists. split; [reflexivity|].
  apply timer_ok_gate. destruct (mode_of (tstate t)); repeat case_match; auto with pit.
Qed.

Lemma next_wakeup_ok s :
  timer_ok s ->
  exists w, (forall E, next_wakeup (E:=E) s = Ok w) /\ forall k, w = Some k -> 0 <= k <= 2 ^ 17.
Proof.
  intros Ht. set (bcd := cw_bcd (control s)).
  assert (forall c n, is_u 16 c -> n = 1 \/ n = 2 -> 0 <= counter_sub c n bcd <= 65535) as Hc.
  { unfold is_u, counter_sub, wrapping_sub, ucast. change (2 ^ 16) with 65536. intros c n Hc Hn.
    pose proof (from_bcd_bound c Hc). destruct bcd; [|div_lia].
    assert (n mod 10000 mod 65536 = n) as -> by (destruct Hn as [->| ->]; done).
    destruct (Z.leb_spec n (from_bcd c)); lia. }
  assert (forall c extra, is_u 16 c -> extra = 0 \/ extra = 1 -> exists v,
    (forall E, (let! v :=
      match mode_of s with
      | TerminalCount | HardwareOneShot | SoftwareStrobe | HardwareStrobe => uadd 64 (counter_sub c 1 bcd) 1
      | RateGenerator => if c =? 1 then Ok 1 else Ok (counter_sub c 1 bcd)
      | SquareWave => let! n := uadd 64 (counter_sub c 2 bcd) 2 in
          uadd 64 (n / 2) (b2z (out s && negb (Z.land c 1 =? 0)))
      end in let! v := uadd 64 v extra in Ok (Some v)) = Ok (E:=E) (Some v)) /\ 0 <= v <= 2 ^ 17) as Hv.
  { intros c extra Hu He. pose proof (Hc c 1 Hu). pose proof (Hc c 2 Hu).
    assert (0 <= b2z (out s && negb (Z.land c 1 =? 0)) <= 1) by (destruct (_ && _); cbn; lia).
    assert (0 <= (counter_sub c 2 bcd + 2) / 2 <= 65537) by div_lia.
    destruct (mode_of s); try destruct (c =? 1); eexists;
      (split; [intros E; repeat (cbn [res_bind]; rewrite uadd_ok by lia); reflexivity|lia]). }
  destruct (Hv (cr s) 1) as (v1 & Hv1 & Hb1); [apply Ht|lia|].
  destruct (Hv (ce s) 0) as (v2 & Hv2 & Hb2); [apply Ht|lia|]. unfold next_wakeup.
  destruct (count_state s); [exists None|exists None| | |];
    [by split; [intros E; rewrite op_mode_ok|]..| | |].
  - destruct (negb (gate s) && gate_stops_count (mode_of s)) eqn:Eg; [exists None|exists (Some v1)];
      (split; [intros E; rewrite op_mode_ok; cbn [res_bind]; by rewrite Eg|]); by intros k [= <-].
  - destruct (negb (gate s) && gate_stops_count (mode_of s)) eqn:Eg; [exists None|exists (Some v2)];
      (split; [intros E; rewrite op_mode_ok; cbn [res_bind]; by rewrite Eg|]); by intros k [= <-].
  - destruct (out s || (negb (gate s) && gate_stops_count (mode_of s))) eqn:Eg; [exists None|exists (Some 1)];
      (split; [intros E; rewrite op_mode_ok; cbn [res_bind]; by rewrite Eg|]); intros k [= <-]; lia.
Qed.

(** * Departures from an 8254 *)

(** A second 16-bit count is written wrong. The low byte of a count that
    was written in two bytes is kept after the count is complete, so each byte
    of the next count is taken as a high byte and paired with it. *)
Theorem count_rewrite_stale (t t1 : Timer) (c lo hi lo' hi' : Z) (m : Mode) :
  is_u 8 c -> is_u 8 lo -> is_u 8 hi -> is_u 8 lo' -> is_u 8 hi' -> cw_rw c = 3 ->
  mode_from (E:=void) (cw_mode c) = Ok m -> program c lo hi t = Ok t1 ->
  exists t2 t3, write (E:=void) lo' t1 = Ok t2 /\ write (E:=void) hi' t2 = Ok t3 /\
    cr (tstate t1) = lo + 256 * hi /\ cr (tstate t2) = lo + 256 * lo' /\ cr (tstate t3) = lo + 256 * hi'.
Proof.
  intros Hc Hlo Hhi Hlo' Hhi' Hrw Hm Hp. destruct (with_select_fields c Hc) as (_ & Er & _).
  destruct (program_state t c lo hi m Hc Hlo Hhi Hrw Hm) as (u & Hu & Ht1). rewrite Hp in Hu. injection Hu as <-.
  assert (forall b t, is_u 8 b -> cw_rw (control (tstate t)) = 3 -> cr_low (tstate t) = Some lo ->
    exists t', write (E:=void) b t = Ok t' /\ cr (tstate t') = lo + 256 * b /\
      cw_rw (control (tstate t')) = 3 /\ cr_low (tstate t') = Some lo) as Hwrite.
  { intros b t0 Hb Hr Hl. unfold write, write_cr. rewrite Hr, Hl. cbn [Z.eqb Pos.eqb RW_LOW RW_HIGH RW_LOW_HIGH res_bind].
    pose proof (count_bytes lo b Hlo Hb) as Hcb. unfold ucast at 2 in Hcb. rewrite (Z.mod_small lo) in Hcb by done.
    rewrite Hcb, op_mode_ok. cbn [res_bind]. set (t0' := t0 <| tstate := _ |>).
    destruct (bool_decide (count_state (tstate t0') = Active)), (mode_of (tstate t0'));
      eexists; (split; [reflexivity|]); rewrite ?tstate_set_out; (split; [done|]); (split; [exact Hr|exact Hl]). }
  destruct (Hwrite lo' t1 Hlo') as (t2 & H2 & Hc2 & Hr2 & Hl2); [rewrite Ht1; cbn [control]; lia|by rewrite Ht1|].
  destruct (Hwrite hi' t2 Hhi' Hr2 Hl2) as (t3 & H3 & Hc3 & _). exists t2, t3. by split_and!; [..|rewrite Ht1| |].
Qed.

Definition programmed_timer : Timer :=
  match program 0x34 0x34 0x12 idle_timer with Ok t => t | _ => idle_timer end.

(** 0x5678 written over 0x1234 leaves 0x5634. *)
Lemma count_rewrite_stale_witness :
  exists t2 t3, write (E:=void) 0x78 programmed_timer = Ok t2 /\ write (E:=void) 0x56 t2 = Ok t3 /\
    cr (tstate programmed_timer) = 0x34 + 256 * 0x12 /\ cr (tstate t2) = 0x34 + 256 * 0x78 /\
    cr (tstate t3) = 0x34 + 256 * 0x56.
Proof.
  apply (count_rewrite_stale idle_timer programmed_timer 0x34 0x34 0x12 0x78 0x56 RateGenerator);
    [by split|by split|by split|by split|by split|by vm_compute..].
Defined.

Lemma ticks_null n s : null s = false -> null (ticks n s) = false.
Proof.
  intros Hn. unfold ticks. induction (Z.to_nat n) as [|k IH]; [done|]. rewrite Nat.iter_succ.
  set (u := Nat.iter k tick s) in *. unfold tick. destruct (count_state u); try done; destruct (stopped u); try done.
  destruct (mode_of u); repeat case_match; done.
Qed.

(** A whole period of a periodic channel clears the flag. *)
Lemma period_clears_null s :
  settled (s <| null := false |>) = true -> count_state s = Active -> stopped s = false ->
  periodic (mode_of s) = true -> ce s = cr s ->
  null (ticks (period_of (cw_bcd (control s)) (cr s)) s) = false.
Proof.
  intros Hs Hst Hrun Hp Hload. pose proof (settled_ce _ Hs) as Hok.
  change (count_ok (cw_bcd (control s)) (ce s) = true) in Hok.
  destruct (settled_periodic _ Hs Hp) as [Hne _]. change ((cr s =? 1) = false) in Hne.
  rewrite <-Hload in *. rewrite (period_eq_small _ _ 1 Hok (or_introl eq_refl)) in Hne. apply Z.eqb_neq in Hne.
  pose proof (period_bounds _ _ Hok) as Hv. set (v := period_of _ _) in *.
  destruct (mode_of s) eqn:Hm; try done.
  - replace v with (v - 1 + 1) by lia. rewrite ticks_succ, ticks_down by (done || congruence || fold v; lia).
    fold v. replace (v - (v - 1)) with 1 by lia. rewrite encode_small by (by left).
    unfold tick. set (u := set_field _ _). change (count_state u) with (count_state s). rewrite Hst.
    change (stopped u) with (stopped s). rewrite Hrun. change (mode_of u) with (mode_of s). rewrite Hm.
    change (ce u) with 1. assert (forall b, period_of b 1 = 1) as -> by (by intros []). done.
  - pose proof (ticks_half s Hst Hrun Hm Hok Hne) as Hh. fold v in Hh.
    assert (0 <= half_wave (out s) v <= v) by (unfold half_wave; destruct (out s); div_lia).
    replace v with (half_wave (out s) v + (v - half_wave (out s) v)) at 1 by lia.
    rewrite ticks_add, Hh by lia. by apply ticks_null.
Qed.

(** The null count flag can stay set. If the counter of a periodic channel
    equals a count register that was rewritten, evaluating by a whole period
    reloads nothing, and the status still reports the count as not loaded,
    where counting tick by tick reloads the counter and clears the flag. *)
Theorem skip_keeps_null_count (t : Timer) :
  let s := tstate t in
  settled (s <| null := false |>) = true -> count_state s = Active -> stopped s = false ->
  periodic (mode_of s) = true -> ce s = cr s -> null s = true ->
  let p := period_of (cw_bcd (control s)) (cr s) in
  exists t', timer_evaluate (E:=void) p t = Ok t' /\ null (tstate t') = true /\ null (ticks p s) = false.
Proof.
  intros s Hs Hst Hrun Hp Hload Hnull p. pose proof (settled_cr _ Hs) as Hok.
  change (count_ok (cw_bcd (control s)) (cr s) = true) in Hok. pose proof (period_bounds _ _ Hok) as Hb. fold p in Hb.
  unfold timer_evaluate. rewrite op_mode_ok. cbn [res_bind eval_loop]. fold s.
  destruct (Z.ltb_spec 0 p); [|lia]. unfold eval_step, skip_periods. fold s.
  rewrite bool_decide_true, Hload, Z.eqb_refl, Hp by done. cbn [andb]. fold p.
  destruct (Z.leb_spec p p); [|lia]. rewrite Z.mod_same by lia. cbn [Z.eqb res_bind].
  eexists. split; [reflexivity|]. rewrite !tstate_set_out. split; [done|]. by apply period_clears_null.
Qed.

(** A rate generator at 5 whose count is rewritten with 5. *)
Definition rewritten_timer : Timer :=
  rate_timer <| tstate := tstate rate_timer <| null := true |> |>.

Lemma skip_keeps_null_count_witness :
  exists t', timer_evaluate (E:=void) 5 rewritten_timer = Ok t' /\ null (tstate t') = true /\
    null (ticks 5 (tstate rewritten_timer)) = false.
Proof. apply (skip_keeps_null_count rewritten_timer); reflexivity. Defined.
