(* ===== verification/PitSafe.v ===== *)
(** The 8254 device under any guest accesses
    ([vm/devices/chipset/src/pit/mod.rs], [PitDevice]): no operation panics,
    the wakeup is always armed in time, a saved device is restored, and the
    time it accounts for drifts. The proofs use VM time only through
    [TimeAccessLaws]. *)

From S2P Require Import Prelude ChipsetDevice VmTime VmTimeSpec Pit PitTick PitSpec.

Section Device.

Context {C : Type} `{Laws : TimeAccessLaws C}.

(** * The invariant *)

Definition time_bound : Z := 2 ^ 56 - 2 ^ 40.

Record pit_inv (d : PitDevice C) : Prop := {
  pit_timers : length (timers d) = 3%nat;
  pit_timers_ok : Forall (fun t => timer_ok (tstate t)) (timers d);
  pit_clock : ta_inv (vmtime d);
  pit_last : 0 <= last_time d < time_bound;
}.

Definition timer_at (d : PitDevice C) (i : Z) (t : Timer) : Prop := timers d !! Z.to_nat i = Some t.

Lemma timer_get {E} d i :
  pit_inv d -> 0 <= i < 3 ->
  exists t, vec_get (E:=E) (timers d) i = Ok t /\ timer_ok (tstate t) /\ timer_at d i t.
Proof.
  intros Hd Hi. destruct (vec_get_ok (E:=E) (timers d) i) as (t & Hg & Ht).
  { rewrite (pit_timers _ Hd). lia. }
  exists t. split; [done|]. split; [|done].
  exact (proj1 (List.Forall_forall _ _) (pit_timers_ok _ Hd) t (proj1 (list_elem_of_In _ _) (list_elem_of_lookup_2 _ _ _ Ht))).
Qed.

Lemma timer_put {E} d i t :
  pit_inv d -> 0 <= i < 3 -> timer_ok (tstate t) ->
  exists ts, vec_set (E:=E) (timers d) i t = Ok ts /\ pit_inv (d <| timers := ts |>) /\
    ts = <[Z.to_nat i := t]> (timers d).
Proof.
  intros [Hl Hf Hc Ht] Hi Hok. rewrite vec_set_ok by (rewrite Hl; lia). eexists. split; [reflexivity|].
  split; [|done]. constructor; [|by apply Forall_insert|done..].
  change (length (<[Z.to_nat i := t]> (timers d)) = 3%nat). by rewrite length_insert.
Qed.

(** The parts of the device that an operation on channels leaves alone. *)
Definition same_clock (d d' : PitDevice C) : Prop :=
  vmtime d' = vmtime d /\ last_time d' = last_time d /\ time_abi d' = time_abi d.

Lemma on_timer_ok {E} i f d :
  pit_inv d -> 0 <= i < 3 ->
  (forall t, timer_ok (tstate t) -> exists t', f t = Ok (E:=E) t' /\ timer_ok (tstate t')) ->
  exists d', on_timer i f d = Ok d' /\ pit_inv d' /\ same_clock d d'.
Proof.
  intros Hd Hi Hf. unfold on_timer. destruct (timer_get (E:=E) d i Hd Hi) as (t & -> & Ht & _). cbn [res_bind].
  destruct (Hf t Ht) as (t' & -> & Ht'). cbn [res_bind].
  destruct (timer_put (E:=E) d i t' Hd Hi Ht') as (ts & -> & Hd' & _). cbn [res_bind].
  eexists. split; [reflexivity|]. by split.
Qed.

(** * Time *)

(** The ticks between two VM times, and the VM time that they end at. *)
Definition elapsed_ticks (last now : Z) : Z := Z.max 0 (now - last) * 100 / NANOS_PER_TICK.

Lemma pit_evaluate_unfold {E} now (d : PitDevice C) :
  0 <= last_time d < time_bound -> 0 <= now < time_bound ->
  let n := elapsed_ticks (last_time d) now in
  0 <= n < 2 ^ 62 /\ 0 <= last_time d + n * NANOS_PER_TICK / 100 <= Z.max (last_time d) now /\
  pit_evaluate (E:=E) now d =
    (let d := d <| last_time := last_time d + n * NANOS_PER_TICK / 100 |> in
     let! d := on_timer 0 (timer_evaluate n) d in
     let! d := on_timer 1 (timer_evaluate n) d in
     on_timer 2 (timer_evaluate n) d).
Proof.
  intros Hl Hn n. unfold time_bound, elapsed_ticks, NANOS_PER_TICK in *.
  assert (0 <= n < 2 ^ 62) as Hb by (unfold n; div_lia).
  assert (0 <= n * 838 / 100 <= Z.max 0 (now - last_time d)) as Hlast by (unfold n; div_lia).
  split; [done|]. split; [lia|]. unfold pit_evaluate, NANOS_PER_TICK.
  rewrite checked_sub_small by (unfold small; lia).
  assert (ucast 64 (default 0 (if last_time d <=? now then Some ((now - last_time d) * 100) else None)) / 838 = n) as ->.
  { unfold ucast, n. destruct (Z.leb_spec (last_time d) now); cbn [default from_option id];
      rewrite Z.mod_small by lia; f_equal; lia. }
  rewrite umul_ok by (unfold n; div_lia). cbn [res_bind].
  rewrite vmtime_add_small by lia. done.
Qed.

Lemma pit_evaluate_ok {E} now (d : PitDevice C) :
  pit_inv d -> 0 <= now < time_bound ->
  exists d', pit_evaluate (E:=E) now d = Ok d' /\ pit_inv d' /\ vmtime d' = vmtime d /\ time_abi d' = time_abi d.
Proof.
  intros Hd Hn. destruct (pit_evaluate_unfold (E:=E) now d (pit_last _ Hd) Hn) as (Hb & Hl & ->).
  set (n := elapsed_ticks _ _) in *. cbn zeta. set (d0 := d <| last_time := _ |>).
  assert (pit_inv d0) as H0.
  { pose proof (pit_last _ Hd). destruct Hd. constructor; [done..|]. change (last_time d0) with (last_time d + n * NANOS_PER_TICK / 100). lia. }
  assert (forall t, timer_ok (tstate t) -> exists t', timer_evaluate n t = Ok (E:=E) t' /\ timer_ok (tstate t')) as Hev.
  { intros t Ht. by apply timer_evaluate_ok. }
  destruct (on_timer_ok 0 _ d0 H0 ltac:(lia) Hev) as (d1 & -> & H1 & (Hv1 & _ & Ha1)). cbn [res_bind].
  destruct (on_timer_ok 1 _ d1 H1 ltac:(lia) Hev) as (d2 & -> & H2 & (Hv2 & _ & Ha2)). cbn [res_bind].
  destruct (on_timer_ok 2 _ d2 H2 ltac:(lia) Hev) as (d3 & -> & H3 & (Hv3 & _ & Ha3)).
  exists d3. rewrite Hv3, Hv2, Hv1, Ha3, Ha2, Ha1. by split_and!.
Qed.

(** A wakeup is due, and none is armed later than it. *)
Definition armed (d : PitDevice C) : Prop :=
  forall t k, timer_at d 0 t -> next_wakeup (E:=void) (tstate t) = Ok (Some k) ->
    exists u, ta_timeout (vmtime d) = Some u /\
      u <= last_time d + Z.max k 20 * NANOS_PER_TICK / 100.

Lemma arm_wakeup_ok {E} d :
  pit_inv d -> exists d', arm_wakeup (E:=E) d = Ok d' /\ pit_inv d' /\ armed d' /\
    timers d' = timers d /\ last_time d' = last_time d.
Proof.
  intros Hd. unfold arm_wakeup. destruct (timer_get (E:=E) d 0 Hd ltac:(lia)) as (t & -> & Ht & Hat). cbn [res_bind].
  destruct (next_wakeup_ok (tstate t) Ht) as (w & Hw & Hk). rewrite Hw. cbn [res_bind].
  destruct w as [k|].
  2: { exists d. split; [done|]. split; [done|]. split; [|done]. intros t' k Ht' Hk'.
       unfold timer_at in *. rewrite Hat in Ht'. injection Ht' as <-. rewrite Hw in Hk'. congruence. }
  specialize (Hk k eq_refl). pose proof (pit_last _ Hd) as Hl. unfold NANOS_PER_TICK, time_bound in *.
  rewrite umul_ok by lia. cbn [res_bind]. rewrite vmtime_add_small by div_lia.
  destruct (ta_set_ok (E:=E) (last_time d + Z.max k 20 * 838 / 100) (vmtime d)) as (c & -> & Hc & _ & (u & Hu & Hle) & _).
  { apply Hd. } { unfold target_ok. div_lia. }
  cbn [res_bind]. eexists. split; [reflexivity|]. split; [|split; [|done]].
  - destruct Hd. by constructor.
  - intros t' k' Ht' Hk'. unfold timer_at in *. change (timers d !! Z.to_nat 0 = Some t') in Ht'.
    rewrite Hat in Ht'. injection Ht' as <-. rewrite Hw in Hk'. injection Hk' as <-.
    by exists u.
Qed.

Lemma read_clock {E} d os :
  pit_inv d -> 0 <= os < 2 ^ 62 ->
  exists now, ta_now (E:=E) os (vmtime d) = Ok now /\ 0 <= now < time_bound.
Proof.
  intros Hd Hos. destruct (ta_now_ok (E:=E) os (vmtime d) (pit_clock _ Hd) Hos) as [He Hb]. eauto.
Qed.

(** * The operations keep the invariant *)

Lemma pit_new_ok {E} line c os :
  ta_inv c -> 0 <= os < 2 ^ 62 -> exists d, pit_new (E:=E) line c os = Ok d /\ pit_inv d.
Proof.
  intros Hc Hos. destruct (ta_now_ok (E:=E) os c Hc Hos) as [He Hb]. unfold pit_new. rewrite He.
  eexists. split; [reflexivity|]. constructor; [done| |done|done].
  do 3 (apply List.Forall_cons; [apply state_new_ok|]). constructor.
Qed.

Lemma pit_start_ok {E} os d :
  pit_inv d -> 0 <= os < 2 ^ 62 -> exists d', pit_start (E:=E) os d = Ok d' /\ pit_inv d' /\ armed d'.
Proof.
  intros Hd Hos. unfold pit_start. destruct (read_clock (E:=E) d os Hd Hos) as (now & -> & Hn). cbn [res_bind].
  destruct (pit_evaluate_ok (E:=E) now d Hd Hn) as (d1 & -> & H1 & _). cbn [res_bind].
  destruct (arm_wakeup_ok (E:=E) d1 H1) as (d2 & -> & H2 & Ha & _). eauto.
Qed.

Lemma pit_reset_ok {E} os d :
  pit_inv d -> 0 <= os < 2 ^ 62 -> exists d', pit_reset (E:=E) os d = Ok d' /\ pit_inv d'.
Proof.
  intros Hd Hos. unfold pit_reset. set (d1 := d <| timers := _ |>).
  destruct (read_clock (E:=E) d os Hd Hos) as (now & Hnow & Hn). change (vmtime d1) with (vmtime d).
  rewrite Hnow. eexists. split; [reflexivity|]. destruct Hd as [Hl Hf Hc _]. constructor; [| |done|done].
  - change (length (timer_reset <$> timers d) = 3%nat). by rewrite length_fmap.
  - change (Forall (fun t => timer_ok (tstate t)) (timer_reset <$> timers d)). apply Forall_fmap, Forall_true.
    intros t. unfold timer_reset, sync_interrupt. cbn. destruct (interrupt t); apply state_new_ok.
Qed.

(** A clock that moves on between the operations of the device. *)
Lemma pit_inv_clock d c : pit_inv d -> ta_inv c -> pit_inv (d <| vmtime := c |>).
Proof. intros [] ?. by constructor. Qed.

Lemma poll_device_ok {E} os os' d :
  pit_inv d -> 0 <= os < 2 ^ 62 -> 0 <= os' < 2 ^ 62 ->
  exists d', poll_device (E:=E) os os' d = Ok d' /\ pit_inv d' /\
    (armed d' \/ forall t, ta_timeout (vmtime d) = Some t -> ta_reading (vmtime d) os <= t).
Proof.
  intros Hd Hos Hos'. unfold poll_device.
  destruct (ta_poll_ok (E:=E) os (vmtime d) (pit_clock _ Hd) Hos) as (c & r & -> & Hc & Hrd & Hr).
  cbn [res_bind fst snd]. pose proof (pit_inv_clock d c Hd Hc) as H1. destruct r as [now|].
  2: { eexists. split; [reflexivity|]. split; [done|]. right. apply Hr. }
  destruct Hr as (Hto & Hnow & _).
  assert (0 <= now < time_bound) as Hn.
  { rewrite Hnow. apply (ta_now_ok (E:=E) os (vmtime d) (pit_clock _ Hd) Hos). }
  destruct (pit_evaluate_ok (E:=E) now _ H1 Hn) as (d2 & -> & H2 & Hv2 & _). cbn [res_bind].
  destruct (ta_poll_ok (E:=E) os' (vmtime d2) (pit_clock _ H2) Hos') as (c' & r' & -> & Hc' & _ & Hr').
  cbn [res_bind fst snd]. destruct r' as [now'|].
  { exfalso. destruct Hr' as (_ & _ & t & Ht & _). rewrite Hv2 in Ht. change (ta_timeout c = Some t) in Ht. congruence. }
  destruct (arm_wakeup_ok (E:=E) _ (pit_inv_clock d2 c' H2 Hc')) as (d3 & -> & H3 & Ha & _). eauto.
Qed.

Lemma pit_io_read_ok {E} port data os d :
  pit_inv d -> 0 <= os < 2 ^ 62 ->
  exists d' data' r, pit_io_read (E:=E) port data os d = Ok (d', data', r) /\ pit_inv d' /\
    (r = None -> armed d') /\ length data' = length data.
Proof.
  intros Hd Hos. unfold pit_io_read. destruct data as [|b [|]]; [by eexists _, _, _| |by eexists _, _, _].
  destruct (read_clock (E:=E) d os Hd Hos) as (now & -> & Hn). cbn [res_bind].
  destruct (pit_evaluate_ok (E:=E) now d Hd Hn) as (d1 & -> & H1 & _). cbn [res_bind].
  unfold PIT_TIMER_RANGE_START, PIT_TIMER_RANGE_END.
  destruct ((0x40 <=? port) && (port <=? 0x42)) eqn:Hr.
  { apply andb_true_iff in Hr as [Hlo%Z.leb_le Hhi%Z.leb_le].
    destruct (timer_get (E:=E) d1 (port - 0x40) H1 ltac:(lia)) as (t & -> & Ht & _). cbn [res_bind].
    destruct (read_ok (E:=E) t Ht) as (t' & v & -> & Ht' & _). cbn [res_bind fst snd].
    destruct (timer_put (E:=E) d1 (port - 0x40) t' H1 ltac:(lia) Ht') as (ts & -> & H2 & _). cbn [res_bind].
    destruct (arm_wakeup_ok (E:=E) _ H2) as (d3 & -> & H3 & Ha & _). by eexists _, _, _. }
  destruct (port =? PIT_CONTROL_REGISTER).
  { destruct (arm_wakeup_ok (E:=E) _ H1) as (d3 & -> & H3 & Ha & _). by eexists _, _, _. }
  destruct (port =? PIT_PORT61_REGISTER); [|by eexists _, _, _].
  destruct (timer_get (E:=E) d1 2 H1 ltac:(lia)) as (t & -> & Ht & _). cbn [res_bind].
  set (d2 := d1 <| dram_refresh := _ |>). assert (pit_inv d2) as H2 by (destruct H1; by constructor).
  destruct (arm_wakeup_ok (E:=E) d2 H2) as (d3 & -> & H3 & Ha & _). by eexists _, _, _.
Qed.

Lemma read_back_all_ok {E} b d :
  pit_inv d -> exists d', read_back_all (E:=E) b d = Ok d' /\ pit_inv d'.
Proof.
  intros Hd. unfold read_back_all.
  assert (forall (s : bool) i d, pit_inv d -> 0 <= i < 3 -> exists d',
    (if s then on_timer i (fun t => Ok (E:=E) (read_back b t)) d else Ok d) = Ok d' /\ pit_inv d') as Hs.
  { intros s i d0 H0 Hi. destruct s; [|eauto].
    destruct (on_timer_ok (E:=E) i (fun t => Ok (read_back b t)) d0 H0 Hi) as (d' & -> & ? & _); [|eauto].
    intros t Ht. eexists. split; [reflexivity|]. by apply read_back_ok. }
  destruct (Hs (rb_counter0 b) 0 d Hd ltac:(lia)) as (d1 & -> & H1). cbn [res_bind].
  destruct (Hs (rb_counter1 b) 1 d1 H1 ltac:(lia)) as (d2 & -> & H2). cbn [res_bind].
  apply Hs; [done|lia].
Qed.

Lemma write_control_ok {E} b d :
  pit_inv d -> is_u 8 b -> exists d', write_control (E:=E) b d = Ok d' /\ pit_inv d'.
Proof.
  intros Hd Hb. unfold write_control.
  assert (0 <= cw_select b <= 3) as Hsel.
  { unfold cw_select. change 3 with (Z.ones 2). rewrite Z.land_ones by lia.
    pose proof (Z.mod_pos_bound (Z.shiftr b 6) (2 ^ 2)). change (2 ^ 2) with 4 in *. change (Z.ones 2) with 3. lia. }
  destruct (Z.leb_spec (cw_select b) 2).
  - destruct (on_timer_ok (E:=E) (cw_select b) (set_control b) d Hd) as (d' & -> & ? & _); [lia| |eauto].
    intros t Ht. by apply set_control_ok.
  - destruct (Z.eqb_spec (cw_select b) 3); [|lia]. by apply read_back_all_ok.
Qed.

Lemma pit_io_write_ok {E} port data os d :
  pit_inv d -> 0 <= os < 2 ^ 62 -> Forall (is_u 8) data ->
  exists d' r, pit_io_write (E:=E) port data os d = Ok (d', r) /\ pit_inv d' /\ (r = None -> armed d').
Proof.
  intros Hd Hos Hdata. unfold pit_io_write. destruct data as [|b [|]]; [by eexists _, _| |by eexists _, _].
  pose proof (Forall_inv Hdata) as Hb.
  destruct (read_clock (E:=E) d os Hd Hos) as (now & -> & Hn). cbn [res_bind].
  destruct (pit_evaluate_ok (E:=E) now d Hd Hn) as (d1 & -> & H1 & _). cbn [res_bind].
  assert (forall r : res E (PitDevice C), (exists d', r = Ok d' /\ pit_inv d') -> exists d' x,
    (let! d := r in let! d := arm_wakeup d in Ok (d, None)) = Ok (d', x) /\ pit_inv d' /\
    (x = None (A:=IoError) -> armed d')) as Hfin.
  { intros r (d2 & -> & H2). cbn [res_bind].
    destruct (arm_wakeup_ok (E:=E) _ H2) as (d3 & -> & H3 & Ha & _). by eexists _, _. }
  assert (forall i f, 0 <= i < 3 ->
    (forall t, timer_ok (tstate t) -> exists t', f t = Ok (E:=E) t' /\ timer_ok (tstate t')) ->
    exists d', on_timer i f d1 = Ok d' /\ pit_inv d') as Hon.
  { intros i f Hi Hf. destruct (on_timer_ok (E:=E) i f d1 H1 Hi Hf) as (d' & ? & ? & _). eauto. }
  unfold PIT_TIMER_RANGE_START, PIT_TIMER_RANGE_END.
  destruct ((0x40 <=? port) && (port <=? 0x42)) eqn:Hr.
  { apply andb_true_iff in Hr as [Hlo%Z.leb_le Hhi%Z.leb_le]. apply Hfin, Hon; [lia|]. intros t Ht. by apply write_ok. }
  destruct (port =? PIT_CONTROL_REGISTER); [apply Hfin; by apply write_control_ok|].
  destruct (port =? PIT_PORT61_REGISTER); [|by eexists _, _].
  apply Hfin, Hon; [lia|]. intros t Ht. by apply set_gate_ok.
Qed.

(** ** Saving and restoring *)

Definition saved_ok (st : SavedState) : Prop :=
  length (saved_timers st) = 3%nat /\ Forall (fun s => timer_ok (restore_state s)) (saved_timers st) /\
  0 <= saved_last st < time_bound.

Lemma restore_save s : restore_state (save_timer s) = s.
Proof. by destruct s as [? ? ? ? [] ? ? ? ? ? ?]. Qed.

Definition restore_timer (t : Timer) (s : SavedTimerState) : Timer :=
  sync_interrupt (t <| tstate := restore_state s |>).

Lemma tstate_restore t s : tstate (restore_timer t s) = restore_state s.
Proof. unfold restore_timer, sync_interrupt. by destruct t as [? [|] ?]. Qed.

Lemma check_time_abi_ok d :
  pit_inv d -> check_time_abi d = Ok tt \/ exists m, check_time_abi d = Err (PitActive m).
Proof.
  intros Hd. unfold check_time_abi.
  destruct (timer_get (E:=PitActiveError) d 0 Hd ltac:(lia)) as (t & -> & Ht & _). cbn [res_bind].
  rewrite op_mode_ok. cbn [res_bind]. destruct (_ && _ && _); eauto.
Qed.

Lemma check_time_abi_ext (d e : PitDevice C) :
  tstate <$> timers e = tstate <$> timers d -> time_abi e = time_abi d ->
  check_time_abi e = check_time_abi d.
Proof.
  intros Ht Ha. unfold check_time_abi, vec_get. change (Z.to_nat 0) with 0%nat. change (0 <=? 0) with true.
  assert (tstate <$> timers e !! 0%nat = tstate <$> timers d !! 0%nat) as H0 by (by rewrite <-!list_lookup_fmap, Ht).
  destruct (timers e !! 0%nat) as [t|], (timers d !! 0%nat) as [t'|]; try done. cbn in H0.
  injection H0 as H0. cbn. by rewrite H0, Ha.
Qed.

Lemma restored_timers ts (sts : list SavedTimerState) :
  length ts = 3%nat -> length sts = 3%nat ->
  let r := zip_with restore_timer ts sts in
  r ++ drop (length r) ts = r /\ tstate <$> r = restore_state <$> sts /\
  enabled_at_reset <$> r = enabled_at_reset <$> ts.
Proof.
  intros Hts Hsts r. split_and!.
  - rewrite drop_ge, app_nil_r; [done|]. unfold r. rewrite length_zip_with. lia.
  - destruct ts as [|a [|b [|c [|]]]], sts as [|x [|y [|z [|]]]]; try done. cbn. by rewrite !tstate_restore.
  - destruct ts as [|a [|b [|c [|]]]], sts as [|x [|y [|z [|]]]]; try done. cbn.
    unfold restore_timer, sync_interrupt. cbn.
    by destruct (interrupt a), (interrupt b), (interrupt c).
Qed.

Lemma pit_restore_ok {E} st os d :
  pit_inv d -> 0 <= os < 2 ^ 62 -> saved_ok st ->
  exists d' r, pit_restore (E:=E) st os d = Ok (d', r) /\ pit_inv d' /\
    tstate <$> timers d' = restore_state <$> saved_timers st /\ last_time d' = saved_last st /\
    time_abi d' = time_abi d /\
    r = if ta_reading (vmtime d) os <? saved_last st then Some InvalidLastTick
        else match check_time_abi d' with Err e => Some (RestoreActive e) | _ => None end.
Proof.
  intros Hd Hos (Hl & Hf & Hlast). unfold pit_restore. fold restore_timer.
  change (fun t s => sync_interrupt (t <| tstate := restore_state s |>)) with restore_timer.
  destruct (restored_timers (timers d) (saved_timers st) (pit_timers _ Hd) Hl) as (-> & Hts & _).
  set (ts := zip_with restore_timer _ _) in *. set (d1 := d <| timers := ts |> <| last_time := saved_last st |>).
  assert (pit_inv d1) as H1.
  { destruct Hd as [Hdl Hdf Hdc _]. constructor; [| |done|done].
    - change (length ts = 3%nat). unfold ts. rewrite length_zip_with. lia.
    - change (Forall (fun t => timer_ok (tstate t)) ts). apply Forall_fmap. rewrite Hts. by apply Forall_fmap. }
  change (vmtime d1) with (vmtime d).
  destruct (ta_now_ok (E:=E) os (vmtime d) (pit_clock _ Hd) Hos) as [Hnow Hb]. rewrite Hnow. cbn [res_bind].
  rewrite is_after_ltb by (unfold small, time_bound in *; lia).
  destruct (Z.ltb_spec (ta_reading (vmtime d) os) (saved_last st)).
  { exists d1, (Some InvalidLastTick). by split_and!. }
  destruct (check_time_abi_ok d1 H1) as [Hk|(m & Hk)]; rewrite Hk; eexists d1, _; (split; [reflexivity|]);
    (do 4 (split; [done|])); by rewrite Hk.
Qed.

(** * Runs of the device *)

Inductive PitOp : Type :=
| PitStart (os : Z)
| PitReset (os : Z)
| PitPoll (os os' : Z)
| PitRead (port : Z) (data : list Z) (os : Z)
| PitWrite (port : Z) (data : list Z) (os : Z)
| PitRestore (st : SavedState) (os : Z)
| PitClock (c : C).

Definition pit_exec (op : PitOp) (d : PitDevice C) : res void (PitDevice C) :=
  match op with
  | PitStart os => pit_start os d
  | PitReset os => pit_reset os d
  | PitPoll os os' => poll_device os os' d
  | PitRead port data os => let! r := pit_io_read port data os d in Ok r.1.1
  | PitWrite port data os => let! r := pit_io_write port data os d in Ok r.1
  | PitRestore st os => let! r := pit_restore st os d in Ok r.1
  | PitClock c => Ok (d <| vmtime := c |>)
  end.

(** Host readings are bounded, the guest writes bytes, a state that is restored
    is one a device can save, and VM time moves on as its contract allows. *)
Definition pit_op_ok (op : PitOp) : Prop :=
  match op with
  | PitStart os | PitReset os | PitRead _ _ os => 0 <= os < 2 ^ 62
  | PitPoll os os' => 0 <= os < 2 ^ 62 /\ 0 <= os' < 2 ^ 62
  | PitWrite _ data os => 0 <= os < 2 ^ 62 /\ Forall (is_u 8) data
  | PitRestore st os => 0 <= os < 2 ^ 62 /\ saved_ok st
  | PitClock c => ta_inv c
  end.

Inductive pit_reachable : PitDevice C -> Prop :=
| pit_power_on line c os d :
    ta_inv c -> 0 <= os < 2 ^ 62 -> pit_new (E:=void) line c os = Ok d -> pit_reachable d
| pit_abi d : pit_reachable d -> pit_reachable (with_time_abi d)
| pit_step op d d' :
    pit_reachable d -> pit_op_ok op -> pit_exec op d = Ok d' -> pit_reachable d'.

Lemma pit_exec_ok op d :
  pit_inv d -> pit_op_ok op -> exists d', pit_exec op d = Ok d' /\ pit_inv d'.
Proof.
  intros Hd. destruct op as [os|os|os os'|port data os|port data os|st os|c]; cbn [pit_op_ok pit_exec].
  - intros Hos. destruct (pit_start_ok (E:=void) os d Hd Hos) as (d' & ? & ? & _). eauto.
  - intros Hos. by apply pit_reset_ok.
  - intros [Hos Hos']. destruct (poll_device_ok (E:=void) os os' d Hd Hos Hos') as (d' & ? & ? & _). eauto.
  - intros Hos. destruct (pit_io_read_ok (E:=void) port data os d Hd Hos) as (d' & ? & ? & -> & ? & _).
    by eexists.
  - intros [Hos Hb]. destruct (pit_io_write_ok (E:=void) port data os d Hd Hos Hb) as (d' & ? & -> & ? & _).
    by eexists.
  - intros [Hos Hst]. destruct (pit_restore_ok (E:=void) st os d Hd Hos Hst) as (d' & ? & -> & ? & _).
    by eexists.
  - intros Hc. eexists. split; [reflexivity|]. by apply pit_inv_clock.
Qed.

Lemma pit_reachable_inv d : pit_reachable d -> pit_inv d.
Proof.
  induction 1 as [line c os d Hc Hos Hn|d _ Hd|op d d' _ Hd Hop He].
  - destruct (pit_new_ok (E:=void) line c os Hc Hos) as (d' & Hd' & ?). congruence.
  - destruct Hd. by constructor.
  - destruct (pit_exec_ok op d Hd Hop) as (d'' & He' & ?). congruence.
Qed.

Lemma on_timer_run {E} i f (d : PitDevice C) t t' :
  timers d !! Z.to_nat i = Some t -> 0 <= i -> f t = Ok (E:=E) t' ->
  on_timer i f d = Ok (d <| timers := <[Z.to_nat i := t']> (timers d) |>).
Proof.
  intros Hi Hi0 Hf. unfold on_timer. pose proof (lookup_lt_Some _ _ _ Hi).
  unfold vec_get. rewrite Hi. destruct (Z.leb_spec 0 i); [|lia]. cbn [res_bind]. rewrite Hf. cbn [res_bind].
  rewrite vec_set_ok by lia. done.
Qed.

(** Evaluating the device evaluates its three channels by the same ticks. *)
Lemma pit_evaluate_channels {E} now (d : PitDevice C) t0 t1 t2 :
  0 <= last_time d < time_bound -> 0 <= now < time_bound ->
  timers d = [t0; t1; t2] -> timer_ok (tstate t0) -> timer_ok (tstate t1) -> timer_ok (tstate t2) ->
  let n := elapsed_ticks (last_time d) now in
  exists t0' t1' t2', timer_evaluate (E:=E) n t0 = Ok t0' /\ timer_evaluate (E:=E) n t1 = Ok t1' /\
    timer_evaluate (E:=E) n t2 = Ok t2' /\ timer_ok (tstate t0') /\ timer_ok (tstate t1') /\ timer_ok (tstate t2') /\
    pit_evaluate (E:=E) now d =
      Ok (d <| timers := [t0'; t1'; t2'] |> <| last_time := last_time d + n * NANOS_PER_TICK / 100 |>).
Proof.
  intros Hl Hn Hts H0 H1 H2 n. destruct (pit_evaluate_unfold (E:=E) now d Hl Hn) as (Hb & _ & ->). fold n in Hb |- *. clearbody n.
  destruct (timer_evaluate_ok (E:=E) n t0 H0 Hb) as (t0' & E0 & O0).
  destruct (timer_evaluate_ok (E:=E) n t1 H1 Hb) as (t1' & E1 & O1).
  destruct (timer_evaluate_ok (E:=E) n t2 H2 Hb) as (t2' & E2 & O2).
  exists t0', t1', t2'. do 6 (split; [done|]). cbn zeta.
  destruct d as [v ts r a l]. cbn in Hts. subst ts.
  rewrite (on_timer_run 0 _ _ t0 t0') by done. cbn [res_bind].
  rewrite (on_timer_run 1 _ _ t1 t1') by done. cbn [res_bind].
  by rewrite (on_timer_run 2 _ _ t2 t2') by done.
Qed.

(** A device that accounts for the time [l], with a settled channel 0. *)
Definition channels (d : PitDevice C) (l : Z) (t0 : Timer) : Prop :=
  settled (tstate t0) = true /\ last_time d = l /\
  exists t1 t2, timers d = [t0; t1; t2] /\ Forall (fun t => timer_ok (tstate t)) [t0; t1; t2].

Lemma pit_evaluate_settled (d : PitDevice C) l now t0 :
  channels d l t0 -> 0 <= l <= now -> now < time_bound ->
  let n := (now - l) * 100 / NANOS_PER_TICK in
  exists t0' d', pit_evaluate (E:=void) now d = Ok d' /\ channels d' (l + n * NANOS_PER_TICK / 100) t0' /\
    tstate t0' = ticks n (tstate t0).
Proof.
  intros (Hs & Hl & t1 & t2 & Hts & Hok) Hn Hb n.
  inversion Hok as [|? ? O0 Hok1]. inversion Hok1 as [|? ? O1 Hok2]. inversion Hok2 as [|? ? O2 _]. subst.
  assert (elapsed_ticks (last_time d) now = n) as En by (unfold elapsed_ticks, n; do 2 f_equal; lia).
  assert (0 <= n < 2 ^ 62) as Hn62 by (unfold n, NANOS_PER_TICK, time_bound in *; div_lia).
  destruct (pit_evaluate_channels (E:=void) now d t0 t1 t2) as (y0 & y1 & y2 & E0 & _ & _ & Q0 & Q1 & Q2 & He);
    [lia|lia|done..|]. rewrite En in E0, He. unfold timer_evaluate in E0. rewrite op_mode_ok in E0. cbn [res_bind] in E0.
  destruct (eval_loop_ticks (E:=void) (S (Z.to_nat n)) t0 n Hs Hn62 ltac:(lia)) as (z & Hz & Htz).
  assert (z = y0) as -> by congruence. exists y0. eexists. split; [exact He|]. split; [|done].
  split; [rewrite Htz; by apply ticks_settled|]. split; [done|]. exists y1, y2. split; [done|].
  do 3 (apply List.Forall_cons; [done|]). constructor.
Qed.

(** * Properties *)

(** C34: the device never panics. From power-on, under any guest accesses,
    polls, starts, resets and restores of saved states, while VM time moves on
    as its contract allows, every operation returns; in particular the second
    poll of [poll_device] is always pending. *)
Theorem pit_reachable_safe (d : PitDevice C) (op : PitOp) :
  pit_reachable d -> pit_op_ok op -> exists d', pit_exec op d = Ok d'.
Proof.
  intros Hd%pit_reachable_inv Hop. destruct (pit_exec_ok op d Hd Hop) as (d' & ? & _). eauto.
Qed.

(** The next change of the interrupt line is never slept through. After
    every guest access that succeeds, and after a start or a poll that finds
    its timeout expired, if the output of channel 0 has a next change in [k]
    ticks, then a timeout is set, no later than [k] ticks, or 20 if that is
    more, after the time the device has accounted for. *)
Theorem pit_wakeup_armed (d : PitDevice C) (port os os' : Z) (data : list Z) :
  pit_reachable d -> 0 <= os < 2 ^ 62 -> 0 <= os' < 2 ^ 62 -> Forall (is_u 8) data ->
  (exists d' data' r, pit_io_read (E:=void) port data os d = Ok (d', data', r) /\ (r = None -> armed d')) /\
  (exists d' r, pit_io_write (E:=void) port data os d = Ok (d', r) /\ (r = None -> armed d')) /\
  (exists d', pit_start (E:=void) os d = Ok d' /\ armed d') /\
  (exists d', poll_device (E:=void) os os' d = Ok d' /\
     (armed d' \/ forall t, ta_timeout (vmtime d) = Some t -> ta_reading (vmtime d) os <= t)).
Proof.
  intros Hd%pit_reachable_inv Hos Hos' Hb.
  destruct (pit_io_read_ok (E:=void) port data os d Hd Hos) as (? & ? & ? & ? & _ & ? & _).
  destruct (pit_io_write_ok (E:=void) port data os d Hd Hos Hb) as (? & ? & ? & _ & ?).
  destruct (pit_start_ok (E:=void) os d Hd Hos) as (? & ? & _ & ?).
  destruct (poll_device_ok (E:=void) os os' d Hd Hos Hos') as (? & ? & _ & ?).
  split_and!; eauto.
Qed.

(** A saved device is restored. What a reachable device saves, restored
    into any other reachable device with the same ABI setting whose clock has
    not fallen behind, is accepted and gives every channel its saved state. *)
Theorem pit_save_restore (d e : PitDevice C) (st : SavedState) (os : Z) :
  pit_reachable d -> pit_reachable e -> pit_save d = Ok st -> time_abi e = time_abi d ->
  0 <= os < 2 ^ 62 -> last_time d <= ta_reading (vmtime e) os ->
  exists e', pit_restore (E:=void) st os e = Ok (e', None) /\
    tstate <$> timers e' = tstate <$> timers d /\ last_time e' = last_time d /\
    pit_save e' = Ok st.
Proof.
  intros Hd%pit_reachable_inv He%pit_reachable_inv Hsave Habi Hos Hle.
  unfold pit_save in *. destruct (check_time_abi d) as [[]| |] eqn:Hchk; try done. cbn [res_bind] in Hsave.
  injection Hsave as <-.
  assert (restore_state <$> ((fun t => save_timer (tstate t)) <$> timers d) = tstate <$> timers d) as Hts.
  { rewrite <-list_fmap_compose. apply list_fmap_ext. intros i t _. apply restore_save. }
  destruct (pit_restore_ok (E:=void) (mkSavedState ((fun t => save_timer (tstate t)) <$> timers d) (last_time d)) os e He Hos)
    as (e' & r & Hr & Hi & Ht & Hlast & Ha & Hres).
  { split_and!; cbn [saved_timers saved_last]; [by rewrite length_fmap, (pit_timers _ Hd)| |apply (pit_last _ Hd)..].
    apply Forall_fmap. refine (List.Forall_impl _ _ (pit_timers_ok _ Hd)). intros t Ht. unfold compose.
    by rewrite restore_save. }
  cbn [saved_timers saved_last] in *. rewrite Hts in Ht.
  assert (check_time_abi e' = Ok tt) as Hchk' by (rewrite (check_time_abi_ext d e'); congruence).
  exists e'. rewrite Hchk' in *. destruct (Z.ltb_spec (ta_reading (vmtime e) os) (last_time d)); [lia|].
  subst r. do 3 (split; [done|]). cbn [res_bind]. do 2 f_equal; [|done].
  change (fun t => save_timer (tstate t)) with (save_timer ∘ tstate). by rewrite !list_fmap_compose, Ht.
Qed.

(** The time ABI refuses an active periodic channel 0. Under the ABI a
    device saves exactly when channel 0 is not counting in a periodic mode, and
    restoring such a channel is reported. *)
Theorem time_abi_refuses (d : PitDevice C) (t : Timer) (rest : list Timer) :
  timers d = t :: rest ->
  (exists st, pit_save d = Ok st) <->
    time_abi d = false \/ periodic (mode_of (tstate t)) = false \/ count_state (tstate t) = Inactive.
Proof.
  intros Ht. unfold pit_save, check_time_abi, vec_get. rewrite Ht. change (Z.to_nat 0) with 0%nat.
  change (0 <=? 0) with true. cbn [lookup list_lookup res_bind]. rewrite op_mode_ok. cbn [res_bind].
  destruct (time_abi d), (periodic (mode_of (tstate t))), (decide (count_state (tstate t) = Inactive)) as [Hi|Hi];
    cbn [andb]; rewrite ?(bool_decide_true _ Hi), ?(bool_decide_false _ Hi); cbn [negb res_bind]; naive_solver.
Qed.

(** The device runs fast when it is polled often. Advancing the time that
    is accounted for drops the part of [ticks * 838] below 100ns, which the next
    evaluation counts again: evaluating three times, 800ns apart, gives a
    channel three ticks, evaluating once at the same time gives it two. *)
Theorem pit_time_drift (d : PitDevice C) (t0 t1 t2 : Timer) :
  pit_reachable d -> timers d = [t0; t1; t2] -> settled (tstate t0) = true ->
  let l := last_time d in
  l + 25 < time_bound ->
  exists d1 d2 d3 e, pit_evaluate (E:=void) (l + 9) d = Ok d1 /\ pit_evaluate (E:=void) (l + 17) d1 = Ok d2 /\
    pit_evaluate (E:=void) (l + 25) d2 = Ok d3 /\ pit_evaluate (E:=void) (l + 25) d = Ok e /\
    last_time d3 = l + 24 /\ last_time e = l + 16 /\
    tstate <$> timers d3 !! 0%nat = Some (ticks 3 (tstate t0)) /\
    tstate <$> timers e !! 0%nat = Some (ticks 2 (tstate t0)).
Proof.
  intros Hd%pit_reachable_inv Hts Hs l Hl. pose proof (pit_last _ Hd) as Hlast. fold l in Hlast.
  assert (channels d l t0) as H0.
  { split; [done|]. split; [done|]. exists t1, t2. split; [done|]. rewrite <-Hts. apply Hd. }
  destruct (pit_evaluate_settled d l (l + 9) t0 H0) as (a1 & d1 & He1 & H1 & Hs1); [lia|lia|].
  destruct (pit_evaluate_settled d l (l + 25) t0 H0) as (a2 & e & He2 & H2 & Hs2); [lia|lia|].
  replace (l + 9 - l) with 9 in * by lia. replace (l + 25 - l) with 25 in * by lia.
  change (9 * 100 / NANOS_PER_TICK) with 1 in *. change (25 * 100 / NANOS_PER_TICK) with 2 in *.
  change (1 * NANOS_PER_TICK / 100) with 8 in *. change (2 * NANOS_PER_TICK / 100) with 16 in *.
  destruct (pit_evaluate_settled d1 (l + 8) (l + 17) a1 H1) as (a3 & d2 & He3 & H3 & Hs3); [lia|lia|].
  replace (l + 17 - (l + 8)) with 9 in * by lia. change (9 * 100 / NANOS_PER_TICK) with 1 in *.
  change (1 * NANOS_PER_TICK / 100) with 8 in *. replace (l + 8 + 8) with (l + 16) in * by lia.
  destruct (pit_evaluate_settled d2 (l + 16) (l + 25) a3 H3) as (a4 & d3 & He4 & H4 & Hs4); [lia|lia|].
  replace (l + 25 - (l + 16)) with 9 in * by lia. change (9 * 100 / NANOS_PER_TICK) with 1 in *.
  change (1 * NANOS_PER_TICK / 100) with 8 in *. replace (l + 16 + 8) with (l + 24) in * by lia.
  exists d1, d2, d3, e. do 4 (split; [done|]). destruct H2 as (_ & -> & ? & ? & -> & _), H4 as (_ & -> & ? & ? & -> & _).
  cbn [lookup list_lookup fmap option_fmap option_map]. rewrite Hs4, Hs3, Hs1, Hs2, <-!ticks_add by lia.
  by split_and!.
Qed.

End Device.

(** ** A device on the source [VmTimeSpec.example_source] *)

Definition example_pit : PitDevice (VmTimeAccess * VmTime.TimerState) :=
  match pit_new (E:=void) [] example_source 2100 with
  | Ok d => d
  | _ => mkPitDevice example_source [] false false 0
  end.

Lemma example_pit_reachable : pit_reachable example_pit.
Proof. apply (pit_power_on [] example_source 2100); [apply example_source_inv|lia|done]. Qed.

Lemma pit_reachable_safe_witness :
  exists d', pit_exec (PitWrite 0x43 [0x34] 5000) example_pit = Ok d'.
Proof.
  apply (pit_reachable_safe example_pit (PitWrite 0x43 [0x34] 5000) example_pit_reachable).
  split; [lia|]. constructor; [by split|constructor].
Defined.

Lemma pit_wakeup_armed_witness :
  exists d', pit_start (E:=void) 5000 example_pit = Ok d' /\ armed d'.
Proof.
  apply (pit_wakeup_armed example_pit 0x40 5000 5000 [0] example_pit_reachable); try lia.
  constructor; [by split|constructor].
Defined.

Lemma pit_save_restore_witness :
  exists st e', pit_save example_pit = Ok st /\
    pit_restore (E:=void) st 5000 example_pit = Ok (e', None) /\
    tstate <$> timers e' = tstate <$> timers example_pit /\ last_time e' = last_time example_pit /\
    pit_save e' = Ok st.
Proof.
  eexists.
  destruct (pit_save_restore example_pit example_pit _ 5000 example_pit_reachable example_pit_reachable eq_refl eq_refl)
    as (e' & He'); [lia|vm_compute; congruence|]. exists e'. split; [reflexivity|exact He'].
Defined.

Lemma time_abi_refuses_witness :
  (exists st, pit_save example_pit = Ok st) <->
    time_abi example_pit = false \/
    periodic (mode_of (tstate (timer_new true (Some [])))) = false \/
    count_state (tstate (timer_new true (Some []))) = Inactive.
Proof.
  apply (time_abi_refuses example_pit (timer_new true (Some [])) [timer_new true None; timer_new false None]).
  reflexivity.
Defined.

Lemma pit_time_drift_witness :
  exists d1 d2 d3 e, pit_evaluate (E:=void) 17 example_pit = Ok d1 /\ pit_evaluate (E:=void) 25 d1 = Ok d2 /\
    pit_evaluate (E:=void) 33 d2 = Ok d3 /\ pit_evaluate (E:=void) 33 example_pit = Ok e /\
    last_time d3 = 32 /\ last_time e = 24 /\
    tstate <$> timers d3 !! 0%nat = Some (ticks 3 (state_new true)) /\
    tstate <$> timers e !! 0%nat = Some (ticks 2 (state_new true)).
Proof.
  apply (pit_time_drift example_pit (timer_new true (Some [])) (timer_new true None) (timer_new false None)
    example_pit_reachable); [reflexivity|reflexivity|vm_compute; congruence].
Defined.
