(* ===== verification/LocalApic.v ===== *)
(** The local APIC ([vmm_core/virt_support_apic/src/lib.rs], the layouts of
    [vm/x86/x86defs/src/apic.rs] and the saved state of
    [vmm_core/virt/src/x86/vp.rs]).

    [GlobalState] is the set of APICs of a VM, [LocalApic] the APIC of one
    processor. The part of an APIC that other processors reach ([SharedState],
    behind an [Arc] held by the APIC and by its slot in the set) lives in the
    arena [shareds], and an [Arc] to it is its index. The client of a register
    access ([ApicClient]) is the processor's CR8, the time it reports, its
    offloaded registers and the log of the calls to [wake] and [eoi]. Atomics
    are read and written in program order; tracing has no model. A bank array
    [[u32; 8]] is a list. *)

From S2P Require Import Prelude ChipsetDevice VmTime.

(** * Layouts *)

Definition APIC_BASE_ADDRESS : Z := 0xfee00000.
Definition APIC_BASE_PAGE : Z := Z.shiftr APIC_BASE_ADDRESS 12.

(** [ApicBase]. *)
Definition base_bsp (x : Z) : bool := Z.testbit x 8.
Definition base_x2apic (x : Z) : bool := Z.testbit x 10.
Definition base_enable (x : Z) : bool := Z.testbit x 11.
Definition base_page (x : Z) : Z := bits x 12 24.

(** [Svr]. *)
Definition svr_enable (x : Z) : bool := Z.testbit x 8.

(** [Lvt]. *)
Definition lvt_vector (x : Z) : Z := bits x 0 8.
Definition lvt_delivery_mode (x : Z) : Z := bits x 8 3.
Definition lvt_trigger_mode_level (x : Z) : bool := Z.testbit x 15.
Definition lvt_masked (x : Z) : bool := Z.testbit x 16.
Definition lvt_timer_mode (x : Z) : Z := bits x 17 2.
Definition lvt_set_masked (x : Z) : Z := with_bit 16 true x.

(** [Dcr]. *)
Definition dcr_value_low (x : Z) : Z := bits x 0 2.
Definition dcr_value_high (x : Z) : Z := bits x 3 1.

(** [Icr]. *)
Definition icr_vector (x : Z) : Z := bits x 0 8.
Definition icr_delivery_mode (x : Z) : Z := bits x 8 3.
Definition icr_destination_mode_logical (x : Z) : bool := Z.testbit x 11.
Definition icr_level_assert (x : Z) : bool := Z.testbit x 14.
Definition icr_trigger_mode_level (x : Z) : bool := Z.testbit x 15.
Definition icr_destination_shorthand (x : Z) : Z := bits x 18 2.
Definition icr_x2apic_mda (x : Z) : Z := bits x 32 32.
Definition icr_xapic_mda (x : Z) : Z := ucast 8 (Z.shiftr (icr_x2apic_mda x) 24).

(** [X2ApicLogicalId] and [XApicClusterLogicalId]. *)
Definition x2apic_logical_id (x : Z) : Z := bits x 0 16.
Definition x2apic_cluster_id (x : Z) : Z := bits x 16 16.
Definition xapic_logical_id (x : Z) : Z := bits x 0 4.
Definition xapic_cluster_id (x : Z) : Z := bits x 4 4.

(** [MsiAddress] and [MsiData]. *)
Definition msi_address_logical (x : Z) : bool := Z.testbit x 2.
Definition msi_address_extended (x : Z) : Z := bits x 4 8.
Definition msi_address_destination (x : Z) : Z := bits x 12 8.
Definition virt_destination (x : Z) : Z :=
  Z.lor (msi_address_destination x) (Z.shiftl (Z.land (msi_address_extended x) (unot 16 1)) 7).
Definition msi_data_vector (x : Z) : Z := bits x 0 8.
Definition msi_data_delivery_mode (x : Z) : Z := bits x 8 3.
Definition msi_data_trigger_mode_level (x : Z) : bool := Z.testbit x 15.

Module TimerMode.
Definition ONE_SHOT : Z := 0.
Definition PERIODIC : Z := 1.
End TimerMode.

Module Dfr.
Definition FLAT_MODE : Z := 0xffffffff.
Definition CLUSTERED_MODE : Z := 0x0fffffff.
End Dfr.

Module DeliveryMode.
Definition FIXED : Z := 0.
Definition LOWEST_PRIORITY : Z := 1.
Definition SMI : Z := 2.
Definition REMOTE_READ : Z := 3.
Definition NMI : Z := 4.
Definition INIT : Z := 5.
Definition SIPI : Z := 6.
Definition EXTINT : Z := 7.
End DeliveryMode.

Module DestinationShorthand.
Definition NONE : Z := 0.
Definition SELF : Z := 1.
Definition ALL_INCLUDING_SELF : Z := 2.
Definition ALL_EXCLUDING_SELF : Z := 3.
End DestinationShorthand.

Module ApicRegister.
Definition ID : Z := 0x2.
Definition VERSION : Z := 0x3.
Definition TPR : Z := 0x8.
Definition PPR : Z := 0xa.
Definition EOI : Z := 0xb.
Definition LDR : Z := 0xd.
Definition DFR : Z := 0xe.
Definition SVR : Z := 0xf.
Definition ISR0 : Z := 0x10.
Definition ISR7 : Z := 0x17.
Definition TMR0 : Z := 0x18.
Definition TMR7 : Z := 0x1f.
Definition IRR0 : Z := 0x20.
Definition IRR7 : Z := 0x27.
Definition ESR : Z := 0x28.
Definition ICR0 : Z := 0x30.
Definition ICR1 : Z := 0x31.
Definition LVT_TIMER : Z := 0x32.
Definition LVT_THERMAL : Z := 0x33.
Definition LVT_PMC : Z := 0x34.
Definition LVT_LINT0 : Z := 0x35.
Definition LVT_LINT1 : Z := 0x36.
Definition LVT_ERROR : Z := 0x37.
Definition TIMER_ICR : Z := 0x38.
Definition TIMER_CCR : Z := 0x39.
Definition TIMER_DCR : Z := 0x3e.
Definition SELF_IPI : Z := 0x3f.
End ApicRegister.

Definition X2APIC_MSR_BASE : Z := 0x800.
Definition X2APIC_MSR_END : Z := 0x83f.
Definition X86X_MSR_APIC_BASE : Z := 0x1b.
Definition HV_X64_MSR_APIC_FREQUENCY : Z := 0x40000023.
Definition HV_X64_MSR_EOI : Z := 0x40000070.
Definition HV_X64_MSR_ICR : Z := 0x40000071.
Definition HV_X64_MSR_TPR : Z := 0x40000072.

Inductive MsrError : Type :=
| Unknown
| InvalidAccess.

(** * Constants and helpers *)

Definition NANOS_PER_TICK : Z := 5.
Definition TIMER_FREQUENCY : Z := 1000000000 / NANOS_PER_TICK.
Definition APIC_VERSION : Z := 0x50014.

Definition ICR_LOW_MASK : Z :=
  Z.lor (Z.lor 0xff (Z.shiftl 7 8))
    (Z.lor (Z.lor (2 ^ 11) (2 ^ 14)) (Z.lor (2 ^ 15) (Z.shiftl 3 18))).
Definition ICR_XAPIC_MASK : Z := Z.lor ICR_LOW_MASK (Z.shiftl (Z.shiftl 0xff 24) 32).
Definition ICR_X2APIC_MASK : Z := Z.lor ICR_LOW_MASK (Z.shiftl 0xffffffff 32).

Definition priority (v : Z) : Z := Z.shiftr v 4.

Definition dcr_divider_shift (dcr : Z) : Z :=
  let value := Z.lor (dcr_value_low dcr) (Z.shiftl (dcr_value_high dcr) 2) in
  Z.land (wrapping_add 8 value 1) 7.

Definition bank_mask (v : Z) : nat * Z := (Z.to_nat (v / 32), 2 ^ (v mod 32)).

Definition cluster_mode {E} (value : Z) : res E bool :=
  let dfr := Z.lor value 0x0fffffff in
  if dfr =? Dfr.CLUSTERED_MODE then Ok true
  else if dfr =? Dfr.FLAT_MODE then Ok false
  else Panic.

(** [IsrStack]: the vectors in service, the latest last. *)
Definition isr_top (s : list Z) : option Z := list_basics.list.last s.

Definition isr_push {E} (v : Z) (s : list Z) : res E (list Z) :=
  assert! 16 <=? v in
  assert! (length s <? 16)%nat in
  assert! priority (default 0 (isr_top s)) <? priority v in
  Ok (s ++ [v]).

Definition isr_pop (s : list Z) : option Z * list Z := (isr_top s, removelast s).

Definition zero_banks : list Z := replicate 8 0.

Definition isr_to_bits (s : list Z) : list Z :=
  fold_left (fun bits v =>
    let '(bank, mask) := bank_mask v in alter (fun b => Z.lor b mask) bank bits) s zero_banks.

Definition leading_zeros (w x : Z) : Z := if x =? 0 then w else w - 1 - Z.log2 x.

(** The loop of [load_from_bits] over the priorities from [pri] on. *)
Fixpoint isr_load {E} (pri : Z) (halves : list Z) (s : list Z) : res E (list Z) :=
  match halves with
  | [] => Ok s
  | v :: halves =>
      let! s :=
        if (1 <=? pri) && negb (v =? 0)
        then isr_push (pri * 16 + (15 - leading_zeros 16 v)) s else Ok s in
      isr_load (pri + 1) halves s
  end.

Definition isr_load_from_bits {E} (banks : list Z) : res E (list Z) :=
  isr_load 0 (v ← banks; [ucast 16 v; ucast 16 (Z.shiftr v 16)]) [].

(** * State *)

Record SharedState : Type := mkShared {
  vp_index : Z;
  sh_tmr : list Z;
  new_irr : list Z;
  sh_auto_eoi : list Z;
  work : Z;
  software_enabled_on_reset : bool;
}.

#[global] Instance SharedState_settable : Settable SharedState := fun s =>
  mkShared (vp_index s) (sh_tmr s) (new_irr s) (sh_auto_eoi s) (work s)
    (software_enabled_on_reset s).

(** [WorkFlags]. *)
Definition work_init (w : Z) : bool := Z.testbit w 0.
Definition work_sipi (w : Z) : bool := Z.testbit w 1.
Definition work_sipi_vector (w : Z) : Z := bits w 2 8.
Definition work_extint (w : Z) : bool := Z.testbit w 10.
Definition work_nmi (w : Z) : bool := Z.testbit w 11.

Definition with_sipi_vector (v w : Z) : Z := Z.lor (Z.ldiff w (Z.shiftl 0xff 2)) (Z.shiftl v 2).

Record ApicSlot : Type := mkSlot {
  logical_id : Z;
  slot_hardware_enabled : bool;
  slot_software_enabled : bool;
  slot_cluster_mode : bool;
  slot_x2apic_enabled : bool;
  lint_lvts : list Z;
  slot_shared : option nat;
}.

#[global] Instance ApicSlot_settable : Settable ApicSlot := fun s =>
  mkSlot (logical_id s) (slot_hardware_enabled s) (slot_software_enabled s)
    (slot_cluster_mode s) (slot_x2apic_enabled s) (lint_lvts s) (slot_shared s).

Record GlobalState : Type := mkGlobal {
  x2apic_capable : bool;
  hyperv_enlightenments : bool;
  x2apic_enabled_count : Z;
  logical_cluster_mode : Z;
  by_apic_id : list ApicSlot;
  by_index : list Z;
  shareds : list SharedState;
}.

#[global] Instance GlobalState_settable : Settable GlobalState := fun g =>
  mkGlobal (x2apic_capable g) (hyperv_enlightenments g) (x2apic_enabled_count g)
    (logical_cluster_mode g) (by_apic_id g) (by_index g) (shareds g).

(** [LocalApicSetBuilder::build]. *)
Definition build (x2apic_capable hyperv_enlightenments : bool) : GlobalState :=
  mkGlobal x2apic_capable hyperv_enlightenments 0 0 [] [] [].

Record ApicStats : Type := mkApicStats {
  st_eoi : Z;
  st_eoi_level : Z;
  st_spurious_eoi : Z;
  st_lazy_eoi : Z;
  st_interrupt : Z;
  st_nmi : Z;
  st_extint : Z;
  st_init : Z;
  st_sipi : Z;
  st_self_ipi : Z;
  st_broadcast_ipi : Z;
  st_other_ipi : Z;
  st_offload_push : Z;
  st_offload_pull : Z;
}.

#[global] Instance ApicStats_settable : Settable ApicStats := fun s =>
  mkApicStats (st_eoi s) (st_eoi_level s) (st_spurious_eoi s) (st_lazy_eoi s) (st_interrupt s)
    (st_nmi s) (st_extint s) (st_init s) (st_sipi s) (st_self_ipi s) (st_broadcast_ipi s)
    (st_other_ipi s) (st_offload_push s) (st_offload_pull s).

Definition stats_default : ApicStats := mkApicStats 0 0 0 0 0 0 0 0 0 0 0 0 0 0.

Record LocalApic : Type := mkApic {
  shared : nat;
  apic_base : Z;
  base_address : option Z;
  id : Z;
  version : Z;
  ldr : Z;
  in_cluster_mode : bool;
  svr : Z;
  isr : list Z;
  irr : list Z;
  tmr : list Z;
  auto_eoi : list Z;
  next_irr_cache : option Z;
  esr : Z;
  icr : Z;
  lvt_timer : Z;
  lvt_thermal : Z;
  lvt_pmc : Z;
  lvt_lint : list Z;
  lvt_error : Z;
  timer_icr : Z;
  timer_ccr : Z;
  last_time : Z;
  next_timeout : option Z;
  timer_dcr : Z;
  active_auto_eoi : bool;
  is_offloaded : bool;
  needs_offload_reeval : bool;
  scan_irr : bool;
  apic_stats : ApicStats;
}.

#[global] Instance LocalApic_settable : Settable LocalApic := fun a =>
  mkApic (shared a) (apic_base a) (base_address a) (id a) (version a) (ldr a)
    (in_cluster_mode a) (svr a) (isr a) (irr a) (tmr a) (auto_eoi a) (next_irr_cache a)
    (esr a) (icr a) (lvt_timer a) (lvt_thermal a) (lvt_pmc a) (lvt_lint a) (lvt_error a)
    (timer_icr a) (timer_ccr a) (last_time a) (next_timeout a) (timer_dcr a)
    (active_auto_eoi a) (is_offloaded a) (needs_offload_reeval a) (scan_irr a) (apic_stats a).

(** [self.stats.field.increment()], by the update of the statistics. *)
Definition count (f : ApicStats -> ApicStats) (a : LocalApic) : LocalApic :=
  a <| apic_stats := f (apic_stats a) |>.

(** * Interrupt requests *)

(** [Vec::get]. *)
Definition vec_lookup {A} (l : list A) (i : Z) : option A :=
  if i <? Z.of_nat (length l) then l !! Z.to_nat i else None.

(** [array[bank] |= mask] or [array[bank] &= !mask] if the bit is not [b] yet. *)
Definition sync_bit (bank : nat) (mask : Z) (b : bool) (l : list Z) : list Z :=
  if Bool.eqb (negb (Z.land (l !!! bank) mask =? 0)) b then l
  else if b then <[bank := Z.lor (l !!! bank) mask]> l
  else <[bank := Z.land (l !!! bank) (unot 32 mask)]> l.

(** [SharedState::request_interrupt]; true if the processor is to be woken. *)
Definition shared_request_interrupt (software_enabled : bool) (mode v : Z)
    (level_triggered auto_eoi : bool) (s : SharedState) : SharedState * bool :=
  let update_work w := (s <| work := w |>, work s =? 0) in
  if (mode =? DeliveryMode.FIXED) || (mode =? DeliveryMode.LOWEST_PRIORITY) then
    if negb software_enabled || negb ((16 <=? v) && (v <=? 255)) then (s, false)
    else
      let '(bank, mask) := bank_mask v in
      let s := s <| sh_tmr := sync_bit bank mask level_triggered (sh_tmr s) |> in
      let s := s <| sh_auto_eoi := sync_bit bank mask auto_eoi (sh_auto_eoi s) |> in
      let old := new_irr s !!! bank in
      (s <| new_irr := <[bank := Z.lor old mask]> (new_irr s) |>, Z.land old mask =? 0)
  else if mode =? DeliveryMode.NMI then update_work (with_bit 11 true (work s))
  else if mode =? DeliveryMode.INIT then update_work (with_bit 0 true (work s))
  else if mode =? DeliveryMode.SIPI then
    update_work (with_sipi_vector v (with_bit 1 true (work s)))
  else if mode =? DeliveryMode.EXTINT then update_work (with_bit 10 true (work s))
  else (s, false).

(** [ApicSlot::request_interrupt]: the arena and the processors woken. *)
Definition slot_request_interrupt (mode v : Z) (level_triggered auto_eoi : bool)
    (slot : ApicSlot) (arena : list SharedState) : list SharedState * list Z :=
  match slot_shared slot with
  | Some p =>
      match arena !! p with
      | Some s =>
          if slot_hardware_enabled slot then
            let '(s', wake) :=
              shared_request_interrupt (slot_software_enabled slot) mode v level_triggered
                auto_eoi s in
            (<[p := s']> arena, if wake then [vp_index s] else [])
          else (arena, [])
      | None => (arena, [])
      end
  | None => (arena, [])
  end.

(** [MutableGlobalState::request_set_interrupt], from the slot [apic_id] on. *)
Fixpoint request_set_interrupt (mode v : Z) (level_triggered : bool)
    (filter : Z -> ApicSlot -> bool) (apic_id : Z) (slots : list ApicSlot)
    (arena : list SharedState) : list SharedState * list Z :=
  match slots with
  | [] => (arena, [])
  | slot :: slots =>
      let lowest_priority := mode =? DeliveryMode.LOWEST_PRIORITY in
      let continue := request_set_interrupt mode v level_triggered filter (apic_id + 1) slots in
      if negb (filter apic_id slot) then continue arena
      else if negb lowest_priority || slot_software_enabled slot then
        let '(arena, wakes) := slot_request_interrupt mode v level_triggered false slot arena in
        if lowest_priority then (arena, wakes)
        else let '(arena, wakes') := continue arena in (arena, wakes ++ wakes')
      else continue arena
  end.

(** The loop over the members [members] of an X2APIC cluster. *)
Fixpoint request_cluster_interrupt (mode v : Z) (level_triggered : bool) (logical base : Z)
    (slots : list ApicSlot) (members : list Z) (arena : list SharedState)
    : list SharedState * list Z :=
  match members with
  | [] => (arena, [])
  | i :: members =>
      let lowest_priority := mode =? DeliveryMode.LOWEST_PRIORITY in
      let continue := request_cluster_interrupt mode v level_triggered logical base slots members in
      if Z.land logical (Z.shiftl 1 i) =? 0 then continue arena
      else
        match vec_lookup slots (Z.lor base i) with
        | Some slot =>
            if negb lowest_priority || slot_software_enabled slot then
              let '(arena, wakes) :=
                slot_request_interrupt mode v level_triggered false slot arena in
              if lowest_priority then (arena, wakes)
              else let '(arena, wakes') := continue arena in (arena, wakes ++ wakes')
            else continue arena
        | None => continue arena
        end
  end.

Inductive Destination : Type :=
| Physical (id : Z)
| Logical (id : Z)
| Broadcast
| AllExcept (id : Z).

Definition from_icr (icr : Z) (x2apic : bool) : Destination :=
  if x2apic then
    if icr_destination_mode_logical icr then Logical (icr_x2apic_mda icr)
    else if icr_x2apic_mda icr =? 0xffffffff then Broadcast
    else Physical (icr_x2apic_mda icr)
  else
    if icr_destination_mode_logical icr then Logical (icr_xapic_mda icr)
    else if icr_xapic_mda icr =? 0xff then Broadcast
    else Physical (icr_xapic_mda icr).

Definition from_external (logical_destination_mode : bool) (destination : Z)
    (x2apic_capable : bool) : Destination :=
  if logical_destination_mode then Logical destination
  else if (x2apic_capable && (destination =? 0xffffffff))
          || (negb x2apic_capable && (destination =? 0xff))
  then Broadcast
  else Physical destination.

(** [GlobalState::request_interrupt], on the arena. *)
Definition request_arena (g : GlobalState) (d : Destination) (mode v : Z) (level : bool)
    : list SharedState -> list SharedState * list Z :=
  let set filter := request_set_interrupt mode v level filter 0 (by_apic_id g) in
  match d with
  | Physical id =>
      match vec_lookup (by_apic_id g) id with
      | Some slot => slot_request_interrupt mode v level false slot
      | None => fun arena => (arena, [])
      end
  | Logical id =>
      if 0 <? x2apic_enabled_count g then
        if id =? 0xffffffff then set (fun _ _ => true)
        else
          request_cluster_interrupt mode v level (x2apic_logical_id id)
            (Z.shiftl (x2apic_cluster_id id) 4) (by_apic_id g) (seqZ 0 16)
      else if 0 <? logical_cluster_mode g then
        if ucast 8 id =? 0xff then set (fun _ _ => true)
        else
          let id := ucast 8 id in
          set (fun _ slot =>
            (xapic_cluster_id (logical_id slot) =? xapic_cluster_id id)
            && negb (Z.land (xapic_logical_id (logical_id slot)) (xapic_logical_id id) =? 0))
      else set (fun _ slot => negb (Z.land (logical_id slot) (ucast 8 id) =? 0))
  | Broadcast => set (fun _ _ => true)
  | AllExcept except => set (fun apic_id _ => negb (apic_id =? except))
  end.

Definition global_request_interrupt (d : Destination) (mode v : Z) (level : bool)
    (g : GlobalState) : GlobalState * list Z :=
  let '(arena, wakes) := request_arena g d mode v level (shareds g) in
  (g <| shareds := arena |>, wakes).

(** [LocalApicSet::request_interrupt]. *)
Definition request_interrupt (address data : Z) (g : GlobalState) : GlobalState * list Z :=
  let address := ucast 32 address in
  global_request_interrupt
    (from_external (msi_address_logical address) (virt_destination address) (x2apic_capable g))
    (msi_data_delivery_mode data) (msi_data_vector data) (msi_data_trigger_mode_level data) g.

(** The slot of a processor: [by_index.get(..).and_then(.. by_apic_id.get(..))]. *)
Definition slot_of_vp (vp : Z) (g : GlobalState) : option ApicSlot :=
  apic_id ← vec_lookup (by_index g) vp; vec_lookup (by_apic_id g) apic_id.

Definition lint {E} (vp : Z) (lint_index : Z) (g : GlobalState) : res E (GlobalState * list Z) :=
  match slot_of_vp vp g with
  | Some slot =>
      let! lvt := vec_get (lint_lvts slot) lint_index in
      if lvt_masked lvt || lvt_trigger_mode_level lvt then Ok (g, [])
      else
        let '(arena, wakes) :=
          slot_request_interrupt (lvt_delivery_mode lvt) (lvt_vector lvt)
            (lvt_trigger_mode_level lvt) false slot (shareds g) in
        Ok (g <| shareds := arena |>, wakes)
  | None => Ok (g, [])
  end.

Definition synic_interrupt (vp v : Z) (auto_eoi : bool) (g : GlobalState)
    : GlobalState * list Z :=
  match slot_of_vp vp g with
  | Some slot =>
      let '(arena, wakes) :=
        slot_request_interrupt DeliveryMode.FIXED v false auto_eoi slot (shareds g) in
      (g <| shareds := arena |>, wakes)
  | None => (g, [])
  end.

(** * One APIC *)

Inductive InvalidApicBase : Type :=
| ReservedBits
| InvalidX2Apic
| CantDisableX2Apic.

Record ApicWork : Type := mkWork {
  w_init : bool;
  w_sipi : option Z;
  w_extint : bool;
  w_nmi : bool;
  w_interrupt : option Z;
}.

#[global] Instance ApicWork_settable : Settable ApicWork := fun w =>
  mkWork (w_init w) (w_sipi w) (w_extint w) (w_nmi w) (w_interrupt w).

Definition work_default : ApicWork := mkWork false None false false None.

Definition hardware_enabled (a : LocalApic) : bool := base_enable (apic_base a).
Definition x2apic_enabled (a : LocalApic) : bool := base_x2apic (apic_base a).
Definition xapic_enabled (a : LocalApic) : bool := hardware_enabled a && negb (x2apic_enabled a).
Definition software_enabled (a : LocalApic) : bool := svr_enable (svr a).

Definition effective_lvt (a : LocalApic) (lvt : Z) : Z :=
  if negb (software_enabled a) then lvt_set_masked lvt else lvt.

Definition id_register (a : LocalApic) : Z :=
  if x2apic_enabled a then id a else ucast 32 (Z.shiftl (id a) 24).

Definition ldr_register (a : LocalApic) : Z :=
  if x2apic_enabled a
  then Z.lor (Z.shiftl (ucast 16 (Z.shiftr (id a) 4)) 16) (Z.shiftl 1 (Z.land (id a) 0xf))
  else ldr a.

(** [self.shared]. *)
Definition get_shared {E} (g : GlobalState) (a : LocalApic) : res E SharedState :=
  unwrap (shareds g !! shared a).

Definition put_shared (s : SharedState) (a : LocalApic) (g : GlobalState) : GlobalState :=
  g <| shareds := <[shared a := s]> (shareds g) |>.

(** The highest vector of the banks: [self.irr.iter().enumerate().rev()]. *)
Fixpoint highest_vector (i : Z) (rev_banks : list Z) : option Z :=
  match rev_banks with
  | [] => None
  | v :: rev_banks =>
      if negb (v =? 0) then Some (ucast 8 (i * 32 + (31 - leading_zeros 32 v)))
      else highest_vector (i - 1) rev_banks
  end.

Definition recompute_next_irr (a : LocalApic) : LocalApic :=
  match highest_vector 7 (rev (irr a)) with
  | Some v => a <| next_irr_cache := Some v |>
  | None => a <| next_irr_cache := None |> <| active_auto_eoi := false |>
  end.

(** The body of the loop of [pull_irr], for one bank. *)
Definition pull_bank (st : LocalApic * SharedState) (i : nat) : LocalApic * SharedState :=
  let '(a, s) := st in
  let new := new_irr s !!! i in
  if new =? 0 then (a, s)
  else
    let s := s <| new_irr := <[i := 0]> (new_irr s) |> in
    let a := a <| irr := <[i := Z.lor (irr a !!! i) new]> (irr a) |> in
    let a := a <| tmr := <[i := Z.land (tmr a !!! i) (unot 32 new)]> (tmr a) |> in
    let a := a <| tmr := <[i := Z.lor (tmr a !!! i) (Z.land (sh_tmr s !!! i) new)]> (tmr a) |> in
    let a := a <| auto_eoi := <[i := Z.land (auto_eoi a !!! i) (unot 32 new)]> (auto_eoi a) |> in
    let a := a <| auto_eoi :=
      <[i := Z.lor (auto_eoi a !!! i) (Z.land (sh_auto_eoi s !!! i) new)]> (auto_eoi a) |> in
    let a := a <| active_auto_eoi :=
      active_auto_eoi a || negb (Z.land (sh_auto_eoi s !!! i) new =? 0) |> in
    (a <| needs_offload_reeval := true |>, s).

Definition pull_irr {E} (g : GlobalState) (a : LocalApic) : res E (GlobalState * LocalApic) :=
  let! s := get_shared g a in
  let '(a, s) := fold_left pull_bank (seq 0 8) (a, s) in
  let g := put_shared s a g in
  let a := recompute_next_irr a in
  Ok (g, a <| scan_irr := false |>).

Definition update_slot {E} (g : GlobalState) (a : LocalApic) : res E (GlobalState * LocalApic) :=
  let a := a <| base_address :=
    if xapic_enabled a then Some (Z.shiftl (base_page (apic_base a)) 12) else None |> in
  let! slot := vec_get (by_apic_id g) (id a) in
  let slot := slot <| lint_lvts := lvt_lint a |> in
  let slot := slot <| logical_id := ucast 8 (Z.shiftr (ldr a) 24) |> in
  let slot := slot <| slot_hardware_enabled := hardware_enabled a |> in
  let slot := slot <| slot_software_enabled := software_enabled a |> in
  let! n := usub (x2apic_enabled_count g) (b2z (slot_x2apic_enabled slot)) in
  let slot := slot <| slot_x2apic_enabled :=
    base_enable (apic_base a) && base_x2apic (apic_base a) |> in
  let! n := uadd 64 n (b2z (slot_x2apic_enabled slot)) in
  let! c := usub (logical_cluster_mode g) (b2z (slot_cluster_mode slot)) in
  let slot := slot <| slot_cluster_mode := in_cluster_mode a |> in
  let! c := uadd 64 c (b2z (slot_cluster_mode slot)) in
  let! slots := vec_set (by_apic_id g) (id a) slot in
  Ok (g <| x2apic_enabled_count := n |> <| logical_cluster_mode := c |> <| by_apic_id := slots |>,
      a).

Definition LVT_RESET : Z := lvt_set_masked 0.

Definition reset_registers {E} (g : GlobalState) (a : LocalApic)
    : res E (GlobalState * LocalApic) :=
  let! s := get_shared g a in
  let a := a <| ldr := 0 |> <| in_cluster_mode := false |>
    <| svr := with_bit 8 (software_enabled_on_reset s) 0xff |>
    <| isr := [] |> <| esr := 0 |> <| icr := 0 |> <| next_irr_cache := None |>
    <| irr := zero_banks |> <| needs_offload_reeval := false |> <| scan_irr := false |>
    <| tmr := zero_banks |> <| auto_eoi := zero_banks |> <| active_auto_eoi := false |>
    <| lvt_timer := LVT_RESET |> <| lvt_thermal := LVT_RESET |> <| lvt_pmc := LVT_RESET |>
    <| lvt_error := LVT_RESET |> <| lvt_lint := [LVT_RESET; LVT_RESET] |>
    <| timer_icr := 0 |> <| timer_ccr := 0 |> <| timer_dcr := 0 |> <| next_timeout := None |> in
  update_slot g a.

Definition reset {E} (g : GlobalState) (a : LocalApic) : res E (GlobalState * LocalApic) :=
  assert! negb (is_offloaded a) in
  let! s := get_shared g a in
  let base := Z.shiftl APIC_BASE_PAGE 12 in
  let a := a <| apic_base := with_bit 11 true (with_bit 8 (vp_index s =? 0) base) |> in
  let! ga := reset_registers g a in
  let '(g, a) := ga in
  let! s := get_shared g a in
  Ok (put_shared (s <| work := 0 |> <| new_irr := zero_banks |>) a g, a).

Definition APIC_BASE_ALLOWED : Z :=
  Z.lor (Z.lor (2 ^ 11) (2 ^ 10)) (Z.lor (Z.shiftl 0xffffff 12) (2 ^ 8)).

Definition set_apic_base_inner (base : Z) (g : GlobalState) (a : LocalApic)
    : res InvalidApicBase (GlobalState * LocalApic) :=
  let current := apic_base a in
  if negb (Z.land base (unot 64 APIC_BASE_ALLOWED) =? 0) then Err ReservedBits
  else
    let new := with_bit 8 (base_bsp current) base in
    if base_x2apic new && (negb (base_enable new) || negb (x2apic_capable g))
    then Err InvalidX2Apic
    else if base_x2apic current && base_enable new && negb (base_x2apic new)
    then Err CantDisableX2Apic
    else
      let! ga :=
        if base_enable current && negb (base_enable new) then reset_registers g a
        else Ok (g, a) in
      let '(g, a) := ga in
      update_slot g (a <| apic_base := new |>).

Definition set_apic_base (base : Z) (g : GlobalState) (a : LocalApic)
    : res InvalidApicBase (GlobalState * LocalApic) :=
  assert! negb (is_offloaded a) in
  set_apic_base_inner base g a.

(** [LocalApicSet::add_apic]. *)
Definition slot_default : ApicSlot := mkSlot 0 false false false false [0; 0] None.

Definition add_apic {E} (vp apic_id : Z) (software_enabled_on_reset : bool) (g : GlobalState)
    : res E (GlobalState * LocalApic) :=
  let p := length (shareds g) in
  let s := mkShared vp zero_banks zero_banks zero_banks 0 software_enabled_on_reset in
  let g := g <| shareds := shareds g ++ [s] |> in
  let slots := by_apic_id g in
  let slots :=
    if Z.of_nat (length slots) <=? apic_id then resize (Z.to_nat apic_id + 1) slot_default slots
    else slots in
  let! slot := vec_get slots apic_id in
  assert! match slot_shared slot with None => true | Some _ => false end in
  let! slots := vec_set slots apic_id (slot <| slot_shared := Some p |>) in
  let indices := by_index g in
  let indices :=
    if Z.of_nat (length indices) <=? vp then resize (Z.to_nat vp + 1) 0xffffffff indices
    else indices in
  let! indices := vec_set indices vp apic_id in
  reset (g <| by_apic_id := slots |> <| by_index := indices |>)
    (mkApic p 0 None apic_id APIC_VERSION 0 false 0 [] zero_banks zero_banks zero_banks None
       0 0 0 0 0 [0; 0] 0 0 0 0 None 0 false false false false stats_default).

(** ** Pending interrupts *)

(** [LocalApic::next_irr]. *)
Definition next_irr (a : LocalApic) : option Z :=
  if negb (software_enabled a) then None
  else
    match next_irr_cache a with
    | None => None
    | Some v =>
        if match isr_top (isr a) with Some t => priority t | None => 0 end <? priority v
        then Some v else None
    end.

Definition request_fixed_interrupts (new : list Z) (a : LocalApic) : LocalApic :=
  if hardware_enabled a && software_enabled a then
    let new := alter (fun b => Z.land b (unot 32 0xffff)) 0%nat new in
    let a := a <| irr := zip_with Z.lor (irr a) new |>
      <| tmr := zip_with (fun t b => Z.land t (unot 32 b)) (tmr a) new |>
      <| auto_eoi := zip_with (fun t b => Z.land t (unot 32 b)) (auto_eoi a) new |> in
    recompute_next_irr (a <| needs_offload_reeval := true |>)
  else a.

Definition acknowledge_interrupt {E} (v : Z) (a : LocalApic) : res E LocalApic :=
  assert! negb (is_offloaded a) in
  assert! bool_decide (Some v = next_irr_cache a) in
  let '(bank, mask) := bank_mask v in
  let a := a <| irr := alter (fun b => Z.land b (unot 32 mask)) bank (irr a) |> in
  let a := recompute_next_irr a in
  let! a :=
    if Z.land (auto_eoi a !!! bank) mask =? 0
    then let! s := isr_push v (isr a) in Ok (a <| isr := s |>) else Ok a in
  Ok (count (fun s => s <| st_interrupt := counter_increment (st_interrupt s) |>) a).

(** The vector whose EOI would be lazy, before the test of its trigger mode. *)
Definition lazy_eoi_vector (a : LocalApic) : option Z :=
  match next_irr_cache a with
  | Some v =>
      let '(bank, mask) := bank_mask v in
      if negb (bool_decide (isr a = [])) then None
      else if negb (bool_decide (<[bank := mask]> zero_banks = irr a)) then None
      else Some v
  | None => isr_top (isr a)
  end.

Definition is_lazy_eoi_pending (a : LocalApic) : bool :=
  if is_offloaded a then false
  else
    match lazy_eoi_vector a with
    | Some v => let '(bank, mask) := bank_mask v in Z.land (tmr a !!! bank) mask =? 0
    | None => false
    end.

(** ** Offload *)

Inductive OffloadNotSupported : Type := mkOffloadNotSupported.

(** The arguments of the call to [update], if it is called. *)
Definition push_to_offload (a : LocalApic)
    : res OffloadNotSupported (LocalApic * option (list Z * list Z * list Z)) :=
  if needs_offload_reeval a && is_offloaded a && software_enabled a then
    if active_auto_eoi a then Err mkOffloadNotSupported
    else
      let update := (irr a, isr_to_bits (isr a), tmr a) in
      let a := a <| irr := zero_banks |> <| isr := [] |> in
      let a := count (fun s => s <| st_offload_push := counter_increment (st_offload_push s) |>) a in
      Ok (a <| needs_offload_reeval := false |>, Some update)
  else Ok (a, None).

Definition can_offload_irr (a : LocalApic) : bool := is_offloaded a && software_enabled a.

Definition enable_offload (a : LocalApic) : LocalApic :=
  a <| is_offloaded := true |> <| needs_offload_reeval := true |>.

Definition accumulate_from_offload {E} (irr' isr' : list Z) (a : LocalApic) : res E LocalApic :=
  let local_isr := isr_to_bits (isr a) in
  assert! is_offloaded a in
  let a := a <| irr := zip_with Z.lor (irr a) irr' |> in
  let! s := isr_load_from_bits (zip_with Z.lor local_isr isr') in
  let a := recompute_next_irr (a <| isr := s |>) in
  Ok (a <| needs_offload_reeval := true |>).

Definition disable_offload {E} (irr' isr' : list Z) (a : LocalApic) : res E LocalApic :=
  let! a := accumulate_from_offload irr' isr' a in
  Ok (a <| is_offloaded := false |>).

(** ** The timer *)

(** [scan_irr |= shared.request_interrupt(..)]. *)
Definition self_request {E} (mode v : Z) (level : bool) (g : GlobalState) (a : LocalApic)
    : res E (GlobalState * LocalApic) :=
  let! s := get_shared g a in
  let '(s, wake) := shared_request_interrupt (software_enabled a) mode v level false s in
  Ok (put_shared s a g, a <| scan_irr := scan_irr a || wake |>).

(** The counter of a periodic timer after [remaining] counts of a new period. *)
Definition reload_ccr {E} (icr remaining : Z) : res E Z :=
  if remaining <? icr then usub icr (ucast 32 remaining)
  else if icr =? 0 then Panic
  else usub icr (ucast 32 (remaining mod icr)).

Definition eval_time {E} (now : Z) (g : GlobalState) (a : LocalApic)
    : res E (GlobalState * LocalApic) :=
  if timer_ccr a =? 0 then Ok (g, a)
  else
    let shift := dcr_divider_shift (timer_dcr a) in
    let! d := unwrap (checked_sub now (last_time a)) in
    let raw_nanos := ucast 64 d in
    let counts := Z.shiftr (raw_nanos / NANOS_PER_TICK) shift in
    let lvt := lvt_timer a in
    let advance g a :=
      let! elapsed := umul 64 (ucast 64 (Z.shiftl counts shift)) NANOS_PER_TICK in
      Ok (g, a <| last_time := vmtime_wrapping_add (last_time a) elapsed |>) in
    if timer_ccr a <=? counts then
      let! ga :=
        if negb (lvt_masked lvt) then self_request DeliveryMode.FIXED (lvt_vector lvt) false g a
        else Ok (g, a) in
      let '(g, a) := ga in
      if lvt_timer_mode lvt =? TimerMode.ONE_SHOT then Ok (g, a <| timer_ccr := 0 |>)
      else
        let! remaining := usub counts (timer_ccr a) in
        let! ccr := reload_ccr (timer_icr a) remaining in
        advance g (a <| timer_ccr := ccr |>)
    else
      let! ccr := usub (timer_ccr a) (ucast 32 counts) in
      advance g (a <| timer_ccr := ccr |>).

(** [LocalApic::update_timeout]. *)
Definition apic_update_timeout {E} (now : Z) (a : LocalApic) : res E LocalApic :=
  if negb (timer_ccr a =? 0) then
    let ticks := ucast 64 (Z.shiftl (timer_ccr a) (dcr_divider_shift (timer_dcr a))) in
    let! d := umul 64 ticks NANOS_PER_TICK in
    Ok (a <| next_timeout := Some (vmtime_wrapping_add now d) |>)
  else Ok (a <| next_timeout := None |>).

(** ** Work for the processor *)

Definition flush {E} (g : GlobalState) (a : LocalApic) : res E (GlobalState * LocalApic * ApicWork) :=
  let! s := get_shared g a in
  let w := work s in
  if w =? 0 then Ok (g, a, work_default)
  else
    let g := put_shared (s <| work := 0 |>) a g in
    let a := if work_init w
      then count (fun s => s <| st_init := counter_increment (st_init s) |>) a else a in
    let a := if work_sipi w
      then count (fun s => s <| st_sipi := counter_increment (st_sipi s) |>) a else a in
    let a := if work_nmi w
      then count (fun s => s <| st_nmi := counter_increment (st_nmi s) |>) a else a in
    let a := if work_extint w
      then count (fun s => s <| st_extint := counter_increment (st_extint s) |>) a else a in
    Ok (g, a, mkWork (work_init w) (if work_sipi w then Some (work_sipi_vector w) else None)
                (work_extint w) (work_nmi w) None).

(** The timer part of [scan]. *)
Definition scan_timer {E C} `{TimeAccess C} (os : Z) (vmtime : C) (g : GlobalState) (a : LocalApic)
    : res E (C * GlobalState * LocalApic) :=
  match next_timeout a with
  | None => Ok (vmtime, g, a)
  | Some next =>
      let! now := ta_now os vmtime in
      let! ga :=
        if is_after now next then
          let! ga := eval_time now g a in
          let '(g, a) := ga in
          let! a := apic_update_timeout now a in
          Ok (g, a)
        else Ok (g, a) in
      let '(g, a) := ga in
      match next_timeout a with
      | Some next =>
          let! vmtime := ta_set_timeout_if_before next vmtime in
          Ok (vmtime, g, a)
      | None => Ok (vmtime, g, a)
      end
  end.

Definition scan {E C} `{TimeAccess C} (os : Z) (scan : bool) (vmtime : C) (g : GlobalState)
    (a : LocalApic) : res E (C * GlobalState * LocalApic * ApicWork) :=
  if negb (hardware_enabled a) then Ok (vmtime, g, a, work_default)
  else
    let! vga := scan_timer os vmtime g a in
    let '(vmtime, g, a) := vga in
    let! gar := flush g a in
    let '(g, a, r) := gar in
    let! ga := if scan || scan_irr a then pull_irr g a else Ok (g, a) in
    let '(g, a) := ga in
    let r := if negb (is_offloaded a) then r <| w_interrupt := next_irr a |> else r in
    Ok (vmtime, g, a, r).

(** ** Saving and restoring *)

(** The registers that [save] fills and [restore] reads; the others are zero. *)
Record ApicRegisters : Type := mkApicRegisters {
  r_id : Z;
  r_version : Z;
  r_ldr : Z;
  r_dfr : Z;
  r_svr : Z;
  r_isr : list Z;
  r_tmr : list Z;
  r_irr : list Z;
  r_esr : Z;
  r_icr : Z * Z;
  r_lvt_timer : Z;
  r_lvt_thermal : Z;
  r_lvt_pmc : Z;
  r_lvt_lint0 : Z;
  r_lvt_lint1 : Z;
  r_lvt_error : Z;
  r_timer_icr : Z;
  r_timer_dcr : Z;
}.

(** [virt::x86::vp::Apic]. *)
Record SavedApic : Type := mkSavedApic {
  s_apic_base : Z;
  s_registers : ApicRegisters;
  s_auto_eoi : list Z;
}.

Definition save {E} (g : GlobalState) (a : LocalApic)
    : res E (GlobalState * LocalApic * SavedApic) :=
  assert! negb (is_offloaded a) in
  let! ga := pull_irr g a in
  let '(g, a) := ga in
  let dfr :=
    if x2apic_enabled a then 0
    else if in_cluster_mode a then Dfr.CLUSTERED_MODE else Dfr.FLAT_MODE in
  let registers :=
    mkApicRegisters (id_register a) (version a) (ldr_register a) dfr (svr a)
      (isr_to_bits (isr a)) (tmr a) (irr a) (esr a)
      (ucast 32 (icr a), ucast 32 (Z.shiftr (icr a) 32))
      (lvt_timer a) (lvt_thermal a) (lvt_pmc a) (lvt_lint a !!! 0%nat) (lvt_lint a !!! 1%nat)
      (lvt_error a) (timer_icr a) (timer_dcr a) in
  Ok (g, a, mkSavedApic (apic_base a) registers (auto_eoi a)).

Definition restore (st : SavedApic) (g : GlobalState) (a : LocalApic)
    : res InvalidApicBase (GlobalState * LocalApic) :=
  assert! negb (is_offloaded a) in
  let! ga := set_apic_base_inner (s_apic_base st) g a in
  let '(g, a) := ga in
  if negb (hardware_enabled a) then Ok (g, a)
  else
    let r := s_registers st in
    let a := a <| id := if x2apic_enabled a then r_id r else Z.shiftr (r_id r) 24 |> in
    let a := a <| version := r_version r |> in
    let a := if negb (x2apic_enabled a) then a <| ldr := Z.land (r_ldr r) 0xff000000 |> else a in
    let! c := cluster_mode (r_dfr r) in
    let a := a <| in_cluster_mode := c |> <| svr := r_svr r |> <| irr := r_irr r |>
      <| tmr := r_tmr r |> <| auto_eoi := s_auto_eoi st |> in
    let a := recompute_next_irr a in
    let! s := isr_load_from_bits (r_isr r) in
    let a := a <| isr := s |> <| esr := r_esr r |>
      <| icr := Z.lor (fst (r_icr r)) (Z.shiftl (snd (r_icr r)) 32) |> in
    let a := a <| lvt_timer := effective_lvt a (r_lvt_timer r) |>
      <| lvt_thermal := effective_lvt a (r_lvt_thermal r) |>
      <| lvt_pmc := effective_lvt a (r_lvt_pmc r) |>
      <| lvt_lint := [effective_lvt a (r_lvt_lint0 r); effective_lvt a (r_lvt_lint1 r)] |>
      <| lvt_error := effective_lvt a (r_lvt_error r) |>
      <| timer_icr := r_timer_icr r |> <| timer_dcr := r_timer_dcr r |> in
    let! ga := update_slot g a in
    let '(g, a) := ga in
    Ok (g, a <| needs_offload_reeval := true |>).

(** * Register accesses *)

(** The client of an access. *)
Record ApicClient : Type := mkClient {
  cl_cr8 : Z;
  cl_apic_base : Z;
  cl_now : Z;
  cl_wakes : list Z;
  cl_eois : list Z;
  cl_offload : list Z * list Z;
}.

#[global] Instance ApicClient_settable : Settable ApicClient := fun c =>
  mkClient (cl_cr8 c) (cl_apic_base c) (cl_now c) (cl_wakes c) (cl_eois c) (cl_offload c).

(** [LocalApicAccess], with the set that the APIC belongs to. *)
Record Access : Type := mkAccess {
  global : GlobalState;
  apic : LocalApic;
  client : ApicClient;
}.

#[global] Instance Access_settable : Settable Access := fun x =>
  mkAccess (global x) (apic x) (client x).

Definition client_wake (vps : list Z) (x : Access) : Access :=
  x <| client := client x <| cl_wakes := cl_wakes (client x) ++ vps |> |>.

(** A method of [LocalApic] that changes the set as well. *)
Definition on_apic {E} (f : GlobalState -> LocalApic -> res E (GlobalState * LocalApic))
    (x : Access) : res E Access :=
  let! ga := f (global x) (apic x) in
  let '(g, a) := ga in
  Ok (x <| global := g |> <| apic := a |>).

Definition stat (f : ApicStats -> ApicStats) (x : Access) : Access :=
  x <| apic := count f (apic x) |>.

Definition is_valid_apic_access (address : Z) : bool :=
  if Z.land address 0xf =? 0 then true
  else if Z.land address 0xf =? 3 then
    let r := ucast 8 (Z.shiftr address 4) in
    (r =? ApicRegister.ID) || (r =? ApicRegister.LDR) || (r =? ApicRegister.DFR)
  else false.

Definition ensure_state_local {E} (x : Access) : res E Access :=
  if is_offloaded (apic x) then
    let '(irr', isr') := cl_offload (client x) in
    let x := x <| client := client x <| cl_offload := (zero_banks, zero_banks) |> |> in
    let! a := accumulate_from_offload irr' isr' (apic x) in
    let a := count (fun s => s <| st_offload_pull := counter_increment (st_offload_pull s) |>) a in
    Ok (x <| apic := a <| needs_offload_reeval := true |> |>)
  else Ok x.

Definition eoi {E} (lazy : bool) (x : Access) : res E Access :=
  let! x := ensure_state_local x in
  match isr_pop (isr (apic x)) with
  | (Some v, rest) =>
      let x := x <| apic := apic x <| isr := rest |> |> in
      let x :=
        if lazy then stat (fun s => s <| st_lazy_eoi := counter_increment (st_lazy_eoi s) |>) x
        else stat (fun s => s <| st_eoi := counter_increment (st_eoi s) |>) x in
      let '(bank, mask) := bank_mask v in
      if negb (Z.land (tmr (apic x) !!! bank) mask =? 0) then
        let x := x <| client := client x <| cl_eois := cl_eois (client x) ++ [v] |> |> in
        Ok (stat (fun s => s <| st_eoi_level := counter_increment (st_eoi_level s) |>) x)
      else Ok x
  | (None, _) =>
      Ok (stat (fun s => s <| st_spurious_eoi := counter_increment (st_spurious_eoi s) |>) x)
  end.

Definition lazy_eoi {E} (x : Access) : res E Access :=
  assert! is_lazy_eoi_pending (apic x) in
  eoi true x.

Definition get_ppr {E} (x : Access) : res E (Access * Z) :=
  let! x := ensure_state_local x in
  let task_pri := cl_cr8 (client x) in
  let isr_pri := priority (default 0 (isr_top (isr (apic x)))) in
  Ok (x, ucast 32 (Z.shiftl (Z.max task_pri isr_pri) 4)).

(** The part of [handle_ipi] after the checks of the delivery mode. *)
Definition send_ipi {E} (icr' : Z) (x : Access) : res E Access :=
  let mode := icr_delivery_mode icr' in
  let v := icr_vector icr' in
  let broadcast := stat (fun s => s <| st_broadcast_ipi := counter_increment (st_broadcast_ipi s) |>) in
  let request d x :=
    let '(g, wakes) := global_request_interrupt d mode v false (global x) in
    client_wake wakes (x <| global := g |>) in
  let shorthand := icr_destination_shorthand icr' in
  if shorthand =? DestinationShorthand.NONE then
    let d := from_icr icr' (x2apic_enabled (apic x)) in
    let x :=
      match d with
      | Physical _ | Logical _ =>
          stat (fun s => s <| st_other_ipi := counter_increment (st_other_ipi s) |>) x
      | Broadcast | AllExcept _ => broadcast x
      end in
    Ok (request d x)
  else if shorthand =? DestinationShorthand.SELF then
    let x := stat (fun s => s <| st_self_ipi := counter_increment (st_self_ipi s) |>) x in
    on_apic (self_request mode v (icr_trigger_mode_level icr')) x
  else if shorthand =? DestinationShorthand.ALL_INCLUDING_SELF then
    Ok (request Broadcast (broadcast x))
  else if shorthand =? DestinationShorthand.ALL_EXCLUDING_SELF then
    Ok (request (AllExcept (id (apic x))) (broadcast x))
  else Panic.

Definition handle_ipi {E} (icr' : Z) (x : Access) : res E Access :=
  let mode := icr_delivery_mode icr' in
  if mode =? DeliveryMode.FIXED then send_ipi icr' x
  else if mode =? DeliveryMode.LOWEST_PRIORITY then
    if x2apic_enabled (apic x) then Ok x else send_ipi icr' x
  else if mode =? DeliveryMode.NMI then send_ipi icr' x
  else if mode =? DeliveryMode.INIT then
    if negb (icr_level_assert icr') then Ok x else send_ipi icr' x
  else if mode =? DeliveryMode.SIPI then send_ipi icr' x
  else Ok x.

Definition in_range (lo hi r : Z) : bool := (lo <=? r) && (r <=? hi).

Definition read_register {E} (r : Z) (x : Access) : res E (Access * option Z) :=
  let value v : res E (Access * option Z) := Ok (x, Some v) in
  let a := apic x in
  if r =? ApicRegister.ID then value (id_register a)
  else if r =? ApicRegister.VERSION then value (version a)
  else if r =? ApicRegister.TPR then value (ucast 32 (Z.shiftl (cl_cr8 (client x)) 4))
  else if r =? ApicRegister.PPR then
    let! xv := get_ppr x in let '(x, v) := xv in Ok (x, Some v)
  else if r =? ApicRegister.LDR then value (ldr_register a)
  else if (r =? ApicRegister.DFR) && negb (x2apic_enabled a) then
    value (if in_cluster_mode a then Dfr.CLUSTERED_MODE else Dfr.FLAT_MODE)
  else if r =? ApicRegister.SVR then value (svr a)
  else if in_range ApicRegister.ISR0 ApicRegister.ISR7 r then
    let! x := ensure_state_local x in
    let! v := vec_get (isr_to_bits (isr (apic x))) (r - ApicRegister.ISR0) in
    Ok (x, Some v)
  else if in_range ApicRegister.TMR0 ApicRegister.TMR7 r then
    let! x := on_apic pull_irr x in
    let! v := vec_get (tmr (apic x)) (r - ApicRegister.TMR0) in
    Ok (x, Some v)
  else if in_range ApicRegister.IRR0 ApicRegister.IRR7 r then
    let! x := ensure_state_local x in
    let! x := on_apic pull_irr x in
    let! v := vec_get (irr (apic x)) (r - ApicRegister.IRR0) in
    Ok (x, Some v)
  else if r =? ApicRegister.ESR then value (esr a)
  else if (r =? ApicRegister.ICR0) && negb (x2apic_enabled a) then value (ucast 32 (icr a))
  else if (r =? ApicRegister.ICR1) && negb (x2apic_enabled a) then
    value (ucast 32 (Z.shiftr (icr a) 32))
  else if r =? ApicRegister.LVT_TIMER then value (lvt_timer a)
  else if r =? ApicRegister.LVT_THERMAL then value (lvt_thermal a)
  else if r =? ApicRegister.LVT_PMC then value (lvt_pmc a)
  else if r =? ApicRegister.LVT_LINT0 then value (lvt_lint a !!! 0%nat)
  else if r =? ApicRegister.LVT_LINT1 then value (lvt_lint a !!! 1%nat)
  else if r =? ApicRegister.LVT_ERROR then value (lvt_error a)
  else if r =? ApicRegister.TIMER_ICR then value (timer_icr a)
  else if r =? ApicRegister.TIMER_CCR then
    let! x := on_apic (eval_time (cl_now (client x))) x in
    Ok (x, Some (timer_ccr (apic x)))
  else if r =? ApicRegister.TIMER_DCR then value (timer_dcr a)
  else Ok (x, None).

Definition LVT_TIMER_MASK : Z := Z.lor 0xff (Z.lor (2 ^ 16) (Z.shiftl 1 17)).
Definition LVT_MODE_MASK : Z := Z.lor 0xff (Z.lor (Z.shiftl 7 8) (2 ^ 16)).
Definition LVT_LINT_MASK : Z := Z.lor LVT_MODE_MASK (Z.lor (2 ^ 13) (2 ^ 15)).
Definition LVT_ERROR_MASK : Z := Z.lor 0xff (2 ^ 16).
Definition SVR_MASK : Z := Z.lor 0xff (2 ^ 8).
Definition DCR_MASK : Z := Z.lor 3 (2 ^ 3).

(** The spurious vector register: software enable. *)
Definition write_svr {E} (value : Z) (x : Access) : res E Access :=
  let! x := ensure_state_local x in
  let! x := on_apic pull_irr x in
  let a := apic x <| svr := Z.land value SVR_MASK |> in
  let a :=
    if negb (software_enabled a) then
      a <| lvt_timer := lvt_set_masked (lvt_timer a) |>
        <| lvt_thermal := lvt_set_masked (lvt_thermal a) |>
        <| lvt_pmc := lvt_set_masked (lvt_pmc a) |>
        <| lvt_error := lvt_set_masked (lvt_error a) |>
        <| lvt_lint := lvt_set_masked <$> lvt_lint a |>
    else a in
  on_apic update_slot (x <| apic := a |>).

Definition write_timer_icr {E} (value : Z) (x : Access) : res E Access :=
  let now := cl_now (client x) in
  let a := apic x <| timer_icr := value |> <| timer_ccr := value |> <| last_time := now |> in
  let! a := apic_update_timeout now a in
  Ok (x <| apic := a |>).

Definition write_timer_dcr {E} (value : Z) (x : Access) : res E Access :=
  let now := cl_now (client x) in
  let! x := on_apic (eval_time now) x in
  let! a := apic_update_timeout now (apic x <| timer_dcr := Z.land value DCR_MASK |>) in
  Ok (x <| apic := a |>).

Definition write_register {E} (r value : Z) (x : Access) : res E (Access * bool) :=
  let a := apic x in
  let put a : res E (Access * bool) := Ok (x <| apic := a |>, true) in
  let done (m : res E Access) : res E (Access * bool) := let! x := m in Ok (x, true) in
  let x2 := x2apic_enabled a in
  if r =? ApicRegister.TPR then
    Ok (x <| client := client x <| cl_cr8 := Z.shiftr value 4 |> |>, true)
  else if r =? ApicRegister.EOI then
    if x2 && negb (value =? 0) then Ok (x, false) else done (eoi false x)
  else if (r =? ApicRegister.LDR) && negb x2 then
    done (on_apic update_slot (x <| apic := a <| ldr := Z.land value 0xff000000 |> |>))
  else if (r =? ApicRegister.DFR) && negb x2 then
    let! c := cluster_mode value in
    done (on_apic update_slot (x <| apic := a <| in_cluster_mode := c |> |>))
  else if r =? ApicRegister.SVR then done (write_svr value x)
  else if r =? ApicRegister.ESR then
    if x2 && negb (value =? 0) then Ok (x, false) else put (a <| esr := 0 |>)
  else if (r =? ApicRegister.ICR0) && negb x2 then
    let icr' := Z.land (Z.lor value (Z.land (icr a) 0xffffffff00000000)) ICR_XAPIC_MASK in
    done (handle_ipi icr' (x <| apic := a <| icr := icr' |> |>))
  else if (r =? ApicRegister.ICR1) && negb x2 then
    put (a <| icr := Z.land (Z.lor (Z.shiftl value 32) (Z.land (icr a) 0xffffffff)) ICR_XAPIC_MASK |>)
  else if r =? ApicRegister.LVT_TIMER then
    put (a <| lvt_timer := effective_lvt a (Z.land value LVT_TIMER_MASK) |>)
  else if r =? ApicRegister.LVT_THERMAL then
    put (a <| lvt_thermal := effective_lvt a (Z.land value LVT_MODE_MASK) |>)
  else if r =? ApicRegister.LVT_PMC then
    put (a <| lvt_pmc := effective_lvt a (Z.land value LVT_MODE_MASK) |>)
  else if (r =? ApicRegister.LVT_LINT0) || (r =? ApicRegister.LVT_LINT1) then
    let index := if r =? ApicRegister.LVT_LINT0 then 0%nat else 1%nat in
    let lvt := effective_lvt a (Z.land value LVT_LINT_MASK) in
    done (on_apic update_slot (x <| apic := a <| lvt_lint := <[index := lvt]> (lvt_lint a) |> |>))
  else if r =? ApicRegister.LVT_ERROR then
    put (a <| lvt_error := effective_lvt a (Z.land value LVT_ERROR_MASK) |>)
  else if r =? ApicRegister.TIMER_ICR then done (write_timer_icr value x)
  else if r =? ApicRegister.TIMER_DCR then done (write_timer_dcr value x)
  else if (r =? ApicRegister.SELF_IPI) && x2 then
    let x := stat (fun s => s <| st_self_ipi := counter_increment (st_self_ipi s) |>) x in
    done (on_apic (self_request DeliveryMode.FIXED (ucast 8 value) false) x)
  else Ok (x, false).

Definition mmio_read {E} (address : Z) (len : nat) (x : Access) : res E (Access * list Z) :=
  if negb (xapic_enabled (apic x)) || negb (is_valid_apic_access address)
  then Ok (x, replicate len 0xff)
  else
    let! xv := read_register (ucast 8 (Z.shiftr address 4)) x in
    let '(x, v) := xv in
    let value := le_bytes 4 (default 0 v) in
    let offset := Z.to_nat (Z.land address 3) in
    let n := Nat.min len (4 - offset) in
    Ok (x, take n (drop offset value) ++ replicate (len - n) 0).

Definition mmio_write {E} (address : Z) (data : list Z) (x : Access) : res E Access :=
  if negb (xapic_enabled (apic x)) || negb (is_valid_apic_access address) then Ok x
  else
    let offset := Z.to_nat (Z.land address 3) in
    let data := take (4 - offset) data in
    let value := replicate offset 0 ++ data ++ replicate (4 - offset - length data) 0 in
    let! xb := write_register (ucast 8 (Z.shiftr address 4)) (le_value value) x in
    Ok (fst xb).

Definition msr_read {E} (msr : Z) (x : Access) : res E (Access * (MsrError + Z)) :=
  let a := apic x in
  let hv := hyperv_enlightenments (global x) in
  let value v : res E (Access * (MsrError + Z)) := Ok (x, inr v) in
  let error e : res E (Access * (MsrError + Z)) := Ok (x, inl e) in
  if msr =? X86X_MSR_APIC_BASE then value (apic_base a)
  else if in_range X2APIC_MSR_BASE X2APIC_MSR_END msr && x2apic_enabled a then
    let r := ucast 8 (msr - X2APIC_MSR_BASE) in
    if r =? ApicRegister.ICR0 then value (icr a)
    else
      let! xv := read_register r x in
      match xv with
      | (x, Some v) => Ok (x, inr v)
      | (x, None) => Ok (x, inl InvalidAccess)
      end
  else if (msr =? HV_X64_MSR_APIC_FREQUENCY) && hv then value TIMER_FREQUENCY
  else if (msr =? HV_X64_MSR_EOI) && hv then error InvalidAccess
  else if (msr =? HV_X64_MSR_ICR) && hv then
    if negb (hardware_enabled a) then error InvalidAccess else value (icr a)
  else if (msr =? HV_X64_MSR_TPR) && hv then value (ucast 32 (Z.shiftl (cl_cr8 (client x)) 4))
  else error Unknown.

Definition msr_write {E} (msr value : Z) (x : Access) : res E (Access * (MsrError + unit)) :=
  let a := apic x in
  let hv := hyperv_enlightenments (global x) in
  let error e : res E (Access * (MsrError + unit)) := Ok (x, inl e) in
  let done (m : res E Access) : res E (Access * (MsrError + unit)) :=
    let! x := m in Ok (x, inr tt) in
  let ipi mask :=
    let icr' := Z.land value mask in
    done (handle_ipi icr' (x <| apic := a <| icr := icr' |> |>)) in
  if msr =? X86X_MSR_APIC_BASE then
    let! x := ensure_state_local x in
    match set_apic_base_inner value (global x) (apic x) with
    | Ok (g, a) =>
        Ok (x <| global := g |> <| apic := a |>
              <| client := client x <| cl_apic_base := apic_base a |> |>, inr tt)
    | Err _ => Ok (x, inl InvalidAccess)
    | Panic => Panic
    end
  else if in_range X2APIC_MSR_BASE X2APIC_MSR_END msr && x2apic_enabled a then
    let r := ucast 8 (msr - X2APIC_MSR_BASE) in
    if r =? ApicRegister.ICR0 then ipi ICR_X2APIC_MASK
    else
      let! xb := write_register r (ucast 32 value) x in
      match xb with
      | (x, true) => Ok (x, inr tt)
      | (x, false) => Ok (x, inl InvalidAccess)
      end
  else if (msr =? HV_X64_MSR_APIC_FREQUENCY) && hv then error InvalidAccess
  else if (msr =? HV_X64_MSR_EOI) && hv then
    if negb (hardware_enabled a) then error InvalidAccess else done (eoi false x)
  else if (msr =? HV_X64_MSR_ICR) && hv then
    if x2apic_enabled a then ipi ICR_X2APIC_MASK
    else if xapic_enabled a then ipi ICR_XAPIC_MASK
    else error InvalidAccess
  else if (msr =? HV_X64_MSR_TPR) && hv then
    if 0xff <? value then error InvalidAccess
    else
      Ok (x <| client := client x <| cl_cr8 := Z.shiftr (ucast 32 value) 4 |> |>, inr tt)
  else error Unknown.
