(* ===== verification/ApicBanks.v ===== *)
(** The 256-bit registers of the local APIC ([vmm_core/virt_support_apic/src/lib.rs])
    as sets of vectors, and the stack of vectors in service ([IsrStack]). *)

From stdpp Require Import sets sorting.
From S2P Require Import Prelude VmTime LocalApic.

(** * Banks *)

Definition vector_ok (v : Z) : Prop := 0 <= v < 256.

Record banks_ok (l : list Z) : Prop := {
  banks_length : length l = 8%nat;
  banks_words : Forall (is_u 32) l;
}.

(** The bit of vector [v]. *)
Definition bank_bit (l : list Z) (v : Z) : bool := Z.testbit (l !!! Z.to_nat (v / 32)) (v mod 32).

Create HintDb apic.

Lemma bank_lt v : vector_ok v -> (Z.to_nat (v / 32) < 8)%nat.
Proof. unfold vector_ok. intros. div_lia. Qed.

Lemma banks_lookup l i : banks_ok l -> (i < 8)%nat -> l !! i = Some (l !!! i) /\ is_u 32 (l !!! i).
Proof.
  intros [Hl Hw] Hi. destruct (lookup_lt_is_Some_2 l i) as [x Hx]; [lia|].
  rewrite (list_lookup_total_correct _ _ _ Hx). split; [done|].
  exact (Forall_lookup_1 _ _ _ _ Hw Hx).
Qed.

Lemma bank_word l i : banks_ok l -> is_u 32 (l !!! i).
Proof.
  intros H. destruct (decide (i < 8)%nat); [by apply banks_lookup|].
  rewrite list_lookup_total_alt, lookup_ge_None_2 by (rewrite banks_length; [lia|done]).
  cbn. auto with word.
Qed.

Lemma banks_insert l i x : banks_ok l -> is_u 32 x -> banks_ok (<[i := x]> l).
Proof.
  intros [Hl Hw] Hx. split; [by rewrite length_insert|]. by apply Forall_insert.
Qed.

Lemma banks_alter l f i : banks_ok l -> (forall x, is_u 32 x -> is_u 32 (f x)) -> banks_ok (alter f i l).
Proof.
  intros [Hl Hw] Hf. split; [by rewrite length_alter|].
  apply Forall_alter; [done|]. intros x _. apply Hf.
Qed.

Lemma zero_banks_ok : banks_ok zero_banks.
Proof. split; [done|]. apply Forall_replicate. auto with word. Qed.

Lemma bank_bit_zero v : vector_ok v -> bank_bit zero_banks v = false.
Proof.
  intros Hv. unfold bank_bit, zero_banks.
  rewrite lookup_total_replicate_2 by (by apply bank_lt). apply Z.testbit_0_l.
Qed.

Lemma bank_mask_u v : vector_ok v -> is_u 32 (2 ^ (v mod 32)).
Proof. intros. apply is_u_pow2. div_lia. Qed.

Lemma bank_test l v :
  (Z.land (l !!! Z.to_nat (v / 32)) (2 ^ (v mod 32)) =? 0) = negb (bank_bit l v).
Proof. apply land_pow2_testbit. div_lia. Qed.

Lemma bank_bit_insert l i x v :
  banks_ok l -> (i < 8)%nat -> vector_ok v ->
  bank_bit (<[i := x]> l) v = if decide (Z.to_nat (v / 32) = i) then Z.testbit x (v mod 32) else bank_bit l v.
Proof.
  intros [Hl _] Hi Hv. unfold bank_bit. destruct decide as [->|].
  - by rewrite list_lookup_total_insert_eq by lia.
  - by rewrite list_lookup_total_insert_ne.
Qed.

Lemma bank_bit_alter l f i v :
  banks_ok l -> vector_ok v ->
  bank_bit (alter f i l) v =
    if decide (Z.to_nat (v / 32) = i) then Z.testbit (f (l !!! i)) (v mod 32) else bank_bit l v.
Proof.
  intros H Hv. pose proof (bank_lt v Hv). unfold bank_bit. rewrite !list_lookup_total_alt.
  destruct decide as [<-|].
  - rewrite list_lookup_alter_eq. destruct (banks_lookup l (Z.to_nat (v / 32))) as [-> _]; done.
  - by rewrite list_lookup_alter_ne.
Qed.

Lemma banks_alter_insert l v f :
  banks_ok l -> vector_ok v ->
  alter f (Z.to_nat (v / 32)) l = <[Z.to_nat (v / 32) := f (l !!! Z.to_nat (v / 32))]> l.
Proof.
  intros Hl Hv. pose proof (bank_lt v Hv). apply list_eq. intros i.
  destruct (decide (i = Z.to_nat (v / 32))) as [->|Hne].
  - rewrite list_lookup_alter_eq, list_lookup_insert_eq by (by rewrite (banks_length _ Hl)).
    by rewrite (proj1 (banks_lookup l _ Hl (bank_lt v Hv))).
  - by rewrite list_lookup_alter_ne, list_lookup_insert_ne.
Qed.

(** Two vectors in the same bank at the same bit are equal. *)
Lemma same_bit v w : vector_ok v -> vector_ok w -> Z.to_nat (w / 32) = Z.to_nat (v / 32) ->
  (v mod 32 =? w mod 32) = (v =? w).
Proof.
  unfold vector_ok. intros Hv Hw E. destruct (Z.eqb_spec v w) as [->|]; [apply Z.eqb_refl|].
  apply Z.eqb_neq. div_lia.
Qed.

Lemma bank_bit_set l v w :
  banks_ok l -> vector_ok v -> vector_ok w ->
  bank_bit (<[Z.to_nat (v / 32) := Z.lor (l !!! Z.to_nat (v / 32)) (2 ^ (v mod 32))]> l) w =
    (v =? w) || bank_bit l w.
Proof.
  intros Hl Hv Hw. rewrite bank_bit_insert by auto using bank_lt.
  destruct decide as [E|NE].
  - rewrite Z.lor_spec, testbit_pow2 by div_lia. rewrite same_bit by done.
    unfold bank_bit. rewrite E. apply orb_comm.
  - destruct (Z.eqb_spec v w) as [->|]; [done|]. done.
Qed.

Lemma bank_bit_clear l v w :
  banks_ok l -> vector_ok v -> vector_ok w ->
  bank_bit (<[Z.to_nat (v / 32) := Z.land (l !!! Z.to_nat (v / 32)) (unot 32 (2 ^ (v mod 32)))]> l) w =
    negb (v =? w) && bank_bit l w.
Proof.
  intros Hl Hv Hw. rewrite bank_bit_insert by auto using bank_lt.
  destruct decide as [E|NE].
  - assert (0 <= w mod 32 < 32) by div_lia.
    rewrite Z.land_spec, testbit_unot, testbit_pow2 by div_lia. rewrite same_bit by done.
    destruct (Z.leb_spec 0 (w mod 32)), (Z.ltb_spec (w mod 32) 32); try lia.
    unfold bank_bit. rewrite E. cbn. apply andb_comm.
  - destruct (Z.eqb_spec v w) as [->|]; [done|]. done.
Qed.

Lemma bank_bit_zip f b l l' v :
  (forall x y i, Z.testbit (f x y) i = b (Z.testbit x i) (Z.testbit y i)) ->
  banks_ok l -> banks_ok l' -> vector_ok v ->
  bank_bit (zip_with f l l') v = b (bank_bit l v) (bank_bit l' v).
Proof.
  intros Hf Hl Hl' Hv. pose proof (bank_lt v Hv). unfold bank_bit.
  rewrite (list_lookup_total_alt (zip_with f l l')), lookup_zip_with.
  destruct (banks_lookup l (Z.to_nat (v / 32))) as [-> _]; [done..|].
  destruct (banks_lookup l' (Z.to_nat (v / 32))) as [-> _]; [done..|]. cbn. apply Hf.
Qed.

Lemma banks_zip f l l' :
  (forall x y, is_u 32 x -> is_u 32 y -> is_u 32 (f x y)) ->
  banks_ok l -> banks_ok l' -> banks_ok (zip_with f l l').
Proof.
  intros Hf [Hl Hw] [Hl' Hw']. split; [rewrite length_zip_with; lia|].
  apply Forall_lookup. intros i z. rewrite lookup_zip_with_Some. intros (x & y & -> & Hx & Hy).
  apply Hf; [exact (Forall_lookup_1 _ _ _ _ Hw Hx)|exact (Forall_lookup_1 _ _ _ _ Hw' Hy)].
Qed.

(** Registers with the same vectors are equal. *)
Lemma banks_ext l l' :
  banks_ok l -> banks_ok l' -> (forall v, vector_ok v -> bank_bit l v = bank_bit l' v) -> l = l'.
Proof.
  intros Hl Hl' Hb. apply list_eq_same_length with 8%nat; [apply Hl'|apply Hl|].
  intros i x y Hi Hx Hy. rewrite (proj1 (banks_lookup l i Hl Hi)) in Hx.
  rewrite (proj1 (banks_lookup l' i Hl' Hi)) in Hy. simplify_eq.
  apply Z.bits_inj'. intros j Hj. destruct (decide (j < 32)).
  - specialize (Hb (Z.of_nat i * 32 + j)). unfold bank_bit, vector_ok in Hb.
    rewrite Z.div_add_l, (Z.div_small j 32), Z.add_0_r, Nat2Z.id in Hb by lia.
    rewrite Z.add_comm, Z_mod_plus_full, Z.mod_small in Hb by lia. apply Hb. lia.
  - rewrite !(is_u_testbit_high 32); [done|apply bank_word; done|lia|apply bank_word; done|lia].
Qed.

(** * The highest vector *)

(** [o] is the highest vector set in the banks [l]. *)
Definition is_highest (l : list Z) (o : option Z) : Prop :=
  match o with
  | Some v => vector_ok v /\ bank_bit l v = true /\ forall w, vector_ok w -> bank_bit l w = true -> w <= v
  | None => forall w, vector_ok w -> bank_bit l w = false
  end.

Lemma top_bit w x : is_u w x -> x <> 0 ->
  0 <= w - 1 - leading_zeros w x < w /\ Z.testbit x (w - 1 - leading_zeros w x) = true /\
  forall i, Z.testbit x i = true -> i <= w - 1 - leading_zeros w x.
Proof.
  intros Hx Hne. unfold leading_zeros. destruct (Z.eqb_spec x 0); [done|].
  replace (w - 1 - (w - 1 - Z.log2 x)) with (Z.log2 x) by lia. destruct Hx as [H0 H1].
  split; [split; [apply Z.log2_nonneg|apply Z.log2_lt_pow2; lia]|].
  split; [apply Z.bit_log2; lia|]. intros i Hi.
  destruct (decide (i <= Z.log2 x)); [done|]. rewrite Z.bits_above_log2 in Hi by lia. done.
Qed.

Lemma bank_bit_snoc l x v : 0 <= v < 32 * (Z.of_nat (length l) + 1) ->
  bank_bit (l ++ [x]) v =
    if decide (v < 32 * Z.of_nat (length l)) then bank_bit l v else Z.testbit x (v mod 32).
Proof.
  intros Hv. unfold bank_bit. rewrite !list_lookup_total_alt. destruct decide.
  - rewrite lookup_app_l by div_lia. done.
  - replace (Z.to_nat (v / 32)) with (length l + 0)%nat by div_lia.
    rewrite lookup_app_r by lia. by replace (length l + 0 - length l)%nat with 0%nat by lia.
Qed.

Lemma highest_vector_prefix l :
  Forall (is_u 32) l -> (length l <= 8)%nat ->
  match highest_vector (Z.of_nat (length l) - 1) (rev l) with
  | Some v => 0 <= v < 32 * Z.of_nat (length l) /\ bank_bit l v = true /\
      forall w, 0 <= w < 32 * Z.of_nat (length l) -> bank_bit l w = true -> w <= v
  | None => forall w, 0 <= w < 32 * Z.of_nat (length l) -> bank_bit l w = false
  end.
Proof.
  induction l as [|x l IH] using rev_ind; intros Hu Hlen; [cbn; lia|].
  apply Forall_app in Hu as [Hu Hx]. apply Forall_inv in Hx.
  rewrite rev_app_distr, length_app in *. cbn [rev app highest_vector length] in *.
  replace (Z.of_nat (length l + 1)) with (Z.of_nat (length l) + 1) by lia.
  replace (Z.of_nat (length l) + 1 - 1) with (Z.of_nat (length l)) by lia.
  destruct (Z.eqb_spec x 0) as [->|Hne]; cbn [negb].
  - specialize (IH Hu ltac:(lia)).
    assert (forall w, 0 <= w < 32 * (Z.of_nat (length l) + 1) -> bank_bit (l ++ [0]) w = true ->
      w < 32 * Z.of_nat (length l) /\ bank_bit l w = true) as Hb.
    { intros w Hw. rewrite bank_bit_snoc by done. destruct decide; [done|].
      by rewrite Z.testbit_0_l. }
    destruct highest_vector as [v|].
    + destruct IH as (Hv & Hbit & Hmax). split; [lia|]. split.
      * rewrite bank_bit_snoc by lia. by destruct decide; [|lia].
      * intros w Hw Hwb. apply Hb in Hwb as [? ?]; [|done]. apply Hmax; [lia|done].
    + intros w Hw. destruct (bank_bit (l ++ [0]) w) eqn:E; [|done].
      apply Hb in E as [? ?]; [|done]. rewrite IH in * by lia. done.
  - destruct (top_bit 32 x Hx Hne) as (Hr & Ht & Hm). cbn in Hr, Ht, Hm.
    set (j := 31 - leading_zeros 32 x) in *.
    replace (ucast 8 (Z.of_nat (length l) * 32 + j)) with (Z.of_nat (length l) * 32 + j).
    2: { symmetry. apply Z.mod_small. change (2 ^ 8) with 256. lia. }
    split; [lia|]. split.
    + rewrite bank_bit_snoc by lia. destruct decide; [lia|].
      rewrite Z.add_comm, Z_mod_plus_full, Z.mod_small by lia. done.
    + intros w Hw. rewrite bank_bit_snoc by done. destruct decide; [lia|].
      intros Hb. apply Hm in Hb. div_lia.
Qed.

Lemma highest_vector_spec l : banks_ok l -> is_highest l (highest_vector 7 (rev l)).
Proof.
  intros [Hl Hu]. pose proof (highest_vector_prefix l Hu ltac:(lia)) as H. rewrite Hl in H.
  unfold is_highest, vector_ok. exact H.
Qed.

Lemma is_highest_unique l o o' : is_highest l o -> is_highest l o' -> o = o'.
Proof.
  unfold is_highest. destruct o as [v|], o' as [w|]; intros H H'.
  - destruct H as (Hv & Hb & Hm), H' as (Hw & Hb' & Hm'). f_equal. apply Z.le_antisymm; auto.
  - destruct H as (Hv & Hb & _). by rewrite (H' v Hv) in Hb.
  - destruct H' as (Hv & Hb & _). by rewrite (H w Hv) in Hb.
  - done.
Qed.

(** * The vectors in service *)

Record stack_ok (s : list Z) : Prop := {
  stack_vectors : Forall (fun v => 16 <= v < 256) s;
  stack_sorted : StronglySorted (fun v w => priority v < priority w) s;
}.

Lemma priority_div v : priority v = v / 16.
Proof. unfold priority. by rewrite Z.shiftr_div_pow2. Qed.

Lemma stack_nil : stack_ok [].
Proof. split; constructor. Qed.

Lemma stack_app s t : stack_ok (s ++ t) -> stack_ok s /\ stack_ok t.
Proof.
  intros [Hv Hs]. apply Forall_app in Hv as [? ?]. apply StronglySorted_app_1_l in Hs as Hl.
  apply StronglySorted_app_1_r in Hs as Hr. done.
Qed.

Lemma stack_snoc s v :
  stack_ok s -> 16 <= v < 256 -> Forall (fun w => priority w < priority v) s -> stack_ok (s ++ [v]).
Proof.
  intros [Hv Hs] Hr Hp. split; [apply Forall_app; split; [done|by constructor]|].
  apply StronglySorted_app_2; [|done|repeat constructor].
  intros x1 x2 H1 H2. apply list_elem_of_singleton in H2 as ->.
  by apply (proj1 (Forall_forall _ _) Hp), list_elem_of_In.
Qed.

Lemma isr_top_snoc s v : isr_top (s ++ [v]) = Some v.
Proof. apply last_snoc. Qed.

(** The top of the stack has the highest priority. *)
Lemma stack_top s v : stack_ok (s ++ [v]) -> Forall (fun w => priority w < priority v) s.
Proof.
  intros [_ Hs]. apply Forall_forall. intros w Hw.
  apply (StronglySorted_app_1_elem_of (fun v w => priority v < priority w) s [v] w v Hs); [by apply list_elem_of_In|].
  by apply list_elem_of_singleton.
Qed.

Lemma stack_length s v : stack_ok (s ++ [v]) -> Z.of_nat (length (s ++ [v])) <= priority v.
Proof.
  revert v. induction s as [|w s IH] using rev_ind; intros v Hs.
  - cbn. apply stack_vectors in Hs. apply Forall_inv in Hs. rewrite priority_div. div_lia.
  - pose proof (stack_top _ _ Hs) as Ht. apply Forall_app in Ht as [_ Ht]. apply Forall_inv in Ht.
    apply stack_app in Hs as [Hs _]. specialize (IH w Hs). rewrite length_app. cbn [length]. lia.
Qed.

Lemma stack_below_length s p :
  stack_ok s -> Forall (fun w => priority w < p) s -> 1 <= p -> Z.of_nat (length s) <= p - 1.
Proof.
  destruct s as [|w s _] using rev_ind; intros Hs Hp Hone; [cbn; lia|].
  pose proof (stack_length _ _ Hs). apply Forall_app in Hp as [_ Hp]. apply Forall_inv in Hp. lia.
Qed.

Lemma isr_push_ok {E} s v :
  stack_ok s -> 16 <= v < 256 -> Forall (fun w => priority w < priority v) s ->
  isr_push v s = Ok (E:=E) (s ++ [v]) /\ stack_ok (s ++ [v]).
Proof.
  intros Hs Hv Hp. split; [|by apply stack_snoc]. unfold isr_push.
  assert (1 <= priority v < 16) by (rewrite priority_div; div_lia).
  pose proof (stack_below_length s _ Hs Hp ltac:(lia)).
  destruct (Z.leb_spec 16 v); [|lia]. destruct (Nat.ltb_spec (length s) 16); [|lia].
  destruct s as [|w s _] using rev_ind.
  - cbn. destruct (Z.ltb_spec (priority 0) (priority v)); [done|].
    change (priority 0) with 0 in *. lia.
  - rewrite isr_top_snoc. cbn. apply Forall_app in Hp as [_ Hp]. apply Forall_inv in Hp.
    by destruct (Z.ltb_spec (priority w) (priority v)); [|lia].
Qed.

(** ** The stack as a register *)

Lemma isr_to_bits_fold s l :
  Forall vector_ok s -> banks_ok l ->
  let l' := fold_left (fun bits v =>
    let '(bank, mask) := bank_mask v in alter (fun b => Z.lor b mask) bank bits) s l in
  banks_ok l' /\
  forall v, vector_ok v -> bank_bit l' v = bool_decide (v ∈ s) || bank_bit l v.
Proof.
  revert l. induction s as [|w s IH]; intros l Hs Hl; cbn [fold_left bank_mask].
  { split; [done|]. intros v Hv. by rewrite bool_decide_eq_false_2 by set_solver. }
  apply List.Forall_cons_iff in Hs as [Hw Hs].
  assert (banks_ok (alter (fun b => Z.lor b (2 ^ (w mod 32))) (Z.to_nat (w / 32)) l)) as Ha.
  { apply banks_alter; [done|]. intros x Hx. pose proof (bank_mask_u w Hw). auto with word. }
  destruct (IH _ Hs Ha) as [Hok Hbits]. split; [done|]. intros v Hv.
  rewrite Hbits, bank_bit_alter by done.
  destruct decide as [E|NE].
  - rewrite Z.lor_spec, testbit_pow2, same_bit by (done || div_lia).
    destruct (Z.eqb_spec w v) as [->|Hne].
    + rewrite orb_true_r, orb_true_r. by rewrite bool_decide_eq_true_2 by set_solver.
    + rewrite orb_false_r. rewrite <-E. f_equal. apply bool_decide_ext. set_solver.
  - f_equal. apply bool_decide_ext. assert (v <> w) by congruence. set_solver.
Qed.

Lemma stack_vector_ok s : stack_ok s -> Forall vector_ok s.
Proof.
  intros [Hv _]. apply (List.Forall_impl (P := fun v => 16 <= v < 256)); [|done].
  unfold vector_ok. lia.
Qed.

Lemma isr_to_bits_ok s : Forall vector_ok s -> banks_ok (isr_to_bits s).
Proof. intros Hs. by apply isr_to_bits_fold, zero_banks_ok. Qed.

Lemma isr_to_bits_bit s v :
  Forall vector_ok s -> vector_ok v -> bank_bit (isr_to_bits s) v = bool_decide (v ∈ s).
Proof.
  intros Hs Hv. unfold isr_to_bits.
  rewrite (proj2 (isr_to_bits_fold s zero_banks Hs zero_banks_ok)) by done.
  rewrite bank_bit_zero by done. apply orb_false_r.
Qed.

(** [v] is the highest vector of its priority among those of [B]. *)
Definition in_service (B : Z -> bool) (v : Z) : Prop :=
  16 <= v < 256 /\ B v = true /\
  forall w, vector_ok w -> priority w = priority v -> B w = true -> w <= v.

(** The halves [h] hold the bits of [B] from priority [pri] on. *)
Definition halves_ok (B : Z -> bool) (pri : Z) (h : list Z) : Prop :=
  forall j x, h !! j = Some x ->
    is_u 16 x /\ forall i, 0 <= i < 16 -> Z.testbit x i = B ((pri + Z.of_nat j) * 16 + i).

Lemma halves_cons B pri x h : halves_ok B pri (x :: h) ->
  (is_u 16 x /\ forall i, 0 <= i < 16 -> Z.testbit x i = B (pri * 16 + i)) /\
  halves_ok B (pri + 1) h.
Proof.
  intros H. split.
  - destruct (H 0%nat x eq_refl) as [Hx Hb]. split; [done|]. intros i Hi. rewrite Hb by done.
    f_equal. lia.
  - intros j y Hy. destruct (H (S j) y Hy) as [Hx Hb]. split; [done|]. intros i Hi.
    rewrite Hb by done. f_equal. lia.
Qed.

Lemma in_service_half B pri x v :
  1 <= pri < 16 -> is_u 16 x -> (forall i, 0 <= i < 16 -> Z.testbit x i = B (pri * 16 + i)) ->
  priority v = pri ->
  in_service B v <-> x <> 0 /\ v = pri * 16 + (15 - leading_zeros 16 x).
Proof.
  intros Hp Hx Hb Hv. rewrite priority_div in Hv. split.
  - intros (Hr & HB & Hmax). assert (Z.testbit x (v mod 16) = true) as Ht.
    { rewrite Hb by div_lia. rewrite <-HB. f_equal. div_lia. }
    assert (x <> 0) as Hne by (intros ->; by rewrite Z.testbit_0_l in Ht).
    destruct (top_bit 16 x Hx Hne) as (Hj & Htop & Hm). cbn in *. split; [done|].
    apply Hm in Ht. rewrite Hb in Htop by done.
    apply Hmax in Htop; [|unfold vector_ok; lia|rewrite !priority_div; div_lia]. div_lia.
  - intros [Hne ->]. destruct (top_bit 16 x Hx Hne) as (Hj & Htop & Hm). cbn in *.
    rewrite Hb in Htop by done. split; [lia|]. split; [done|]. intros w Hw. rewrite !priority_div.
    intros E HB. assert (Z.testbit x (w mod 16) = true) as Ht.
    { rewrite Hb by div_lia. rewrite <-HB. f_equal. div_lia. }
    apply Hm in Ht. div_lia.
Qed.

Lemma isr_load_ok {E} B h pri s :
  halves_ok B pri h -> 0 <= pri -> pri + Z.of_nat (length h) <= 16 ->
  stack_ok s -> (forall v, v ∈ s <-> in_service B v /\ priority v < pri) ->
  exists s', isr_load pri h s = Ok (E:=E) s' /\ stack_ok s' /\
    forall v, v ∈ s' <-> in_service B v /\ priority v < pri + Z.of_nat (length h).
Proof.
  revert pri s. induction h as [|x h IH]; intros pri s Hh Hp Hlen Hs Hin; cbn [isr_load length] in *.
  { exists s. split; [done|]. split; [done|]. intros v. rewrite Hin. f_equiv. lia. }
  apply halves_cons in Hh as [[Hx Hb] Hh].
  replace (pri + Z.of_nat (S (length h))) with (pri + 1 + Z.of_nat (length h)) in * by lia.
  assert (forall s', stack_ok s' -> (forall v, v ∈ s' <-> in_service B v /\ priority v < pri + 1) ->
    exists s'', isr_load (pri + 1) h s' = Ok (E:=E) s'' /\ stack_ok s'' /\
    forall v, v ∈ s'' <-> in_service B v /\ priority v < pri + 1 + Z.of_nat (length h)) as Hrest.
  { intros s' Hs' Hin'. apply IH; [done|lia|lia|done|done]. }
  destruct (Z.leb_spec 1 pri) as [H1|H1].
  2: { cbn [andb res_bind]. apply Hrest; [done|]. intros v. rewrite Hin.
    split; [naive_solver lia|]. intros [Hv Hpv]. split; [done|]. destruct Hv as [? _].
    rewrite priority_div in *. div_lia. }
  pose proof (fun v => in_service_half B pri x v ltac:(lia) Hx Hb) as Hhalf.
  destruct (Z.eqb_spec x 0) as [->|Hne]; cbn [negb andb].
  { cbn [res_bind]. apply Hrest; [done|]. intros v. rewrite Hin.
    split; [naive_solver lia|]. intros [Hv Hpv]. split; [done|].
    destruct (decide (priority v = pri)) as [E'|]; [|lia]. apply Hhalf in Hv as [? _]; done. }
  destruct (top_bit 16 x Hx Hne) as (Hj & _ & _). cbn in Hj.
  set (u := pri * 16 + (15 - leading_zeros 16 x)) in *.
  assert (priority u = pri) as Hu by (rewrite priority_div; subst u; div_lia).
  destruct (isr_push_ok (E:=E) s u Hs ltac:(subst u; lia)) as [-> Hs'].
  { apply Forall_forall. intros w Hw. apply list_elem_of_In, Hin in Hw as [_ ?]. lia. }
  cbn [res_bind]. apply Hrest; [done|]. intros v. rewrite elem_of_app, list_elem_of_singleton, Hin.
  split.
  - intros [[? ?]| ->]; [split; [done|lia]|]. split; [|lia]. by apply Hhalf.
  - intros [Hv Hpv]. destruct (decide (priority v = pri)) as [E'|].
    + right. by apply Hhalf.
    + left. split; [done|]. lia.
Qed.

Lemma halves_of_banks l j x :
  Forall (is_u 32) l -> (v ← l; [ucast 16 v; ucast 16 (Z.shiftr v 16)]) !! j = Some x ->
  is_u 16 x /\ forall i, 0 <= i < 16 -> Z.testbit x i = bank_bit l (Z.of_nat j * 16 + i).
Proof.
  intros Hl. revert j. induction Hl as [|y l Hy Hl IH]; intros j Hj; [done|].
  cbn in Hj. unfold bank_bit. destruct j as [|[|j]]; cbn in Hj; simplify_eq.
  - split; [auto with word|]. intros i Hi.
    rewrite Z.div_small, Z.mod_small, testbit_ucast by lia.
    by destruct (Z.ltb_spec i 16); [|lia].
  - split; [auto with word|]. intros i Hi. change (Z.of_nat 1 * 16) with 16.
    rewrite Z.div_small, Z.mod_small, testbit_ucast, Z.shiftr_spec by lia.
    destruct (Z.ltb_spec i 16); [|lia]. cbn. f_equal. lia.
  - apply IH in Hj as [Hx Hb]. split; [done|]. intros i Hi. rewrite Hb by done. unfold bank_bit.
    replace (Z.of_nat (S (S j)) * 16 + i) with (Z.of_nat j * 16 + i + 1 * 32) by lia.
    rewrite Z.div_add, Z_mod_plus_full by lia.
    replace (Z.to_nat ((Z.of_nat j * 16 + i) / 32 + 1)) with (S (Z.to_nat ((Z.of_nat j * 16 + i) / 32)))
      by div_lia.
    done.
Qed.

Lemma length_halves (l : list Z) :
  length l = 8%nat -> length (v ← l; [ucast 16 v; ucast 16 (Z.shiftr v 16)]) = 16%nat.
Proof. intros. do 8 (destruct l as [|? l]; [done|]). by destruct l. Qed.

(** Loading any register gives a valid stack: the highest vector of each
    priority above zero. *)
Lemma isr_load_from_bits_ok {E} l :
  banks_ok l -> exists s, isr_load_from_bits l = Ok (E:=E) s /\ stack_ok s /\
    forall v, v ∈ s <-> in_service (bank_bit l) v.
Proof.
  intros [Hlen Hl]. unfold isr_load_from_bits.
  destruct (isr_load_ok (E:=E) (bank_bit l) (v ← l; [ucast 16 v; ucast 16 (Z.shiftr v 16)]) 0 [])
    as (s & Hs & Hok & Hin).
  - intros j x Hx. rewrite Z.add_0_l. by apply halves_of_banks.
  - done.
  - rewrite length_halves by done. done.
  - apply stack_nil.
  - intros v. split; [set_solver|]. intros [(? & _) ?]. rewrite priority_div in *. div_lia.
  - exists s. split; [done|]. split; [done|]. intros v. rewrite Hin.
    split; [by intros [? _]|]. intros Hv. split; [done|].
    rewrite length_halves by done. destruct Hv as [? _]. rewrite priority_div. div_lia.
Qed.

Lemma stack_nodup s : stack_ok s -> NoDup s.
Proof.
  intros [_ Hs]. induction Hs as [|v s Hs IH Hv]; constructor; [|done].
  intros Hin. apply list_elem_of_In in Hin. rewrite Forall_forall in Hv.
  specialize (Hv v Hin). lia.
Qed.

(** A stack is determined by its vectors. *)
Lemma stack_eq s s' : stack_ok s -> stack_ok s' -> (forall v, v ∈ s <-> v ∈ s') -> s = s'.
Proof.
  intros Hs Hs' Hin.
  apply (StronglySorted_unique_strong (fun v w => priority v < priority w)); [|apply Hs|apply Hs'|].
  - intros. lia.
  - apply NoDup_Permutation; auto using stack_nodup.
Qed.

Lemma stack_one_per_priority s v w :
  stack_ok s -> v ∈ s -> w ∈ s -> priority v = priority w -> v = w.
Proof.
  intros [_ Hs]. induction Hs as [|u s Hs IH Hu]; [set_solver|]. rewrite Forall_forall in Hu.
  rewrite !elem_of_cons. intros [->|Hv] [->|Hw] E; [done| | |by apply IH].
  - apply list_elem_of_In, Hu in Hw. lia.
  - apply list_elem_of_In, Hu in Hv. lia.
Qed.

Lemma stack_in_service s v :
  stack_ok s -> in_service (bank_bit (isr_to_bits s)) v <-> v ∈ s.
Proof.
  intros Hs. pose proof (stack_vector_ok s Hs) as Hok. split.
  - intros (Hr & Hb & _). rewrite isr_to_bits_bit in Hb by (done || unfold vector_ok; lia).
    by apply bool_decide_eq_true in Hb.
  - intros Hv. pose proof (stack_vectors s Hs) as Hvs. rewrite Forall_forall in Hvs.
    specialize (Hvs v (proj1 (list_elem_of_In _ _) Hv)). split; [done|]. split.
    + rewrite isr_to_bits_bit by (done || unfold vector_ok; lia). by apply bool_decide_eq_true.
    + intros w Hw E Hb. rewrite isr_to_bits_bit in Hb by done. apply bool_decide_eq_true in Hb.
      by rewrite (stack_one_per_priority s w v Hs Hb Hv E).
Qed.

(** The stack survives its representation as a register. *)
Lemma isr_bits_roundtrip {E} s :
  stack_ok s -> isr_load_from_bits (isr_to_bits s) = Ok (E:=E) s.
Proof.
  intros Hs. destruct (isr_load_from_bits_ok (E:=E) (isr_to_bits s)) as (s' & -> & Hs' & Hin).
  - by apply isr_to_bits_ok, stack_vector_ok.
  - f_equal. apply stack_eq; [done..|]. intros v. rewrite Hin. by apply stack_in_service.
Qed.

(** * Requests *)

Lemma sync_bit_ok b l v :
  banks_ok l -> vector_ok v ->
  let l' := sync_bit (Z.to_nat (v / 32)) (2 ^ (v mod 32)) b l in
  banks_ok l' /\ forall w, vector_ok w -> bank_bit l' w = if v =? w then b else bank_bit l w.
Proof.
  intros Hl Hv. pose proof (bank_mask_u v Hv) as Hm.
  pose proof (bank_word l (Z.to_nat (v / 32)) Hl) as Hu.
  unfold sync_bit. rewrite bank_test, negb_involutive.
  destruct (Bool.eqb (bank_bit l v) b) eqn:E; [|destruct b].
  - apply eqb_prop in E. split; [done|]. intros w Hw. by destruct (Z.eqb_spec v w) as [<-|].
  - split; [apply banks_insert; auto with word|]. intros w Hw. rewrite bank_bit_set by done.
    by destruct (v =? w).
  - split; [apply banks_insert; auto with word|]. intros w Hw. rewrite bank_bit_clear by done.
    by destruct (v =? w).
Qed.
