(* ===== verification/LocalApicSpec.v ===== *)
(** The invariants of the local APICs ([vmm_core/virt_support_apic/src/lib.rs])
    and what each primitive operation does to them.

    [apic_ok] relates an APIC to its slot and its shared state; [frame] bounds
    what an operation of one APIC does to the others; [kept] says that no
    requested interrupt of the APIC itself is dropped or goes unnoticed. *)

From stdpp Require Import sets.
From S2P Require Import Prelude ChipsetDevice VmTime VmTimeSpec LocalApic ApicBanks.

(** * Invariants *)

Record shared_ok (s : SharedState) : Prop := {
  sh_ok_tmr : banks_ok (sh_tmr s);
  sh_ok_irr : banks_ok (new_irr s);
  sh_ok_auto : banks_ok (sh_auto_eoi s);
}.

Definition count_slots (f : ApicSlot -> bool) (slots : list ApicSlot) : Z :=
  foldr (fun slot n => b2z (f slot) + n) 0 slots.

Record global_ok (g : GlobalState) : Prop := {
  g_ok_x2apic : x2apic_enabled_count g = count_slots slot_x2apic_enabled (by_apic_id g);
  g_ok_cluster : logical_cluster_mode g = count_slots slot_cluster_mode (by_apic_id g);
  g_ok_lint : Forall (fun slot => length (lint_lvts slot) = 2%nat) (by_apic_id g);
  g_ok_len : Z.of_nat (length (by_apic_id g)) <= 2 ^ 32;
  g_ok_shared : Forall shared_ok (shareds g);
}.

(** The registers of an APIC that hold vectors. *)
Record core_ok (a : LocalApic) : Prop := {
  core_isr : stack_ok (isr a);
  core_irr : banks_ok (irr a);
  core_tmr : banks_ok (tmr a);
  core_auto : banks_ok (auto_eoi a);
  core_cache : is_offloaded a = false -> is_highest (irr a) (next_irr_cache a);
}.

(** The timer, at time [now]. *)
Record timer_ok (now : Z) (a : LocalApic) : Prop := {
  tm_icr : is_u 32 (timer_icr a);
  tm_ccr : 0 <= timer_ccr a <= timer_icr a;
  tm_last : 0 <= last_time a <= now;
  tm_next : forall t, next_timeout a = Some t -> target_ok t;
}.

(** The slot mirrors the APIC. *)
Record mirrors (a : LocalApic) (slot : ApicSlot) : Prop := {
  mi_shared : slot_shared slot = Some (shared a);
  mi_hardware : slot_hardware_enabled slot = hardware_enabled a;
  mi_software : slot_software_enabled slot = software_enabled a;
  mi_x2apic : slot_x2apic_enabled slot = hardware_enabled a && x2apic_enabled a;
  mi_cluster : slot_cluster_mode slot = in_cluster_mode a;
  mi_lint : lint_lvts slot = lvt_lint a;
  mi_logical : logical_id slot = ucast 8 (Z.shiftr (ldr a) 24);
}.

Record apic_ok (now : Z) (g : GlobalState) (a : LocalApic) : Prop := {
  ap_core : core_ok a;
  ap_timer : timer_ok now a;
  ap_lint : length (lvt_lint a) = 2%nat;
  ap_id : 0 <= id a;
  ap_slot : exists slot, by_apic_id g !! Z.to_nat (id a) = Some slot /\ mirrors a slot;
  ap_shared : exists s, shareds g !! shared a = Some s;
}.

(** A VM time that the timer arithmetic stays within. *)
Definition now_ok (now : Z) : Prop := 0 <= now < 2 ^ 56 - 2 ^ 40.

(** * Pending interrupts *)

(** [v] has been requested of the APIC in arena cell [p]. *)
Definition staged (g : GlobalState) (p : nat) (v : Z) : bool :=
  match shareds g !! p with
  | Some s => bank_bit (new_irr s) v
  | None => false
  end.

(** [v] has been requested and not acknowledged yet. *)
Definition pending (g : GlobalState) (a : LocalApic) (v : Z) : bool :=
  staged g (shared a) v || bank_bit (irr a) v.

(** * What operations leave alone *)

(** Requests from outside change a shared state from [s] to [s'], waking
    [wakes]: nothing staged is lost, and anything new wakes the processor. *)
Record cell_step (wakes : list Z) (s s' : SharedState) : Prop := {
  ce_ok : shared_ok s -> shared_ok s';
  ce_vp : vp_index s' = vp_index s;
  ce_reset : software_enabled_on_reset s' = software_enabled_on_reset s;
  ce_grow : shared_ok s -> forall v, vector_ok v ->
    bank_bit (new_irr s) v = true -> bank_bit (new_irr s') v = true;
  ce_new : shared_ok s -> forall v, vector_ok v -> bank_bit (new_irr s') v = true ->
    bank_bit (new_irr s) v = true \/ vp_index s ∈ wakes;
  ce_work : work s' <> 0 -> work s <> 0 \/ vp_index s ∈ wakes;
  ce_work_kept : work s <> 0 -> work s' <> 0;
}.

Lemma cell_refl w s : cell_step w s s.
Proof. split; auto. Qed.

Lemma cell_trans w s1 s2 s3 : cell_step w s1 s2 -> cell_step w s2 s3 -> cell_step w s1 s3.
Proof.
  intros H1 H2. pose proof (ce_vp _ _ _ H1) as V. split.
  - intros. by apply (ce_ok _ _ _ H2), (ce_ok _ _ _ H1).
  - by rewrite (ce_vp _ _ _ H2).
  - by rewrite (ce_reset _ _ _ H2), (ce_reset _ _ _ H1).
  - intros Hs v Hv Hb. apply (ce_grow _ _ _ H2); [by apply (ce_ok _ _ _ H1)|done|].
    by apply (ce_grow _ _ _ H1).
  - intros Hs v Hv Hb. apply (ce_new _ _ _ H2) in Hb as [Hb|Hb]; [|right; congruence| |done].
    + by apply (ce_new _ _ _ H1).
    + by apply (ce_ok _ _ _ H1).
  - intros Hw. apply (ce_work _ _ _ H2) in Hw as [Hw|Hw]; [|right; congruence].
    by apply (ce_work _ _ _ H1).
  - intros Hw. by apply (ce_work_kept _ _ _ H2), (ce_work_kept _ _ _ H1).
Qed.

Lemma cell_mono w w' s s' : cell_step w s s' -> (forall x, x ∈ w -> x ∈ w') -> cell_step w' s s'.
Proof.
  intros H Hw. split; try apply H.
  - intros Hs v Hv Hb. destruct (ce_new _ _ _ H Hs v Hv Hb); auto.
  - intros Hb. destruct (ce_work _ _ _ H Hb); auto.
Qed.

(** The same for all the shared states but [p], if there is one. *)
Definition arena_step (p : option nat) (wakes : list Z) (ar ar' : list SharedState) : Prop :=
  length ar' = length ar /\
  forall q s, ar !! q = Some s ->
    exists s', ar' !! q = Some s' /\ vp_index s' = vp_index s /\
      software_enabled_on_reset s' = software_enabled_on_reset s /\
      (Some q <> p -> cell_step wakes s s').

Lemma arena_refl p w ar : arena_step p w ar ar.
Proof. split; [done|]. intros q s Hs. exists s. auto using cell_refl. Qed.

Lemma arena_mono p w w' ar ar' :
  arena_step p w ar ar' -> (forall x, x ∈ w -> x ∈ w') -> arena_step p w' ar ar'.
Proof.
  intros [Hl H] Hw. split; [done|]. intros q s Hs. destruct (H q s Hs) as (s' & ? & ? & ? & ?).
  exists s'. eauto 10 using cell_mono.
Qed.

Lemma arena_trans p w w' ar1 ar2 ar3 :
  arena_step p w ar1 ar2 -> arena_step p w' ar2 ar3 -> arena_step p (w ++ w') ar1 ar3.
Proof.
  intros H1 H2. apply (arena_mono _ _ (w ++ w')) in H1 as [L1 H1]; [|set_solver].
  apply (arena_mono _ _ (w ++ w')) in H2 as [L2 H2]; [|set_solver].
  split; [lia|]. intros q s Hs. destruct (H1 q s Hs) as (s2 & Hs2 & V2 & S2 & C2).
  destruct (H2 q s2 Hs2) as (s3 & Hs3 & V3 & S3 & C3). exists s3.
  split; [done|]. split; [congruence|]. split; [congruence|]. eauto using cell_trans.
Qed.

(** What an operation of the APIC with id [i] and shared state [p] changes of
    the set: its own slot, its own shared state, and requests to the others. *)
Record frame (i : Z) (p : option nat) (wakes : list Z) (g g' : GlobalState) : Prop := {
  fr_capable : x2apic_capable g' = x2apic_capable g;
  fr_hv : hyperv_enlightenments g' = hyperv_enlightenments g;
  fr_index : by_index g' = by_index g;
  fr_slots : forall j, j <> Z.to_nat i -> by_apic_id g' !! j = by_apic_id g !! j;
  fr_arena : arena_step p wakes (shareds g) (shareds g');
}.

Lemma frame_refl i p w g : frame i p w g g.
Proof. split; auto using arena_refl. Qed.

Lemma frame_trans i p w w' g1 g2 g3 :
  frame i p w g1 g2 -> frame i p w' g2 g3 -> frame i p (w ++ w') g1 g3.
Proof.
  intros H1 H2. split.
  - by rewrite (fr_capable _ _ _ _ _ H2), (fr_capable _ _ _ _ _ H1).
  - by rewrite (fr_hv _ _ _ _ _ H2), (fr_hv _ _ _ _ _ H1).
  - by rewrite (fr_index _ _ _ _ _ H2), (fr_index _ _ _ _ _ H1).
  - intros j Hj. by rewrite (fr_slots _ _ _ _ _ H2), (fr_slots _ _ _ _ _ H1).
  - eapply arena_trans; [apply H1|apply H2].
Qed.

(** No request of the APIC is dropped, and if every staged request is noticed
    ([f], or the flag [scan_irr], asks for a scan) it stays so. *)
Definition noticed (f : Prop) (g : GlobalState) (a : LocalApic) : Prop :=
  forall v, vector_ok v -> staged g (shared a) v = true -> scan_irr a = true \/ f.

Record kept (wakes : list Z) (g : GlobalState) (a : LocalApic) (g' : GlobalState) (a' : LocalApic)
    : Prop := {
  kp_pending : forall v, vector_ok v -> pending g a v = true -> pending g' a' v = true;
  kp_noticed : forall s, shareds g !! shared a = Some s ->
    forall f, noticed f g a -> noticed (f \/ vp_index s ∈ wakes) g' a';
}.

Lemma kept_refl g a : kept [] g a g a.
Proof. split; [done|]. intros s _ f Hf v Hv Hs. destruct (Hf v Hv Hs); auto. Qed.

(** * Requests *)

Lemma with_bit_nonzero n x : 0 <= n -> with_bit n true x <> 0.
Proof.
  intros Hn H. assert (Z.testbit (with_bit n true x) n = false) as E by (rewrite H; apply Z.testbit_0_l).
  cbn in E. rewrite Z.lor_spec, testbit_pow2, Z.eqb_refl, orb_true_r in E by done. done.
Qed.

Lemma with_sipi_nonzero v x : with_sipi_vector v (with_bit 1 true x) <> 0.
Proof.
  intros H. assert (Z.testbit (with_sipi_vector v (with_bit 1 true x)) 1 = false) as E
    by (rewrite H; apply Z.testbit_0_l).
  unfold with_sipi_vector in E. cbn in E. rewrite Z.lor_spec, Z.ldiff_spec, Z.lor_spec in E.
  rewrite testbit_pow2, orb_true_r in E by done. done.
Qed.

(** A fixed interrupt sets the bit of its vector. *)
Lemma fixed_request s mode v level auto :
  shared_ok s -> (mode =? DeliveryMode.FIXED) || (mode =? DeliveryMode.LOWEST_PRIORITY) = true ->
  16 <= v < 256 ->
  let r := shared_request_interrupt true mode v level auto s in
  (forall w, vector_ok w -> bank_bit (new_irr r.1) w = (v =? w) || bank_bit (new_irr s) w) /\
  (forall w, vector_ok w -> bank_bit (sh_tmr r.1) w = if v =? w then level else bank_bit (sh_tmr s) w) /\
  (forall w, vector_ok w ->
    bank_bit (sh_auto_eoi r.1) w = if v =? w then auto else bank_bit (sh_auto_eoi s) w) /\
  r.2 = negb (bank_bit (new_irr s) v) /\ work r.1 = work s /\ shared_ok r.1.
Proof.
  intros [Ht Hn Ha] Hmode Hv. assert (vector_ok v) as Hvok by (unfold vector_ok; lia).
  unfold shared_request_interrupt. rewrite Hmode. cbn [negb orb].
  destruct (Z.leb_spec 16 v), (Z.leb_spec v 255); try lia. cbn [andb negb bank_mask].
  destruct (sync_bit_ok level (sh_tmr s) v Ht Hvok) as [Ht' Htb].
  destruct (sync_bit_ok auto (sh_auto_eoi s) v Ha Hvok) as [Ha' Hab].
  pose proof (bank_word (new_irr s) (Z.to_nat (v / 32)) Hn). pose proof (bank_mask_u v Hvok).
  split_and!; [|exact Htb|exact Hab| |done|].
  - intros w Hw. by apply bank_bit_set.
  - apply bank_test.
  - split; [exact Ht'| |exact Ha']. apply banks_insert; auto with word.
Qed.

Lemma shared_request_step sw mode v level auto s :
  let r := shared_request_interrupt sw mode v level auto s in
  cell_step (if r.2 then [vp_index s] else []) s r.1.
Proof.
  destruct ((mode =? DeliveryMode.FIXED) || (mode =? DeliveryMode.LOWEST_PRIORITY)) eqn:Hmode.
  - destruct (negb sw || negb ((16 <=? v) && (v <=? 255))) eqn:Hg.
    { unfold shared_request_interrupt. rewrite Hmode, Hg. apply cell_refl. }
    apply orb_false_iff in Hg as [Hsw Hr]. apply negb_false_iff in Hsw as ->.
    apply negb_false_iff, andb_true_iff in Hr as [H1 H2]. apply Z.leb_le in H1, H2.
    pose proof (fun H => fixed_request s mode v level auto H Hmode ltac:(lia)) as HF.
    assert (vp_index (shared_request_interrupt true mode v level auto s).1 = vp_index s /\
      software_enabled_on_reset (shared_request_interrupt true mode v level auto s).1
        = software_enabled_on_reset s /\
      work (shared_request_interrupt true mode v level auto s).1 = work s) as (V & R & W).
    { unfold shared_request_interrupt. rewrite Hmode.
      destruct (Z.leb_spec 16 v), (Z.leb_spec v 255); try lia. done. }
    cbn zeta in *. set (r := shared_request_interrupt true mode v level auto s) in *.
    split; [intros Hs; by apply HF|done|done| | |by rewrite W; auto|by rewrite W].
    + intros Hs w Hw Hb. destruct (HF Hs) as (Hn & _). by rewrite Hn, Hb, orb_true_r.
    + intros Hs w Hw. destruct (HF Hs) as (Hn & _ & _ & -> & _). rewrite Hn by done.
      destruct (Z.eqb_spec v w) as [<-|]; cbn; [|auto].
      destruct (bank_bit (new_irr s) v); [auto|]. intros _. right. set_solver.
  - unfold shared_request_interrupt. rewrite Hmode.
    assert (forall w', w' <> 0 ->
      cell_step (if work s =? 0 then [vp_index s] else []) s (s <| work := w' |>)) as Hupd.
    { intros w' Hw'. split; try done; [by intros [? ? ?]|auto|].
      intros _. destruct (Z.eqb_spec (work s) 0); [right; set_solver|auto]. }
    repeat (match goal with |- context [if mode =? ?m then _ else _] => destruct (mode =? m) end;
      [apply Hupd; auto using with_sipi_nonzero; apply with_bit_nonzero; lia|]).
    apply cell_refl.
Qed.

Lemma slot_request_step mode v level auto slot ar :
  let r := slot_request_interrupt mode v level auto slot ar in arena_step None r.2 ar r.1.
Proof.
  unfold slot_request_interrupt. destruct (slot_shared slot) as [p|]; [|apply arena_refl].
  destruct (ar !! p) as [s|] eqn:Hp; [|apply arena_refl].
  destruct (slot_hardware_enabled slot); [|apply arena_refl].
  pose proof (shared_request_step (slot_software_enabled slot) mode v level auto s) as Hs.
  destruct shared_request_interrupt as [s' w]. cbn in *. split; [by rewrite length_insert|].
  intros q t Ht. destruct (decide (q = p)) as [->|Hne].
  - exists s'. rewrite Hp in Ht. simplify_eq.
    rewrite list_lookup_insert_eq by (by eapply lookup_lt_Some).
    split; [done|]. split; [apply Hs|]. split; [apply Hs|done].
  - exists t. rewrite list_lookup_insert_ne by done. auto using cell_refl.
Qed.

Lemma request_set_step mode v level filter n slots ar :
  let r := request_set_interrupt mode v level filter n slots ar in arena_step None r.2 ar r.1.
Proof.
  revert n ar. induction slots as [|slot slots IH]; intros n ar; cbn [request_set_interrupt];
    [apply arena_refl|].
  destruct (negb (filter n slot)); [apply IH|].
  destruct (negb _ || _); [|apply IH].
  pose proof (slot_request_step mode v level false slot ar) as H1.
  destruct slot_request_interrupt as [ar1 w1]. destruct (mode =? _); [done|].
  pose proof (IH (n + 1) ar1) as H2. destruct request_set_interrupt as [ar2 w2].
  cbn in *. by apply (arena_trans _ _ _ _ ar1).
Qed.

Lemma request_cluster_step mode v level logical base slots members ar :
  let r := request_cluster_interrupt mode v level logical base slots members ar in
  arena_step None r.2 ar r.1.
Proof.
  revert ar. induction members as [|i members IH]; intros ar; cbn [request_cluster_interrupt];
    [apply arena_refl|].
  destruct (Z.land logical (Z.shiftl 1 i) =? 0); [apply IH|].
  destruct (vec_lookup slots (Z.lor base i)) as [slot|]; [|apply IH].
  destruct (negb _ || _); [|apply IH].
  pose proof (slot_request_step mode v level false slot ar) as H1.
  destruct slot_request_interrupt as [ar1 w1]. destruct (mode =? _); [done|].
  pose proof (IH ar1) as H2. destruct request_cluster_interrupt as [ar2 w2].
  cbn in *. by apply (arena_trans _ _ _ _ ar1).
Qed.

Lemma request_arena_step g d mode v level ar :
  let r := request_arena g d mode v level ar in arena_step None r.2 ar r.1.
Proof.
  unfold request_arena. destruct d as [i|i| |i].
  - destruct (vec_lookup (by_apic_id g) i); [apply slot_request_step|apply arena_refl].
  - destruct (0 <? x2apic_enabled_count g).
    + destruct (i =? 0xffffffff); [apply request_set_step|apply request_cluster_step].
    + destruct (0 <? logical_cluster_mode g); [|apply request_set_step].
      destruct (ucast 8 i =? 0xff); apply request_set_step.
  - apply request_set_step.
  - apply request_set_step.
Qed.

(** * Steps of one APIC *)

Lemma arena_own p w ar ar' : arena_step None w ar ar' -> arena_step p w ar ar'.
Proof.
  intros [Hl H]. split; [done|]. intros q s Hs. destruct (H q s Hs) as (s' & ? & ? & ? & ?).
  exists s'. auto.
Qed.

Lemma arena_shared_ok w ar ar' : arena_step None w ar ar' -> Forall shared_ok ar -> Forall shared_ok ar'.
Proof.
  intros [Hl H] Hok. apply Forall_lookup. intros q s' Hs'.
  destruct (lookup_lt_is_Some_2 ar q) as [s Hs]; [rewrite <-Hl; by eapply lookup_lt_Some|].
  destruct (H q s Hs) as (t & Ht & _ & _ & Hc). simplify_eq.
  apply (ce_ok _ _ _ (Hc ltac:(done))). by eapply Forall_lookup_1.
Qed.

Record ok_step (now : Z) (wakes : list Z) (g : GlobalState) (a : LocalApic) (g' : GlobalState)
    (a' : LocalApic) : Prop := {
  os_global : global_ok g';
  os_apic : apic_ok now g' a';
  os_id : id a' = id a;
  os_shared : shared a' = shared a;
  os_frame : frame (id a) (Some (shared a)) wakes g g';
}.

Lemma ok_refl now w g a : global_ok g -> apic_ok now g a -> ok_step now w g a g a.
Proof. intros. split; auto using frame_refl. Qed.

Lemma ok_trans now w w' g1 a1 g2 a2 g3 a3 :
  ok_step now w g1 a1 g2 a2 -> ok_step now w' g2 a2 g3 a3 -> ok_step now (w ++ w') g1 a1 g3 a3.
Proof.
  intros [? ? I S F] [? ? I' S' F']. split; [done|done|congruence|congruence|].
  rewrite I, S in F'. by eapply frame_trans.
Qed.

Lemma kept_trans w w' g1 a1 g2 a2 g3 a3 :
  (forall s, shareds g1 !! shared a1 = Some s -> exists s', shareds g2 !! shared a2 = Some s' /\
    vp_index s' = vp_index s) ->
  kept w g1 a1 g2 a2 -> kept w' g2 a2 g3 a3 -> kept (w ++ w') g1 a1 g3 a3.
Proof.
  intros Hs [P1 N1] [P2 N2]. split; [auto|]. intros s H1 f Hf v Hv Hst.
  destruct (Hs s H1) as (s' & H2 & E). specialize (N2 s' H2 _ (N1 s H1 f Hf) v Hv Hst).
  rewrite E in N2. rewrite elem_of_app. tauto.
Qed.

(** The shared state of an APIC keeps its processor. *)
Lemma ok_own now w g a g' a' s :
  ok_step now w g a g' a' -> shareds g !! shared a = Some s ->
  exists s', shareds g' !! shared a' = Some s' /\ vp_index s' = vp_index s /\
    software_enabled_on_reset s' = software_enabled_on_reset s.
Proof.
  intros [_ _ _ S [_ _ _ _ [_ F]]] Hs. destruct (F _ _ Hs) as (s' & ? & ? & ? & _).
  exists s'. by rewrite S.
Qed.

(** A step that keeps every request. *)
Definition keeps (now : Z) (wakes : list Z) (g : GlobalState) (a : LocalApic) (g' : GlobalState)
    (a' : LocalApic) : Prop :=
  ok_step now wakes g a g' a' /\ kept wakes g a g' a'.

Lemma keeps_refl now g a : global_ok g -> apic_ok now g a -> keeps now [] g a g a.
Proof. intros. split; [by apply ok_refl|apply kept_refl]. Qed.

Lemma keeps_trans now w w' g1 a1 g2 a2 g3 a3 :
  keeps now w g1 a1 g2 a2 -> keeps now w' g2 a2 g3 a3 -> keeps now (w ++ w') g1 a1 g3 a3.
Proof.
  intros [O1 K1] [O2 K2]. split; [by eapply ok_trans|]. eapply kept_trans; [|done|done].
  intros s Hs. destruct (ok_own _ _ _ _ _ _ _ O1 Hs) as (s' & ? & ? & _). eauto.
Qed.

Lemma keeps_trans_nil now w g1 a1 g2 a2 g3 a3 :
  keeps now [] g1 a1 g2 a2 -> keeps now w g2 a2 g3 a3 -> keeps now w g1 a1 g3 a3.
Proof. apply (keeps_trans now [] w). Qed.

(** ** Changes of the registers only *)

Lemma kept_staged g a g' a' :
  (forall v, staged g' (shared a') v = staged g (shared a) v) ->
  (forall v, vector_ok v -> bank_bit (irr a) v = true -> bank_bit (irr a') v = true) ->
  (scan_irr a = true -> scan_irr a' = true) -> kept [] g a g' a'.
Proof.
  intros S I F. split; unfold noticed, pending.
  - intros v Hv. rewrite S, !orb_true_iff. intros [|]; auto.
  - intros s Hs f Hf v Hv Hst. rewrite S in Hst. destruct (Hf v Hv Hst); auto.
Qed.

Lemma kept_arena g a g' a' :
  shareds g' = shareds g -> shared a' = shared a ->
  (forall v, vector_ok v -> bank_bit (irr a) v = true -> bank_bit (irr a') v = true) ->
  (scan_irr a = true -> scan_irr a' = true) -> kept [] g a g' a'.
Proof. intros Hg S. apply kept_staged. intros v. unfold staged. by rewrite Hg, S. Qed.

Lemma keeps_local now g a a' :
  global_ok g -> apic_ok now g a -> core_ok a' -> timer_ok now a' ->
  (forall slot, mirrors a slot -> mirrors a' slot) ->
  lvt_lint a' = lvt_lint a -> id a' = id a -> shared a' = shared a ->
  (forall v, vector_ok v -> bank_bit (irr a) v = true -> bank_bit (irr a') v = true) ->
  (scan_irr a = true -> scan_irr a' = true) -> keeps now [] g a g a'.
Proof.
  intros Hg Ha Hc Ht Hm Hl Hi Hs Hirr Hf. split; [|by apply kept_arena].
  split; [done| |done|done|apply frame_refl]. destruct Ha as [_ _ HL HI (slot & Hsl & Hmi) HS].
  split; [done|done|congruence|congruence| |by rewrite Hs].
  exists slot. rewrite Hi. auto.
Qed.

(** Solves the goals of [keeps_local] for registers it leaves alone. *)
Ltac regs :=
  solve
  [ done
  | match goal with
    | H : apic_ok _ _ _ |- core_ok _ => destruct (ap_core _ _ _ H); split; done
    | H : core_ok _ |- core_ok _ => destruct H; split; done
    | H : apic_ok _ _ _ |- timer_ok _ _ => destruct (ap_timer _ _ _ H); split; done
    | H : timer_ok _ _ |- timer_ok _ _ => destruct H; split; done
    | |- forall slot, mirrors _ slot -> mirrors _ slot => intros ? []; split; done
    | H : apic_ok _ _ _ |- length _ = _ => exact (ap_lint _ _ _ H)
    end ].

(** ** The slot *)

Lemma count_slots_cons f slot slots :
  count_slots f (slot :: slots) = b2z (f slot) + count_slots f slots.
Proof. done. Qed.

Lemma b2z_bound b : 0 <= b2z b <= 1.
Proof. by destruct b. Qed.

Lemma count_slots_bound f slots : 0 <= count_slots f slots <= Z.of_nat (length slots).
Proof.
  induction slots as [|s l IH]; [done|]. rewrite count_slots_cons. cbn [length].
  pose proof (b2z_bound (f s)). lia.
Qed.

Lemma count_slots_insert f slots i slot slot' :
  slots !! i = Some slot ->
  b2z (f slot) <= count_slots f slots /\
  count_slots f (<[i := slot']> slots) = count_slots f slots - b2z (f slot) + b2z (f slot').
Proof.
  revert i. induction slots as [|s l IH]; intros [|i] H; cbn in H; try done.
  - simplify_eq. change (<[0%nat := slot']> (slot :: l)) with (slot' :: l). rewrite !count_slots_cons. pose proof (count_slots_bound f l). lia.
  - destruct (IH i H). change (<[S i := slot']> (s :: l)) with (s :: <[i := slot']> l).
    rewrite !count_slots_cons. pose proof (b2z_bound (f s)). lia.
Qed.

(** [update_slot] on registers [a] that evolved from [a0]. *)
Lemma update_slot_ok {E} now g a0 a :
  global_ok g -> apic_ok now g a0 -> core_ok a -> timer_ok now a -> length (lvt_lint a) = 2%nat ->
  id a = id a0 -> shared a = shared a0 ->
  exists g' a', update_slot g a = Ok (E:=E) (g', a') /\ ok_step now [] g a0 g' a' /\
    shareds g' = shareds g /\
    a' = a <| base_address :=
      if xapic_enabled a then Some (Z.shiftl (base_page (apic_base a)) 12) else None |>.
Proof.
  intros Hg Ha Hc Ht HL Hi HS. destruct Ha as [_ _ _ HI (slot & Hsl & Hmi) Hsh].
  unfold update_slot. set (b := if xapic_enabled a then _ else _).
  change (id (a <| base_address := b |>)) with (id a). rewrite Hi.
  unfold vec_get. rewrite Hsl. destruct (Z.leb_spec 0 (id a0)); [|lia]. cbn [res_bind].
  destruct Hg as [G1 G2 G3 G4 G5]. pose proof (lookup_lt_Some _ _ _ Hsl) as Hlt.
  set (slot1 := set_field (fun _ => software_enabled _) _).
  change (slot_x2apic_enabled slot1) with (slot_x2apic_enabled slot).
  change (slot_cluster_mode (slot1 <| slot_x2apic_enabled := _ |>)) with (slot_cluster_mode slot).
  set (x2 := base_enable _ && _). set (slot2 := slot1 <| slot_x2apic_enabled := x2 |>).
  change (slot_x2apic_enabled slot2) with x2.
  change (in_cluster_mode (a <| base_address := b |>)) with (in_cluster_mode a).
  set (slot3 := slot2 <| slot_cluster_mode := in_cluster_mode a |>).
  change (slot_cluster_mode slot3) with (in_cluster_mode a).
  destruct (count_slots_insert slot_x2apic_enabled _ _ _ slot3 Hsl) as [X1 X2].
  destruct (count_slots_insert slot_cluster_mode _ _ _ slot3 Hsl) as [C1 C2].
  change (slot_x2apic_enabled slot3) with x2 in X2.
  change (slot_cluster_mode slot3) with (in_cluster_mode a) in C2.
  pose proof (count_slots_bound slot_x2apic_enabled (by_apic_id g)).
  pose proof (count_slots_bound slot_cluster_mode (by_apic_id g)).
  pose proof (b2z_bound x2). pose proof (b2z_bound (in_cluster_mode a)).
  pose proof (b2z_bound (slot_x2apic_enabled slot)). pose proof (b2z_bound (slot_cluster_mode slot)).
  rewrite G1, usub_ok by done. cbn [res_bind]. rewrite uadd_ok by lia. cbn [res_bind].
  rewrite G2, usub_ok by done. cbn [res_bind]. rewrite uadd_ok by lia. cbn [res_bind].
  unfold vec_set. destruct (Z.leb_spec 0 (id a0)), (Z.ltb_spec (id a0) (Z.of_nat (length (by_apic_id g))));
    try lia. cbn [andb res_bind].
  do 2 eexists. split; [reflexivity|]. split; [|done].
  split; [| |done|done|].
  - split; [exact (eq_sym X2)|exact (eq_sym C2)|by apply (Forall_insert _ (by_apic_id g))| |done].
    change (Z.of_nat (length (<[Z.to_nat (id a0) := slot3]> (by_apic_id g))) <= 2 ^ 32).
    by rewrite length_insert.
  - split; [destruct Hc; by split|destruct Ht; by split|done|change (0 <= id a); lia| |].
    2: { destruct Hsh as [s Hs]. exists s. rewrite <-Hs, <-HS. done. }
    exists slot3. split.
    + rewrite <-(list_lookup_insert_eq (by_apic_id g) (Z.to_nat (id a0)) slot3) by done. by rewrite <-Hi.
    + split; try done. change (slot_shared slot = Some (shared a)). by rewrite (mi_shared _ _ Hmi), HS.
  - split; try done; [|apply arena_refl]. intros j Hj.
    change (<[Z.to_nat (id a0) := slot3]> (by_apic_id g) !! j = by_apic_id g !! j).
    by rewrite list_lookup_insert_ne.
Qed.

Lemma update_slot_keeps {E} now g a0 a :
  global_ok g -> apic_ok now g a0 -> core_ok a -> timer_ok now a -> length (lvt_lint a) = 2%nat ->
  id a = id a0 -> shared a = shared a0 ->
  (forall v, vector_ok v -> bank_bit (irr a0) v = true -> bank_bit (irr a) v = true) ->
  (scan_irr a0 = true -> scan_irr a = true) ->
  exists g' a', update_slot g a = Ok (E:=E) (g', a') /\ keeps now [] g a0 g' a'.
Proof.
  intros Hg Ha Hc Ht HL Hi HS Hirr Hf.
  destruct (update_slot_ok (E:=E) now g a0 a Hg Ha Hc Ht HL Hi HS) as (g' & a' & HU & HO & Har & ->).
  do 2 eexists. split; [exact HU|]. split; [done|]. by apply kept_arena.
Qed.

(** ** Requests to others and to itself *)

Lemma arena_keeps now w g a ar' :
  global_ok g -> apic_ok now g a -> arena_step None w (shareds g) ar' ->
  keeps now w g a (g <| shareds := ar' |>) a.
Proof.
  intros Hg Ha Har. destruct Hg as [G1 G2 G3 G4 G5]. destruct Ha as [A1 A2 A3 A4 A5 [s Hs]].
  pose proof (arena_shared_ok _ _ _ Har G5) as Hok'. pose proof (Forall_lookup_1 _ _ _ _ G5 Hs) as Hok.
  destruct (proj2 Har _ _ Hs) as (s' & Hs' & V & _ & C). specialize (C ltac:(done)).
  split.
  - split; [by split| |done|done|split; try done; by apply arena_own].
    split; try done. by exists s'.
  - split.
    + unfold pending, staged. intros v Hv.
      change (shareds (g <| shareds := ar' |>) !! shared a) with (ar' !! shared a).
      rewrite Hs, Hs', !orb_true_iff. intros [Hb|]; [left|by right].
      by apply (ce_grow _ _ _ C).
    + intros t Ht f Hf v Hv. rewrite Hs in Ht. injection Ht as <-. unfold staged.
      change (shareds (g <| shareds := ar' |>) !! shared a) with (ar' !! shared a).
      rewrite Hs'. intros Hb. apply (ce_new _ _ _ C) in Hb as [Hb|]; [|by auto|done|done].
      specialize (Hf v Hv). unfold staged in Hf. rewrite Hs in Hf. destruct (Hf Hb); auto.
Qed.

Lemma global_request_keeps now g a d mode v level :
  global_ok g -> apic_ok now g a ->
  let r := global_request_interrupt d mode v level g in keeps now r.2 g a r.1 a.
Proof.
  intros Hg Ha. unfold global_request_interrupt.
  pose proof (request_arena_step g d mode v level (shareds g)) as H.
  destruct request_arena as [ar' w]. by apply arena_keeps.
Qed.

(** A step on the APIC's own shared state. *)
Lemma own_step now g a a' s s' :
  global_ok g -> apic_ok now g a -> shareds g !! shared a = Some s -> shared_ok s' ->
  vp_index s' = vp_index s -> software_enabled_on_reset s' = software_enabled_on_reset s ->
  core_ok a' -> timer_ok now a' -> (forall slot, mirrors a slot -> mirrors a' slot) ->
  lvt_lint a' = lvt_lint a -> id a' = id a -> shared a' = shared a ->
  ok_step now [] g a (put_shared s' a g) a' /\ shareds (put_shared s' a g) !! shared a' = Some s'.
Proof.
  intros Hg Ha Hs Hok V R Hc Ht Hm HL Hi HS. destruct Hg as [G1 G2 G3 G4 G5].
  destruct Ha as [_ _ A3 A4 (slot & Hsl & Hmi) _]. pose proof (lookup_lt_Some _ _ _ Hs) as Hlt.
  assert (shareds (put_shared s' a g) !! shared a' = Some s') as Hs'.
  { rewrite HS. by apply list_lookup_insert_eq. }
  split; [|done]. split; [| |done|done|].
  - split; try done. by apply (Forall_insert _ (shareds g)).
  - split; [done|done|congruence|congruence| |by exists s']. exists slot. rewrite Hi. auto.
  - split; try done. split; [apply length_insert|]. intros q t Hq.
    destruct (decide (q = shared a)) as [->|Hne].
    + exists s'. rewrite Hs in Hq. injection Hq as <-. rewrite <-HS at 1. done.
    + exists t. split; [|auto using cell_refl].
      change (<[shared a := s']> (shareds g) !! q = Some t). by rewrite list_lookup_insert_ne.
Qed.

Lemma core_scan_irr a b : core_ok a -> core_ok (a <| scan_irr := b |>).
Proof. intros []. by split. Qed.

Lemma timer_scan_irr now a b : timer_ok now a -> timer_ok now (a <| scan_irr := b |>).
Proof. intros []. by split. Qed.

Lemma self_request_keeps {E} now g a mode v level :
  global_ok g -> apic_ok now g a ->
  exists g' b, self_request mode v level g a = Ok (E:=E) (g', a <| scan_irr := b |>) /\
    keeps now [] g a g' (a <| scan_irr := b |>).
Proof.
  intros Hg Ha. pose proof (ap_shared _ _ _ Ha) as [s Hs]. unfold self_request, get_shared, unwrap.
  rewrite Hs. cbn [res_bind].
  pose proof (shared_request_step (software_enabled a) mode v level false s) as C.
  destruct shared_request_interrupt as [s' w]. cbn in C.
  pose proof (Forall_lookup_1 _ _ _ _ (g_ok_shared _ Hg) Hs) as Hok.
  destruct (own_step now g a (a <| scan_irr := scan_irr a || w |>) s s') as [HO Hs'];
    try done; [by apply C|apply C|apply C|apply core_scan_irr, Ha|apply timer_scan_irr, Ha| |].
  { intros slot []. by split. }
  do 2 eexists. split; [done|]. split; [done|]. split.
  - intros u Hu. unfold pending, staged. rewrite Hs, Hs', !orb_true_iff.
    intros [Hb|]; [left|by right]. by apply (ce_grow _ _ _ C).
  - intros t Ht f Hf u Hu. rewrite Hs in Ht. injection Ht as <-. unfold staged. rewrite Hs'.
    change (scan_irr (a <| scan_irr := scan_irr a || w |>)) with (scan_irr a || w).
    intros Hb. apply (ce_new _ _ _ C Hok u Hu) in Hb as [Hb|Hin].
    + specialize (Hf u Hu). unfold staged in Hf. rewrite Hs in Hf. rewrite orb_true_iff.
      destruct (Hf Hb); auto.
    + destruct w; [|by apply not_elem_of_nil in Hin]. left. apply orb_true_r.
Qed.

(** ** The cached highest vector *)

Lemma recompute_form a :
  exists o b, recompute_next_irr a = a <| next_irr_cache := o |> <| active_auto_eoi := b |> /\
    (banks_ok (irr a) -> is_highest (irr a) o).
Proof.
  unfold recompute_next_irr. pose proof (highest_vector_spec (irr a)) as H.
  destruct (highest_vector 7 (rev (irr a))) as [v|].
  - exists (Some v), (active_auto_eoi a). split; [by destruct a|done].
  - exists None, false. done.
Qed.

(** ** Pulling the staged interrupts *)

(** The bits of a register after the bits of [new] are copied from [from]. *)
Definition pulled_bit (new from old : bool) : bool := if new then from else old.

Record pulled (ks : list nat) (a a' : LocalApic) (s s' : SharedState) : Prop := {
  pl_apic : exists I T A b n, a' = a <| irr := I |> <| tmr := T |> <| auto_eoi := A |>
    <| active_auto_eoi := b |> <| needs_offload_reeval := n |>;
  pl_shared : exists N, s' = s <| new_irr := N |>;
  pl_banks : banks_ok (irr a') /\ banks_ok (tmr a') /\ banks_ok (auto_eoi a') /\ banks_ok (new_irr s');
  pl_bits : forall v, vector_ok v ->
    let new := bool_decide (Z.to_nat (v / 32) ∈ ks) && bank_bit (new_irr s) v in
    bank_bit (irr a') v = bank_bit (irr a) v || new /\
    bank_bit (tmr a') v = pulled_bit new (bank_bit (sh_tmr s) v) (bank_bit (tmr a) v) /\
    bank_bit (auto_eoi a') v = pulled_bit new (bank_bit (sh_auto_eoi s) v) (bank_bit (auto_eoi a) v) /\
    bank_bit (new_irr s') v = negb (bool_decide (Z.to_nat (v / 32) ∈ ks)) && bank_bit (new_irr s) v;
}.

Lemma pulled_word x from old i :
  0 <= i < 32 ->
  Z.testbit (Z.lor (Z.land old (unot 32 x)) (Z.land from x)) i =
    pulled_bit (Z.testbit x i) (Z.testbit from i) (Z.testbit old i).
Proof.
  intros Hi. rewrite Z.lor_spec, !Z.land_spec, testbit_unot by lia.
  destruct (Z.leb_spec 0 i), (Z.ltb_spec i 32); try lia. cbn.
  destruct (Z.testbit x i); cbn; [by rewrite andb_false_r, andb_true_r|].
  by rewrite andb_true_r, andb_false_r, orb_false_r.
Qed.

(** The two assignments that copy the bits of [new] in bank [i]. *)
Lemma pull_register from l new i :
  banks_ok l -> banks_ok from -> banks_ok new -> (i < 8)%nat ->
  let l1 := <[i := Z.land (l !!! i) (unot 32 (new !!! i))]> l in
  let l2 := <[i := Z.lor (l1 !!! i) (Z.land (from !!! i) (new !!! i))]> l1 in
  banks_ok l2 /\ forall v, vector_ok v -> bank_bit l2 v =
    pulled_bit (bool_decide (Z.to_nat (v / 32) ∈ [i]) && bank_bit new v) (bank_bit from v) (bank_bit l v).
Proof.
  intros Hl Hfrom Hnew Hi l1 l2. pose proof (bank_word l i Hl). pose proof (bank_word from i Hfrom).
  pose proof (bank_word new i Hnew). subst l1 l2.
  rewrite list_lookup_total_insert_eq by (destruct Hl; lia).
  rewrite list_insert_insert_eq. split; [apply banks_insert; auto with word|].
  intros v Hv. rewrite bank_bit_insert by done. destruct decide as [D|D].
  - rewrite bool_decide_eq_true_2 by set_solver. rewrite pulled_word by div_lia.
    unfold bank_bit. by rewrite D.
  - by rewrite bool_decide_eq_false_2 by set_solver.
Qed.

Definition regs_ok (a : LocalApic) : Prop :=
  banks_ok (irr a) /\ banks_ok (tmr a) /\ banks_ok (auto_eoi a).

Lemma pull_bank_zero a s i :
  regs_ok a -> shared_ok s -> new_irr s !!! i = 0 -> pulled [i] a a s s.
Proof.
  intros (HI & HT & HA) [St Sn Sa] E.
  split; [by exists (irr a), (tmr a), (auto_eoi a), (active_auto_eoi a), (needs_offload_reeval a);
    destruct a|by exists (new_irr s); destruct s|done|].
  intros v Hv new. assert (new = false) as ->.
  { subst new. unfold bank_bit. case_bool_decide as H; [|done].
    apply list_elem_of_singleton in H as ->. by rewrite E, Z.testbit_0_l. }
  rewrite orb_false_r. split_and!; [done..|]. unfold bank_bit. case_bool_decide as H; [|done].
  apply list_elem_of_singleton in H as ->. by rewrite E, Z.testbit_0_l.
Qed.

Lemma pull_bank_pulled a s i :
  regs_ok a -> shared_ok s -> (i < 8)%nat ->
  let r := pull_bank (a, s) i in pulled [i] a r.1 s r.2.
Proof.
  intros Hc Hs Hi. unfold pull_bank. destruct (Z.eqb_spec (new_irr s !!! i) 0) as [E|NE].
  { by apply pull_bank_zero. }
  destruct Hc as (HI & HT & HA), Hs as [St Sn Sa].
  set (new := new_irr s !!! i) in *. cbn [fst snd].
  pose proof (bank_word (irr a) i HI). pose proof (bank_word (new_irr s) i Sn).
  set (I := <[i := Z.lor (irr a !!! i) new]> (irr a)).
  destruct (pull_register (sh_tmr s) (tmr a) (new_irr s) i HT St Sn Hi) as [T1 T2].
  destruct (pull_register (sh_auto_eoi s) (auto_eoi a) (new_irr s) i HA Sa Sn Hi) as [A1 A2].
  split; [do 5 eexists; reflexivity|eexists; reflexivity| |].
  - split_and!; [apply (banks_insert (irr a)); auto with word|exact T1|exact A1|].
    apply (banks_insert (new_irr s)); auto with word.
  - intros v Hv. split_and!; [|exact (T2 v Hv)|exact (A2 v Hv)|].
    + change (bank_bit I v = bank_bit (irr a) v ||
        (bool_decide (Z.to_nat (v / 32) ∈ [i]) && bank_bit (new_irr s) v)).
      subst I. rewrite bank_bit_insert by done. destruct decide as [D|D].
      * rewrite bool_decide_eq_true_2 by set_solver. rewrite Z.lor_spec. unfold bank_bit. by rewrite D.
      * rewrite bool_decide_eq_false_2 by set_solver. by rewrite orb_false_r.
    + change (bank_bit (<[i := 0]> (new_irr s)) v =
        negb (bool_decide (Z.to_nat (v / 32) ∈ [i])) && bank_bit (new_irr s) v).
      rewrite bank_bit_insert by done. destruct decide as [D|D].
      * rewrite bool_decide_eq_true_2 by set_solver. apply Z.testbit_0_l.
      * by rewrite bool_decide_eq_false_2 by set_solver.
Qed.

Lemma pull_banks_pulled ks a s :
  regs_ok a -> shared_ok s -> Forall (fun i => (i < 8)%nat) ks ->
  let r := fold_left pull_bank ks (a, s) in pulled ks a r.1 s r.2.
Proof.
  intros Hc Hs Hks. revert a s Hc Hs. induction Hks as [|i ks Hi Hks IH]; intros a s Hc Hs.
  { cbn. destruct Hc as (HI & HT & HA), Hs as [St Sn Sa].
    split; [by exists (irr a), (tmr a), (auto_eoi a), (active_auto_eoi a), (needs_offload_reeval a);
      destruct a|by exists (new_irr s); destruct s|done|].
    intros v Hv. rewrite bool_decide_eq_false_2 by set_solver. cbn. by rewrite orb_false_r. }
  cbn [fold_left]. pose proof (pull_bank_pulled a s i Hc Hs Hi) as H1.
  destruct (pull_bank (a, s) i) as [a1 s1]. cbn [fst snd] in H1.
  destruct H1 as [(I & T & A & b & n & ->) [N ->] (B1 & B2 & B3 & B4) HB].
  set (a1 := set_field _ _ : LocalApic) in *. set (s1 := s <| new_irr := N |>) in *.
  specialize (IH a1 s1 ltac:(done) ltac:(destruct Hs; by split)).
  destruct (fold_left pull_bank ks (a1, s1)) as [a2 s2]. cbn [fst snd] in *.
  destruct IH as [(I2 & T2 & A2 & b2 & n2 & ->) [N2 ->] HB2 HBits].
  split; [by exists I2, T2, A2, b2, n2|by exists N2|done|]. intros v Hv.
  destruct (HB v Hv) as (P1 & P2 & P3 & P4), (HBits v Hv) as (Q1 & Q2 & Q3 & Q4).
  change (sh_tmr s1) with (sh_tmr s) in *. change (sh_auto_eoi s1) with (sh_auto_eoi s) in *.
  rewrite Q1, Q2, Q3, Q4, P1, P2, P3, P4.
  assert (bool_decide (Z.to_nat (v / 32) ∈ i :: ks) =
    bool_decide (Z.to_nat (v / 32) ∈ [i]) || bool_decide (Z.to_nat (v / 32) ∈ ks)) as ->.
  { rewrite <-bool_decide_or. apply bool_decide_ext. set_solver. }
  destruct (bool_decide (_ ∈ [i])), (bool_decide (_ ∈ ks)), (bank_bit (new_irr s) v); cbn;
    rewrite ?orb_false_r; done.
Qed.

(** The registers after [pull_irr]. *)
Record pull_effect (a : LocalApic) (s : SharedState) (a' : LocalApic) : Prop := {
  pe_form : exists I T A n o b, a' = a <| irr := I |> <| tmr := T |> <| auto_eoi := A |>
    <| needs_offload_reeval := n |> <| next_irr_cache := o |> <| active_auto_eoi := b |>
    <| scan_irr := false |>;
  pe_banks : regs_ok a';
  pe_irr : forall v, vector_ok v ->
    bank_bit (irr a') v = bank_bit (irr a) v || bank_bit (new_irr s) v;
  pe_tmr : forall v, vector_ok v ->
    bank_bit (tmr a') v = pulled_bit (bank_bit (new_irr s) v) (bank_bit (sh_tmr s) v) (bank_bit (tmr a) v);
  pe_auto : forall v, vector_ok v -> bank_bit (auto_eoi a') v =
    pulled_bit (bank_bit (new_irr s) v) (bank_bit (sh_auto_eoi s) v) (bank_bit (auto_eoi a) v);
  pe_cache : is_highest (irr a') (next_irr_cache a');
}.

Lemma bank_in_seq v : vector_ok v -> bool_decide (Z.to_nat (v / 32) ∈ seq 0 8) = true.
Proof.
  intros Hv. pose proof (bank_lt v Hv). apply bool_decide_eq_true, elem_of_seq. lia.
Qed.

Lemma pull_irr_effect {E} g a s :
  regs_ok a -> shareds g !! shared a = Some s -> shared_ok s ->
  exists a', pull_irr g a = Ok (E:=E) (put_shared (s <| new_irr := zero_banks |>) a g, a') /\
    pull_effect a s a'.
Proof.
  intros Ha Hs Hok. unfold pull_irr, get_shared, unwrap. rewrite Hs. cbn [res_bind].
  assert (Forall (fun i => (i < 8)%nat) (seq 0 8)) as Hks.
  { apply Forall_forall. intros i Hi. apply in_seq in Hi. lia. }
  pose proof (pull_banks_pulled (seq 0 8) a s Ha Hok Hks) as H.
  destruct (fold_left pull_bank (seq 0 8) (a, s)) as [a1 s1]. cbn [fst snd] in H.
  destruct H as [(I & T & A & b & n & ->) [N ->] (B1 & B2 & B3 & B4) HB].
  assert (N = zero_banks) as ->.
  { apply banks_ext; [done|apply zero_banks_ok|]. intros v Hv. destruct (HB v Hv) as (_ & _ & _ & H4).
    rewrite bank_in_seq in H4 by done. by rewrite bank_bit_zero. }
  set (a1 := set_field _ _ : LocalApic) in *.
  change (banks_ok I) in B1. change (banks_ok T) in B2. change (banks_ok A) in B3.
  destruct (recompute_form a1) as (o & b' & -> & Hhigh). change (banks_ok I -> is_highest I o) in Hhigh.
  eexists. split; [reflexivity|].
  assert (forall v, vector_ok v ->
    bool_decide (Z.to_nat (v / 32) ∈ seq 0 8) && bank_bit (new_irr s) v = bank_bit (new_irr s) v) as Hnew.
  { intros v Hv. by rewrite bank_in_seq. }
  assert (forall v, vector_ok v ->
    bank_bit I v = bank_bit (irr a) v || bank_bit (new_irr s) v /\
    bank_bit T v = pulled_bit (bank_bit (new_irr s) v) (bank_bit (sh_tmr s) v) (bank_bit (tmr a) v) /\
    bank_bit A v = pulled_bit (bank_bit (new_irr s) v) (bank_bit (sh_auto_eoi s) v) (bank_bit (auto_eoi a) v))
    as HV.
  { intros v Hv. destruct (HB v Hv) as (P1 & P2 & P3 & _). by rewrite Hnew in P1, P2, P3. }
  split.
  - exists I, T, A, n, o, b'. subst a1. by destruct a.
  - change (banks_ok I /\ banks_ok T /\ banks_ok A). done.
  - intros v Hv. change (bank_bit I v = bank_bit (irr a) v || bank_bit (new_irr s) v). by apply HV.
  - intros v Hv. change (bank_bit T v =
      pulled_bit (bank_bit (new_irr s) v) (bank_bit (sh_tmr s) v) (bank_bit (tmr a) v)). by apply HV.
  - intros v Hv. change (bank_bit A v =
      pulled_bit (bank_bit (new_irr s) v) (bank_bit (sh_auto_eoi s) v) (bank_bit (auto_eoi a) v)).
    by apply HV.
  - change (is_highest I o). by apply Hhigh.
Qed.

Lemma pull_irr_keeps {E} now g a s :
  global_ok g -> apic_ok now g a -> shareds g !! shared a = Some s ->
  exists a', pull_irr g a = Ok (E:=E) (put_shared (s <| new_irr := zero_banks |>) a g, a') /\
    keeps now [] g a (put_shared (s <| new_irr := zero_banks |>) a g) a' /\ pull_effect a s a' /\
    shareds (put_shared (s <| new_irr := zero_banks |>) a g) !! shared a'
      = Some (s <| new_irr := zero_banks |>).
Proof.
  intros Hg Ha Hs. pose proof (Forall_lookup_1 _ _ _ _ (g_ok_shared _ Hg) Hs) as Hok.
  pose proof (ap_core _ _ _ Ha) as Hc. pose proof (ap_timer _ _ _ Ha) as Ht.
  destruct (pull_irr_effect (E:=E) g a s) as (a' & HP & PE); [by destruct Hc|done|done|].
  exists a'. split; [done|]. pose proof PE as [(I & T & A & n & o & b & Heq) (B1 & B2 & B3) PI _ _ PC].
  destruct (own_step now g a a' s (s <| new_irr := zero_banks |>)) as [HO Hs']; try done;
    try (by rewrite Heq).
  - destruct Hok. split; [done|apply zero_banks_ok|done].
  - destruct Hc. split; try done. by rewrite Heq.
  - rewrite Heq. destruct Ht. by split.
  - rewrite Heq. intros slot []. by split.
  - split; [|done]. split; [done|]. split.
    + intros v Hv. unfold pending, staged. rewrite Hs, PI by done. rewrite !orb_true_iff. tauto.
    + intros t _ f _ v Hv. unfold staged. rewrite Hs'. intros Hb.
      change (bank_bit zero_banks v = true) in Hb. by rewrite bank_bit_zero in Hb.
Qed.
