(* ===== verification/LocalApicOps.v ===== *)
(** Every operation of a local APIC ([vmm_core/virt_support_apic/src/lib.rs])
    succeeds and preserves the invariants of LocalApicSpec.v. *)

From stdpp Require Import sets.
From S2P Require Import Prelude ChipsetDevice VmTime VmTimeSpec LocalApic ApicBanks LocalApicSpec.

(** * The timer *)

Lemma shift_bound dcr : 0 <= dcr_divider_shift dcr < 8.
Proof.
  unfold dcr_divider_shift. change 7 with (Z.ones 3). rewrite Z.land_ones by lia.
  apply Z.mod_pos_bound. lia.
Qed.

(** The counts of the timer between its last evaluation and [now]. *)
Definition counts_at (now : Z) (a : LocalApic) : Z :=
  (now - last_time a) * 20 / 2 ^ dcr_divider_shift (timer_dcr a).

(** The current count and the time of evaluation after [eval_time]. *)
Definition timer_after (now : Z) (a : LocalApic) : Z * Z :=
  let counts := counts_at now a in
  let last := last_time a + counts * 2 ^ dcr_divider_shift (timer_dcr a) * 5 / 100 in
  if timer_ccr a =? 0 then (0, last_time a)
  else if timer_ccr a <=? counts then
    if lvt_timer_mode (lvt_timer a) =? TimerMode.ONE_SHOT then (0, last_time a)
    else (timer_icr a - (counts - timer_ccr a) mod timer_icr a, last)
  else (timer_ccr a - counts, last).

(** The timer expires by [now]. *)
Definition expires (now : Z) (a : LocalApic) : bool :=
  negb (timer_ccr a =? 0) && (timer_ccr a <=? counts_at now a).

Lemma small_now now : now_ok now -> small now.
Proof. unfold now_ok, small. lia. Qed.

Lemma counts_bound now a :
  now_ok now -> 0 <= last_time a <= now ->
  0 <= counts_at now a /\ counts_at now a * 2 ^ dcr_divider_shift (timer_dcr a) <= (now - last_time a) * 20.
Proof.
  intros Hn Hl. unfold counts_at. pose proof (shift_bound (timer_dcr a)).
  pose proof (Z.pow_pos_nonneg 2 (dcr_divider_shift (timer_dcr a))).
  split; [apply Z.div_pos; lia|]. rewrite Z.mul_comm. apply Z.mul_div_le. lia.
Qed.

Lemma eval_counts now a :
  now_ok now -> 0 <= last_time a <= now ->
  exists d, checked_sub now (last_time a) = Some d /\
    Z.shiftr (ucast 64 d / NANOS_PER_TICK) (dcr_divider_shift (timer_dcr a)) = counts_at now a.
Proof.
  intros Hn Hl. rewrite checked_sub_small by (apply small_now; unfold now_ok in *; lia).
  destruct (Z.leb_spec (last_time a) now); [|lia]. eexists. split; [done|].
  unfold ucast, now_ok, NANOS_PER_TICK, counts_at in *. rewrite Z.mod_small by lia.
  pose proof (shift_bound (timer_dcr a)). rewrite Z.shiftr_div_pow2 by lia. f_equal.
  replace ((now - last_time a) * 100) with ((now - last_time a) * 20 * 5) by lia.
  by rewrite Z.div_mul.
Qed.

(** Advancing the time of evaluation. *)
Lemma eval_advance {E} now a :
  now_ok now -> 0 <= last_time a <= now ->
  let counts := counts_at now a in
  let shift := dcr_divider_shift (timer_dcr a) in
  umul 64 (ucast 64 (Z.shiftl counts shift)) NANOS_PER_TICK = Ok (E:=E) (counts * 2 ^ shift * 5) /\
  vmtime_wrapping_add (last_time a) (counts * 2 ^ shift * 5) = last_time a + counts * 2 ^ shift * 5 / 100 /\
  0 <= last_time a + counts * 2 ^ shift * 5 / 100 <= now.
Proof.
  intros Hn Hl counts shift. destruct (counts_bound now a Hn Hl) as [H0 H1]. fold counts shift in H0, H1.
  assert (0 <= counts * 2 ^ shift) by (apply Z.mul_nonneg_nonneg; [done|apply Z.pow_nonneg; lia]).
  unfold now_ok in Hn. rewrite Z.shiftl_mul_pow2 by apply shift_bound.
  unfold ucast, NANOS_PER_TICK. rewrite (Z.mod_small (counts * 2 ^ shift)) by lia.
  split; [apply umul_ok; lia|]. split; [|div_lia].
  apply vmtime_add_small; div_lia.
Qed.

Lemma reload_ccr_ok {E} icr remaining :
  is_u 32 icr -> 0 < icr -> 0 <= remaining ->
  reload_ccr icr remaining = Ok (E:=E) (icr - remaining mod icr).
Proof.
  unfold is_u, reload_ccr, ucast. intros Hu Hp Hr. pose proof (Z.mod_pos_bound remaining icr Hp).
  destruct (Z.ltb_spec remaining icr).
  - rewrite (Z.mod_small remaining icr), (Z.mod_small remaining (2 ^ 32)) by lia.
    apply usub_ok. lia.
  - destruct (Z.eqb_spec icr 0); [lia|]. rewrite (Z.mod_small (remaining mod icr)) by lia.
    apply usub_ok. lia.
Qed.

Lemma timer_after_bounds now a :
  now_ok now -> timer_ok now a ->
  0 <= (timer_after now a).1 <= timer_icr a /\ 0 <= (timer_after now a).2 <= now.
Proof.
  intros Hn [_ Hc Hl _]. unfold timer_after.
  destruct (eval_advance (E:=void) now a Hn Hl) as (_ & _ & H3).
  destruct (counts_bound now a Hn Hl) as [H0 _].
  destruct (Z.eqb_spec (timer_ccr a) 0); [cbn; lia|].
  destruct (Z.leb_spec (timer_ccr a) (counts_at now a)).
  - destruct (_ =? TimerMode.ONE_SHOT); [cbn; lia|]. cbn [fst snd].
    pose proof (Z.mod_pos_bound (counts_at now a - timer_ccr a) (timer_icr a)). lia.
  - cbn [fst snd]. lia.
Qed.

(** The registers of the timer after an evaluation. *)
Definition timer_set (now : Z) (b : bool) (a : LocalApic) : LocalApic :=
  a <| scan_irr := b |> <| timer_ccr := (timer_after now a).1 |>
    <| last_time := (timer_after now a).2 |>.

(** The request of an evaluation at [now], if the timer expires unmasked. *)
Definition timer_request (now : Z) (g : GlobalState) (a : LocalApic) (g' : GlobalState) (b : bool)
    : Prop :=
  if expires now a && negb (lvt_masked (lvt_timer a))
  then self_request DeliveryMode.FIXED (lvt_vector (lvt_timer a)) false g a
       = Ok (E:=void) (g', a <| scan_irr := b |>)
  else g' = g /\ b = scan_irr a.

Lemma self_request_void {E} mode v level g a r :
  self_request (E:=E) mode v level g a = Ok r <-> self_request (E:=void) mode v level g a = Ok r.
Proof.
  unfold self_request, get_shared, unwrap. destruct (shareds g !! shared a); cbn; [|done].
  destruct shared_request_interrupt. split; intros; by simplify_eq.
Qed.

Lemma keeps_scan_irr now g a :
  global_ok g -> apic_ok now g a -> keeps now [] g a g (a <| scan_irr := scan_irr a |>).
Proof.
  intros Hg Ha. apply keeps_local; regs.
Qed.

Lemma scan_irr_eta a : a <| scan_irr := scan_irr a |> = a.
Proof. by destruct a. Qed.

Lemma eval_fire {E} now g a :
  global_ok g -> apic_ok now g a -> expires now a = true ->
  exists g' b, (if negb (lvt_masked (lvt_timer a))
    then self_request DeliveryMode.FIXED (lvt_vector (lvt_timer a)) false g a else Ok (g, a))
    = Ok (E:=E) (g', a <| scan_irr := b |>) /\ timer_request now g a g' b /\
    keeps now [] g a g' (a <| scan_irr := b |>).
Proof.
  intros Hg Ha He. unfold timer_request. rewrite He. cbn [andb].
  destruct (negb (lvt_masked (lvt_timer a))).
  - destruct (self_request_keeps (E:=E) now g a DeliveryMode.FIXED (lvt_vector (lvt_timer a)) false Hg Ha)
      as (g' & b & H1 & H2). exists g', b. split; [done|]. split; [by apply self_request_void in H1|done].
  - exists g, (scan_irr a). split; [by rewrite scan_irr_eta|]. auto using keeps_scan_irr.
Qed.

Lemma eval_quiet now g a :
  global_ok g -> apic_ok now g a -> expires now a = false ->
  timer_request now g a g (scan_irr a) /\ keeps now [] g a g (a <| scan_irr := scan_irr a |>).
Proof.
  intros Hg Ha He. unfold timer_request. rewrite He. split; [done|by apply keeps_scan_irr].
Qed.

Lemma eval_time_request {E} now g a :
  now_ok now -> global_ok g -> apic_ok now g a ->
  exists g' b, eval_time now g a = Ok (E:=E) (g', timer_set now b a) /\ timer_request now g a g' b /\
    keeps now [] g a g' (a <| scan_irr := b |>).
Proof.
  intros Hn Hg Ha. pose proof (ap_timer _ _ _ Ha) as [Hi Hc Hl _].
  pose proof (eval_fire (E:=E) now g a Hg Ha) as HF. pose proof (eval_quiet now g a Hg Ha) as HQ.
  unfold eval_time, timer_set, timer_after. unfold expires in HF, HQ.
  destruct (Z.eqb_spec (timer_ccr a) 0) as [E0|E0]; cbn [negb andb] in *.
  { exists g, (scan_irr a). split; [|by apply HQ]. destruct a; cbn in *. by subst. }
  destruct (eval_counts now a Hn Hl) as (d & -> & Hcnt). cbn [unwrap res_bind]. rewrite Hcnt.
  destruct (counts_bound now a Hn Hl) as [C0 C1]. destruct (eval_advance (E:=E) now a Hn Hl) as (M & W & _).
  destruct (Z.leb_spec (timer_ccr a) (counts_at now a)) as [Hle|Hlt].
  - destruct (HF eq_refl) as (g' & b & -> & HR & HK). exists g', b. cbn [res_bind].
    destruct (lvt_timer_mode (lvt_timer a) =? TimerMode.ONE_SHOT).
    + split; [by destruct a|done].
    + change (timer_ccr (a <| scan_irr := b |>)) with (timer_ccr a).
      change (timer_icr (a <| scan_irr := b |>)) with (timer_icr a).
      rewrite usub_ok by done. cbn [res_bind]. rewrite reload_ccr_ok by (done || lia). cbn [res_bind].
      rewrite M. cbn [res_bind fst snd]. split; [by rewrite <-W|done].
  - exists g, (scan_irr a). split; [|by apply HQ]. unfold ucast, is_u in *.
    rewrite (Z.mod_small (counts_at now a)) by lia. rewrite usub_ok by lia. cbn [res_bind].
    rewrite M. cbn [res_bind fst snd]. rewrite <-W. by destruct a.
Qed.

(** Evaluating the timer keeps the invariants. *)
Lemma eval_time_keeps {E} now g a :
  now_ok now -> global_ok g -> apic_ok now g a ->
  exists g' b, eval_time now g a = Ok (E:=E) (g', timer_set now b a) /\
    keeps now [] g a g' (timer_set now b a).
Proof.
  intros Hn Hg Ha. destruct (eval_time_request (E:=E) now g a Hn Hg Ha) as (g' & b & He & _ & HK).
  exists g', b. split; [done|]. destruct (timer_after_bounds now a Hn (ap_timer _ _ _ Ha)) as [B1 B2].
  eapply keeps_trans_nil; [exact HK|]. destruct HK as [[HG HA _ _ _] _].
  apply keeps_local; regs.
Qed.

Lemma update_timeout_keeps {E} now g a :
  now_ok now -> global_ok g -> apic_ok now g a ->
  exists o, apic_update_timeout now a = Ok (E:=E) (a <| next_timeout := o |>) /\
    keeps now [] g a g (a <| next_timeout := o |>) /\
    o = if timer_ccr a =? 0 then None
        else Some (now + timer_ccr a * 2 ^ dcr_divider_shift (timer_dcr a) * 5 / 100).
Proof.
  intros Hn Hg Ha. unfold apic_update_timeout. pose proof (ap_timer _ _ _ Ha) as [Hi Hc Hl _].
  assert (forall o, (forall t, o = Some t -> target_ok t) -> keeps now [] g a g (a <| next_timeout := o |>))
    as HK.
  { intros o Ho. apply keeps_local; regs. }
  destruct (Z.eqb_spec (timer_ccr a) 0); cbn [negb]; [by exists None; split; [|split; [apply HK|]]|].
  unfold is_u, now_ok in *. pose proof (shift_bound (timer_dcr a)).
  set (shift := dcr_divider_shift (timer_dcr a)) in *.
  assert (1 <= 2 ^ shift <= 128) by
    (split; [change 1 with (2 ^ 0)|change 128 with (2 ^ 7)]; apply Z.pow_le_mono_r; lia).
  assert (0 <= timer_ccr a * 2 ^ shift < 2 ^ 32 * 128) by nia.
  cbn zeta. rewrite Z.shiftl_mul_pow2 by lia. unfold ucast, NANOS_PER_TICK. rewrite Z.mod_small by lia.
  rewrite umul_ok by lia. cbn [res_bind]. rewrite vmtime_add_small by div_lia.
  eexists. split; [done|]. split; [|done]. apply HK. intros t [= <-]. unfold target_ok. div_lia.
Qed.

(** * Register accesses *)

Record access_ok (x : Access) : Prop := {
  xo_now : now_ok (cl_now (client x));
  xo_global : global_ok (global x);
  xo_apic : apic_ok (cl_now (client x)) (global x) (apic x);
  xo_irr : banks_ok (fst (cl_offload (client x)));
  xo_isr : banks_ok (snd (cl_offload (client x)));
}.

(** [x'] comes after [x] in an access; with [k], no request is dropped. *)
Record advances (k : bool) (x x' : Access) : Prop := {
  av_ok : access_ok x';
  av_now : cl_now (client x') = cl_now (client x);
  av_step : exists w, cl_wakes (client x') = cl_wakes (client x) ++ w /\
    ok_step (cl_now (client x)) w (global x) (apic x) (global x') (apic x') /\
    (k = true -> kept w (global x) (apic x) (global x') (apic x'));
}.

Lemma advances_refl k x : access_ok x -> advances k x x.
Proof.
  intros Hx. split; [done|done|]. exists []. rewrite app_nil_r. destruct Hx.
  split; [done|]. split; [by apply ok_refl|]. intros _. apply kept_refl.
Qed.

Lemma advances_trans k x1 x2 x3 : advances k x1 x2 -> advances k x2 x3 -> advances k x1 x3.
Proof.
  intros [O1 N1 (w1 & W1 & S1 & K1)] [O2 N2 (w2 & W2 & S2 & K2)]. split; [done|congruence|].
  exists (w1 ++ w2). rewrite W2, W1, app_assoc. rewrite N1 in S2. split; [done|].
  split; [by eapply ok_trans|]. intros Hk. eapply kept_trans; [|by apply K1|by apply K2].
  intros s Hs. destruct (ok_own _ _ _ _ _ _ _ S1 Hs) as (s' & ? & ? & _). eauto.
Qed.

Lemma advances_weaken k x x' : advances true x x' -> advances k x x'.
Proof. intros [O N (w & W & S & K)]. split; [done|done|]. exists w. auto. Qed.

(** The outcome [m] of an access from [x], whose new state is [π]. *)
Definition runs {E A} (k : bool) (π : A -> Access) (x : Access) (m : res E A) : Prop :=
  exists r, m = Ok r /\ advances k x (π r).

Lemma runs_ret {E A} k (π : A -> Access) x r :
  advances k x (π r) -> runs k π x (Ok (E:=E) r).
Proof. intros. by exists r. Qed.

Lemma runs_bind {E A B} k (π : A -> Access) (ρ : B -> Access) x (m : res E A) (f : A -> res E B) :
  runs k π x m -> (forall r, m = Ok r -> advances k x (π r) -> runs k ρ (π r) (f r)) ->
  runs k ρ x (res_bind m f).
Proof.
  intros (r & -> & Hr) Hf. cbn. destruct (Hf r eq_refl Hr) as (r' & -> & Hr').
  exists r'. split; [done|]. by eapply advances_trans.
Qed.

(** Changes of the registers of the APIC, of the client and of both. *)
Lemma advances_apic x a' :
  access_ok x -> keeps (cl_now (client x)) [] (global x) (apic x) (global x) a' ->
  advances true x (x <| apic := a' |>).
Proof.
  intros [] [HO HK]. split; [|done|].
  - split; try done. apply HO.
  - exists []. rewrite app_nil_r. auto.
Qed.

Lemma runs_on_apic {E} k x (f : GlobalState -> LocalApic -> res E (GlobalState * LocalApic)) g' a' :
  access_ok x -> f (global x) (apic x) = Ok (g', a') ->
  ok_step (cl_now (client x)) [] (global x) (apic x) g' a' ->
  (k = true -> kept [] (global x) (apic x) g' a') ->
  runs k (fun x => x) x (on_apic f x).
Proof.
  intros Hx Hf HO HK. unfold on_apic. rewrite Hf. cbn [res_bind].
  eexists. split; [reflexivity|]. destruct Hx. split; [|done|].
  - split; try done; apply HO.
  - exists []. rewrite app_nil_r. auto.
Qed.

Lemma runs_keeps {E} k x (f : GlobalState -> LocalApic -> res E (GlobalState * LocalApic)) g' a' :
  access_ok x -> f (global x) (apic x) = Ok (g', a') ->
  keeps (cl_now (client x)) [] (global x) (apic x) g' a' ->
  runs k (fun x => x) x (on_apic f x).
Proof. intros Hx Hf [HO HK]. by apply (runs_on_apic k x f g' a'). Qed.

Lemma stat_advances k f x : access_ok x -> advances k x (stat f x).
Proof.
  intros Hx. apply advances_weaken, advances_apic; [done|]. destruct Hx. apply keeps_local; regs.
Qed.

(** ** Offloaded registers *)

Lemma accumulate_keeps {E} now g a irr' isr' :
  global_ok g -> apic_ok now g a -> is_offloaded a = true -> banks_ok irr' -> banks_ok isr' ->
  exists a', accumulate_from_offload irr' isr' a = Ok (E:=E) a' /\ keeps now [] g a g a' /\
    is_highest (irr a') (next_irr_cache a') /\ is_offloaded a' = true /\
    apic_base a' = apic_base a /\ svr a' = svr a /\ scan_irr a' = scan_irr a.
Proof.
  intros Hg Ha Hoff Hi Hs. unfold accumulate_from_offload. rewrite Hoff.
  destruct (ap_core _ _ _ Ha) as [C1 C2 C3 C4 _].
  assert (banks_ok (zip_with Z.lor (irr a) irr')) as HI by (apply banks_zip; auto with word).
  destruct (isr_load_from_bits_ok (E:=E) (zip_with Z.lor (isr_to_bits (isr a)) isr')) as (s & -> & Hst & _).
  { apply banks_zip; auto with word. by apply isr_to_bits_ok, stack_vector_ok. }
  cbn [res_bind]. match goal with |- context [recompute_next_irr ?z] => set (a1 := z) end.
  destruct (recompute_form a1) as (o & b & -> & Hh). eexists. split; [reflexivity|].
  split; [|split; [by apply Hh|done]]. apply keeps_local; try regs.
  - split; try done. by intros _; apply Hh.
  - intros v Hv Hb. change (bank_bit (zip_with Z.lor (irr a) irr') v = true).
    rewrite (bank_bit_zip Z.lor orb) by (done || apply Z.lor_spec). by rewrite Hb.
Qed.

Lemma ensure_state_local_runs {E} k x :
  access_ok x -> runs (E:=E) k (fun x => x) x (ensure_state_local x).
Proof.
  intros Hx. unfold ensure_state_local. destruct (is_offloaded (apic x)) eqn:Hoff.
  2: { by apply runs_ret, advances_refl. }
  pose proof Hx as [X1 X2 X3 X4 X5]. destruct (cl_offload (client x)) as [irr' isr'] eqn:Hcl.
  set (x1 := x <| client := _ |>). change (apic x1) with (apic x).
  destruct (accumulate_keeps (E:=E) _ _ _ irr' isr' X2 X3 Hoff X4 X5) as (a' & -> & HK & _).
  cbn [res_bind]. set (a1 := set_field _ _ : LocalApic).
  apply runs_ret. apply advances_weaken. assert (keeps (cl_now (client x)) [] (global x) (apic x) (global x) a1)
    as HK1.
  { eapply keeps_trans_nil; [exact HK|]. destruct HK as [[HG HA _ _ _] _].
    apply keeps_local; regs. }
  destruct HK1 as [HO HKp]. split; [|done|].
  - split; try done; [apply HO|apply zero_banks_ok..].
  - exists []. rewrite app_nil_r. split; [done|]. split; [done|]. auto.
Qed.

Lemma advances_client k x c :
  access_ok x -> cl_now c = cl_now (client x) -> cl_offload c = cl_offload (client x) ->
  cl_wakes c = cl_wakes (client x) -> advances k x (x <| client := c |>).
Proof.
  intros [X1 X2 X3 X4 X5] Hn Ho Hw. split; [|done|].
  - split.
    + change (now_ok (cl_now c)). by rewrite Hn.
    + done.
    + change (apic_ok (cl_now c) (global x) (apic x)). by rewrite Hn.
    + change (banks_ok (fst (cl_offload c))). by rewrite Ho.
    + change (banks_ok (snd (cl_offload c))). by rewrite Ho.
  - exists []. rewrite app_nil_r. split; [done|]. split; [by apply ok_refl|]. intros _. apply kept_refl.
Qed.

(** ** End of interrupt *)

Lemma stack_pop s : stack_ok s -> stack_ok (removelast s).
Proof.
  destruct s as [|v s _] using rev_ind; [done|]. rewrite removelast_last. by intros [? _]%stack_app.
Qed.

Lemma eoi_runs {E} k lazy x : access_ok x -> runs (E:=E) k (fun x => x) x (eoi lazy x).
Proof.
  intros Hx. unfold eoi. eapply runs_bind; [by apply ensure_state_local_runs|]. cbn beta.
  intros y _ [Hy _ _]. unfold isr_pop. destruct (isr_top (isr (apic y))) as [v|].
  2: { by apply runs_ret, stat_advances. }
  set (y1 := y <| apic := _ |>). assert (advances k y y1) as H1.
  { apply advances_weaken, advances_apic; [done|]. destruct Hy.
    apply keeps_local; try regs. destruct (ap_core _ _ _ xo_apic0). split; try done.
    by apply stack_pop. }
  set (y2 := if lazy then _ else _). assert (advances k y y2) as H2.
  { eapply advances_trans; [exact H1|]. destruct lazy; apply stat_advances, H1. }
  cbn [bank_mask]. destruct (negb _); [|by apply runs_ret].
  apply runs_ret. eapply advances_trans; [exact H2|]. eapply advances_trans; [|apply stat_advances].
  - apply (advances_client k y2); [apply H2|done..].
  - eapply av_ok. apply (advances_client k y2); [apply H2|done..].
Qed.

Lemma lazy_eoi_runs {E} k x :
  access_ok x -> is_lazy_eoi_pending (apic x) = true -> runs (E:=E) k (fun x => x) x (lazy_eoi x).
Proof. intros Hx Hl. unfold lazy_eoi. rewrite Hl. by apply eoi_runs. Qed.

Lemma get_ppr_runs {E} k x : access_ok x -> runs (E:=E) k fst x (get_ppr x).
Proof.
  intros Hx. unfold get_ppr. eapply runs_bind; [by apply ensure_state_local_runs|]. cbn beta.
  intros y _ [Hy _ _]. by apply runs_ret, advances_refl.
Qed.

(** ** Interprocessor interrupts *)

Lemma request_advances k d mode v x :
  access_ok x ->
  advances k x (let '(g, wakes) := global_request_interrupt d mode v false (global x) in
                client_wake wakes (x <| global := g |>)).
Proof.
  intros [X1 X2 X3 X4 X5].
  pose proof (global_request_keeps _ _ _ d mode v false X2 X3) as [HO HK].
  destruct global_request_interrupt as [g w]. cbn [fst snd] in HO, HK.
  split; [|done|].
  - split; try done; apply HO.
  - exists w. auto.
Qed.

Lemma self_request_runs {E} k mode v level x :
  access_ok x -> runs (E:=E) k (fun x => x) x (on_apic (self_request mode v level) x).
Proof.
  intros Hx. destruct (self_request_keeps (E:=E) _ _ _ mode v level (xo_global _ Hx) (xo_apic _ Hx))
    as (g' & b & Hf & HK). by eapply runs_keeps.
Qed.

Lemma shorthand_cases i : 0 <= icr_destination_shorthand i < 4.
Proof. unfold icr_destination_shorthand, bits. rewrite Z.land_ones by lia. apply Z.mod_pos_bound. lia. Qed.

Lemma send_ipi_runs {E} k i x : access_ok x -> runs (E:=E) k (fun x => x) x (send_ipi i x).
Proof.
  intros Hx. unfold send_ipi. pose proof (shorthand_cases i).
  set (broadcast := stat _).
  assert (forall d y, advances k x y -> advances k x
    (let '(g, wakes) := global_request_interrupt d (icr_delivery_mode i) (icr_vector i) false (global y) in
      client_wake wakes (y <| global := g |>))) as HR.
  { intros d y Hy. eapply advances_trans; [exact Hy|]. apply request_advances, Hy. }
  destruct (Z.eqb_spec (icr_destination_shorthand i) DestinationShorthand.NONE).
  { apply runs_ret, HR. destruct from_icr; by apply stat_advances. }
  destruct (Z.eqb_spec (icr_destination_shorthand i) DestinationShorthand.SELF).
  { set (y := stat _ x). assert (advances k x y) as Hy by (by apply stat_advances).
    destruct (self_request_runs (E:=E) k (icr_delivery_mode i) (icr_vector i) (icr_trigger_mode_level i) y)
      as (z & Hz & Ha); [apply Hy|]. exists z. split; [done|]. by eapply advances_trans. }
  destruct (Z.eqb_spec (icr_destination_shorthand i) DestinationShorthand.ALL_INCLUDING_SELF).
  { apply runs_ret, HR. by apply stat_advances. }
  destruct (Z.eqb_spec (icr_destination_shorthand i) DestinationShorthand.ALL_EXCLUDING_SELF).
  { apply runs_ret, HR. by apply stat_advances. }
  unfold DestinationShorthand.NONE, DestinationShorthand.SELF, DestinationShorthand.ALL_INCLUDING_SELF,
    DestinationShorthand.ALL_EXCLUDING_SELF in *. lia.
Qed.

Lemma handle_ipi_runs {E} k i x : access_ok x -> runs (E:=E) k (fun x => x) x (handle_ipi i x).
Proof.
  intros Hx. pose proof (send_ipi_runs (E:=E) k i x Hx) as Hs.
  assert (runs (E:=E) k (fun x => x) x (Ok x)) as Hr by (by apply runs_ret, advances_refl).
  unfold handle_ipi. repeat case_match; done.
Qed.

(** ** Resets and the base register *)

Lemma zero_highest : is_highest zero_banks None.
Proof. intros w Hw. by apply bank_bit_zero. Qed.

Lemma reset_registers_ok {E} now g a :
  global_ok g -> apic_ok now g a ->
  exists g' a', reset_registers g a = Ok (E:=E) (g', a') /\ ok_step now [] g a g' a' /\
    shareds g' = shareds g /\ irr a' = zero_banks /\ isr a' = [] /\
    is_offloaded a' = is_offloaded a /\ apic_base a' = apic_base a /\ last_time a' = last_time a /\
    timer_ccr a' = 0.
Proof.
  intros Hg Ha. destruct (ap_shared _ _ _ Ha) as [s Hs].
  unfold reset_registers, get_shared, unwrap. rewrite Hs. cbn [res_bind].
  match goal with |- context [update_slot g ?z] => set (a1 := z) end.
  destruct (update_slot_ok (E:=E) now g a a1) as (g' & a' & HU & HO & Har & ->); try done.
  - split; try done; [apply stack_nil|apply zero_banks_ok..|intros _; apply zero_highest].
  - split; [by auto with word|done|apply Ha|done].
  - exists g'. eexists. split; [exact HU|]. split; [done|]. split; [done|]. done.
Qed.

(** The write of [base] turns the APIC off. *)
Definition disables (base : Z) (a : LocalApic) : bool := hardware_enabled a && negb (base_enable base).

Lemma base_enable_bsp b x : base_enable (with_bit 8 b x) = base_enable x.
Proof.
  unfold base_enable, with_bit. destruct b; autorewrite with bits; [apply orb_false_r|apply andb_true_r].
Qed.

Lemma base_x2apic_bsp b x : base_x2apic (with_bit 8 b x) = base_x2apic x.
Proof.
  unfold base_x2apic, with_bit. destruct b; autorewrite with bits; [apply orb_false_r|apply andb_true_r].
Qed.

Lemma set_apic_base_ok now g a base :
  global_ok g -> apic_ok now g a ->
  (exists e, set_apic_base_inner base g a = Err e) \/
  exists g' a', set_apic_base_inner base g a = Ok (g', a') /\ ok_step now [] g a g' a' /\
    (disables base a = false -> kept [] g a g' a') /\
    is_offloaded a' = is_offloaded a /\ hardware_enabled a' = base_enable base /\
    x2apic_enabled a' = base_x2apic base /\ shareds g' = shareds g /\ isr a' = (if disables base a then [] else isr a)
    /\ timer_ccr a' = (if disables base a then 0 else timer_ccr a).
Proof.
  intros Hg Ha. unfold set_apic_base_inner. set (new := with_bit 8 _ base).
  destruct (negb _); [eauto|]. destruct (base_x2apic new && _); [eauto|].
  destruct (base_x2apic (apic_base a) && _ && _); [eauto|]. right. unfold new. rewrite base_enable_bsp.
  fold (hardware_enabled a) (disables base a). destruct (disables base a).
  - destruct (reset_registers_ok (E:=InvalidApicBase) now g a Hg Ha)
      as (g1 & a1 & -> & HO & Har & HI & HS & HF & _ & _ & HC). cbn [res_bind].
    pose proof HO as [HG HA Hi Hs _]. set (a2 := a1 <| apic_base := new |>).
    destruct (update_slot_ok (E:=InvalidApicBase) now g1 a1 a2) as (g' & a' & HU & HO' & Har' & ->);
      try regs. subst a2. do 2 eexists. split; [exact HU|]. split; [|split; [done|]].
    + by apply (ok_trans _ [] [] g a g1 a1).
    + split_and!; [done|apply base_enable_bsp|apply base_x2apic_bsp|congruence|done|done].
  - cbn [res_bind]. set (a2 := a <| apic_base := new |>).
    destruct (update_slot_ok (E:=InvalidApicBase) now g a a2) as (g' & a' & HU & HO' & Har' & ->);
      try regs. subst a2. do 2 eexists. split; [exact HU|]. split; [done|]. split.
    + intros _. by apply kept_arena.
    + split_and!; [done|apply base_enable_bsp|apply base_x2apic_bsp|done|done|done].
Qed.

(** Splits on the condition of the outermost branch. *)
Ltac branch := lazymatch goal with |- runs _ _ _ (if ?b then _ else _) => destruct b end.

(** ** Reads *)

Lemma pull_irr_runs {E} k x : access_ok x -> runs (E:=E) k (fun x => x) x (on_apic pull_irr x).
Proof.
  intros Hx. destruct (ap_shared _ _ _ (xo_apic _ Hx)) as [s Hs].
  destruct (pull_irr_keeps (E:=E) _ _ _ s (xo_global _ Hx) (xo_apic _ Hx) Hs) as (a' & HP & HK & _).
  by eapply runs_keeps.
Qed.

Lemma eval_time_runs {E} k x :
  access_ok x -> runs (E:=E) k (fun x => x) x (on_apic (eval_time (cl_now (client x))) x).
Proof.
  intros Hx. destruct (eval_time_keeps (E:=E) _ _ _ (xo_now _ Hx) (xo_global _ Hx) (xo_apic _ Hx))
    as (g' & b & HP & HK). by eapply runs_keeps.
Qed.

(** Reading one bank of a register. *)
Lemma bank_get_runs {E} k x l lo r :
  access_ok x -> banks_ok l -> in_range lo (lo + 7) r = true ->
  runs (E:=E) k fst x (let! v := vec_get l (r - lo) in Ok (x, Some v)).
Proof.
  intros Hx Hl Hr. apply andb_true_iff in Hr as [H1 H2]. apply Z.leb_le in H1, H2.
  destruct (vec_get_ok (E:=E) l (r - lo)) as (v & -> & _); [rewrite (banks_length _ Hl); lia|].
  cbn [res_bind]. by apply runs_ret, advances_refl.
Qed.

Lemma read_register_runs {E} k r x : access_ok x -> runs (E:=E) k fst x (read_register r x).
Proof.
  intros Hx. unfold read_register.
  assert (forall v : option Z, runs (E:=E) k fst x (Ok (x, v))) as HV by (intros v; by apply runs_ret, advances_refl).
  destruct (r =? ApicRegister.ID); [apply HV|]. destruct (r =? ApicRegister.VERSION); [apply HV|].
  destruct (r =? ApicRegister.TPR); [apply HV|].
  destruct (r =? ApicRegister.PPR).
  { eapply runs_bind; [by apply get_ppr_runs|]. intros [y v] _ [Hy _ _]. by apply runs_ret, advances_refl. }
  destruct (r =? ApicRegister.LDR); [apply HV|]. destruct (_ && _); [apply HV|].
  destruct (r =? ApicRegister.SVR); [apply HV|].
  destruct (in_range ApicRegister.ISR0 ApicRegister.ISR7 r) eqn:Hisr.
  { eapply runs_bind; [by apply ensure_state_local_runs|]. intros y _ [Hy _ _]. cbn beta in *.
    apply bank_get_runs; [done| |exact Hisr]. apply isr_to_bits_ok, stack_vector_ok.
    apply (ap_core _ _ _ (xo_apic _ Hy)). }
  destruct (in_range ApicRegister.TMR0 ApicRegister.TMR7 r) eqn:Htmr.
  { eapply runs_bind; [by apply pull_irr_runs|]. intros y _ [Hy _ _]. cbn beta in *.
    apply bank_get_runs; [done| |exact Htmr]. apply (ap_core _ _ _ (xo_apic _ Hy)). }
  destruct (in_range ApicRegister.IRR0 ApicRegister.IRR7 r) eqn:Hirr.
  { eapply runs_bind; [by apply ensure_state_local_runs|]. intros y _ [Hy _ _]. cbn beta in *.
    eapply runs_bind; [by apply pull_irr_runs|]. intros z _ [Hz _ _]. cbn beta in *.
    apply bank_get_runs; [done| |exact Hirr]. apply (ap_core _ _ _ (xo_apic _ Hz)). }
  do 10 (branch; [apply HV|]).
  destruct (r =? ApicRegister.TIMER_CCR); [|destruct (r =? ApicRegister.TIMER_DCR); apply HV].
  eapply runs_bind; [by apply eval_time_runs|]. intros y _ [Hy _ _]. by apply runs_ret, advances_refl.
Qed.

(** ** Writes *)

(** A value of the destination format register that names a format. *)
Definition dfr_valid (value : Z) : bool :=
  (Z.lor value 0x0fffffff =? Dfr.CLUSTERED_MODE) || (Z.lor value 0x0fffffff =? Dfr.FLAT_MODE).

Lemma cluster_mode_valid {E} value : dfr_valid value = true -> exists c, cluster_mode value = Ok (E:=E) c.
Proof.
  unfold dfr_valid, cluster_mode. destruct (_ =? Dfr.CLUSTERED_MODE); [eauto|].
  destruct (_ =? Dfr.FLAT_MODE); [eauto|done].
Qed.

(** A change of registers that the slot mirrors. *)
Lemma slot_write_runs {E} k x a' :
  access_ok x -> core_ok a' -> timer_ok (cl_now (client x)) a' -> length (lvt_lint a') = 2%nat ->
  id a' = id (apic x) -> shared a' = shared (apic x) -> irr a' = irr (apic x) ->
  scan_irr a' = scan_irr (apic x) ->
  runs (E:=E) k (fun x => x) x (on_apic update_slot (x <| apic := a' |>)).
Proof.
  intros Hx Hc Ht HL Hi HS HI HF. pose proof Hx as [X1 X2 X3 X4 X5].
  destruct (update_slot_keeps (E:=E) _ _ _ a' X2 X3 Hc Ht HL Hi HS) as (g' & a2 & HU & HO & HK);
    [by rewrite HI|by rewrite HF|].
  unfold on_apic. change (update_slot (global (x <| apic := a' |>)) (apic (x <| apic := a' |>)))
    with (update_slot (E:=E) (global x) a'). rewrite HU. cbn [res_bind].
  apply runs_ret. split; [|done|].
  - split; try done; apply HO.
  - exists []. rewrite app_nil_r. auto.
Qed.

Lemma write_svr_runs {E} k value x : access_ok x -> runs (E:=E) k (fun x => x) x (write_svr value x).
Proof.
  intros Hx. unfold write_svr. eapply runs_bind; [by apply ensure_state_local_runs|].
  intros y _ [Hy _ _]. cbn beta in *. eapply runs_bind; [by apply pull_irr_runs|].
  intros z _ [Hz _ _]. cbn beta in *. pose proof Hz as [X1 X2 X3 X4 X5].
  destruct (negb _).
  - apply slot_write_runs; try regs.
    change (length (lvt_set_masked <$> lvt_lint (apic z)) = 2%nat). rewrite length_fmap. apply X3.
  - apply slot_write_runs; regs.
Qed.

(** The deadline of the timer in its new state. *)
Lemma timeout_runs {E} k x a' :
  access_ok x -> keeps (cl_now (client x)) [] (global x) (apic x) (global x) a' ->
  runs (E:=E) k (fun x => x) x
    (let! a := apic_update_timeout (cl_now (client x)) a' in Ok (x <| apic := a |>)).
Proof.
  intros Hx HK. pose proof HK as [[HG HA _ _ _] _].
  destruct (update_timeout_keeps (E:=E) _ _ _ (xo_now _ Hx) HG HA) as (o & -> & HK' & _). cbn [res_bind].
  apply runs_ret, advances_weaken, advances_apic; [done|]. by eapply keeps_trans_nil.
Qed.

Lemma write_timer_icr_runs {E} k value x :
  access_ok x -> is_u 32 value -> runs (E:=E) k (fun x => x) x (write_timer_icr value x).
Proof.
  intros Hx Hv. unfold write_timer_icr. apply timeout_runs; [done|]. destruct Hx as [X1 X2 X3 X4 X5].
  apply keeps_local; try regs. destruct (ap_timer _ _ _ X3). unfold is_u, now_ok in *.
  split; [done|change (0 <= value <= value); lia|change (0 <= cl_now (client x) <= cl_now (client x)); lia|done].
Qed.

Lemma write_timer_dcr_runs {E} k value x :
  access_ok x -> runs (E:=E) k (fun x => x) x (write_timer_dcr value x).
Proof.
  intros Hx. unfold write_timer_dcr. eapply runs_bind; [by apply eval_time_runs|].
  intros y _ [Hy Hn _]. cbn beta in *. rewrite <-Hn. apply timeout_runs; [done|].
  destruct Hy as [X1 X2 X3 X4 X5]. apply keeps_local; regs.
Qed.

(** A register write that the emulator does not refuse by panicking. *)
Definition write_ok (r value : Z) (a : LocalApic) : Prop :=
  is_u 32 value /\ (r = ApicRegister.DFR -> x2apic_enabled a = false -> dfr_valid value = true).

Lemma runs_pair {E} k x (m : res E Access) :
  runs k (fun x => x) x m -> runs k fst x (let! x := m in Ok (x, true)).
Proof. intros (y & -> & Hy). by exists (y, true). Qed.

Lemma write_register_runs {E} k r value x :
  access_ok x -> write_ok r value (apic x) -> runs (E:=E) k fst x (write_register r value x).
Proof.
  intros Hx [Hv Hd]. unfold write_register. pose proof Hx as [X1 X2 X3 X4 X5].
  assert (forall b : bool, runs (E:=E) k fst x (Ok (x, b))) as HN by (intros b; by apply runs_ret, advances_refl).
  assert (forall a', keeps (cl_now (client x)) [] (global x) (apic x) (global x) a' ->
    runs (E:=E) k fst x (Ok (x <| apic := a' |>, true))) as HP.
  { intros a' HK. apply runs_ret. by apply advances_weaken, advances_apic. }
  set (x2 := x2apic_enabled (apic x)) in *.
  destruct (r =? ApicRegister.TPR); [apply runs_ret; by apply advances_client|].
  destruct (r =? ApicRegister.EOI).
  { destruct (x2 && _); [apply HN|]. by apply runs_pair, eoi_runs. }
  branch; [apply runs_pair, slot_write_runs; regs|].
  destruct ((r =? ApicRegister.DFR) && negb x2) eqn:Edfr.
  { apply andb_true_iff in Edfr as [Er Ex]. apply Z.eqb_eq in Er. apply negb_true_iff in Ex.
    destruct (cluster_mode_valid (E:=E) value (Hd Er Ex)) as [c ->]. cbn [res_bind].
    apply runs_pair, slot_write_runs; regs. }
  destruct (r =? ApicRegister.SVR); [by apply runs_pair, write_svr_runs|].
  destruct (r =? ApicRegister.ESR).
  { destruct (x2 && _); [apply HN|]. apply HP, keeps_local; regs. }
  branch.
  { apply runs_pair. set (i := Z.land _ ICR_XAPIC_MASK). set (y := x <| apic := _ |>).
    assert (advances k x y) as Hy by (apply advances_weaken, advances_apic; [done|]; apply keeps_local; regs).
    destruct (handle_ipi_runs (E:=E) k i y (av_ok _ _ _ Hy)) as (z & -> & Hz).
    apply runs_ret. by eapply advances_trans. }
  branch; [apply HP, keeps_local; regs|].
  destruct (r =? ApicRegister.LVT_TIMER); [apply HP, keeps_local; regs|].
  destruct (r =? ApicRegister.LVT_THERMAL); [apply HP, keeps_local; regs|].
  destruct (r =? ApicRegister.LVT_PMC); [apply HP, keeps_local; regs|].
  branch.
  { apply runs_pair, slot_write_runs; try regs. set (lvt := effective_lvt _ _).
    change (length (<[if r =? ApicRegister.LVT_LINT0 then 0%nat else 1%nat := lvt]> (lvt_lint (apic x))) = 2%nat).
    rewrite length_insert. apply X3. }
  destruct (r =? ApicRegister.LVT_ERROR); [apply HP, keeps_local; regs|].
  destruct (r =? ApicRegister.TIMER_ICR); [by apply runs_pair, write_timer_icr_runs|].
  destruct (r =? ApicRegister.TIMER_DCR); [by apply runs_pair, write_timer_dcr_runs|].
  branch; [|apply HN]. apply runs_pair. set (y := stat _ x).
  assert (advances k x y) as Hy by (by apply stat_advances).
  destruct (self_request_runs (E:=E) k DeliveryMode.FIXED (ucast 8 value) false y (av_ok _ _ _ Hy))
    as (z & -> & Hz). apply runs_ret. by eapply advances_trans.
Qed.

(** ** Memory-mapped accesses and MSRs *)

Lemma mmio_read_runs {E} k address len x :
  access_ok x -> runs (E:=E) k fst x (mmio_read address len x).
Proof.
  intros Hx. unfold mmio_read. branch; [by apply runs_ret, advances_refl|].
  eapply runs_bind; [by apply read_register_runs|]. intros [y v] _ [Hy _ _].
  by apply runs_ret, advances_refl.
Qed.

(** The register and the value of a memory-mapped write. *)
Definition mmio_register (address : Z) : Z := ucast 8 (Z.shiftr address 4).
Definition mmio_value (address : Z) (data : list Z) : Z :=
  let offset := Z.to_nat (Z.land address 3) in
  let data := take (4 - offset) data in
  le_value (replicate offset 0 ++ data ++ replicate (4 - offset - length data) 0).

Lemma mmio_value_u32 address data : Forall (is_u 8) data -> is_u 32 (mmio_value address data).
Proof.
  intros Hd. unfold mmio_value. set (offset := Z.to_nat (Z.land address 3)).
  assert (offset <= 3)%nat as Ho.
  { unfold offset. change 3 with (Z.ones 2). rewrite Z.land_ones by lia.
    pose proof (Z.mod_pos_bound address (2 ^ 2)). lia. }
  set (bs := replicate offset 0 ++ _).
  assert (Forall (is_u 8) bs) as Hf.
  { unfold bs. rewrite !Forall_app. split_and!; [apply Forall_replicate; auto with word|by apply Forall_take|].
    apply Forall_replicate; auto with word. }
  assert (length bs = 4%nat) as Hl.
  { unfold bs. rewrite !length_app, !length_replicate, length_take. lia. }
  pose proof (le_value_bound _ Hf) as Hb. rewrite Hl in Hb. exact Hb.
Qed.

Lemma mmio_write_runs {E} k address data x :
  access_ok x -> Forall (is_u 8) data ->
  (mmio_register address = ApicRegister.DFR -> dfr_valid (mmio_value address data) = true) ->
  runs (E:=E) k (fun x => x) x (mmio_write address data x).
Proof.
  intros Hx Hd Hv. unfold mmio_write. branch; [by apply runs_ret, advances_refl|].
  fold (mmio_register address) (mmio_value address data).
  destruct (write_register_runs (E:=E) k (mmio_register address) (mmio_value address data) x) as (r & -> & Hr);
    [done|split; [by apply mmio_value_u32|auto]|]. cbn [res_bind]. by apply runs_ret.
Qed.

Lemma msr_read_runs {E} k msr x : access_ok x -> runs (E:=E) k fst x (msr_read msr x).
Proof.
  intros Hx. unfold msr_read.
  assert (forall v : MsrError + Z, runs (E:=E) k fst x (Ok (x, v))) as HV
    by (intros v; by apply runs_ret, advances_refl).
  branch; [apply HV|]. branch.
  { branch; [apply HV|]. eapply runs_bind; [by apply read_register_runs|].
    intros [y [v|]] _ [Hy _ _]; by apply runs_ret, advances_refl. }
  branch; [apply HV|]. branch; [apply HV|]. branch; [branch; apply HV|].
  branch; apply HV.
Qed.

Lemma ipi_runs {E} k i x :
  access_ok x -> runs (E:=E) k (fun x => x) x (handle_ipi i (x <| apic := apic x <| icr := i |> |>)).
Proof.
  intros Hx. set (y := x <| apic := _ |>). assert (advances k x y) as Hy.
  { apply advances_weaken, advances_apic; [done|]. destruct Hx. apply keeps_local; regs. }
  destruct (handle_ipi_runs (E:=E) k i y (av_ok _ _ _ Hy)) as (z & -> & Hz).
  apply runs_ret. by eapply advances_trans.
Qed.

Lemma runs_unit {E} k x (m : res E Access) :
  runs k (fun x => x) x m -> runs k fst x (let! x := m in Ok (x, inr (A:=MsrError) tt)).
Proof. intros (y & -> & Hy). by exists (y, inr tt). Qed.

(** The MSR write turns the APIC off. *)
Definition msr_disables (msr value : Z) (a : LocalApic) : bool :=
  (msr =? X86X_MSR_APIC_BASE) && disables value a.

Lemma ensure_base {E} x y :
  ensure_state_local x = Ok (E:=E) y -> access_ok x -> apic_base (apic y) = apic_base (apic x).
Proof.
  intros Hy Hx. unfold ensure_state_local in Hy. destruct (is_offloaded (apic x)) eqn:Hoff; [|by simplify_eq].
  destruct Hx as [X1 X2 X3 X4 X5]. destruct (cl_offload (client x)) as [irr' isr'].
  change (apic (x <| client := _ |>)) with (apic x) in Hy.
  destruct (accumulate_keeps (E:=E) _ _ _ irr' isr' X2 X3 Hoff X4 X5) as (a' & HA & _ & _ & _ & HB & _).
  rewrite HA in Hy. cbn [res_bind] in Hy. injection Hy as <-. exact HB.
Qed.

Lemma base_write_runs {E} value x :
  access_ok x -> runs (E:=E) (negb (disables value (apic x))) fst x (msr_write X86X_MSR_APIC_BASE value x).
Proof.
  intros Hx. unfold msr_write. cbn [Z.eqb]. change (X86X_MSR_APIC_BASE =? X86X_MSR_APIC_BASE) with true.
  cbn iota. eapply runs_bind; [by apply ensure_state_local_runs|]. cbn beta. intros y Hy [Hok _ _].
  pose proof (ensure_base x y Hy Hx) as HB. destruct Hok as [X1 X2 X3 X4 X5].
  destruct (set_apic_base_ok _ _ _ value X2 X3) as [[e ->]|(g' & a' & -> & HO & HK & _)].
  { by apply runs_ret, advances_refl. }
  apply runs_ret. split; [|done|].
  - split; try done; apply HO.
  - exists []. rewrite app_nil_r. split; [done|]. split; [done|]. intros Hd. apply HK.
    apply negb_true_iff in Hd. unfold disables, hardware_enabled in *. by rewrite HB.
Qed.

Lemma msr_write_runs {E} msr value x :
  access_ok x -> 0 <= value ->
  runs (E:=E) (negb (msr_disables msr value (apic x))) fst x (msr_write msr value x).
Proof.
  intros Hx Hv. destruct (Z.eqb_spec msr X86X_MSR_APIC_BASE) as [->|Hne].
  { by apply base_write_runs. }
  unfold msr_disables, msr_write. destruct (Z.eqb_spec msr X86X_MSR_APIC_BASE); [done|]. cbn [andb negb].
  assert (forall v : MsrError + unit, runs (E:=E) true fst x (Ok (x, v))) as HV
    by (intros v; by apply runs_ret, advances_refl).
  destruct (in_range X2APIC_MSR_BASE X2APIC_MSR_END msr && x2apic_enabled (apic x)) eqn:Hm.
  { apply andb_true_iff in Hm as [_ Hx2]. branch; [by apply runs_unit, ipi_runs|].
    destruct (write_register_runs (E:=E) true (ucast 8 (msr - X2APIC_MSR_BASE)) (ucast 32 value) x)
      as ([y b] & -> & Hy); [done|split; [auto with word|by rewrite Hx2]|].
    cbn [res_bind]. destruct b; by apply runs_ret. }
  branch; [apply HV|]. branch; [branch; [apply HV|]; by apply runs_unit, eoi_runs|].
  branch.
  { branch; [by apply runs_unit, ipi_runs|]. branch; [by apply runs_unit, ipi_runs|apply HV]. }
  branch; [|apply HV]. branch; [apply HV|]. apply runs_ret. by apply advances_client.
Qed.
