(* ===== verification/LocalApicScan.v ===== *)
(** The operations a processor runs on its local APIC outside register accesses
    ([vmm_core/virt_support_apic/src/lib.rs]: scanning, acknowledging,
    offloading, resetting, saving and restoring) preserve the invariants of
    LocalApicSpec.v. *)

From stdpp Require Import sets.
From S2P Require Import Prelude ChipsetDevice VmTime VmTimeSpec LocalApic ApicBanks LocalApicSpec.
From S2P Require Import LocalApicOps.

(** * Scanning *)

Lemma count_keeps now g a f : global_ok g -> apic_ok now g a -> keeps now [] g a g (count f a).
Proof. intros. apply keeps_local; regs. Qed.

(** The registers that [flush] and [count] leave alone: all but the statistics. *)
Definition same_registers (a a' : LocalApic) : Prop := exists st, a' = a <| apic_stats := st |>.

Lemma flush_keeps {E} now g a :
  global_ok g -> apic_ok now g a ->
  exists g' a' r, flush g a = Ok (E:=E) (g', a', r) /\ keeps now [] g a g' a' /\ same_registers a a' /\
    w_interrupt r = None /\
    (forall s, shareds g !! shared a = Some s ->
       shareds g' !! shared a' = Some (s <| work := 0 |>)).
Proof.
  intros Hg Ha. destruct (ap_shared _ _ _ Ha) as [s Hs]. unfold flush, get_shared, unwrap. rewrite Hs.
  cbn [res_bind]. destruct (Z.eqb_spec (work s) 0) as [E0|E0].
  { exists g, a, work_default. split; [done|]. split; [by apply keeps_refl|].
    split; [exists (apic_stats a); by destruct a|]. split; [done|]. rewrite Hs. intros ? [= <-].
    f_equal. destruct s; cbn in *. by subst. }
  set (a' := if work_extint (work s) then _ else _).
  assert (same_registers a a') as [st Ha'].
  { exists (apic_stats a'). unfold a'.
    destruct (work_init _), (work_sipi _), (work_nmi _), (work_extint _); by destruct a. }
  destruct (own_step now g a a' s (s <| work := 0 |>)) as [HO Hs']; try (rewrite Ha'; regs); try done.
  { destruct (Forall_lookup_1 _ _ _ _ (g_ok_shared _ Hg) Hs). by split. }
  do 3 eexists. split; [reflexivity|]. split; [|split; [by exists st|]].
  - split; [done|]. apply kept_staged; [|by rewrite Ha'..]. intros v. unfold staged. by rewrite Hs', Hs.
  - split; [done|]. by intros ? [= <-].
Qed.

(** The registers that hold vectors and modes are the same. *)
Record same_core (a a' : LocalApic) : Prop := {
  sc_irr : irr a' = irr a;
  sc_tmr : tmr a' = tmr a;
  sc_auto : auto_eoi a' = auto_eoi a;
  sc_isr : isr a' = isr a;
  sc_cache : next_irr_cache a' = next_irr_cache a;
  sc_offloaded : is_offloaded a' = is_offloaded a;
  sc_svr : svr a' = svr a;
  sc_base : apic_base a' = apic_base a;
}.

Lemma same_core_refl a : same_core a a.
Proof. done. Qed.

Lemma same_core_trans a b c : same_core a b -> same_core b c -> same_core a c.
Proof. intros [] []. split; congruence. Qed.

Section Scan.

Context {C : Type} `{Laws : TimeAccessLaws C}.

Lemma reading_now_ok (c : C) os : ta_inv c -> 0 <= os < 2 ^ 62 -> now_ok (ta_reading c os).
Proof. intros Hc Hos. apply (ta_now_ok (E:=void) os c Hc Hos). Qed.

Lemma scan_timer_keeps {E} os (c : C) g a :
  ta_inv c -> 0 <= os < 2 ^ 62 -> global_ok g -> apic_ok (ta_reading c os) g a ->
  exists c' g' a', scan_timer os c g a = Ok (E:=E) (c', g', a') /\ ta_inv c' /\
    ta_reading c' = ta_reading c /\ keeps (ta_reading c os) [] g a g' a' /\ same_core a a' /\
    (forall t, next_timeout a' = Some t -> exists u, ta_timeout c' = Some u /\ u <= t).
Proof.
  intros Hc Hos Hg Ha. unfold scan_timer. set (now := ta_reading c os) in *.
  destruct (next_timeout a) as [next|] eqn:Hnext.
  2: { exists c, g, a. split; [done|]. split; [done|]. split; [done|]. split; [by apply keeps_refl|].
    split; [done|]. by rewrite Hnext. }
  destruct (ta_now_ok (E:=E) os c Hc Hos) as [-> Hb]. cbn [res_bind]. fold now in Hb |- *.
  assert (exists g1 a1, (if is_after now next then
      let! ga := eval_time now g a in
      let '(g, a) := ga in let! a := apic_update_timeout now a in Ok (g, a)
    else Ok (g, a)) = Ok (E:=E) (g1, a1) /\ keeps now [] g a g1 a1 /\ same_core a a1)
    as (g1 & a1 & -> & HK & HS).
  { destruct (is_after now next); [|exists g, a; auto using keeps_refl, same_core_refl].
    destruct (eval_time_keeps (E:=E) now g a Hb Hg Ha) as (g1 & b & -> & HK). cbn [res_bind].
    pose proof HK as [[HG HA _ _ _] _].
    destruct (update_timeout_keeps (E:=E) now g1 _ Hb HG HA) as (o & -> & HK' & _). cbn [res_bind].
    do 2 eexists. split; [reflexivity|]. split; [by eapply keeps_trans_nil|done]. }
  cbn [res_bind]. destruct (next_timeout a1) as [t|] eqn:Ht.
  - pose proof HK as [[HG HA _ _ _] _]. pose proof (tm_next _ _ (ap_timer _ _ _ HA) t Ht) as Htar.
    destruct (ta_set_ok (E:=E) t c Hc Htar) as (c' & -> & Hc' & HR & (u & Hu & Hle) & _). cbn [res_bind].
    exists c', g1, a1. rewrite Ht. split; [done|]. split; [done|]. split; [done|]. split; [done|].
    split; [done|]. intros ? [= <-]. eauto.
  - exists c, g1, a1. rewrite Ht. done.
Qed.

(** [scan] of an enabled APIC; with [f], everything requested is in the IRR. *)
Lemma scan_keeps {E} os f (c : C) g a :
  ta_inv c -> 0 <= os < 2 ^ 62 -> global_ok g -> apic_ok (ta_reading c os) g a ->
  hardware_enabled a = true ->
  exists c' g' a' r, scan os f c g a = Ok (E:=E) (c', g', a', r) /\ ta_inv c' /\
    ta_reading c' = ta_reading c /\ keeps (ta_reading c os) [] g a g' a' /\
    isr a' = isr a /\ is_offloaded a' = is_offloaded a /\ svr a' = svr a /\ apic_base a' = apic_base a /\
    w_interrupt r = (if is_offloaded a then None else next_irr a') /\
    (f = true -> forall v, vector_ok v -> staged g' (shared a') v = false /\
      (pending g a v = true -> bank_bit (irr a') v = true)) /\
    scan_irr a' = false /\
    (forall t, next_timeout a' = Some t -> exists u, ta_timeout c' = Some u /\ u <= t).
Proof.
  intros Hc Hos Hg Ha Hhw. unfold scan. rewrite Hhw. cbn [negb].
  destruct (scan_timer_keeps (E:=E) os c g a Hc Hos Hg Ha)
    as (c1 & g1 & a1 & -> & Hc1 & HR1 & HK1 & HS1 & HT1). cbn [res_bind].
  pose proof HK1 as [[HG1 HA1 _ _ _] _].
  destruct (flush_keeps (E:=E) _ g1 a1 HG1 HA1) as (g2 & a2 & r & -> & HK2 & [st HS2] & HN & _).
  cbn [res_bind]. pose proof HK2 as [[HG2 HA2 _ _ _] _]. destruct (ap_shared _ _ _ HA2) as [s2 Hs2].
  pose proof (keeps_trans_nil _ _ _ _ _ _ _ _ HK1 HK2) as HK12.
  assert (isr a2 = isr a /\ is_offloaded a2 = is_offloaded a /\ svr a2 = svr a /\ apic_base a2 = apic_base a /\
    next_timeout a2 = next_timeout a1) as (I2 & O2 & V2 & B2 & T2).
  { rewrite HS2. destruct HS1. done. }
  destruct (f || scan_irr a2) eqn:Hf.
  - destruct (pull_irr_keeps (E:=E) _ g2 a2 s2 HG2 HA2 Hs2) as (a3 & -> & HK3 & PE & Hs3). cbn [res_bind].
    pose proof PE as [(I & T & A & n & o & b & Heq) _ PI _ _ _].
    assert (isr a3 = isr a /\ is_offloaded a3 = is_offloaded a /\ svr a3 = svr a /\ apic_base a3 = apic_base a /\
      next_timeout a3 = next_timeout a1) as (I3 & O3 & V3 & B3 & T3) by (rewrite Heq; done).
    do 4 eexists. split; [reflexivity|]. split; [done|]. split; [done|].
    split; [by eapply keeps_trans_nil|]. rewrite I3, O3, V3, B3, T3. split_and!; try done; [| |by rewrite Heq].
    + destruct (is_offloaded a); [done|reflexivity].
    + intros _ v Hv. unfold staged. rewrite Hs3. split.
      * change (bank_bit zero_banks v = false). by apply bank_bit_zero.
      * intros Hp. apply (kp_pending _ _ _ _ _ (proj2 HK12)) in Hp; [|done].
        unfold pending, staged in Hp. rewrite Hs2 in Hp. rewrite PI by done.
        apply orb_true_iff in Hp as [->| ->]; [apply orb_true_r|done].
  - apply orb_false_iff in Hf as [-> Hfl]. cbn [res_bind]. do 4 eexists. split; [reflexivity|].
    split; [done|]. split; [done|]. split; [done|]. rewrite I2, O2, V2, B2, T2. split_and!; try done.
    destruct (is_offloaded a); [done|reflexivity].
Qed.

End Scan.

(** * Acknowledging *)

Lemma next_irr_spec a v :
  core_ok a -> is_offloaded a = false -> next_irr a = Some v ->
  next_irr_cache a = Some v /\ is_highest (irr a) (Some v) /\ 16 <= v < 256 /\
  Forall (fun w => priority w < priority v) (isr a) /\ software_enabled a = true.
Proof.
  intros Hc Ho Hn. unfold next_irr in Hn. destruct (software_enabled a); [|done]. cbn [negb] in Hn.
  pose proof (core_cache _ Hc Ho) as Hh. destruct (next_irr_cache a) as [u|]; [|done].
  destruct (_ <? priority u) eqn:Hp; [|done]. injection Hn as ->. apply Z.ltb_lt in Hp.
  split; [done|]. split; [done|]. destruct Hh as (Hv & _ & _). unfold vector_ok in Hv.
  pose proof (core_isr _ Hc) as Hst. destruct (isr a) as [|w s _] using rev_ind.
  - cbn in Hp. split; [|done]. rewrite priority_div in Hp. div_lia.
  - rewrite isr_top_snoc in Hp. pose proof (stack_top _ _ Hst) as Ht.
    pose proof (stack_vectors _ Hst) as Hw. apply Forall_app in Hw as [_ Hw]. apply Forall_inv in Hw.
    split; [rewrite !priority_div in Hp; div_lia|]. split; [|done].
    apply Forall_app. split; [|by constructor]. apply (List.Forall_impl _ (P:=fun x => priority x < priority w)); [|done].
    intros x Hx. cbn in *. lia.
Qed.

(** Acknowledging the pending interrupt [v] moves it from the IRR to the ISR,
    unless it is completed automatically. *)
Lemma acknowledge_ok {E} now g a v :
  global_ok g -> apic_ok now g a -> is_offloaded a = false -> next_irr a = Some v ->
  exists a', acknowledge_interrupt v a = Ok (E:=E) a' /\ ok_step now [] g a g a' /\
    (forall w, vector_ok w -> bank_bit (irr a') w = negb (v =? w) && bank_bit (irr a) w) /\
    isr a' = (if bank_bit (auto_eoi a) v then isr a else isr a ++ [v]) /\
    tmr a' = tmr a /\ scan_irr a' = scan_irr a /\ software_enabled a' = software_enabled a /\
    is_offloaded a' = false /\ hardware_enabled a' = hardware_enabled a.
Proof.
  intros Hg Ha Ho Hn. destruct (next_irr_spec a v (ap_core _ _ _ Ha) Ho Hn) as (Hcache & Hh & Hr & Hp & _).
  destruct (ap_core _ _ _ Ha) as [C1 C2 C3 C4 _]. assert (vector_ok v) as Hv by (unfold vector_ok; lia).
  unfold acknowledge_interrupt. rewrite Ho, Hcache. cbn [negb].
  rewrite bool_decide_eq_true_2 by done. cbn [bank_mask].
  pose proof (bank_word (irr a) (Z.to_nat (v / 32)) C2) as Hu.
  set (I := alter _ _ (irr a)).
  pose proof (banks_alter_insert (irr a) v (fun b => Z.land b (unot 32 (2 ^ (v mod 32)))) C2 Hv) as HI.
  fold I in HI.
  assert (banks_ok I) as HB by (rewrite HI; apply banks_insert; auto with word).
  destruct (recompute_form (a <| irr := I |>)) as (o & b & -> & Hhigh).
  set (a1 := a <| irr := I |> <| next_irr_cache := o |> <| active_auto_eoi := b |>).
  change (auto_eoi a1) with (auto_eoi a). change (isr a1) with (isr a). rewrite bank_test.
  assert (exists a2 s, (if negb (bank_bit (auto_eoi a) v) then let! s := isr_push v (isr a) in
      Ok (a1 <| isr := s |>) else Ok a1) = Ok (E:=E) a2 /\ a2 = a1 <| isr := s |> /\ stack_ok s /\
      s = if bank_bit (auto_eoi a) v then isr a else isr a ++ [v]) as (a2 & s & -> & -> & Hs & Es).
  { destruct (bank_bit (auto_eoi a) v); cbn [negb].
    - exists a1, (isr a). split; [done|]. split; [by subst a1; destruct a|done].
    - destruct (isr_push_ok (E:=E) (isr a) v C1 Hr Hp) as [-> Hst]. cbn [res_bind].
      by exists (a1 <| isr := isr a ++ [v] |>), (isr a ++ [v]). }
  cbn [res_bind]. eexists. split; [reflexivity|]. split.
  - split; [done| |done|done|apply frame_refl]. destruct Ha as [_ A2 A3 A4 (slot & Hsl & Hmi) A6].
    split; try done; [split; try done; intros _; by apply Hhigh|by destruct A2; split|].
    exists slot. split; [done|]. destruct Hmi. by split.
  - split; [|split; [exact Es|done]]. intros w Hw. change (bank_bit I w = negb (v =? w) && bank_bit (irr a) w).
    rewrite HI. by apply bank_bit_clear.
Qed.

(** * Offloading *)

Lemma enable_offload_keeps now g a :
  global_ok g -> apic_ok now g a -> keeps now [] g a g (enable_offload a).
Proof. intros Hg Ha. apply keeps_local; regs. Qed.

(** A push hands over the vectors requested and in service. *)
Lemma push_to_offload_ok now g a :
  global_ok g -> apic_ok now g a ->
  push_to_offload a = Err mkOffloadNotSupported \/
  exists a' u, push_to_offload a = Ok (a', u) /\ ok_step now [] g a g a' /\ scan_irr a' = scan_irr a /\
    match u with
    | None => a' = a
    | Some (i, s, t) => i = irr a /\ s = isr_to_bits (isr a) /\ t = tmr a /\ banks_ok i /\ banks_ok s
    end.
Proof.
  intros Hg Ha. unfold push_to_offload.
  destruct (needs_offload_reeval a && is_offloaded a && software_enabled a) eqn:Hc.
  2: { right. exists a, None. split; [done|]. split; [by apply ok_refl|done]. }
  destruct (active_auto_eoi a); [by left|]. right. apply andb_true_iff in Hc as [Hc _].
  apply andb_true_iff in Hc as [_ Ho]. do 2 eexists. split; [reflexivity|].
  destruct (ap_core _ _ _ Ha) as [C1 C2 C3 C4 _]. split; [|split; [done|]].
  - split; [done| |done|done|apply frame_refl]. destruct Ha as [_ A2 A3 A4 (slot & Hsl & Hmi) A6].
    split; try done; [|by destruct A2; split|exists slot; split; [done|by destruct Hmi; split]].
    split; try done; [apply stack_nil|apply zero_banks_ok|].
    intros Hf. change (is_offloaded a = false) in Hf. congruence.
  - split_and!; [done..|]. by apply isr_to_bits_ok, stack_vector_ok.
Qed.

Lemma disable_offload_keeps {E} now g a irr' isr' :
  global_ok g -> apic_ok now g a -> is_offloaded a = true -> banks_ok irr' -> banks_ok isr' ->
  exists a', disable_offload irr' isr' a = Ok (E:=E) a' /\ keeps now [] g a g a'.
Proof.
  intros Hg Ha Ho Hi Hs. unfold disable_offload.
  destruct (accumulate_keeps (E:=E) now g a irr' isr' Hg Ha Ho Hi Hs) as (a1 & -> & HK & Hh & _).
  cbn [res_bind]. eexists. split; [reflexivity|]. eapply keeps_trans_nil; [exact HK|].
  destruct HK as [[HG HA _ _ _] _]. apply keeps_local; regs.
Qed.

Lemma request_fixed_keeps now g a new :
  global_ok g -> apic_ok now g a -> banks_ok new -> keeps now [] g a g (request_fixed_interrupts new a).
Proof.
  intros Hg Ha Hn. unfold request_fixed_interrupts.
  destruct (hardware_enabled a && software_enabled a); [|by apply keeps_refl].
  destruct (ap_core _ _ _ Ha) as [C1 C2 C3 C4 _].
  set (new' := alter _ _ new). assert (banks_ok new') as Hn' by (apply banks_alter; auto with word).
  assert (banks_ok (zip_with Z.lor (irr a) new')) as HI by (apply banks_zip; auto with word).
  match goal with |- context [recompute_next_irr ?z] => set (a1 := z) end.
  destruct (recompute_form a1) as (o & b & -> & Hh). apply keeps_local; try regs.
  - split; try done; [apply banks_zip; auto with word..|]. intros _. by apply Hh.
  - intros v Hv Hb. change (bank_bit (zip_with Z.lor (irr a) new') v = true).
    rewrite (bank_bit_zip Z.lor orb) by (done || apply Z.lor_spec). by rewrite Hb.
Qed.

(** * Resetting, saving and restoring *)

Lemma reset_ok {E} now g a :
  global_ok g -> apic_ok now g a -> is_offloaded a = false ->
  exists g' a', reset g a = Ok (E:=E) (g', a') /\ ok_step now [] g a g' a' /\
    (forall v, vector_ok v -> pending g' a' v = false) /\ isr a' = [] /\ hardware_enabled a' = true /\
    x2apic_enabled a' = false /\ is_offloaded a' = false.
Proof.
  intros Hg Ha Ho. unfold reset. rewrite Ho. cbn [negb].
  destruct (ap_shared _ _ _ Ha) as [s Hs]. unfold get_shared at 1, unwrap at 1. rewrite Hs. cbn [res_bind].
  set (base := with_bit 11 true _). set (a1 := a <| apic_base := base |>).
  assert (base_enable base = true /\ base_x2apic base = false) as [Hb1 Hb2].
  { unfold base. destruct (vp_index s =? 0); by vm_compute. }
  (* the slot still mirrors the old base register *)
  assert (exists g' a', reset_registers g a1 = Ok (E:=E) (g', a') /\ ok_step now [] g a g' a' /\
    shareds g' = shareds g /\ irr a' = zero_banks /\ isr a' = [] /\ apic_base a' = base /\
    is_offloaded a' = false) as (g' & a' & -> & HO & Har & HI & HIs & HB & HF).
  { unfold reset_registers, get_shared, unwrap. change (shared a1) with (shared a). rewrite Hs. cbn [res_bind].
    match goal with |- context [update_slot g ?z] => set (a2 := z) end.
    destruct (update_slot_ok (E:=E) now g a a2) as (g' & a' & HU & HO & Har & ->); try done.
    - split; try done; [apply stack_nil|apply zero_banks_ok..|intros _; apply zero_highest].
    - split; [by auto with word|done|apply Ha|done].
    - exists g'. eexists. split; [exact HU|]. done. }
  cbn [res_bind]. pose proof HO as [HG HA _ HS _]. unfold get_shared, unwrap.
  rewrite Har, HS, Hs. cbn [res_bind].
  destruct (own_step now g' a' a' s (s <| work := 0 |> <| new_irr := zero_banks |>)) as [HO' Hs'];
    try regs; [by rewrite Har, HS|..].
  { destruct (Forall_lookup_1 _ _ _ _ (g_ok_shared _ Hg) Hs). split; [done|apply zero_banks_ok|done]. }
  do 2 eexists. split; [reflexivity|]. split; [by apply (ok_trans _ [] [] g a g' a')|].
  split; [|unfold hardware_enabled, x2apic_enabled; by rewrite HB, HIs, HF].
  intros v Hv. unfold pending, staged. rewrite Hs', HI.
  change (bank_bit zero_banks v || bank_bit zero_banks v = false). by rewrite !bank_bit_zero.
Qed.

(** [APIC::save] returns registers that hold every request. *)
Lemma save_keeps {E} now g a :
  global_ok g -> apic_ok now g a -> is_offloaded a = false ->
  exists g' a' st, save g a = Ok (E:=E) (g', a', st) /\ keeps now [] g a g' a'.
Proof.
  intros Hg Ha Ho. unfold save. rewrite Ho. cbn [negb]. destruct (ap_shared _ _ _ Ha) as [s Hs].
  destruct (pull_irr_keeps (E:=E) now g a s Hg Ha Hs) as (a' & -> & HK & _). cbn [res_bind].
  do 3 eexists. split; [reflexivity|done].
Qed.

(** A saved state that fits the APIC it is restored to. *)
Record saved_ok (st : SavedApic) (a : LocalApic) : Prop := {
  sv_isr : banks_ok (r_isr (s_registers st));
  sv_irr : banks_ok (r_irr (s_registers st));
  sv_tmr : banks_ok (r_tmr (s_registers st));
  sv_auto : banks_ok (s_auto_eoi st);
  sv_dfr : dfr_valid (r_dfr (s_registers st)) = true;
  sv_icr : is_u 32 (r_timer_icr (s_registers st));
  sv_ccr : timer_ccr a <= r_timer_icr (s_registers st);
  sv_id : (if base_x2apic (s_apic_base st) then r_id (s_registers st)
           else Z.shiftr (r_id (s_registers st)) 24) = id a;
}.

Lemma restore_apic_ok now g a st :
  global_ok g -> apic_ok now g a -> is_offloaded a = false -> saved_ok st a ->
  (exists e, restore st g a = Err e) \/
  exists g' a', restore st g a = Ok (g', a') /\ ok_step now [] g a g' a' /\ shareds g' = shareds g.
Proof.
  intros Hg Ha Ho [S1 S2 S3 S4 S5 S6 S7 S8]. unfold restore. rewrite Ho. cbn [negb].
  destruct (set_apic_base_ok now g a (s_apic_base st) Hg Ha)
    as [[e ->]|(g1 & a1 & -> & HO & _ & HF & _ & HX & Har & _ & HC)]; [left; by exists e|]. right. cbn [res_bind].
  destruct (negb (hardware_enabled a1)); [by exists g1, a1|].
  pose proof HO as [HG HA Hi HS _]. rewrite HX, S8.
  match goal with |- context [if negb (x2apic_enabled ?z) then _ else ?w] => set (b1 := z); set (b2 := w) end.
  destruct (cluster_mode_valid (E:=InvalidApicBase) _ S5) as [c ->]. cbn [res_bind].
  match goal with |- context [recompute_next_irr ?z] => set (b3 := z) end.
  destruct (recompute_form b3) as (o & b & -> & Hh).
  destruct (isr_load_from_bits_ok (E:=InvalidApicBase) _ S1) as (s & -> & Hst & _). cbn [res_bind].
  match goal with |- context [update_slot g1 ?z] => set (a2 := z) end.
  assert (irr b3 = r_irr (s_registers st) /\ tmr b3 = r_tmr (s_registers st) /\
    auto_eoi b3 = s_auto_eoi st /\ shared b3 = shared a1 /\ id b3 = id a /\ last_time b3 = last_time a1 /\
    timer_ccr b3 = timer_ccr a1 /\ next_timeout b3 = next_timeout a1) as (E1 & E2 & E3 & E4 & E5 & E6 & E7 & E8).
  { subst b3 b2 b1. by destruct (negb _). }
  destruct (ap_timer _ _ _ HA) as [T1 T2 T3 T4].
  destruct (update_slot_ok (E:=InvalidApicBase) now g1 a1 a2) as (g' & a' & HU & HO' & Har' & _).
  - done.
  - done.
  - split; [done|change (banks_ok (irr b3)); by rewrite E1|change (banks_ok (tmr b3)); by rewrite E2
      |change (banks_ok (auto_eoi b3)); by rewrite E3|].
    intros _. apply Hh. by rewrite E1.
  - split; [exact S6| | |].
    + change (0 <= timer_ccr b3 <= r_timer_icr (s_registers st)). rewrite E7.
      unfold is_u in S6. destruct (disables (s_apic_base st) a); lia.
    + change (0 <= last_time b3 <= now). by rewrite E6.
    + change (forall t, next_timeout b3 = Some t -> target_ok t). by rewrite E8.
  - done.
  - change (id b3 = id a1). congruence.
  - exact E4.
  - rewrite HU. cbn [res_bind]. do 2 eexists. split; [reflexivity|]. split; [|congruence].
    apply (ok_trans _ [] [] g a g1 a1); [done|]. apply (ok_trans _ [] [] g1 a1 g' a'); [done|].
    destruct HO' as [P1 P2 _ _ _]. clear HU. clearbody a2. apply keeps_local; regs.
Qed.
