(* ===== verification/LocalApicSystem.v ===== *)
(** The local APICs of a VM together ([vmm_core/virt_support_apic/src/lib.rs]).

    A [System] is the set of APICs and its processors. A processor has its
    APIC, the registers its client keeps, the flag that a wake sets and the
    next scan consumes, its offloaded registers and its accessor to VM time.
    [exec] runs one operation of a device, of the guest on one processor, or of
    the code that runs a processor. *)

From stdpp Require Import sets.
From S2P Require Import Prelude ChipsetDevice VmTime VmTimeSpec LocalApic ApicBanks LocalApicSpec.
From S2P Require Import LocalApicOps LocalApicScan.

(** What the guest or the code that runs a processor does to its APIC. *)
Inductive GuestAccess : Type :=
| MmioRead (address : Z) (len : nat)
| MmioWrite (address : Z) (data : list Z)
| MsrRead (msr : Z)
| MsrWrite (msr value : Z)
| LazyEoi
| GetPpr.

Definition run_access (acc : GuestAccess) (x : Access) : res void Access :=
  match acc with
  | MmioRead address len => let! r := mmio_read address len x in Ok (fst r)
  | MmioWrite address data => mmio_write address data x
  | MsrRead msr => let! r := msr_read msr x in Ok (fst r)
  | MsrWrite msr value => let! r := msr_write msr value x in Ok (fst r)
  | LazyEoi => lazy_eoi x
  | GetPpr => let! r := get_ppr x in Ok (fst r)
  end.

(** Data are bytes, values are words; a lazy end of interrupt, which the code
    that runs the processor asks for, is one that is pending. *)
Definition access_typed (acc : GuestAccess) (a : LocalApic) : Prop :=
  match acc with
  | MmioWrite address data => Forall (is_u 8) data
  | MsrWrite _ value => 0 <= value
  | LazyEoi => is_lazy_eoi_pending a = true
  | _ => True
  end.

(** A write to the destination format register, by an APIC in xAPIC mode, of a
    value that is neither of the two formats. *)
Definition unknown_format (acc : GuestAccess) (a : LocalApic) : bool :=
  match acc with
  | MmioWrite address data =>
      xapic_enabled a && is_valid_apic_access address && (mmio_register address =? ApicRegister.DFR) &&
      negb (dfr_valid (mmio_value address data))
  | _ => false
  end.

Definition access_valid (acc : GuestAccess) (a : LocalApic) : Prop := access_typed acc a /\ unknown_format acc a = false.

Definition access_disables (acc : GuestAccess) (a : LocalApic) : bool :=
  match acc with MsrWrite msr value => msr_disables msr value a | _ => false end.

Lemma run_access_runs acc x :
  access_ok x -> access_valid acc (apic x) ->
  runs (negb (access_disables acc (apic x))) (fun x => x) x (run_access acc x).
Proof.
  intros Hx [Hv Hf]. destruct acc; cbn [run_access access_typed unknown_format access_disables negb] in *.
  - destruct (mmio_read_runs (E:=void) true address len x Hx) as (r & -> & Hr). by apply runs_ret.
  - destruct (xapic_enabled (apic x) && is_valid_apic_access address) eqn:Ex.
    + apply mmio_write_runs; [done..|]. intros Hr%Z.eqb_eq. rewrite Hr in Hf. by destruct (dfr_valid _).
    + unfold mmio_write. rewrite <-negb_andb, Ex. by apply runs_ret, advances_refl.
  - destruct (msr_read_runs (E:=void) true msr x Hx) as (r & -> & Hr). by apply runs_ret.
  - destruct (msr_write_runs (E:=void) msr value x Hx Hv) as (r & -> & Hr). by apply runs_ret.
  - by apply lazy_eoi_runs.
  - destruct (get_ppr_runs (E:=void) true x Hx) as (r & -> & Hr). by apply runs_ret.
Qed.

(** Such a write stops the VMM. *)
Lemma unknown_format_panics acc x : unknown_format acc (apic x) = true -> run_access acc x = Panic.
Proof.
  destruct acc as [|address data| | | |]; try done. cbn [unknown_format run_access].
  intros [[[Hxa Hva]%andb_prop Hr%Z.eqb_eq]%andb_prop Hv%negb_true_iff]%andb_prop.
  unfold mmio_write. rewrite Hxa, Hva. cbn [negb orb]. fold (mmio_value address data) (mmio_register address). rewrite Hr.
  unfold write_register. cbn [Z.eqb Pos.eqb ApicRegister.DFR ApicRegister.TPR ApicRegister.EOI ApicRegister.LDR].
  unfold xapic_enabled in Hxa. apply andb_true_iff in Hxa as [_ ->%negb_true_iff]. cbn [negb andb].
  unfold cluster_mode. unfold dfr_valid in Hv. apply orb_false_iff in Hv as [H1 H2]. cbn [Z.eqb Pos.eqb]. by rewrite H1, H2.
Qed.

Section System.

Context {C : Type} `{Laws : TimeAccessLaws C}.

Record Vp : Type := mkVp {
  vp_apic : LocalApic;
  vp_cr8 : Z;
  vp_base : Z;
  vp_flag : bool;
  vp_page : list Z * list Z;
  vp_time : C;
}.

#[global] Instance Vp_settable : Settable Vp := fun v =>
  mkVp (vp_apic v) (vp_cr8 v) (vp_base v) (vp_flag v) (vp_page v) (vp_time v).

Record System : Type := mkSystem {
  sys_global : GlobalState;
  sys_vps : list Vp;
  sys_eois : list Z;
  sys_now : Z;
}.

#[global] Instance System_settable : Settable System := fun s =>
  mkSystem (sys_global s) (sys_vps s) (sys_eois s) (sys_now s).

Inductive ApicOp : Type :=
| OpAdd (apic_id : Z) (software_enabled_on_reset : bool) (c : C)
| OpMsi (address data : Z)
| OpLint (vp : Z) (lint_index : Z)
| OpSynic (vp v : Z) (auto_eoi : bool)
| OpAccess (i : nat) (now : Z) (acc : GuestAccess)
| OpScan (i : nat) (os : Z)
| OpAck (i : nat) (v : Z)
| OpPush (i : nat)
| OpEnable (i : nat)
| OpDisable (i : nat)
| OpHardware (i : nat) (page : list Z * list Z)
| OpFixed (i : nat) (new : list Z)
| OpReset (i : nat)
| OpSave (i : nat)
| OpRestore (i : nat) (st : SavedApic)
| OpTime (i : nat) (c : C).

(** The wakes of the processors [w]. *)
Definition mark (w : list Z) (vps : list Vp) : list Vp :=
  imap (fun i vp => vp <| vp_flag := vp_flag vp || bool_decide (Z.of_nat i ∈ w) |>) vps.

(** The new state of processor [i] and of the set, and the processors woken. *)
Definition commit (i : nat) (g : GlobalState) (vp : Vp) (w : list Z) (sys : System) : System :=
  sys <| sys_global := g |> <| sys_vps := mark w (<[i := vp]> (sys_vps sys)) |>.

Definition on_vp (i : nat) (sys : System) (f : Vp -> res void System) : res void System :=
  match sys_vps sys !! i with Some vp => f vp | None => Panic end.

Definition exec_access (i : nat) (now : Z) (acc : GuestAccess) (sys : System) : res void System :=
  on_vp i sys (fun vp =>
    let c := mkClient (vp_cr8 vp) (vp_base vp) now [] [] (vp_page vp) in
    let! x := run_access acc (mkAccess (sys_global sys) (vp_apic vp) c) in
    let c := client x in
    let vp := vp <| vp_apic := apic x |> <| vp_cr8 := cl_cr8 c |> <| vp_base := cl_apic_base c |>
      <| vp_page := cl_offload c |> in
    Ok (commit i (global x) vp (cl_wakes c) sys <| sys_eois := sys_eois sys ++ cl_eois c |>
          <| sys_now := now |>)).

(** A scan, with what it found. *)
Definition exec_scan (i : nat) (os : Z) (sys : System) : res void (System * ApicWork) :=
  match sys_vps sys !! i with
  | Some vp =>
      let! r := scan os (vp_flag vp) (vp_time vp) (sys_global sys) (vp_apic vp) in
      let '(c, g, a, w) := r in
      Ok (commit i g (vp <| vp_apic := a |> <| vp_time := c |> <| vp_flag := false |>) [] sys
            <| sys_now := ta_reading (vp_time vp) os |>, w)
  | None => Panic
  end.

Definition exec_push (i : nat) (sys : System) : res void System :=
  on_vp i sys (fun vp =>
    match push_to_offload (vp_apic vp) with
    | Ok (a, Some (irr', isr', _)) =>
        let page := (zip_with Z.lor (fst (vp_page vp)) irr', zip_with Z.lor (snd (vp_page vp)) isr') in
        Ok (commit i (sys_global sys) (vp <| vp_apic := a |> <| vp_page := page |>) [] sys)
    | Ok (a, None) => Ok (commit i (sys_global sys) (vp <| vp_apic := a |>) [] sys)
    | Err _ => Ok sys
    | Panic => Panic
    end).

(** Requests from outside: the set and the processors woken. *)
Definition exec_request (r : GlobalState * list Z) (sys : System) : System :=
  sys <| sys_global := fst r |> <| sys_vps := mark (snd r) (sys_vps sys) |>.

Definition exec (op : ApicOp) (sys : System) : res void System :=
  let g := sys_global sys in
  let put i g vp a := Ok (commit i g (vp <| vp_apic := a |>) [] sys) in
  match op with
  | OpAdd apic_id sw c =>
      let! ga := add_apic (Z.of_nat (length (sys_vps sys))) apic_id sw g in
      let '(g, a) := ga in
      let vp := mkVp a 0 (apic_base a) false (zero_banks, zero_banks) c in
      Ok (sys <| sys_global := g |> <| sys_vps := sys_vps sys ++ [vp] |>)
  | OpMsi address data => Ok (exec_request (request_interrupt address data g) sys)
  | OpLint vp index => let! r := lint vp index g in Ok (exec_request r sys)
  | OpSynic vp v auto => Ok (exec_request (synic_interrupt vp v auto g) sys)
  | OpAccess i now acc => exec_access i now acc sys
  | OpScan i os => let! r := exec_scan i os sys in Ok (fst r)
  | OpAck i v =>
      on_vp i sys (fun vp => let! a := acknowledge_interrupt v (vp_apic vp) in put i g vp a)
  | OpPush i => exec_push i sys
  | OpEnable i => on_vp i sys (fun vp => put i g vp (enable_offload (vp_apic vp)))
  | OpDisable i =>
      on_vp i sys (fun vp =>
        let! a := disable_offload (fst (vp_page vp)) (snd (vp_page vp)) (vp_apic vp) in
        Ok (commit i g (vp <| vp_apic := a |> <| vp_page := (zero_banks, zero_banks) |>) [] sys))
  | OpHardware i page => on_vp i sys (fun vp => Ok (commit i g (vp <| vp_page := page |>) [] sys))
  | OpFixed i new => on_vp i sys (fun vp => put i g vp (request_fixed_interrupts new (vp_apic vp)))
  | OpReset i =>
      on_vp i sys (fun vp => let! ga := reset g (vp_apic vp) in put i (fst ga) vp (snd ga))
  | OpSave i =>
      on_vp i sys (fun vp => let! r := save g (vp_apic vp) in put i (fst (fst r)) vp (snd (fst r)))
  | OpRestore i st =>
      on_vp i sys (fun vp =>
        match restore st g (vp_apic vp) with
        | Ok (g, a) => put i g vp a
        | Err _ => Ok sys
        | Panic => Panic
        end)
  | OpTime i c => on_vp i sys (fun vp => Ok (commit i g (vp <| vp_time := c |>) [] sys))
  end.

Fixpoint exec_all (ops : list ApicOp) (sys : System) : res void System :=
  match ops with
  | [] => Ok sys
  | op :: ops => let! sys := exec op sys in exec_all ops sys
  end.

Definition vp_at (sys : System) (i : nat) (P : Vp -> Prop) : Prop :=
  exists vp, sys_vps sys !! i = Some vp /\ P vp.

(** What each operation requires. Time does not go back; an acknowledged
    interrupt is the one the APIC reports; an APIC is reset, saved and restored
    when it is not offloaded; a state is restored to the APIC it fits. *)
Definition op_when (valid : GuestAccess -> LocalApic -> Prop) (op : ApicOp) (sys : System) : Prop :=
  match op with
  | OpAdd apic_id _ c =>
      0 <= apic_id < 2 ^ 32 /\ ta_inv c /\
      (forall slot, by_apic_id (sys_global sys) !! Z.to_nat apic_id = Some slot -> slot_shared slot = None)
  | OpMsi _ _ | OpSynic _ _ _ => True
  | OpLint _ index => 0 <= index < 2
  | OpAccess i now acc => vp_at sys i (fun vp =>
      valid acc (vp_apic vp) /\ now_ok now /\ sys_now sys <= now)
  | OpScan i os => vp_at sys i (fun vp => 0 <= os < 2 ^ 62 /\ sys_now sys <= ta_reading (vp_time vp) os)
  | OpAck i v => vp_at sys i (fun vp => is_offloaded (vp_apic vp) = false /\ next_irr (vp_apic vp) = Some v)
  | OpPush i | OpEnable i => vp_at sys i (fun _ => True)
  | OpDisable i => vp_at sys i (fun vp => is_offloaded (vp_apic vp) = true)
  | OpHardware i page => vp_at sys i (fun _ => banks_ok (fst page) /\ banks_ok (snd page))
  | OpFixed i new => vp_at sys i (fun _ => banks_ok new)
  | OpReset i | OpSave i => vp_at sys i (fun vp => is_offloaded (vp_apic vp) = false)
  | OpRestore i st => vp_at sys i (fun vp => is_offloaded (vp_apic vp) = false /\ saved_ok st (vp_apic vp))
  | OpTime i c => vp_at sys i (fun _ => ta_inv c)
  end.

(** Any access of the guest. *)
Definition op_typed : ApicOp -> System -> Prop := op_when access_typed.

Definition op_ok : ApicOp -> System -> Prop := op_when access_valid.

(** The operation is a guest's write of an unknown destination format. *)
Definition op_stops (op : ApicOp) (sys : System) : bool :=
  match op with
  | OpAccess i _ acc => match sys_vps sys !! i with Some vp => unknown_format acc (vp_apic vp) | None => false end
  | _ => false
  end.

Lemma op_ok_typed op sys : op_ok op sys <-> op_typed op sys /\ op_stops op sys = false.
Proof.
  destruct op; try (split; [by intros ?; split|by intros [? _]]). cbn [op_ok op_typed op_when op_stops]. split.
  - intros (vp & Hvp & [Ht Hf] & Hn). rewrite Hvp. split; [|done]. by exists vp.
  - intros [(vp & Hvp & Ht & Hn) Hf]. rewrite Hvp in Hf. by exists vp.
Qed.

Lemma op_stops_panics op sys : op_stops op sys = true -> exec op sys = Panic.
Proof.
  destruct op; try done. cbn [op_stops exec]. unfold exec_access, on_vp. destruct (sys_vps sys !! i) as [vp|]; [|done].
  intros Hf. by rewrite unknown_format_panics.
Qed.

Lemma op_typed_ok op sys sys' : op_typed op sys -> exec op sys = Ok sys' -> op_ok op sys.
Proof.
  intros Ht He. apply op_ok_typed. split; [done|]. destruct (op_stops op sys) eqn:Hs; [|done]. by rewrite op_stops_panics in He.
Qed.

(** * The invariant *)

(** Each processor's APIC, offload page and clock are in order and its shared
    state carries its index; no two processors share an identifier or a shared
    state; and a slot is empty or a processor's. *)

Record vp_ok (g : GlobalState) (now : Z) (i : nat) (vp : Vp) : Prop := {
  vo_apic : apic_ok now g (vp_apic vp);
  vo_irr : banks_ok (fst (vp_page vp));
  vo_isr : banks_ok (snd (vp_page vp));
  vo_time : ta_inv (vp_time vp);
  vo_index : exists s, shareds g !! shared (vp_apic vp) = Some s /\ vp_index s = Z.of_nat i;
}.

Record sys_ok (sys : System) : Prop := {
  so_now : now_ok (sys_now sys);
  so_global : global_ok (sys_global sys);
  so_vps : forall i vp, sys_vps sys !! i = Some vp -> vp_ok (sys_global sys) (sys_now sys) i vp;
  so_ids : forall i j vp vp', sys_vps sys !! i = Some vp -> sys_vps sys !! j = Some vp' -> i <> j ->
    id (vp_apic vp) <> id (vp_apic vp') /\ shared (vp_apic vp) <> shared (vp_apic vp');
  so_free : forall j slot, by_apic_id (sys_global sys) !! j = Some slot -> slot_shared slot = None ->
    slot = slot_default;
  so_owned : forall j slot p, by_apic_id (sys_global sys) !! j = Some slot -> slot_shared slot = Some p ->
    exists i vp, sys_vps sys !! i = Some vp /\ Z.to_nat (id (vp_apic vp)) = j;
}.

(** [v] has been requested of processor [i] and not acknowledged. *)
Definition requested (sys : System) (i : nat) (v : Z) : Prop :=
  vp_at sys i (fun vp => pending (sys_global sys) (vp_apic vp) v = true).

(** The next scan of processor [i] reads its staged interrupts. *)
Definition scheduled (sys : System) (i : nat) : Prop :=
  forall vp, sys_vps sys !! i = Some vp -> noticed (vp_flag vp = true) (sys_global sys) (vp_apic vp).

(** The steps of the system, but for the processors that drop requests or
    lose their wake. *)
Record sys_step (drop : nat -> Z -> Prop) (strand : nat -> Prop) (sys sys' : System) : Prop := {
  ss_ok : sys_ok sys';
  ss_requested : forall j v, vector_ok v -> ~ drop j v -> requested sys j v -> requested sys' j v;
  ss_scheduled : forall j, ~ strand j -> scheduled sys j -> scheduled sys' j;
}.

Lemma apic_ok_later now now' g a : apic_ok now g a -> now <= now' -> apic_ok now' g a.
Proof. intros [A1 [T1 T2 T3 T4] A3 A4 A5 A6] Hle. split; try done. split; [done|done|lia|done]. Qed.

(** Another processor under a step of processor [i]. *)
Lemma other_apic now w i p g g' a :
  frame i (Some p) w g g' -> global_ok g -> apic_ok now g a -> 0 <= i -> id a <> i -> shared a <> p ->
  apic_ok now g' a /\
  (forall v, vector_ok v -> pending g a v = true -> pending g' a v = true) /\
  (forall s, shareds g !! shared a = Some s ->
     (exists s', shareds g' !! shared a = Some s' /\ vp_index s' = vp_index s) /\
     forall f, noticed f g a -> noticed (f \/ vp_index s ∈ w) g' a).
Proof.
  intros [_ _ _ F4 [_ F5]] Hg [A1 A2 A3 A4 (slot & Hsl & Hmi) [s Hs]] Hi Hne Hp.
  destruct (F5 _ _ Hs) as (s' & Hs' & V & _ & HC). specialize (HC ltac:(congruence)).
  pose proof (Forall_lookup_1 _ _ _ _ (g_ok_shared _ Hg) Hs) as Hok. split; [|split].
  - split; try done; [|by exists s']. exists slot. split; [|done]. rewrite F4; [done|lia].
  - intros v Hv. unfold pending, staged. rewrite Hs, Hs', !orb_true_iff.
    intros [Hb|]; [left|by right]. by apply (ce_grow _ _ _ HC).
  - rewrite Hs. intros ? [= <-]. split; [by exists s'|]. intros f Hf v Hv. unfold staged. rewrite Hs'.
    intros Hb. apply (ce_new _ _ _ HC Hok v Hv) in Hb as [Hb|]; [|auto].
    specialize (Hf v Hv). unfold staged in Hf. rewrite Hs in Hf. destruct (Hf Hb); auto.
Qed.

Lemma mark_lookup w vps i vp' :
  mark w vps !! i = Some vp' -> exists vp, vps !! i = Some vp /\
    vp' = vp <| vp_flag := vp_flag vp || bool_decide (Z.of_nat i ∈ w) |>.
Proof.
  unfold mark. rewrite list_lookup_imap. destruct (vps !! i) as [vp|]; [|done]. cbn. intros [= <-]. eauto.
Qed.

Lemma lookup_mark w vps i vp :
  vps !! i = Some vp ->
  mark w vps !! i = Some (vp <| vp_flag := vp_flag vp || bool_decide (Z.of_nat i ∈ w) |>).
Proof. unfold mark. rewrite list_lookup_imap. intros ->. done. Qed.

(** A step of processor [i], on its APIC and on the set. *)
Lemma commit_ok sys i vp g' vp' w now' :
  sys_ok sys -> sys_vps sys !! i = Some vp -> now_ok now' -> sys_now sys <= now' ->
  ok_step now' w (sys_global sys) (vp_apic vp) g' (vp_apic vp') ->
  banks_ok (fst (vp_page vp')) -> banks_ok (snd (vp_page vp')) -> ta_inv (vp_time vp') ->
  sys_ok (commit i g' vp' w sys <| sys_now := now' |>).
Proof.
  intros [S1 S2 S3 S4 S5 S6] Hvp Hn Hle HO P1 P2 PT. pose proof (S3 i vp Hvp) as [V1 V2 V3 V4 (s & Hs & Hsi)].
  pose proof HO as [O1 O2 O3 O4 O5].
  assert (forall j q, mark w (<[i := vp']> (sys_vps sys)) !! j = Some q ->
    (j = i /\ vp_apic q = vp_apic vp' /\ vp_page q = vp_page vp' /\ vp_time q = vp_time vp') \/
    (j <> i /\ exists r, sys_vps sys !! j = Some r /\ vp_apic q = vp_apic r /\ vp_page q = vp_page r /\
      vp_time q = vp_time r)) as HL.
  { intros j q (r & Hr & ->)%mark_lookup. destruct (decide (j = i)) as [->|Hne].
    - rewrite list_lookup_insert_eq in Hr by (by eapply lookup_lt_Some). injection Hr as <-. by left.
    - rewrite list_lookup_insert_ne in Hr by done. right. split; [done|]. by exists r. }
  split; [done|done| | | |].
  - intros j q [(-> & E1 & E2 & E3)|(Hne & r & Hr & E1 & E2 & E3)]%HL.
    + split; rewrite ?E1, ?E2, ?E3; try done.
      destruct (ok_own _ _ _ _ _ _ _ HO Hs) as (s' & Hs' & Vs & _). exists s'. split; [done|congruence].
    + destruct (S3 j r Hr) as [W1 W2 W3 W4 (t & Ht & Hti)].
      destruct (S4 j i r vp Hr Hvp Hne) as [N1 N2].
      destruct (other_apic now' w _ _ _ g' (vp_apic r) O5 S2 (apic_ok_later _ _ _ _ W1 Hle)
        (ap_id _ _ _ V1) N1 N2) as (HA & _ & HT).
      destruct (HT t Ht) as [(t' & Ht' & Vt) _].
      split; rewrite ?E1, ?E2, ?E3; try done. exists t'. split; [done|congruence].
  - intros j k q q' Hq Hq' Hjk.
    destruct (HL j q Hq) as [(-> & E1 & _)|(Hne & r & Hr & E1 & _)];
      destruct (HL k q' Hq') as [(-> & F1 & _)|(Hne' & r' & Hr' & F1 & _)];
      try done; rewrite E1, F1, ?O3, ?O4; eapply S4; eauto.
  - intros j slot Hj Hnone. change (by_apic_id g' !! j = Some slot) in Hj.
    destruct (decide (j = Z.to_nat (id (vp_apic vp)))) as [->|Hne].
    + destruct (ap_slot _ _ _ O2) as (slot' & Hsl & Hmi). rewrite O3 in Hsl. simplify_eq.
      rewrite (mi_shared _ _ Hmi) in Hnone. done.
    + rewrite (fr_slots _ _ _ _ _ O5) in Hj by done. by eapply S5.
  - intros j slot p Hj Hp. change (by_apic_id g' !! j = Some slot) in Hj.
    destruct (decide (j = Z.to_nat (id (vp_apic vp)))) as [->|Hne].
    + eexists i, _. split; [apply lookup_mark, list_lookup_insert_eq; by eapply lookup_lt_Some|].
      exact (f_equal Z.to_nat O3).
    + rewrite (fr_slots _ _ _ _ _ O5) in Hj by done. destruct (S6 j slot p Hj Hp) as (k & r & Hr & <-).
      eexists k, _. split; [apply lookup_mark|reflexivity]. rewrite list_lookup_insert_ne; [exact Hr|].
      intros ->. by simplify_eq.
Qed.

(** Whether processor [j], other than [i], keeps its requests. *)
Lemma commit_others sys i vp g' vp' w now' j :
  sys_ok sys -> sys_vps sys !! i = Some vp ->
  ok_step now' w (sys_global sys) (vp_apic vp) g' (vp_apic vp') -> j <> i ->
  let sys' := commit i g' vp' w sys <| sys_now := now' |> in
  (forall v, vector_ok v -> requested sys j v -> requested sys' j v) /\
  (scheduled sys j -> scheduled sys' j).
Proof.
  intros [S1 S2 S3 S4 S5 S6] Hvp HO Hne sys'. pose proof (S3 i vp Hvp) as [V1 _ _ _ _].
  assert (forall r, sys_vps sys !! j = Some r -> exists q, sys_vps sys' !! j = Some q /\
    q = r <| vp_flag := vp_flag r || bool_decide (Z.of_nat j ∈ w) |>) as HL.
  { intros r Hr. eexists. split; [|reflexivity]. apply lookup_mark. by rewrite list_lookup_insert_ne. }
  assert (forall r, sys_vps sys !! j = Some r -> exists t, shareds (sys_global sys) !! shared (vp_apic r) = Some t /\
    vp_index t = Z.of_nat j /\
    (forall v, vector_ok v -> pending (sys_global sys) (vp_apic r) v = true -> pending g' (vp_apic r) v = true) /\
    (forall f, noticed f (sys_global sys) (vp_apic r) -> noticed (f \/ vp_index t ∈ w) g' (vp_apic r))) as HO'.
  { intros r Hr. destruct (S3 j r Hr) as [W1 _ _ _ (t & Ht & Hti)]. destruct (S4 j i r vp Hr Hvp Hne) as [N1 N2].
    destruct (other_apic _ w _ _ _ g' (vp_apic r) (os_frame _ _ _ _ _ _ HO) S2 W1 (ap_id _ _ _ V1) N1 N2)
      as (_ & HP & HT). exists t. destruct (HT t Ht) as [_ HN]. done. }
  split.
  - intros v Hv (r & Hr & Hp). destruct (HL r Hr) as (q & Hq & Eq). exists q. split; [done|].
    destruct (HO' r Hr) as (t & _ & _ & HP & _). rewrite Eq. by apply HP.
  - intros Hsch q Hq. apply mark_lookup in Hq as (r & Hr & Eq). rewrite list_lookup_insert_ne in Hr by done.
    destruct (HO' r Hr) as (t & _ & Hti & _ & HN). specialize (HN _ (Hsch r Hr)).
    intros v Hv Hst. subst q. specialize (HN v Hv Hst) as [|HN]; [by left|right].
    change (vp_flag r || bool_decide (Z.of_nat j ∈ w) = true). rewrite orb_true_iff, bool_decide_eq_true.
    rewrite Hti in HN. tauto.
Qed.

Lemma commit_step (drop : Z -> Prop) (strand : Prop) sys i vp g' vp' w now' :
  sys_ok sys -> sys_vps sys !! i = Some vp -> now_ok now' -> sys_now sys <= now' ->
  ok_step now' w (sys_global sys) (vp_apic vp) g' (vp_apic vp') ->
  banks_ok (fst (vp_page vp')) -> banks_ok (snd (vp_page vp')) -> ta_inv (vp_time vp') ->
  (forall v, vector_ok v -> ~ drop v -> pending (sys_global sys) (vp_apic vp) v = true ->
    pending g' (vp_apic vp') v = true) ->
  (~ strand -> noticed (vp_flag vp = true) (sys_global sys) (vp_apic vp) ->
    noticed (vp_flag vp' = true \/ Z.of_nat i ∈ w) g' (vp_apic vp')) ->
  sys_step (fun j v => j = i /\ drop v) (fun j => j = i /\ strand) sys
    (commit i g' vp' w sys <| sys_now := now' |>).
Proof.
  intros HS Hvp Hn Hle HO P1 P2 PT HD HN. pose proof (lookup_lt_Some _ _ _ Hvp) as Hlt.
  split; [by eapply commit_ok|..].
  - intros j v Hv Hnd Hr. destruct (decide (j = i)) as [->|Hne].
    + destruct Hr as (q & Hq & Hp). simplify_eq. eexists. split.
      { apply lookup_mark. by apply list_lookup_insert_eq. }
      apply HD; [done|tauto|done].
    + by apply (commit_others sys i vp g' vp' w now' j HS Hvp HO Hne).
  - intros j Hns Hs. destruct (decide (j = i)) as [->|Hne].
    + intros q (r & Hr & ->)%mark_lookup. rewrite list_lookup_insert_eq in Hr by done. injection Hr as <-.
      intros v Hv Hst. destruct (HN ltac:(tauto) (Hs vp Hvp) v Hv Hst) as [|HF]; [by left|right].
      change (vp_flag vp' || bool_decide (Z.of_nat i ∈ w) = true). by rewrite orb_true_iff, bool_decide_eq_true.
    + by apply (commit_others sys i vp g' vp' w now' j HS Hvp HO Hne).
Qed.

(** A step that keeps the requests of the processor. *)
Lemma commit_keeps sys i vp g' vp' w now' :
  sys_ok sys -> sys_vps sys !! i = Some vp -> now_ok now' -> sys_now sys <= now' ->
  keeps now' w (sys_global sys) (vp_apic vp) g' (vp_apic vp') ->
  banks_ok (fst (vp_page vp')) -> banks_ok (snd (vp_page vp')) -> ta_inv (vp_time vp') ->
  vp_flag vp' = vp_flag vp ->
  sys_step (fun j _ => j = i /\ False) (fun j => j = i /\ False) sys (commit i g' vp' w sys <| sys_now := now' |>).
Proof.
  intros HS Hvp Hn Hle [HO [KP KN]] P1 P2 PT HF.
  apply (commit_step (fun _ => False) False sys i vp); try done; [auto|].
  intros _ Hnot. rewrite HF. destruct (vo_index _ _ _ _ (so_vps _ HS i vp Hvp)) as (s & Hs & Hi).
  rewrite <-Hi. by apply (KN s Hs).
Qed.

Lemma sys_step_weaken drop strand drop' strand' sys sys' :
  sys_step drop strand sys sys' -> (forall j v, drop j v -> drop' j v) -> (forall j, strand j -> strand' j) ->
  sys_step drop' strand' sys sys'.
Proof. intros [H1 H2 H3] Hd Hs. split; [done|..]; [intros j v ? ?|intros j ?]; [apply H2|apply H3]; eauto. Qed.

(** Requests from outside. *)
Lemma request_step sys ar w :
  sys_ok sys -> arena_step None w (shareds (sys_global sys)) ar ->
  sys_step (fun _ _ => False) (fun _ => False) sys
    (exec_request (sys_global sys <| shareds := ar |>, w) sys).
Proof.
  intros HS Har. pose proof HS as [S1 S2 S3 S4 S5 S6].
  assert (forall i vp, sys_vps sys !! i = Some vp ->
    keeps (sys_now sys) w (sys_global sys) (vp_apic vp) (sys_global sys <| shareds := ar |>) (vp_apic vp)) as HK.
  { intros i vp Hvp. apply arena_keeps; [done| |done]. by apply (S3 i vp). }
  assert (global_ok (sys_global sys <| shareds := ar |>)) as HG.
  { destruct S2 as [G1 G2 G3 G4 G5]. split; try done. by apply (arena_shared_ok w (shareds (sys_global sys))). }
  unfold exec_request. split; [split; [done|exact HG| | |exact S5|]|..].
  - intros i q (vp & Hvp & ->)%mark_lookup. destruct (S3 i vp Hvp) as [V1 V2 V3 V4 (s & Hs & Hi)].
    pose proof (HK i vp Hvp) as [HO _]. split; try done; [apply HO|].
    destruct (ok_own _ _ _ _ _ _ _ HO Hs) as (s' & Hs' & Vs & _). exists s'. split; [done|congruence].
  - intros i j q q' (vp & Hvp & ->)%mark_lookup (vp' & Hvp' & ->)%mark_lookup Hne. exact (S4 i j vp vp' Hvp Hvp' Hne).
  - intros j slot p Hj Hp. destruct (S6 j slot p Hj Hp) as (k & r & Hr & <-).
    eexists k, _. split; [apply lookup_mark, Hr|done].
  - intros j v Hv _ (vp & Hvp & Hp). eexists. split; [by apply lookup_mark|].
    by apply (kp_pending _ _ _ _ _ (proj2 (HK j vp Hvp))).
  - intros j _ Hsch q (vp & Hvp & ->)%mark_lookup v Hv Hst.
    destruct (vo_index _ _ _ _ (S3 j vp Hvp)) as (s & Hs & Hi).
    destruct (kp_noticed _ _ _ _ _ (proj2 (HK j vp Hvp)) s Hs _ (Hsch vp Hvp) v Hv Hst) as [|HF]; [by left|right].
    change (vp_flag vp || bool_decide (Z.of_nat j ∈ w) = true). rewrite orb_true_iff, bool_decide_eq_true.
    by rewrite <-Hi.
Qed.

(** * The operations *)

(** The write turns processor [i]'s APIC off. *)
Definition turns_off (i : nat) (acc : GuestAccess) (sys : System) : Prop :=
  vp_at sys i (fun vp => access_disables acc (vp_apic vp) = true).

(** The requests that an operation removes from an APIC: the one that is
    acknowledged, those handed to the hardware, and all when it is reset,
    restored or turned off. *)
Definition drops (op : ApicOp) (sys : System) (j : nat) (v : Z) : Prop :=
  match op with
  | OpAck i u => j = i /\ v = u
  | OpPush i | OpReset i | OpRestore i _ => j = i
  | OpAccess i _ acc => j = i /\ turns_off i acc sys
  | _ => False
  end.

#[global] Instance drops_decision op sys j v : Decision (drops op sys j v).
Proof.
  assert (forall i acc, Decision (turns_off i acc sys)) as Hd.
  { intros i acc. unfold turns_off, vp_at. destruct (sys_vps sys !! i) as [vp|].
    - destruct (access_disables acc (vp_apic vp)) eqn:He; [left; eauto|right].
      intros (vp' & [= <-] & Ha). congruence.
    - right. by intros (vp' & [=] & _). }
  destruct op; cbn [drops]; apply _.
Defined.

(** The operations after which staged interrupts may wait for another request:
    turning the APIC off, restoring it, and scanning it while it is off. *)
Definition strands (op : ApicOp) (sys : System) (j : nat) : Prop :=
  match op with
  | OpRestore i _ => j = i
  | OpAccess i _ acc => j = i /\ turns_off i acc sys
  | OpScan i _ => j = i /\ vp_at sys i (fun vp => hardware_enabled (vp_apic vp) = false)
  | _ => False
  end.

Lemma exec_access_step i now acc sys :
  sys_ok sys -> op_ok (OpAccess i now acc) sys ->
  exists sys', exec_access i now acc sys = Ok sys' /\
    sys_step (drops (OpAccess i now acc) sys) (strands (OpAccess i now acc) sys) sys sys'.
Proof.
  intros HS (vp & Hvp & Hv & Hn & Hle). pose proof (so_vps _ HS i vp Hvp) as [V1 V2 V3 V4 (s & Hs & Hi)].
  unfold exec_access, on_vp. rewrite Hvp. set (c := mkClient _ _ _ _ _ _).
  set (x := mkAccess (sys_global sys) (vp_apic vp) c).
  assert (access_ok x) as Hx.
  { split; [done|apply HS|by apply (apic_ok_later (sys_now sys))|done|done]. }
  destruct (run_access_runs acc x Hx Hv) as (y & -> & [Y1 Y2 (w & Y3 & Y4 & Y5)]). cbn [res_bind].
  change (apic x) with (vp_apic vp) in *. change (global x) with (sys_global sys) in *.
  change (cl_now (client x)) with now in *. change (cl_wakes (client y) = w) in Y3. rewrite Y3.
  set (vp' := vp <| vp_apic := _ |> <| vp_cr8 := _ |> <| vp_base := _ |> <| vp_page := _ |>).
  eexists. split; [reflexivity|].
  assert (sys_step (fun j _ => j = i /\ access_disables acc (vp_apic vp) = true)
    (fun j => j = i /\ access_disables acc (vp_apic vp) = true) sys
    (commit i (global y) vp' w sys <| sys_now := now |>)) as [H1 H2 H3].
  { apply (commit_step (fun _ => access_disables acc (vp_apic vp) = true)
      (access_disables acc (vp_apic vp) = true) sys i vp); try done; try apply Y1.
    - intros v Hvec Hd. apply Y5; [|done]. by destruct (access_disables acc (vp_apic vp)).
    - intros Hd Hnot. rewrite <-Hi. apply Y5; [|done|exact Hnot].
      by destruct (access_disables acc (vp_apic vp)). }
  split.
  - destruct H1 as [Q1 Q2 Q3 Q4 Q5]. by split.
  - intros j v Hvec Hnd Hr. apply H2; [done| |done]. intros [-> Hd]. apply Hnd. split; [done|]. by exists vp.
  - intros j Hnd Hr. apply H3; [|done]. intros [-> Hd]. apply Hnd. split; [done|]. by exists vp.
Qed.

Lemma exec_scan_step i os sys :
  sys_ok sys -> op_ok (OpScan i os) sys ->
  exists sys' r, exec_scan i os sys = Ok (sys', r) /\
    sys_step (drops (OpScan i os) sys) (strands (OpScan i os) sys) sys sys'.
Proof.
  intros HS (vp & Hvp & Hos & Hle). pose proof (so_vps _ HS i vp Hvp) as [V1 V2 V3 V4 (s & Hs & Hi)].
  unfold exec_scan. rewrite Hvp. set (now := ta_reading (vp_time vp) os) in *.
  pose proof (reading_now_ok _ _ V4 Hos) as Hn. fold now in Hn.
  pose proof (apic_ok_later _ now _ _ V1 Hle) as HA.
  destruct (hardware_enabled (vp_apic vp)) eqn:Hhw.
  - destruct (scan_keeps (E:=void) os (vp_flag vp) (vp_time vp) _ _ V4 Hos (so_global _ HS) HA Hhw)
      as (c' & g' & a' & r & -> & Hc' & _ & [HO [KP KN]] & _ & _ & _ & _ & _ & HF & _ & _). cbn [res_bind].
    do 2 eexists. split; [reflexivity|].
    apply (sys_step_weaken (fun j _ => j = i /\ False) (fun j => j = i /\ False)); [|tauto|tauto].
    apply (commit_step (fun _ => False) False sys i vp); try done; [auto|].
    intros _ Hnot. change (vp_flag _ = true) with (false = true).
    destruct (vp_flag vp) eqn:Hf.
    + intros v Hv Hst. change (staged g' (shared a') v = true) in Hst.
      by rewrite (proj1 (HF eq_refl v Hv)) in Hst.
    + intros v Hv Hst. destruct (KN s Hs _ Hnot v Hv Hst) as [|[|HE]]; [by left|done|].
      by apply not_elem_of_nil in HE.
  - unfold scan. rewrite Hhw. cbn [negb res_bind]. do 2 eexists. split; [reflexivity|].
    apply (sys_step_weaken (fun j _ => j = i /\ False) (fun j => j = i /\ True)); [|tauto|].
    + apply (commit_step (fun _ => False) True sys i vp); try done. by apply ok_refl; [apply HS|].
    + intros j [-> _]. split; [done|]. by exists vp.
Qed.

(** ** Adding an APIC *)

(** The slots after room has been made for [apic_id]. *)
Definition make_room (apic_id : Z) (slots : list ApicSlot) : list ApicSlot :=
  if Z.of_nat (length slots) <=? apic_id then resize (Z.to_nat apic_id + 1) slot_default slots
  else slots.

Lemma count_slots_app f l l' : count_slots f (l ++ l') = count_slots f l + count_slots f l'.
Proof. induction l as [|x l IH]; [done|]. cbn [app]. rewrite !count_slots_cons, IH. lia. Qed.

Lemma count_slots_replicate f n slot : f slot = false -> count_slots f (replicate n slot) = 0.
Proof. intros Hf. induction n as [|n IH]; [done|]. cbn [replicate]. by rewrite count_slots_cons, Hf, IH. Qed.

Lemma make_room_ok apic_id slots :
  0 <= apic_id ->
  (forall slot, slots !! Z.to_nat apic_id = Some slot -> slot = slot_default) ->
  exists k, make_room apic_id slots = slots ++ replicate k slot_default /\
    make_room apic_id slots !! Z.to_nat apic_id = Some slot_default /\
    Z.of_nat (length (make_room apic_id slots)) = Z.max (Z.of_nat (length slots)) (apic_id + 1).
Proof.
  intros H0 Hfree. unfold make_room. destruct (Z.leb_spec (Z.of_nat (length slots)) apic_id).
  - exists (Z.to_nat apic_id + 1 - length slots)%nat. rewrite resize_ge by lia. split; [done|]. split.
    + rewrite lookup_app_r by lia. apply lookup_replicate. split; [done|lia].
    + rewrite length_app, length_replicate. lia.
  - exists 0%nat. cbn [replicate]. rewrite app_nil_r. split; [done|]. split; [|lia].
    destruct (lookup_lt_is_Some_2 slots (Z.to_nat apic_id)) as [slot Hs]; [lia|].
    by rewrite Hs, (Hfree slot Hs).
Qed.

(** The set with the new APIC before its reset, and the APIC. *)
Definition extended (vp apic_id : Z) (sw : bool) (g : GlobalState) (indices : list Z) : GlobalState :=
  g <| shareds := shareds g ++ [mkShared vp zero_banks zero_banks zero_banks 0 sw] |>
    <| by_apic_id := <[Z.to_nat apic_id := slot_default <| slot_shared := Some (length (shareds g)) |>]>
         (make_room apic_id (by_apic_id g)) |>
    <| by_index := indices |>.

Definition fresh_apic (g : GlobalState) (apic_id : Z) : LocalApic :=
  mkApic (length (shareds g)) 0 None apic_id APIC_VERSION 0 false 0 [] zero_banks zero_banks zero_banks None
    0 0 0 0 0 [0; 0] 0 0 0 0 None 0 false false false false stats_default.

Lemma extended_ok now vp apic_id sw g indices :
  global_ok g -> 0 <= apic_id < 2 ^ 32 -> 0 <= now ->
  (forall slot, by_apic_id g !! Z.to_nat apic_id = Some slot -> slot = slot_default) ->
  global_ok (extended vp apic_id sw g indices) /\
  apic_ok now (extended vp apic_id sw g indices) (fresh_apic g apic_id) /\
  (forall j slot, j <> Z.to_nat apic_id -> by_apic_id (extended vp apic_id sw g indices) !! j = Some slot ->
    by_apic_id g !! j = Some slot \/ slot = slot_default) /\
  (forall j slot, j <> Z.to_nat apic_id -> by_apic_id g !! j = Some slot ->
    by_apic_id (extended vp apic_id sw g indices) !! j = Some slot).
Proof.
  intros [G1 G2 G3 G4 G5] Hid Hnow Hfree. destruct (make_room_ok apic_id (by_apic_id g) ltac:(lia) Hfree) as (k & Hk & Hl & Hlen).
  set (slot := slot_default <| slot_shared := Some (length (shareds g)) |>).
  set (slots := <[Z.to_nat apic_id := slot]> (make_room apic_id (by_apic_id g))).
  change (by_apic_id (extended vp apic_id sw g indices)) with slots.
  assert (slots !! Z.to_nat apic_id = Some slot) as Hslot.
  { apply list_lookup_insert_eq. by eapply lookup_lt_Some. }
  assert (forall f, f slot_default = false -> f slot = false -> count_slots f slots = count_slots f (by_apic_id g)) as HC.
  { intros f Hf Hf'. unfold slots. destruct (count_slots_insert f _ _ _ slot Hl) as [_ ->].
    rewrite Hf, Hf', Hk, count_slots_app, count_slots_replicate by done. cbn. lia. }
  split; [|split; [|split]].
  - split.
    + change (x2apic_enabled_count g = count_slots slot_x2apic_enabled slots). by rewrite HC.
    + change (logical_cluster_mode g = count_slots slot_cluster_mode slots). by rewrite HC.
    + change (Forall (fun slot => length (lint_lvts slot) = 2%nat) slots). apply Forall_insert; [|done].
      rewrite Hk, Forall_app. split; [done|]. by apply Forall_replicate.
    + change (Z.of_nat (length slots) <= 2 ^ 32). unfold slots. rewrite length_insert. lia.
    + change (Forall shared_ok (shareds g ++ [mkShared vp zero_banks zero_banks zero_banks 0 sw])).
      apply Forall_app. split; [done|]. constructor; [|done]. split; apply zero_banks_ok.
  - split; [|split; [by auto with word|done|cbn; lia|done]|done|cbn; lia| |].
    + split; [apply stack_nil|apply zero_banks_ok..|intros _; apply zero_highest].
    + exists slot. split; [exact Hslot|done].
    + exists (mkShared vp zero_banks zero_banks zero_banks 0 sw). apply (list_lookup_middle (shareds g) []). done.
  - intros j t Hj Ht. unfold slots in Ht. rewrite list_lookup_insert_ne, Hk in Ht by done.
    apply lookup_app_Some in Ht as [Ht|[_ Ht]]; [by left|]. apply lookup_replicate in Ht as [-> _]. by right.
  - intros j t Hj Ht. unfold slots. rewrite list_lookup_insert_ne, Hk by done. by apply lookup_app_l_Some.
Qed.

Lemma add_apic_reset {E} vp apic_id sw g :
  0 <= vp -> 0 <= apic_id ->
  (forall slot, by_apic_id g !! Z.to_nat apic_id = Some slot -> slot = slot_default) ->
  exists indices, add_apic (E:=E) vp apic_id sw g =
    reset (extended vp apic_id sw g indices) (fresh_apic g apic_id).
Proof.
  intros Hvp Hid Hfree. unfold add_apic. set (g1 := g <| shareds := _ |>).
  change (by_apic_id g1) with (by_apic_id g). fold (make_room apic_id (by_apic_id g)).
  destruct (make_room_ok apic_id (by_apic_id g) Hid Hfree) as (k & Hk & Hl & Hlen).
  unfold vec_get. rewrite Hl. destruct (Z.leb_spec 0 apic_id); [|lia]. cbn [res_bind slot_shared slot_default].
  rewrite vec_set_ok by lia. cbn [res_bind].
  set (indices := if _ <=? vp then _ else _).
  assert (vp < Z.of_nat (length indices)).
  { unfold indices. destruct (Z.leb_spec (Z.of_nat (length (by_index g1))) vp); [|lia].
    rewrite length_resize. lia. }
  rewrite vec_set_ok by lia. cbn [res_bind]. eexists. reflexivity.
Qed.

(** A processor of the system in the extended set. *)
Lemma extended_vp now vp0 apic_id sw g indices i vp :
  global_ok g -> 0 <= apic_id < 2 ^ 32 -> 0 <= now ->
  (forall slot, by_apic_id g !! Z.to_nat apic_id = Some slot -> slot_shared slot = None) ->
  (forall slot, by_apic_id g !! Z.to_nat apic_id = Some slot -> slot = slot_default) ->
  vp_ok g now i vp ->
  let g1 := extended vp0 apic_id sw g indices in
  vp_ok g1 now i vp /\ id (vp_apic vp) <> apic_id /\ shared (vp_apic vp) <> length (shareds g) /\
  (forall v, staged g1 (shared (vp_apic vp)) v = staged g (shared (vp_apic vp)) v).
Proof.
  intros Hg Hid Hnow Hnone Hdef [[A1 A2 A3 A4 (slot & Hsl & Hmi) [s Hs]] V2 V3 V4 (s' & Hs' & Hi)] g1.
  simplify_eq. destruct (extended_ok now vp0 apic_id sw g indices Hg Hid Hnow Hdef) as (_ & _ & _ & HL).
  assert (id (vp_apic vp) <> apic_id) as Hne.
  { intros E. rewrite E in Hsl. pose proof (Hnone _ Hsl) as Hx. by rewrite (mi_shared _ _ Hmi) in Hx. }
  assert (shareds g1 !! shared (vp_apic vp) = Some s) as Hs1.
  { change ((shareds g ++ [mkShared vp0 zero_banks zero_banks zero_banks 0 sw]) !! shared (vp_apic vp) = Some s).
    by apply lookup_app_l_Some. }
  split; [|split; [done|split]].
  - split; try done; [|by exists s]. split; try done; [|by exists s]. exists slot. split; [|done].
    apply HL; [lia|done].
  - apply lookup_lt_Some in Hs. lia.
  - intros v. unfold staged. by rewrite Hs1, Hs.
Qed.

Lemma extended_others now vp0 apic_id sw g indices g' i vp :
  global_ok g -> 0 <= apic_id < 2 ^ 32 -> 0 <= now ->
  (forall slot, by_apic_id g !! Z.to_nat apic_id = Some slot -> slot_shared slot = None) ->
  (forall slot, by_apic_id g !! Z.to_nat apic_id = Some slot -> slot = slot_default) ->
  frame apic_id (Some (length (shareds g))) [] (extended vp0 apic_id sw g indices) g' ->
  vp_ok g now i vp ->
  vp_ok g' now i vp /\ id (vp_apic vp) <> apic_id /\ shared (vp_apic vp) <> length (shareds g) /\
  (forall v, vector_ok v -> pending g (vp_apic vp) v = true -> pending g' (vp_apic vp) v = true) /\
  (forall f, noticed f g (vp_apic vp) -> noticed f g' (vp_apic vp)).
Proof.
  intros Hg Hid Hnow Hnone Hdef HF Hvp.
  destruct (extended_ok now vp0 apic_id sw g indices Hg Hid Hnow Hdef) as (HG & _).
  destruct (extended_vp now vp0 apic_id sw g indices i vp Hg Hid Hnow Hnone Hdef Hvp)
    as ([W1 W2 W3 W4 (s & Hs & Hi)] & N1 & N2 & HSt).
  destruct (other_apic _ [] _ _ _ g' (vp_apic vp) HF HG W1 ltac:(lia) N1 N2) as (P1 & P2 & P3).
  destruct (P3 s Hs) as [(s' & Hs' & Vs) HN]. split_and!; try done.
  - split; try done. exists s'. split; [done|congruence].
  - intros v Hv Hp. apply P2; [done|]. revert Hp. unfold pending. by rewrite HSt.
  - intros f Hf v Hv Hst. destruct (HN f) with v as [|[|HE]]; auto; [|by apply not_elem_of_nil in HE].
    intros u Hu. rewrite HSt. by apply Hf.
Qed.

Lemma exec_add_step apic_id sw c sys :
  sys_ok sys -> op_ok (OpAdd apic_id sw c) sys ->
  exists sys', exec (OpAdd apic_id sw c) sys = Ok sys' /\ sys_step (fun _ _ => False) (fun _ => False) sys sys'.
Proof.
  intros HS (Hid & Hc & Hnone). pose proof HS as [S1 S2 S3 S4 S5 S6]. cbn [exec].
  set (n := Z.of_nat (length (sys_vps sys))). set (g := sys_global sys) in *.
  assert (forall slot, by_apic_id g !! Z.to_nat apic_id = Some slot -> slot = slot_default) as Hdef.
  { intros slot Hsl. by apply (S5 _ _ Hsl), Hnone. }
  destruct (add_apic_reset (E:=void) n apic_id sw g ltac:(lia) ltac:(lia) Hdef) as [indices ->].
  assert (0 <= sys_now sys) as Hnow by (unfold now_ok in S1; lia).
  destruct (extended_ok (sys_now sys) n apic_id sw g indices S2 Hid Hnow Hdef) as (HG & HA & HF & HL).
  destruct (reset_ok (E:=void) _ _ _ HG HA eq_refl) as (g' & a' & -> & HO & Hpd & _). cbn [res_bind].
  eexists. split; [reflexivity|]. pose proof HO as [O1 O2 O3 O4 O5].
  change (id (fresh_apic g apic_id)) with apic_id in *.
  change (shared (fresh_apic g apic_id)) with (length (shareds g)) in *.
  pose proof (fun i vp Hvp => extended_others (sys_now sys) n apic_id sw g indices g' i vp S2 Hid Hnow Hnone Hdef
    O5 (S3 i vp Hvp)) as HV.
  set (new := mkVp a' 0 (apic_base a') false (zero_banks, zero_banks) c).
  assert (forall i q, (sys_vps sys ++ [new]) !! i = Some q ->
    sys_vps sys !! i = Some q \/ (i = length (sys_vps sys) /\ q = new)) as HQ.
  { intros i q Hq. apply lookup_app_Some in Hq as [|[Hge Hq]]; [by left|right].
    apply list_lookup_singleton_Some in Hq as [E <-]. split; [lia|done]. }
  split; [split; [done|done| | | |]|..].
  - intros i q [Hq|[-> ->]]%HQ; [by apply HV|]. split; try done; [apply zero_banks_ok..|].
    destruct (ok_own _ _ _ _ _ _ (mkShared n zero_banks zero_banks zero_banks 0 sw) HO) as (s' & Hs' & Vs & _);
      [by apply (list_lookup_middle (shareds g) [])|]. by exists s'.
  - intros i j q q' [Hq|[-> ->]]%HQ [Hq'|[-> ->]]%HQ Hne; try done; [by eapply S4|..].
    + destruct (HV i q Hq) as (_ & N1 & N2 & _). cbn [vp_apic new]. by rewrite O3, O4.
    + destruct (HV j q' Hq') as (_ & N1 & N2 & _). cbn [vp_apic new]. by rewrite O3, O4.
  - intros j slot Hj Hno. change (by_apic_id g' !! j = Some slot) in Hj.
    destruct (decide (j = Z.to_nat apic_id)) as [->|Hne].
    + destruct (ap_slot _ _ _ O2) as (slot' & Hsl & Hmi). rewrite O3 in Hsl. simplify_eq.
      by rewrite (mi_shared _ _ Hmi) in Hno.
    + rewrite (fr_slots _ _ _ _ _ O5) in Hj by done. apply HF in Hj as [Hj|Hj]; [|done|done]. by eapply S5.
  - intros j slot p Hj Hp. change (by_apic_id g' !! j = Some slot) in Hj.
    destruct (decide (j = Z.to_nat apic_id)) as [->|Hne].
    + exists (length (sys_vps sys)), new. split; [by apply (list_lookup_middle _ [])|]. exact (f_equal Z.to_nat O3).
    + rewrite (fr_slots _ _ _ _ _ O5) in Hj by done. apply HF in Hj as [Hj|Hj]; [|by subst slot|done].
      destruct (S6 j slot p Hj Hp) as (k & r & Hr & <-). exists k, r. split; [by apply lookup_app_l_Some|done].
  - intros j v Hv _ (vp & Hvp & Hp). exists vp. split; [by apply lookup_app_l_Some|]. by apply (HV j vp Hvp).
  - intros j _ Hsch q [Hq|[-> ->]]%HQ; [apply (HV j q Hq), Hsch, Hq|].
    intros v Hv Hst. specialize (Hpd v Hv). apply orb_false_iff in Hpd as [Hno _].
    change (staged g' (shared a') v = true) in Hst. congruence.
Qed.

(** ** All operations *)

Lemma commit_now i g vp w sys : commit i g vp w sys <| sys_now := sys_now sys |> = commit i g vp w sys.
Proof. done. Qed.

(** A step of processor [i] at the current time that keeps its requests. *)
Lemma exec_keeps i vp sys g' vp' :
  sys_ok sys -> sys_vps sys !! i = Some vp ->
  keeps (sys_now sys) [] (sys_global sys) (vp_apic vp) g' (vp_apic vp') ->
  banks_ok (fst (vp_page vp')) -> banks_ok (snd (vp_page vp')) -> ta_inv (vp_time vp') ->
  vp_flag vp' = vp_flag vp ->
  exists sys', Ok (E:=void) (commit i g' vp' [] sys) = Ok sys' /\
    sys_step (fun _ _ => False) (fun _ => False) sys sys'.
Proof.
  intros HS Hvp HK P1 P2 PT HF. eexists. split; [done|]. rewrite <-commit_now.
  apply (sys_step_weaken (fun j _ => j = i /\ False) (fun j => j = i /\ False)); [|tauto|tauto].
  by apply (commit_keeps sys i vp); try done; apply HS.
Qed.

(** A step of processor [i] at the current time that removes the requests [drop]. *)
Lemma exec_drops (drop : Z -> Prop) (strand : Prop) i vp sys g' vp' :
  sys_ok sys -> sys_vps sys !! i = Some vp ->
  ok_step (sys_now sys) [] (sys_global sys) (vp_apic vp) g' (vp_apic vp') ->
  banks_ok (fst (vp_page vp')) -> banks_ok (snd (vp_page vp')) -> ta_inv (vp_time vp') ->
  (forall v, vector_ok v -> ~ drop v -> pending (sys_global sys) (vp_apic vp) v = true ->
    pending g' (vp_apic vp') v = true) ->
  (~ strand -> noticed (vp_flag vp = true) (sys_global sys) (vp_apic vp) ->
    noticed (vp_flag vp' = true) g' (vp_apic vp')) ->
  sys_step (fun j v => j = i /\ drop v) (fun j => j = i /\ strand) sys (commit i g' vp' [] sys).
Proof.
  intros HS Hvp HO P1 P2 PT HD HN. rewrite <-commit_now.
  apply (commit_step drop strand sys i vp); try done; [apply HS|].
  intros Hst Hnot v Hv Hs. destruct (HN Hst Hnot v Hv Hs); auto.
Qed.

(** The flag and the staged requests are as before. *)
Lemma noticed_same (f : Prop) g g' a a' :
  shareds g' = shareds g -> shared a' = shared a -> scan_irr a' = scan_irr a ->
  noticed f g a -> noticed f g' a'.
Proof. intros Hg Hs Hf Hn v Hv. unfold staged. rewrite Hg, Hs, Hf. by apply Hn. Qed.

Lemma exec_ack_step i v sys :
  sys_ok sys -> op_ok (OpAck i v) sys ->
  exists sys', exec (OpAck i v) sys = Ok sys' /\
    sys_step (drops (OpAck i v) sys) (strands (OpAck i v) sys) sys sys'.
Proof.
  intros HS (vp & Hvp & Ho & Hnx). pose proof (so_vps _ HS i vp Hvp) as [V1 V2 V3 V4 _].
  cbn [exec]. unfold on_vp. rewrite Hvp.
  destruct (acknowledge_ok (E:=void) _ _ _ v (so_global _ HS) V1 Ho Hnx)
    as (a' & -> & HO & HB & _ & _ & HF & _). cbn [res_bind]. eexists. split; [reflexivity|].
  apply (sys_step_weaken (fun j u => j = i /\ u = v) (fun j => j = i /\ False)); [|done|tauto].
  apply (exec_drops (fun u => u = v) False i vp); try done.
  - intros u Hu Hne. change (vp_apic (vp <| vp_apic := a' |>)) with a'. unfold pending.
    rewrite HB, (os_shared _ _ _ _ _ _ HO) by done. destruct (Z.eqb_spec v u) as [->|]; [done|]. done.
  - intros _. apply noticed_same; [done|apply HO|exact HF].
Qed.

Lemma exec_push_step i sys :
  sys_ok sys -> op_ok (OpPush i) sys ->
  exists sys', exec (OpPush i) sys = Ok sys' /\
    sys_step (drops (OpPush i) sys) (strands (OpPush i) sys) sys sys'.
Proof.
  intros HS (vp & Hvp & _). pose proof (so_vps _ HS i vp Hvp) as [V1 V2 V3 V4 _].
  cbn [exec]. unfold exec_push, on_vp. rewrite Hvp.
  assert (sys_step (fun j _ => j = i) (fun _ => False) sys sys) as Hrefl.
  { split; [done|auto|auto]. }
  destruct (push_to_offload_ok _ _ _ (so_global _ HS) V1) as [->|(a' & u & -> & HO & HF & HU)].
  { by exists sys. }
  assert (noticed (vp_flag vp = true) (sys_global sys) (vp_apic vp) ->
    noticed (vp_flag vp = true) (sys_global sys) a') as HN.
  { apply noticed_same; [done|apply HO|exact HF]. }
  destruct u as [[[i' s'] t']|].
  - destruct HU as (_ & _ & _ & B1 & B2). eexists. split; [reflexivity|].
    apply (sys_step_weaken (fun j v => j = i /\ True) (fun j => j = i /\ False)); [|tauto|tauto].
    apply (exec_drops (fun _ => True) False i vp); try done; try tauto.
    + by apply banks_zip; auto with word.
    + by apply banks_zip; auto with word.
  - eexists. split; [reflexivity|].
    apply (sys_step_weaken (fun j v => j = i /\ True) (fun j => j = i /\ False)); [|tauto|tauto].
    apply (exec_drops (fun _ => True) False i vp); try done; tauto.
Qed.

Lemma exec_reset_step i sys :
  sys_ok sys -> op_ok (OpReset i) sys ->
  exists sys', exec (OpReset i) sys = Ok sys' /\
    sys_step (drops (OpReset i) sys) (strands (OpReset i) sys) sys sys'.
Proof.
  intros HS (vp & Hvp & Ho). pose proof (so_vps _ HS i vp Hvp) as [V1 V2 V3 V4 _].
  cbn [exec]. unfold on_vp. rewrite Hvp.
  destruct (reset_ok (E:=void) _ _ _ (so_global _ HS) V1 Ho) as (g' & a' & -> & HO & HP & _).
  cbn [res_bind]. eexists. split; [reflexivity|].
  apply (sys_step_weaken (fun j v => j = i /\ True) (fun j => j = i /\ False)); [|tauto|tauto].
  apply (exec_drops (fun _ => True) False i vp); try done; try tauto.
  intros _ _ v Hv Hst. specialize (HP v Hv). apply orb_false_iff in HP as [Hno _].
  change (staged g' (shared a') v = true) in Hst. congruence.
Qed.

Lemma exec_restore_step i st sys :
  sys_ok sys -> op_ok (OpRestore i st) sys ->
  exists sys', exec (OpRestore i st) sys = Ok sys' /\
    sys_step (drops (OpRestore i st) sys) (strands (OpRestore i st) sys) sys sys'.
Proof.
  intros HS (vp & Hvp & Ho & Hst). pose proof (so_vps _ HS i vp Hvp) as [V1 V2 V3 V4 _].
  cbn [exec]. unfold on_vp. rewrite Hvp.
  destruct (restore_apic_ok _ _ _ st (so_global _ HS) V1 Ho Hst) as [[e ->]|(g' & a' & -> & HO & _)].
  { exists sys. split; [done|]. split; [done|auto|auto]. }
  eexists. split; [reflexivity|].
  apply (sys_step_weaken (fun j v => j = i /\ True) (fun j => j = i /\ True)); [|tauto|tauto].
  apply (exec_drops (fun _ => True) True i vp); try done; tauto.
Qed.

(** A request that reaches no APIC changes nothing. *)
Lemma quiet_apic_step sys :
  sys_ok sys -> sys_step (fun _ _ => False) (fun _ => False) sys (exec_request (sys_global sys, []) sys).
Proof.
  intros HS. pose proof (request_step sys _ [] HS (arena_refl None [] _)) as Hst.
  by replace (sys_global sys <| shareds := shareds (sys_global sys) |>) with (sys_global sys) in Hst
    by (by destruct (sys_global sys)).
Qed.

Lemma exec_lint_step vp index sys :
  sys_ok sys -> 0 <= index < 2 ->
  exists sys', exec (OpLint vp index) sys = Ok sys' /\ sys_step (fun _ _ => False) (fun _ => False) sys sys'.
Proof.
  intros HS Hi. cbn [exec]. unfold lint.
  destruct (slot_of_vp vp (sys_global sys)) as [slot|] eqn:Hslot; cbn [res_bind].
  2: { eexists. split; [reflexivity|]. by apply quiet_apic_step. }
  assert (length (lint_lvts slot) = 2%nat) as HL.
  { unfold slot_of_vp, vec_lookup in Hslot. destruct (_ <? _); [|done].
    destruct (by_index (sys_global sys) !! _) as [n|]; [|done]. cbn in Hslot. destruct (_ <? _); [|done].
    exact (Forall_lookup_1 _ _ _ _ (g_ok_lint _ (so_global _ HS)) Hslot). }
  destruct (vec_get_ok (E:=void) (lint_lvts slot) index) as (lvt & -> & _); [rewrite HL; lia|]. cbn [res_bind].
  destruct (_ || _); cbn [res_bind]; [eexists; split; [reflexivity|by apply quiet_apic_step]|].
  pose proof (slot_request_step (lvt_delivery_mode lvt) (lvt_vector lvt) (lvt_trigger_mode_level lvt) false slot
    (shareds (sys_global sys))) as Har.
  destruct slot_request_interrupt as [ar w]. cbn [res_bind]. eexists. split; [reflexivity|].
  by apply request_step.
Qed.

Lemma exec_synic_step vp v auto sys :
  sys_ok sys ->
  sys_step (fun _ _ => False) (fun _ => False) sys (exec_request (synic_interrupt vp v auto (sys_global sys)) sys).
Proof.
  intros HS. unfold synic_interrupt. destruct (slot_of_vp vp (sys_global sys)) as [slot|].
  - pose proof (slot_request_step DeliveryMode.FIXED v false auto slot (shareds (sys_global sys))) as Har.
    destruct slot_request_interrupt as [ar w]. by apply request_step.
  - by apply quiet_apic_step.
Qed.

Lemma exec_msi_step address data sys :
  sys_ok sys ->
  sys_step (fun _ _ => False) (fun _ => False) sys (exec_request (request_interrupt address data (sys_global sys)) sys).
Proof.
  intros HS. unfold request_interrupt, global_request_interrupt.
  match goal with |- context [request_arena ?g ?d ?m ?v ?l ?ar] => pose proof (request_arena_step g d m v l ar) as Har end.
  destruct request_arena as [ar w]. by apply request_step.
Qed.

Lemma exec_step op sys :
  sys_ok sys -> op_ok op sys ->
  exists sys', exec op sys = Ok sys' /\ sys_step (drops op sys) (strands op sys) sys sys'.
Proof.
  intros HS Hop. pose proof (so_global _ HS) as HG. destruct op.
  - by apply exec_add_step.
  - eexists. split; [reflexivity|]. by apply exec_msi_step.
  - by apply exec_lint_step.
  - eexists. split; [reflexivity|]. by apply exec_synic_step.
  - by apply exec_access_step.
  - destruct (exec_scan_step i os sys HS Hop) as (sys' & r & H1 & H2). exists sys'. cbn [exec]. by rewrite H1.
  - by apply exec_ack_step.
  - by apply exec_push_step.
  - destruct Hop as (vp & Hvp & _). pose proof (so_vps _ HS i vp Hvp) as [V1 V2 V3 V4 _].
    cbn [exec]. unfold on_vp. rewrite Hvp. apply (exec_keeps i vp); try done. by apply enable_offload_keeps.
  - destruct Hop as (vp & Hvp & Ho). pose proof (so_vps _ HS i vp Hvp) as [V1 V2 V3 V4 _].
    cbn [exec]. unfold on_vp. rewrite Hvp.
    destruct (disable_offload_keeps (E:=void) _ _ _ _ _ HG V1 Ho V2 V3) as (a' & -> & HK). cbn [res_bind].
    apply (exec_keeps i vp); try done; apply zero_banks_ok.
  - destruct Hop as (vp & Hvp & B1 & B2). pose proof (so_vps _ HS i vp Hvp) as [V1 V2 V3 V4 _].
    cbn [exec]. unfold on_vp. rewrite Hvp. apply (exec_keeps i vp); try done. by apply keeps_refl.
  - destruct Hop as (vp & Hvp & B1). pose proof (so_vps _ HS i vp Hvp) as [V1 V2 V3 V4 _].
    cbn [exec]. unfold on_vp. rewrite Hvp. apply (exec_keeps i vp); try done. by apply request_fixed_keeps.
  - by apply exec_reset_step.
  - destruct Hop as (vp & Hvp & Ho). pose proof (so_vps _ HS i vp Hvp) as [V1 V2 V3 V4 _].
    cbn [exec]. unfold on_vp. rewrite Hvp.
    destruct (save_keeps (E:=void) _ _ _ HG V1 Ho) as (g' & a' & st & -> & HK). cbn [res_bind].
    by apply (exec_keeps i vp).
  - by apply exec_restore_step.
  - destruct Hop as (vp & Hvp & Hc). pose proof (so_vps _ HS i vp Hvp) as [V1 V2 V3 V4 _].
    cbn [exec]. unfold on_vp. rewrite Hvp. apply (exec_keeps i vp); try done. by apply keeps_refl.
Qed.

(** * Every history *)

Definition empty_system (x2apic_capable hyperv_enlightenments : bool) (now : Z) : System :=
  mkSystem (build x2apic_capable hyperv_enlightenments) [] [] now.

(** The states reached from a set without processors by operations that are
    not in [avoid]. *)
Inductive apic_reachable (avoid : ApicOp -> System -> Prop) : System -> Prop :=
| apic_start x2apic_capable hyperv_enlightenments now :
    now_ok now -> apic_reachable avoid (empty_system x2apic_capable hyperv_enlightenments now)
| apic_then sys op sys' :
    apic_reachable avoid sys -> op_typed op sys -> ~ avoid op sys -> exec op sys = Ok sys' ->
    apic_reachable avoid sys'.

Lemma empty_ok x2 hv now : now_ok now -> sys_ok (empty_system x2 hv now).
Proof. intros Hn. by split. Qed.

Lemma exec_run op sys sys' :
  sys_ok sys -> op_typed op sys -> exec op sys = Ok sys' -> sys_step (drops op sys) (strands op sys) sys sys'.
Proof.
  intros HS Hop He. destruct (exec_step op sys HS (op_typed_ok _ _ _ Hop He)) as (s & H1 & H2). by rewrite H1 in He; simplify_eq.
Qed.

Lemma reachable_ok avoid sys : apic_reachable avoid sys -> sys_ok sys.
Proof.
  induction 1 as [x2 hv now Hn|sys op sys' _ IH Hop _ He]; [by apply empty_ok|]. by apply (exec_run op sys sys').
Qed.

Lemma reachable_scheduled j sys : apic_reachable (fun op s => strands op s j) sys -> scheduled sys j.
Proof.
  induction 1 as [x2 hv now Hn|sys op sys' Hr IH Hop Ha He]; [by intros vp Hvp|].
  by apply (exec_run op sys sys'); [eapply reachable_ok| | | |].
Qed.

(** A scan of an enabled APIC that was told of its requests reports the
    highest of them, unless an interrupt of its class or above is in service. *)
Lemma scan_reports i os v vp sys :
  sys_ok sys -> scheduled sys i -> op_ok (OpScan i os) sys -> sys_vps sys !! i = Some vp ->
  hardware_enabled (vp_apic vp) = true -> software_enabled (vp_apic vp) = true ->
  is_offloaded (vp_apic vp) = false -> 16 <= v < 256 -> requested sys i v ->
  Forall (fun w => priority w < priority v) (isr (vp_apic vp)) ->
  exists sys' r u, exec_scan i os sys = Ok (sys', r) /\ w_interrupt r = Some u /\ v <= u /\
    requested sys' i u /\ op_ok (OpAck i u) sys'.
Proof.
  intros HS Hsc (vp0 & Hvp0 & Hos & Hle) Hvp Hhw Hsw Ho Hvr (vp1 & Hvp1 & Hreq) Hp.
  assert (vp0 = vp) as -> by congruence. assert (vp1 = vp) as -> by congruence.
  assert (vector_ok v) as Hv by (unfold vector_ok; lia).
  pose proof (so_vps _ HS i vp Hvp) as [V1 V2 V3 V4 (s & Hs & Hi)].
  unfold exec_scan. rewrite Hvp. set (now := ta_reading (vp_time vp) os) in *.
  pose proof (apic_ok_later _ now _ _ V1 Hle) as HA.
  destruct (scan_keeps (E:=void) os (vp_flag vp) (vp_time vp) _ _ V4 Hos (so_global _ HS) HA Hhw)
    as (c' & g' & a' & r & -> & _ & _ & [HO [KP KN]] & I & O & V & B & Hw & HF & Hsi & _). cbn [res_bind].
  rewrite Ho in Hw. pose proof (ap_core _ _ _ (os_apic _ _ _ _ _ _ HO)) as Hcore. rewrite Ho in O.
  assert (bank_bit (irr a') v = true) as Hb.
  { destruct (vp_flag vp) eqn:Hf; [by apply HF|]. pose proof (KP v Hv Hreq) as Hpe.
    unfold pending in Hpe. apply orb_true_iff in Hpe as [Hst|]; [|done].
    destruct (KN s Hs False) with (v := v) as [|[|Hin]]; try done; [|congruence|by apply not_elem_of_nil in Hin].
    intros u Hu Hsu. destruct (Hsc vp Hvp u Hu Hsu) as [|Hx]; [by left|by rewrite Hf in Hx]. }
  pose proof (core_cache _ Hcore O) as Hh. destruct (next_irr_cache a') as [u|] eqn:Hn.
  2: { by rewrite (Hh v Hv) in Hb. }
  destruct Hh as (Hu & Hbu & Hmax). assert (v <= u) as Hvu.
  { by apply Hmax. }
  assert (next_irr a' = Some u) as Hnext.
  { unfold next_irr, software_enabled in *. rewrite V, Hsw, Hn, I. cbn [negb]. rewrite (proj2 (Z.ltb_lt _ _)); [done|].
    revert Hp. rewrite !priority_div. destruct (isr (vp_apic vp)) as [|w st _] using rev_ind; [cbn; div_lia|].
    rewrite isr_top_snoc, Forall_app, Forall_singleton, !priority_div. div_lia. }
  do 2 eexists. exists u. split; [reflexivity|]. rewrite Hw. split_and!; try done.
  - eexists. split; [apply lookup_mark, list_lookup_insert_eq; by eapply lookup_lt_Some|].
    change (pending g' a' u = true). unfold pending. by rewrite Hbu, orb_true_r.
  - eexists. split; [apply lookup_mark, list_lookup_insert_eq; by eapply lookup_lt_Some|done].
Qed.


(** C28: an interrupt requested of a local APIC, by any processor, device or
    timer, stays requested under every operation of every processor until it is
    acknowledged or handed to the hardware, or the APIC is reset, restored or turned off. *)
Theorem apic_request_kept avoid sys op sys' j v :
  apic_reachable avoid sys -> op_typed op sys -> exec op sys = Ok sys' -> vector_ok v ->
  requested sys j v -> requested sys' j v \/ drops op sys j v.
Proof.
  intros Hr Hop He Hv Hreq. destruct (decide (drops op sys j v)) as [Hd|Hd]; [by right|left].
  by apply (exec_run op sys sys' (reachable_ok _ _ Hr) Hop He).
Qed.

(** C13: no request is stranded. While the APIC [j] has not been turned off,
    scanned when off, or restored, and if it is enabled and its state is not with
    the hardware, a scan of it reports an interrupt, at least
    as high as any [v] requested of it whose class is above the interrupts in
    service, and that interrupt is requested and can be acknowledged. *)
Theorem apic_request_reported sys j os v vp :
  apic_reachable (fun op s => strands op s j) sys -> op_ok (OpScan j os) sys ->
  sys_vps sys !! j = Some vp -> hardware_enabled (vp_apic vp) = true ->
  software_enabled (vp_apic vp) = true -> is_offloaded (vp_apic vp) = false ->
  16 <= v < 256 -> requested sys j v -> Forall (fun w => priority w < priority v) (isr (vp_apic vp)) ->
  exists sys' r u, exec_scan j os sys = Ok (sys', r) /\ w_interrupt r = Some u /\ v <= u /\
    requested sys' j u /\ op_ok (OpAck j u) sys'.
Proof.
  intros Hr Hop Hvp Hhw Hsw Ho Hv Hreq Hp.
  apply (scan_reports j os v vp); try done; [by eapply reachable_ok|by apply reachable_scheduled].
Qed.

End System.

(** * A processor with one request *)

Definition example_ops : list ApicOp :=
  [OpAdd 0 true example_source; OpMsi 0xFEE00000 0x31].

Definition example_system : System :=
  match exec_all example_ops (empty_system false false 60) with
  | Ok sys => sys
  | _ => empty_system false false 60
  end.

Lemma example_reachable : apic_reachable (fun op s => strands op s 0) example_system.
Proof.
  refine (apic_then _ _ (OpMsi 0xFEE00000 0x31) _ _ _ _ _).
  - refine (apic_then _ _ (OpAdd 0 true example_source) _ _ _ _ _).
    + apply (apic_start _ false false 60). by split.
    + split; [done|]. split; [apply example_source_inv|done].
    + tauto.
    + vm_compute. reflexivity.
  - done.
  - tauto.
  - vm_compute. reflexivity.
Qed.

Definition example_vp : Vp :=
  match sys_vps example_system with vp :: _ => vp | [] => mkVp (fresh_apic (sys_global example_system) 0) 0 0 false ([], []) example_source end.

Lemma example_requested : requested example_system 0 0x31.
Proof. exists example_vp. split; vm_compute; reflexivity. Qed.


Lemma apic_request_kept_witness :
  exists sys', exec (OpSynic 0 0x50 false) example_system = Ok sys' /\
    (requested sys' 0 0x31 \/ drops (OpSynic 0 0x50 false) example_system 0 0x31).
Proof.
  eexists. split; [vm_compute; reflexivity|].
  apply (apic_request_kept _ example_system (OpSynic 0 0x50 false) _ 0 0x31 example_reachable I);
    [vm_compute; reflexivity|by split|apply example_requested].
Defined.

Lemma apic_request_reported_witness :
  exists sys' r u, exec_scan 0 8000 example_system = Ok (sys', r) /\ w_interrupt r = Some u /\ 0x31 <= u /\
    requested sys' 0 u /\ op_ok (OpAck 0 u) sys'.
Proof.
  apply (apic_request_reported example_system 0 8000 0x31 example_vp example_reachable).
  - exists example_vp. split; [vm_compute; reflexivity|]. split; [lia|]. by vm_compute.
  - vm_compute. reflexivity.
  - vm_compute. reflexivity.
  - vm_compute. reflexivity.
  - vm_compute. reflexivity.
  - lia.
  - apply example_requested.
  - constructor.
Defined.
