(* ===== verification/ApicRouting.v ===== *)
(** Where an interrupt request goes: the loops of [GlobalState::request_interrupt]
    (src/vmm_core/virt_support_apic/src/lib.rs) against the list of recipients
    that the destination selects, and what the request does to each of them. *)

From stdpp Require Import sets sorting.
From S2P Require Import Prelude VmTime VmTimeSpec LocalApic ApicBanks LocalApicSpec LocalApicOps LocalApicScan.
From S2P Require Import LocalApicSystem.
Open Scope Z_scope.

(** * The recipients *)

(** The destination [d] selects the APIC [n] of slot [slot]. *)
Definition selects (g : GlobalState) (d : Destination) (n : nat) (slot : ApicSlot) : bool :=
  match d with
  | Physical i => Z.of_nat n =? i
  | Broadcast => true
  | AllExcept i => negb (Z.of_nat n =? i)
  | Logical i =>
      if 0 <? x2apic_enabled_count g then
        (i =? 0xffffffff)
        || (Z.of_nat n / 16 =? x2apic_cluster_id i) && Z.testbit (x2apic_logical_id i) (Z.of_nat n mod 16)
      else if 0 <? logical_cluster_mode g then
        (ucast 8 i =? 0xff)
        || (xapic_cluster_id (logical_id slot) =? xapic_cluster_id (ucast 8 i))
           && negb (Z.land (xapic_logical_id (logical_id slot)) (xapic_logical_id (ucast 8 i)) =? 0)
      else negb (Z.land (logical_id slot) (ucast 8 i) =? 0)
  end.

(** The members of [slots], numbered from [n], that [f] selects. *)
Fixpoint selected (f : nat -> ApicSlot -> bool) (n : nat) (slots : list ApicSlot) : list ApicSlot :=
  match slots with
  | [] => []
  | slot :: slots => (if f n slot then [slot] else []) ++ selected f (S n) slots
  end.

(** A lowest-priority request goes to the first that is enabled, but to a
    physical destination whatever its state. *)
Definition arbitrate (mode : Z) (l : list ApicSlot) : list ApicSlot :=
  if mode =? DeliveryMode.LOWEST_PRIORITY
  then take 1 (List.filter slot_software_enabled l) else l.

Definition recipients (g : GlobalState) (d : Destination) (mode : Z) : list ApicSlot :=
  let l := selected (selects g d) 0 (by_apic_id g) in
  match d with Physical _ => l | _ => arbitrate mode l end.

(** One request after the other. *)
Fixpoint request_each (mode v : Z) (level : bool) (slots : list ApicSlot) (arena : list SharedState)
    : list SharedState * list Z :=
  match slots with
  | [] => (arena, [])
  | slot :: slots =>
      let '(arena, wakes) := slot_request_interrupt mode v level false slot arena in
      let '(arena, wakes') := request_each mode v level slots arena in
      (arena, wakes ++ wakes')
  end.

Lemma arbitrate_cons mode slot l :
  arbitrate mode (slot :: l) =
    if mode =? DeliveryMode.LOWEST_PRIORITY
    then if slot_software_enabled slot then [slot] else arbitrate mode l
    else slot :: l.
Proof. unfold arbitrate. destruct (mode =? _); [|done]. cbn. by destruct (slot_software_enabled slot). Qed.

Lemma arbitrate_nil mode : arbitrate mode [] = [].
Proof. unfold arbitrate. by destruct (mode =? _). Qed.

(** One candidate of a loop: skipped, requested and last, or requested. *)
Lemma request_candidate mode v level slot l arena k :
  (forall ar, k ar = request_each mode v level (arbitrate mode l) ar) ->
  (if negb (mode =? DeliveryMode.LOWEST_PRIORITY) || slot_software_enabled slot then
     let '(arena, wakes) := slot_request_interrupt mode v level false slot arena in
     if mode =? DeliveryMode.LOWEST_PRIORITY then (arena, wakes)
     else let '(arena, wakes') := k arena in (arena, wakes ++ wakes')
   else k arena) = request_each mode v level (arbitrate mode (slot :: l)) arena.
Proof.
  intros Hk. rewrite arbitrate_cons. destruct (mode =? _) eqn:Hm; cbn [negb orb].
  - destruct (slot_software_enabled slot); [|apply Hk]. cbn [request_each].
    destruct slot_request_interrupt as [ar w]. by rewrite app_nil_r.
  - cbn [request_each]. destruct slot_request_interrupt as [ar w]. rewrite Hk. unfold arbitrate. by rewrite Hm.
Qed.

Lemma request_set_each mode v level f slots arena n :
  request_set_interrupt mode v level f (Z.of_nat n) slots arena =
    request_each mode v level (arbitrate mode (selected (fun k => f (Z.of_nat k)) n slots)) arena.
Proof.
  revert n arena. induction slots as [|slot slots IH]; intros n arena; [by rewrite arbitrate_nil|].
  cbn [request_set_interrupt selected]. replace (Z.of_nat n + 1) with (Z.of_nat (S n)) by lia.
  destruct (f (Z.of_nat n) slot); cbn [negb app]; [|apply IH].
  apply (request_candidate mode v level slot). intros ar. apply IH.
Qed.

Lemma selected_ext f f' n slots :
  (forall k slot, slots !! k = Some slot -> f (n + k)%nat slot = f' (n + k)%nat slot) ->
  selected f n slots = selected f' n slots.
Proof.
  revert n. induction slots as [|slot slots IH]; intros n H; [done|]. cbn [selected].
  pose proof (H 0%nat slot eq_refl) as H0. rewrite Nat.add_0_r in H0. rewrite H0. f_equal. apply IH.
  intros k s Hk. specialize (H (S k) s Hk). by replace (S n + k)%nat with (n + S k)%nat by lia.
Qed.

Lemma selected_app f n l l' : selected f n (l ++ l') = selected f n l ++ selected f (n + length l) l'.
Proof.
  revert n. induction l as [|x l IH]; intros n; cbn [app selected length]; [by rewrite Nat.add_0_r|].
  rewrite IH, <-app_assoc. do 3 f_equal. lia.
Qed.

Lemma selected_none f n l :
  (forall k slot, l !! k = Some slot -> f (n + k)%nat slot = false) -> selected f n l = [].
Proof.
  intros H. rewrite (selected_ext f (fun _ _ => false)) by done. clear H. revert n.
  induction l; intros n; [done|]. cbn. apply IHl.
Qed.

(** The APIC at [i], if any. *)
Lemma selected_one slots i :
  0 <= i ->
  selected (fun n _ => Z.of_nat n =? i) 0 slots =
    match vec_lookup slots i with Some slot => [slot] | None => [] end.
Proof.
  intros Hi. unfold vec_lookup. destruct (Z.ltb_spec i (Z.of_nat (length slots))) as [Hlt|Hge].
  - destruct (lookup_lt_is_Some_2 slots (Z.to_nat i)) as [slot Hs]; [lia|]. rewrite Hs.
    apply list_elem_of_split_length in Hs as (l1 & l2 & -> & Hl). rewrite selected_app. cbn [selected].
    rewrite (selected_none _ 0 l1), (selected_none _ _ l2).
    + destruct (Z.eqb_spec (Z.of_nat (0 + length l1)) i); [done|lia].
    + intros k s _. apply Z.eqb_neq. lia.
    + intros k s Hk%lookup_lt_Some. apply Z.eqb_neq. lia.
  - apply selected_none. intros k s Hk%lookup_lt_Some. apply Z.eqb_neq. lia.
Qed.

(** ** X2APIC clusters *)

Lemma land_bit x i : 0 <= i -> (Z.land x (Z.shiftl 1 i) =? 0) = negb (Z.testbit x i).
Proof.
  intros Hi. rewrite Z.shiftl_1_l. destruct (Z.testbit x i) eqn:Hb; cbn.
  - apply Z.eqb_neq. intros H0. assert (Z.testbit (Z.land x (2 ^ i)) i = true) as Ht.
    { rewrite Z.land_spec, Hb, Z.pow2_bits_true by done. done. }
    by rewrite H0, Z.bits_0 in Ht.
  - apply Z.eqb_eq, Z.bits_inj'. intros j Hj. rewrite Z.land_spec, Z.bits_0, Z.pow2_bits_eqb by done.
    destruct (Z.eqb_spec i j) as [->|]; [by rewrite Hb|]. by rewrite andb_false_r.
Qed.

(** The loop over the members [i] to [i + m - 1] of the cluster at [base]. *)
Lemma request_cluster_each mode v level logical c slots m i arena :
  0 <= c -> (i + m <= 16)%nat ->
  let b := Z.to_nat (16 * c) in
  request_cluster_interrupt mode v level logical (Z.shiftl c 4) slots (seqZ (Z.of_nat i) (Z.of_nat m)) arena =
    request_each mode v level
      (arbitrate mode (selected (fun n _ => Z.testbit logical (Z.of_nat n - 16 * c)) (b + i)
        (take m (drop (b + i) slots)))) arena.
Proof.
  intros Hc Him b. revert i arena Him. induction m as [|m IH]; intros i arena Him.
  { cbn [take selected]. by rewrite arbitrate_nil. }
  rewrite seqZ_cons by lia. cbn [request_cluster_interrupt]. rewrite land_bit, lor_shiftl_add by (unfold is_u; lia).
  replace (Z.succ (Z.of_nat i)) with (Z.of_nat (S i)) by lia.
  replace (Z.pred (Z.of_nat (S m))) with (Z.of_nat m) by lia.
  assert (vec_lookup slots (c * 2 ^ 4 + Z.of_nat i) = slots !! (b + i)%nat) as ->.
  { unfold vec_lookup. replace (Z.to_nat (c * 2 ^ 4 + Z.of_nat i)) with (b + i)%nat by lia.
    destruct (Z.ltb_spec (c * 2 ^ 4 + Z.of_nat i) (Z.of_nat (length slots))); [done|].
    symmetry. apply lookup_ge_None. lia. }
  assert (forall ar, request_cluster_interrupt mode v level logical (Z.shiftl c 4) slots
    (seqZ (Z.of_nat (S i)) (Z.of_nat m)) ar = request_each mode v level
      (arbitrate mode (selected (fun n _ => Z.testbit logical (Z.of_nat n - 16 * c)) (S (b + i))
        (take m (drop (S (b + i)) slots)))) ar) as Hk.
  { intros ar. rewrite IH by lia. by replace (b + S i)%nat with (S (b + i)) by lia. }
  destruct (slots !! (b + i)%nat) as [slot|] eqn:Hs.
  - rewrite (drop_S _ _ _ Hs). cbn [take selected].
    replace (Z.of_nat (b + i) - 16 * c) with (Z.of_nat i) by lia.
    destruct (Z.testbit logical (Z.of_nat i)); cbn [negb app]; [|apply Hk].
    by apply (request_candidate mode v level slot).
  - apply lookup_ge_None in Hs. rewrite Hk, !drop_ge, !take_nil by lia. by destruct (negb _).
Qed.

Lemma selected_cluster logical c slots :
  0 <= c ->
  selected (fun n _ => (Z.of_nat n / 16 =? c) && Z.testbit logical (Z.of_nat n mod 16)) 0 slots =
    selected (fun n _ => Z.testbit logical (Z.of_nat n - 16 * c)) (Z.to_nat (16 * c))
      (take 16 (drop (Z.to_nat (16 * c)) slots)).
Proof.
  intros Hc. set (b := Z.to_nat (16 * c)).
  rewrite <-(take_drop b slots) at 1. rewrite <-(take_drop 16 (drop b slots)) at 1. rewrite !selected_app.
  assert (length (take b slots) = b \/ drop b slots = []) as Hb.
  { rewrite length_take. destruct (decide (b <= length slots)%nat); [lia|]. right. apply drop_ge. lia. }
  rewrite selected_none; [|intros k s Hk%lookup_lt_Some].
  2: { rewrite length_take in Hk. apply andb_false_iff. left. apply Z.eqb_neq. div_lia. }
  destruct Hb as [Hb| ->]; [|by rewrite drop_nil].
  rewrite (selected_none _ _ (drop 16 _)); [|intros k s Hk%lookup_lt_Some].
  2: { apply andb_false_iff. left. rewrite Hb. rewrite length_drop, length_drop in Hk. rewrite length_take, length_drop.
       apply Z.eqb_neq. div_lia. }
  cbn [app]. rewrite app_nil_r, Hb. apply selected_ext. intros k s Hk%lookup_lt_Some.
  rewrite length_take in Hk. change (0 + b + k)%nat with (b + k)%nat.
  assert (Z.of_nat (b + k) / 16 = c /\ Z.of_nat (b + k) mod 16 = Z.of_nat (b + k) - 16 * c) as [-> ->] by div_lia.
  by rewrite Z.eqb_refl.
Qed.

(** ** All destinations *)

Lemma selected_set g d mode v level f arena :
  (forall n slot, by_apic_id g !! n = Some slot -> f (Z.of_nat n) slot = selects g d n slot) ->
  request_set_interrupt mode v level f 0 (by_apic_id g) arena =
    request_each mode v level (arbitrate mode (selected (selects g d) 0 (by_apic_id g))) arena.
Proof.
  intros Hf. change 0 with (Z.of_nat 0). rewrite request_set_each. do 2 f_equal.
  apply selected_ext. intros k slot Hk. by apply Hf.
Qed.

Lemma request_arena_each g d mode v level arena :
  (forall i, d = Physical i \/ d = Logical i -> 0 <= i) ->
  request_arena g d mode v level arena = request_each mode v level (recipients g d mode) arena.
Proof.
  intros Hd. unfold request_arena, recipients. destruct d as [i|i| |i].
  - specialize (Hd i (or_introl eq_refl)). 
    change (selects g (Physical i)) with (fun (n : nat) (_ : ApicSlot) => Z.of_nat n =? i).
    rewrite selected_one by done. destruct (vec_lookup (by_apic_id g) i) as [slot|]; [|done]. cbn [request_each].
    destruct slot_request_interrupt as [ar w]. by rewrite app_nil_r.
  - destruct (0 <? x2apic_enabled_count g) eqn:Hx.
    + destruct (Z.eqb_spec i 0xffffffff) as [->|Hne].
      * apply selected_set. intros. cbn [selects]. by rewrite Hx.
      * assert (0 <= x2apic_cluster_id i) by (unfold x2apic_cluster_id, bits; apply Z.land_nonneg; right; by vm_compute).
        rewrite (request_cluster_each _ _ _ _ _ _ 16 0) by lia. do 2 f_equal. rewrite Nat.add_0_r.
        rewrite <-selected_cluster by done. apply selected_ext. intros k slot _. cbn [selects]. rewrite Hx.
        by destruct (Z.eqb_spec i 0xffffffff).
    + destruct (0 <? logical_cluster_mode g) eqn:Hc;
        [destruct (Z.eqb_spec (ucast 8 i) 0xff) as [He|Hne]|];
        apply selected_set; intros; cbn [selects]; rewrite Hx, Hc; [by rewrite He| |done].
      by destruct (Z.eqb_spec (ucast 8 i) 0xff).
  - by apply selected_set.
  - by apply selected_set.
Qed.

(** * What a processor receives *)

(** The shared state of an APIC whose slot is requested. *)
Definition deliver (slot : ApicSlot) (mode v : Z) (level : bool) (s : SharedState) : SharedState :=
  if slot_hardware_enabled slot
  then (shared_request_interrupt (slot_software_enabled slot) mode v level false s).1 else s.

Lemma slot_request_cell mode v level slot ar p :
  (slot_request_interrupt mode v level false slot ar).1 !! p =
    if decide (slot_shared slot = Some p) then deliver slot mode v level <$> ar !! p else ar !! p.
Proof.
  unfold slot_request_interrupt, deliver. destruct (slot_shared slot) as [q|]; [|by case_decide].
  case_decide as Hq; [injection Hq as ->|].
  - destruct (ar !! p) as [s|] eqn:Hp; [|done]. cbn [fmap option_fmap option_map].
    destruct (slot_hardware_enabled slot); [|exact Hp]. destruct shared_request_interrupt as [s' w]. cbn [fst].
    by rewrite list_lookup_insert_eq by (by eapply lookup_lt_Some).
  - destruct (ar !! q) as [s|]; [|done]. destruct (slot_hardware_enabled slot); [|done].
    destruct shared_request_interrupt as [s' w]. cbn [fst]. rewrite list_lookup_insert_ne; [done|congruence].
Qed.

Lemma request_each_cons mode v level slot l ar :
  (request_each mode v level (slot :: l) ar).1 =
    (request_each mode v level l (slot_request_interrupt mode v level false slot ar).1).1.
Proof. cbn [request_each]. destruct slot_request_interrupt as [ar1 w1]. cbn. by destruct request_each. Qed.

Lemma request_each_miss mode v level l ar p :
  Forall (fun slot => slot_shared slot <> Some p) l -> (request_each mode v level l ar).1 !! p = ar !! p.
Proof.
  intros Hl. revert ar. induction Hl as [|slot l Hs _ IH]; intros ar; [done|].
  rewrite request_each_cons, IH, slot_request_cell. by case_decide.
Qed.

Lemma request_each_app mode v level l l' ar :
  (request_each mode v level (l ++ l') ar).1 =
    (request_each mode v level l' (request_each mode v level l ar).1).1.
Proof.
  revert ar. induction l as [|slot l IH]; intros ar; [done|]. cbn [app]. by rewrite !request_each_cons, IH.
Qed.

(** No two slots are of the same APIC. *)
Definition slots_distinct (slots : list ApicSlot) : Prop :=
  forall n m slot slot' p, slots !! n = Some slot -> slots !! m = Some slot' ->
    slot_shared slot = Some p -> slot_shared slot' = Some p -> n = m.

Lemma selected_Forall f n l (P : ApicSlot -> Prop) : Forall P l -> Forall P (selected f n l).
Proof.
  intros H. revert n. induction H as [|slot l Hs _ IH]; intros n; cbn [selected]; [done|].
  apply Forall_app. split; [destruct (f n slot); auto|done].
Qed.

Lemma request_cell g d mode v level n slot p :
  slots_distinct (by_apic_id g) -> (forall i, d = Physical i \/ d = Logical i -> 0 <= i) ->
  mode <> DeliveryMode.LOWEST_PRIORITY ->
  by_apic_id g !! n = Some slot -> slot_shared slot = Some p ->
  (request_arena g d mode v level (shareds g)).1 !! p =
    if selects g d n slot then deliver slot mode v level <$> shareds g !! p else shareds g !! p.
Proof.
  intros Hdist Hd Hm Hn Hp.
  assert (recipients g d mode = selected (selects g d) 0 (by_apic_id g)) as Hr.
  { unfold recipients, arbitrate. destruct (Z.eqb_spec mode DeliveryMode.LOWEST_PRIORITY); [done|]. by destruct d. }
  rewrite (request_arena_each g d mode v level _ Hd), Hr.
  pose proof (list_elem_of_split_length _ _ _ Hn) as (l1 & l2 & Hl & Hlen).
  assert (forall k s, by_apic_id g !! k = Some s -> k <> n -> slot_shared s <> Some p) as Hother.
  { intros k s Hk Hne Hs. by apply Hne, (Hdist k n s slot p). }
  assert (Forall (fun s => slot_shared s <> Some p) l1 /\ Forall (fun s => slot_shared s <> Some p) l2) as [H1 H2].
  { rewrite !Forall_lookup. split; intros k s Hk.
    - apply (Hother k s); [rewrite Hl; by apply lookup_app_l_Some|]. apply lookup_lt_Some in Hk. lia.
    - apply (Hother (length l1 + S k)%nat s); [|lia]. rewrite Hl, lookup_app_r by lia.
      by replace (length l1 + S k - length l1)%nat with (S k) by lia. }
  rewrite Hl, selected_app. cbn [selected]. replace (0 + length l1)%nat with n by lia.
  rewrite !request_each_app, request_each_miss by (by apply selected_Forall).
  destruct (selects g d n slot); cbn [app].
  - rewrite request_each_cons, request_each_app || rewrite request_each_cons.
    cbn [request_each fst]. rewrite slot_request_cell, decide_True by done. by rewrite request_each_miss by (by apply selected_Forall).
  - cbn [request_each fst]. by rewrite request_each_miss by (by apply selected_Forall).
Qed.

Section Requests.

Context {C : Type} `{Laws : TimeAccessLaws C}.

Implicit Type sys : System (C:=C).

Lemma sys_distinct sys : sys_ok sys -> slots_distinct (by_apic_id (sys_global sys)).
Proof.
  intros HS n m slot slot' p Hn Hm Hp Hp'.
  destruct (so_owned _ HS n slot p Hn Hp) as (i & vp & Hvp & <-).
  destruct (so_owned _ HS m slot' p Hm Hp') as (j & vq & Hvq & <-).
  destruct (decide (i = j)) as [->|Hne]; [congruence|]. exfalso.
  destruct (ap_slot _ _ _ (vo_apic _ _ _ _ (so_vps _ HS i vp Hvp))) as (s & Hs & Hmi).
  destruct (ap_slot _ _ _ (vo_apic _ _ _ _ (so_vps _ HS j vq Hvq))) as (s' & Hs' & Hmi').
  rewrite Hn in Hs. rewrite Hm in Hs'. simplify_eq.
  rewrite (mi_shared _ _ Hmi) in Hp. rewrite (mi_shared _ _ Hmi') in Hp'.
  destruct (so_ids _ HS i j vp vq Hvp Hvq Hne) as [_ Hsh]. congruence.
Qed.

(** The destination of the message. *)
Definition msi_target (address : Z) (g : GlobalState) : Destination :=
  from_external (msi_address_logical (ucast 32 address)) (virt_destination (ucast 32 address)) (x2apic_capable g).

Lemma msi_target_ok address g i : msi_target address g = Physical i \/ msi_target address g = Logical i -> 0 <= i.
Proof.
  unfold msi_target, from_external.
  assert (0 <= virt_destination (ucast 32 address)) as Hv.
  { unfold virt_destination. apply Z.lor_nonneg. split; [apply Z.land_nonneg; right; by vm_compute|].
    apply Z.shiftl_nonneg, Z.land_nonneg. right. by vm_compute. }
  destruct (msi_address_logical _); [|destruct (_ || _)]; intros [[=]|[=]]; lia.
Qed.

(** The slot of a processor and its shared state after a message. *)
Lemma msi_cell sys address data j vp :
  sys_ok sys -> sys_vps sys !! j = Some vp ->
  msi_data_delivery_mode data <> DeliveryMode.LOWEST_PRIORITY ->
  let g := sys_global sys in
  let a := vp_apic vp in
  exists slot s, by_apic_id g !! Z.to_nat (id a) = Some slot /\ mirrors a slot /\
    shareds g !! shared a = Some s /\ shared_ok s /\
    shareds (request_interrupt address data g).1 !! shared a =
      Some (if selects g (msi_target address g) (Z.to_nat (id a)) slot
            then deliver slot (msi_data_delivery_mode data) (msi_data_vector data) (msi_data_trigger_mode_level data) s
            else s).
Proof.
  intros HS Hvp Hm g a. pose proof (vo_apic _ _ _ _ (so_vps _ HS j vp Hvp)) as [_ _ _ _ (slot & Hsl & Hmi) [s Hs]].
  exists slot, s. split_and!; try done.
  { by apply (Forall_lookup_1 _ _ _ _ (g_ok_shared _ (so_global _ HS)) Hs). }
  unfold request_interrupt, global_request_interrupt. fold (msi_target address g).
  pose proof (request_cell g (msi_target address g) (msi_data_delivery_mode data) (msi_data_vector data)
    (msi_data_trigger_mode_level data) _ slot (shared a) (sys_distinct _ HS) (msi_target_ok address g) Hm Hsl
    (mi_shared _ _ Hmi)) as Hc.
  destruct request_arena as [ar w]. cbn [fst] in *. change (ar !! shared a = Some (if selects g (msi_target address g) (Z.to_nat (id a)) slot
            then deliver slot (msi_data_delivery_mode data) (msi_data_vector data) (msi_data_trigger_mode_level data) s
            else s)).
  rewrite Hc. subst a g. rewrite Hs. by destruct (selects _ _ _ _).
Qed.

(** The message is for processor [vp]'s APIC, which is on and enabled. *)
Definition reaches (address : Z) (sys : System (C:=C)) (vp : Vp (C:=C)) : bool :=
  let a := vp_apic vp in
  match by_apic_id (sys_global sys) !! Z.to_nat (id a) with
  | Some slot => hardware_enabled a && software_enabled a
      && selects (sys_global sys) (msi_target address (sys_global sys)) (Z.to_nat (id a)) slot
  | None => false
  end.

(** The bits of the shared state after a fixed message. *)
Lemma msi_fixed sys address data j vp :
  sys_ok sys -> sys_vps sys !! j = Some vp -> msi_data_delivery_mode data = DeliveryMode.FIXED ->
  let v := msi_data_vector data in
  let hit := reaches address sys vp && (16 <=? v) in
  exists s s', shareds (sys_global sys) !! shared (vp_apic vp) = Some s /\
    shareds (request_interrupt address data (sys_global sys)).1 !! shared (vp_apic vp) = Some s' /\
    forall u, vector_ok u ->
      bank_bit (new_irr s') u = hit && (v =? u) || bank_bit (new_irr s) u /\
      bank_bit (sh_tmr s') u = if hit && (v =? u) then msi_data_trigger_mode_level data else bank_bit (sh_tmr s) u.
Proof.
  intros HS Hvp Hm v. pose proof (msi_cell sys address data j vp HS Hvp ltac:(by rewrite Hm)) as Hc.
  cbn zeta in Hc. destruct Hc as (slot & s & Hsl & Hmi & Hs & Hok & Hs').
  assert (0 <= v < 256) as Hv.
  { unfold v, msi_data_vector, bits. rewrite Z.land_ones by lia. apply Z.mod_pos_bound. lia. }
  unfold reaches. rewrite Hsl, <-(mi_hardware _ _ Hmi), <-(mi_software _ _ Hmi). do 2 eexists.
  split; [exact Hs|]. split; [exact Hs'|]. intros u Hu. fold v.
  destruct (selects _ _ _ slot); [|by rewrite !andb_false_r]. rewrite andb_true_r. unfold deliver. rewrite Hm.
  destruct (slot_hardware_enabled slot); [|done]. cbn [andb]. destruct (slot_software_enabled slot) eqn:Hsw.
  - destruct (Z.leb_spec 16 v) as [H16|H16]; cbn [andb].
    + destruct (fixed_request s DeliveryMode.FIXED v (msi_data_trigger_mode_level data) false Hok eq_refl ltac:(lia))
        as (H1 & H2 & _). fold v. by rewrite H1, H2 by done.
    + unfold shared_request_interrupt. cbn [Z.eqb orb]. fold v. destruct (Z.leb_spec 16 v); [lia|]. done.
  - done.
Qed.

(** Which vectors are requested after a fixed message. *)
Lemma msi_requested sys address data j vp u :
  sys_ok sys -> msi_data_delivery_mode data = DeliveryMode.FIXED -> sys_vps sys !! j = Some vp -> vector_ok u ->
  requested (exec_request (request_interrupt address data (sys_global sys)) sys) j u <->
    requested sys j u \/ (u = msi_data_vector data /\ 16 <= u /\ reaches address sys vp = true).
Proof.
  intros Hr Hm Hvp Hu.
  destruct (msi_fixed sys address data j vp Hr Hvp Hm) as (s & s' & Hs & Hs' & Hbit).
  destruct (Hbit u Hu) as [Hb _].
  assert (forall q, sys_vps (exec_request (request_interrupt address data (sys_global sys)) sys) !! j = Some q ->
    vp_apic q = vp_apic vp) as Hq.
  { intros q (r & Hrr & ->)%mark_lookup. by simplify_eq. }
  assert (pending (request_interrupt address data (sys_global sys)).1 (vp_apic vp) u = true <->
    pending (sys_global sys) (vp_apic vp) u = true \/
    (u = msi_data_vector data /\ 16 <= u /\ reaches address sys vp = true)) as Hp.
  { unfold pending, staged. rewrite Hs, Hs', Hb, !orb_true_iff, !andb_true_iff, Z.leb_le, Z.eqb_eq.
    split; [intros [[[[? ?] ?]|?]|?]|intros [[?|?]|(? & ? & ?)]]; subst; tauto. }
  split.
  - intros (q & Hlq & Hpq). rewrite (Hq q Hlq) in Hpq.
    apply Hp in Hpq as [|]; [left; by exists vp|by right].
  - intros Hreq. eexists. split; [by apply lookup_mark|]. apply Hp. destruct Hreq as [(q & Hlq & Hpq)|]; [left|by right].
    by simplify_eq.
Qed.

End Requests.

(** A fixed message is requested of exactly the processors whose enabled
    APIC its destination selects: after the message, a vector is requested of a
    processor if and only if it was before, or it is the vector of the message
    and the message reaches the processor. *)
Theorem msi_requests {C} `{Laws : TimeAccessLaws C} avoid (sys sys' : System (C:=C)) address data j vp u :
  apic_reachable avoid sys -> exec (OpMsi address data) sys = Ok sys' ->
  msi_data_delivery_mode data = DeliveryMode.FIXED -> sys_vps sys !! j = Some vp -> vector_ok u ->
  requested sys' j u <->
    requested sys j u \/ (u = msi_data_vector data /\ 16 <= u /\ reaches address sys vp = true).
Proof. intros Hr [= <-]. apply msi_requested. by eapply reachable_ok. Qed.

(** * Every request, at every processor *)

(** An enabled APIC before the slot [n] is selected, too. *)
Definition preceded (g : GlobalState) (d : Destination) (n : nat) : bool :=
  existsb slot_software_enabled (selected (selects g d) 0 (take n (by_apic_id g))).

(** The request goes to the APIC [n]: the destination selects it, and if the
    request is for the lowest priority of several, it is the first enabled one. *)
Definition receives (g : GlobalState) (d : Destination) (mode : Z) (n : nat) (slot : ApicSlot) : bool :=
  selects g d n slot &&
  match d with
  | Physical _ => true
  | _ => negb (mode =? DeliveryMode.LOWEST_PRIORITY) || (slot_software_enabled slot && negb (preceded g d n))
  end.

(** The request is for a vector. *)
Definition vectored (mode : Z) : bool := (mode =? DeliveryMode.FIXED) || (mode =? DeliveryMode.LOWEST_PRIORITY).

(** The APIC of the slot takes such a request. *)
Definition accepts (slot : ApicSlot) (mode v : Z) : bool :=
  slot_hardware_enabled slot &&
  (if vectored mode then slot_software_enabled slot && (16 <=? v)
   else (mode =? DeliveryMode.NMI) || (mode =? DeliveryMode.INIT) || (mode =? DeliveryMode.SIPI) || (mode =? DeliveryMode.EXTINT)).

(** The shared state [s'] is [s] with the request, and with nothing else. *)
Record requested_as (mode v : Z) (level : bool) (s s' : SharedState) : Prop := {
  ra_index : vp_index s' = vp_index s;
  ra_reset : software_enabled_on_reset s' = software_enabled_on_reset s;
  ra_irr : forall u, vector_ok u -> bank_bit (new_irr s') u = vectored mode && (v =? u) || bank_bit (new_irr s) u;
  ra_tmr : forall u, vector_ok u -> bank_bit (sh_tmr s') u = if vectored mode && (v =? u) then level else bank_bit (sh_tmr s) u;
  ra_auto : forall u, vector_ok u ->
    bank_bit (sh_auto_eoi s') u = if vectored mode && (v =? u) then false else bank_bit (sh_auto_eoi s) u;
  ra_nmi : work_nmi (work s') = (mode =? DeliveryMode.NMI) || work_nmi (work s);
  ra_init : work_init (work s') = (mode =? DeliveryMode.INIT) || work_init (work s);
  ra_sipi : work_sipi (work s') = (mode =? DeliveryMode.SIPI) || work_sipi (work s);
  ra_extint : work_extint (work s') = (mode =? DeliveryMode.EXTINT) || work_extint (work s);
  ra_vector : work_sipi_vector (work s') = if mode =? DeliveryMode.SIPI then v else work_sipi_vector (work s);
}.

(** The processor is not already about to look: the vector is not staged, or no
    other event waits. *)
Definition is_new (mode v : Z) (s : SharedState) : bool :=
  if vectored mode then negb (bank_bit (new_irr s) v) else work s =? 0.

Lemma testbit_with_sipi_vector v w i :
  0 <= v < 256 -> 0 <= i -> Z.testbit (with_sipi_vector v w) i =
    if (2 <=? i) && (i <? 10) then Z.testbit v (i - 2) else Z.testbit w i.
Proof.
  intros Hv Hi. unfold with_sipi_vector. rewrite Z.lor_spec, Z.ldiff_spec, !Z.shiftl_spec by done. change 0xff with (Z.ones 8).
  destruct (Z.leb_spec 2 i); cbn [andb].
  - rewrite testbit_ones by lia. destruct (Z.leb_spec 0 (i - 2)); [|lia]. cbn [andb].
    destruct (Z.ltb_spec i 10), (Z.ltb_spec (i - 2) 8); try lia; cbn [negb]; [by rewrite andb_false_r|].
    rewrite andb_true_r, (is_u_testbit_high 8 v) by (unfold is_u; lia). apply orb_false_r.
  - rewrite !(Z.testbit_neg_r _ (i - 2)) by lia. cbn [negb]. by rewrite andb_true_r, orb_false_r.
Qed.

Lemma work_sipi_vector_bits w w' :
  (forall i, 2 <= i < 10 -> Z.testbit w' i = Z.testbit w i) -> work_sipi_vector w' = work_sipi_vector w.
Proof.
  intros H. unfold work_sipi_vector, bits. apply Z.bits_inj'. intros i Hi. rewrite !Z.land_spec, testbit_ones, !Z.shiftr_spec by lia.
  destruct (Z.leb_spec 0 i), (Z.ltb_spec i 8); cbn [andb]; rewrite ?andb_false_r; try done. by rewrite H by lia.
Qed.

Lemma work_sipi_vector_with v w : 0 <= v < 256 -> work_sipi_vector (with_sipi_vector v w) = v.
Proof.
  intros Hv. unfold work_sipi_vector, bits. apply Z.bits_inj'. intros i Hi.
  rewrite Z.land_spec, testbit_ones, Z.shiftr_spec, testbit_with_sipi_vector by lia.
  destruct (Z.leb_spec 0 i), (Z.ltb_spec i 8), (Z.leb_spec 2 (i + 2)), (Z.ltb_spec (i + 2) 10); try lia; cbn [andb].
  - rewrite andb_true_r. f_equal. lia.
  - rewrite andb_false_r. symmetry. apply (is_u_testbit_high 8); unfold is_u; lia.
Qed.

Lemma testbit_with_bit n w i : 0 <= n -> 0 <= i -> Z.testbit (with_bit n true w) i = (i =? n) || Z.testbit w i.
Proof. intros Hn Hi. unfold with_bit. rewrite Z.lor_spec, testbit_pow2 by done. by rewrite orb_comm, Z.eqb_sym. Qed.

(** The other requests: a bit of the work word, and a vector. *)
Lemma work_request s mode v level :
  vector_ok v -> vectored mode = false ->
  let r := shared_request_interrupt true mode v level false s in
  let taken := (mode =? DeliveryMode.NMI) || (mode =? DeliveryMode.INIT) || (mode =? DeliveryMode.SIPI) || (mode =? DeliveryMode.EXTINT) in
  (forall sw, shared_request_interrupt sw mode v level false s = r) /\
  if taken then requested_as mode v level s r.1 /\ r.2 = (work s =? 0) else r = (s, false).
Proof.
  intros Hv Hvm. pose proof Hvm as Hm. unfold vectored in Hm. unfold shared_request_interrupt. rewrite Hm. cbn zeta. split; [done|].
  assert (forall n w', (forall i, 0 <= i -> i <> n -> ~ 2 <= i < 10 -> Z.testbit w' i = Z.testbit (work s) i) ->
    (n = 0 \/ n = 1 \/ n = 10 \/ n = 11) -> Z.testbit w' n = true ->
    work_sipi_vector w' = (if mode =? DeliveryMode.SIPI then v else work_sipi_vector (work s)) ->
    (mode =? DeliveryMode.NMI) = (n =? 11) -> (mode =? DeliveryMode.INIT) = (n =? 0) ->
    (mode =? DeliveryMode.SIPI) = (n =? 1) -> (mode =? DeliveryMode.EXTINT) = (n =? 10) ->
    requested_as mode v level s (s <| work := w' |>)) as Hw.
  { intros n w' H1 Hn H2 H3 E1 E2 E3 E4.
    assert (forall i, i = 0 \/ i = 1 \/ i = 10 \/ i = 11 -> Z.testbit w' i = (n =? i) || Z.testbit (work s) i) as Hb.
    { intros i Hi. destruct (Z.eqb_spec n i) as [<-|Hne]; [done|]. cbn [orb]. apply H1; clear -Hi Hne; lia. }
    split; cbn [vp_index software_enabled_on_reset new_irr sh_tmr sh_auto_eoi work]; try done; try (intros u Hu; by rewrite Hvm).
    - rewrite E1. apply (Hb 11). clear; lia.
    - rewrite E2. apply (Hb 0). clear; lia.
    - rewrite E3. apply (Hb 1). clear; lia.
    - rewrite E4. apply (Hb 10). clear; lia. }
  assert (forall n, n = 0 \/ n = 10 \/ n = 11 -> work_sipi_vector (with_bit n true (work s)) = work_sipi_vector (work s)) as Hk.
  { intros n Hn. apply work_sipi_vector_bits. intros i Hi. rewrite testbit_with_bit by lia. by destruct (Z.eqb_spec i n); [lia|]. }
  assert (forall n i, 0 <= n -> 0 <= i -> i <> n -> Z.testbit (with_bit n true (work s)) i = Z.testbit (work s) i) as Ho.
  { intros n i Hn Hi Hne. rewrite testbit_with_bit by lia. by destruct (Z.eqb_spec i n). }
  assert (forall n, 0 <= n -> Z.testbit (with_bit n true (work s)) n = true) as Hs.
  { intros n Hn. rewrite testbit_with_bit by done. by rewrite Z.eqb_refl. }
  destruct (Z.eqb_spec mode DeliveryMode.NMI) as [->|N1]; cbn [orb fst snd].
  { split; [|reflexivity]. apply (Hw 11); try reflexivity; [intros i Hi Hne _; apply Ho; lia|lia|apply Hs; lia|apply Hk; lia]. }
  destruct (Z.eqb_spec mode DeliveryMode.INIT) as [->|N2]; cbn [orb fst snd].
  { split; [|reflexivity]. apply (Hw 0); try reflexivity; [intros i Hi Hne _; apply Ho; lia|lia|apply Hs; lia|apply Hk; lia]. }
  destruct (Z.eqb_spec mode DeliveryMode.SIPI) as [->|N3]; cbn [orb fst snd].
  { split; [|reflexivity]. apply (Hw 1); try reflexivity; [|lia| |by apply work_sipi_vector_with].
    - intros i Hi Hne Hr. rewrite testbit_with_sipi_vector by done.
      destruct (Z.leb_spec 2 i), (Z.ltb_spec i 10); cbn [andb]; try lia; apply Ho; lia.
    - rewrite testbit_with_sipi_vector by (done || lia). cbn [Z.leb Z.compare andb]. apply Hs. lia. }
  destruct (Z.eqb_spec mode DeliveryMode.EXTINT) as [->|N4]; cbn [orb fst snd]; [|reflexivity].
  split; [|reflexivity]. apply (Hw 10); try reflexivity; [intros i Hi Hne _; apply Ho; lia|lia|apply Hs; lia|apply Hk; lia].
Qed.

(** What a request does to the APIC of a slot, and whether it wakes it. *)
Lemma deliver_exact slot mode v level s :
  shared_ok s -> vector_ok v ->
  let r := shared_request_interrupt (slot_software_enabled slot) mode v level false s in
  if accepts slot mode v then requested_as mode v level s (deliver slot mode v level s) /\ r.2 = is_new mode v s
  else deliver slot mode v level s = s /\ slot_hardware_enabled slot && r.2 = false.
Proof.
  intros Hs Hv. cbn zeta. unfold accepts, deliver, is_new. destruct (slot_hardware_enabled slot); [|done]. cbn [andb].
  destruct (vectored mode) eqn:Hm.
  - destruct (slot_software_enabled slot); cbn [andb]; [|unfold shared_request_interrupt; unfold vectored in Hm; by rewrite Hm].
    destruct (Z.leb_spec 16 v) as [H16|H16].
    + destruct (fixed_request s mode v level false Hs Hm) as (H1 & H2 & H3 & H4 & H5 & _); [unfold vector_ok in Hv; lia|].
      split; [|done]. assert ((mode =? DeliveryMode.NMI) = false /\ (mode =? DeliveryMode.INIT) = false /\
        (mode =? DeliveryMode.SIPI) = false /\ (mode =? DeliveryMode.EXTINT) = false) as (E1 & E2 & E3 & E4).
      { unfold vectored in Hm. by apply orb_true_iff in Hm as [->%Z.eqb_eq | ->%Z.eqb_eq]. }
      split; rewrite ?Hm, ?E1, ?E2, ?E3, ?E4, ?H5; try done.
      * unfold shared_request_interrupt. unfold vectored in Hm. rewrite Hm. by destruct (negb true || _).
      * unfold shared_request_interrupt. unfold vectored in Hm. rewrite Hm. by destruct (negb true || _).
    + unfold shared_request_interrupt. unfold vectored in Hm. rewrite Hm. destruct (Z.leb_spec 16 v); [lia|]. done.
  - destruct (work_request s mode v level Hv Hm) as [E H]. rewrite E. destruct (_ || _); [done|]. by rewrite H.
Qed.

(** No two of these slots are of the same APIC. *)
Definition apart (l : list ApicSlot) : Prop := NoDup (omap slot_shared l).

Lemma slots_apart slots : slots_distinct slots -> apart slots.
Proof.
  unfold apart, slots_distinct. induction slots as [|slot l IH]; intros H; cbn; [constructor|].
  assert (NoDup (omap slot_shared l)) as Hl.
  { apply IH. intros n m s s' p Hn Hm Hp Hp'. pose proof (H (S n) (S m) s s' p Hn Hm Hp Hp') as E. by injection E. }
  destruct (slot_shared slot) as [p|] eqn:Hp; [|done]. constructor; [|done].
  intros (s & Hs & Hsp)%list_elem_of_omap. apply list_elem_of_lookup in Hs as [k Hk].
  by specialize (H 0%nat (S k) slot s p eq_refl Hk Hp Hsp).
Qed.

Lemma apart_sublist l l' : l `sublist_of` l' -> apart l' -> apart l.
Proof.
  intros Hs Hd. apply (sublist_NoDup _ _ Hd). clear Hd. induction Hs as [|x l l' _ IH|x l l' _ IH]; cbn; [done|..].
  - destruct (slot_shared x); [by apply sublist_skip|done].
  - destruct (slot_shared x); [by apply sublist_cons|done].
Qed.

(** The processors that the requests wake, by the state before them all. *)
Lemma request_each_wakes mode v level l ar i :
  apart l ->
  i ∈ (request_each mode v level l ar).2 <->
  exists slot p s, slot ∈ l /\ slot_shared slot = Some p /\ ar !! p = Some s /\ vp_index s = i /\
    slot_hardware_enabled slot && (shared_request_interrupt (slot_software_enabled slot) mode v level false s).2 = true.
Proof.
  revert ar. induction l as [|slot l IH]; intros ar Hl; cbn [request_each].
  { cbn. split; [by intros ?%not_elem_of_nil|]. by intros (? & ? & ? & ?%not_elem_of_nil & _). }
  assert (apart l) as Hl' by (apply (apart_sublist l (slot :: l)); [by apply sublist_cons|done]).
  assert (forall slot' q, slot' ∈ l -> slot_shared slot' = Some q ->
    (slot_request_interrupt mode v level false slot ar).1 !! q = ar !! q) as Hother.
  { intros slot' q Hin Hq. rewrite slot_request_cell. case_decide as Hp; [|done]. exfalso.
    unfold apart in Hl. cbn in Hl. rewrite Hp in Hl. apply list.NoDup_cons in Hl as [Hn _]. apply Hn, list_elem_of_omap. by exists slot'. }
  pose proof (IH (slot_request_interrupt mode v level false slot ar).1 Hl') as IH1.
  assert (i ∈ (slot_request_interrupt mode v level false slot ar).2 <-> exists p s, slot_shared slot = Some p /\ ar !! p = Some s /\
    vp_index s = i /\ slot_hardware_enabled slot && (shared_request_interrupt (slot_software_enabled slot) mode v level false s).2 = true) as Hh.
  { unfold slot_request_interrupt. destruct (slot_shared slot) as [p|]; [|split; [by intros ?%not_elem_of_nil|naive_solver]].
    destruct (ar !! p) as [s|] eqn:Hs; [|split; [by intros ?%not_elem_of_nil|naive_solver]].
    destruct (slot_hardware_enabled slot); [|split; [by intros ?%not_elem_of_nil|naive_solver]].
    destruct (shared_request_interrupt _ _ _ _ _ s) as [s' w] eqn:Hw. cbn [snd]. split.
    - destruct w; [|by intros ?%not_elem_of_nil]. intros ->%list_elem_of_singleton. exists p, s. by rewrite Hw.
    - intros (q & s0 & [= <-] & Hs0 & <- & Hw0). rewrite Hs in Hs0. injection Hs0 as <-. rewrite Hw in Hw0. cbn in Hw0. subst w.
      by apply list_elem_of_singleton. }
  destruct (slot_request_interrupt mode v level false slot ar) as [ar1 w1]. cbn [fst snd] in *.
  destruct (request_each mode v level l ar1) as [ar2 w2]. cbn [snd] in *. rewrite elem_of_app, Hh, IH1. split.
  - intros [(p & s & ?)|(slot' & p & s & Hin & Hp & Hs & ?)]; [exists slot, p, s; by rewrite elem_of_cons; naive_solver|].
    exists slot', p, s. rewrite (Hother slot' p Hin Hp) in Hs. split; [by apply elem_of_cons; right|done].
  - intros (slot' & p & s & [-> | Hin]%elem_of_cons & Hp & Hs & ?); [left; by exists p, s|right].
    exists slot', p, s. rewrite (Hother slot' p Hin Hp). done.
Qed.

(** The state of an APIC after the requests. *)
Lemma request_each_cell mode v level l ar slot p :
  apart l -> slot_shared slot = Some p ->
  (slot ∈ l -> (request_each mode v level l ar).1 !! p = deliver slot mode v level <$> ar !! p) /\
  (slot ∉ l -> Forall (fun s => slot_shared s = Some p -> s = slot) l -> (request_each mode v level l ar).1 !! p = ar !! p).
Proof.
  intros Hl Hp. split.
  - intros (l1 & l2 & ->)%list_elem_of_split. unfold apart in Hl. rewrite omap_app in Hl. cbn in Hl. rewrite Hp in Hl.
    apply list.NoDup_app in Hl as (_ & Hd & [Hn _]%list.NoDup_cons).
    assert (forall l, p ∉ omap slot_shared l -> Forall (fun s => slot_shared s <> Some p) l) as Hmiss.
    { intros l Hnot. apply Forall_forall. intros s Hs Hsp. apply Hnot, list_elem_of_omap. exists s. by split; [apply list_elem_of_In|]. }
    rewrite request_each_app, request_each_cons, request_each_miss by (by apply Hmiss).
    rewrite slot_request_cell, decide_True by done. rewrite request_each_miss; [done|]. apply Hmiss. intros Hin.
    apply (Hd p Hin). apply elem_of_cons. by left.
  - intros Hnot Hall. apply request_each_miss. apply Forall_forall. intros s Hs Hsp.
    rewrite Forall_forall in Hall. apply Hnot. rewrite <-(Hall s Hs Hsp). by apply list_elem_of_In.
Qed.

Lemma selected_sublist f n l : selected f n l `sublist_of` l.
Proof.
  revert n. induction l as [|slot l IH]; intros n; cbn [selected]; [done|].
  destruct (f n slot); cbn [app]; [by apply sublist_skip|by apply sublist_cons].
Qed.

Lemma filter_sublist (f : ApicSlot -> bool) l : List.filter f l `sublist_of` l.
Proof. induction l as [|x l IH]; cbn; [done|]. destruct (f x); [by apply sublist_skip|by apply sublist_cons]. Qed.

Lemma recipients_sublist g d mode : recipients g d mode `sublist_of` by_apic_id g.
Proof.
  assert (arbitrate mode (selected (selects g d) 0 (by_apic_id g)) `sublist_of` by_apic_id g) as Ha.
  { unfold arbitrate. destruct (mode =? _); [|apply selected_sublist].
    etrans; [apply sublist_take|]. etrans; [apply filter_sublist|apply selected_sublist]. }
  unfold recipients. destruct d; [apply selected_sublist|exact Ha..].
Qed.

(** The first enabled one of a list, where [slot] is between [l1] and [l2]. *)
Lemma first_enabled (l1 l2 : list ApicSlot) slot (b : bool) :
  slot ∉ l1 -> slot ∉ l2 ->
  slot ∈ take 1 (List.filter slot_software_enabled (l1 ++ (if b then [slot] else []) ++ l2)) <->
  b && (slot_software_enabled slot && negb (existsb slot_software_enabled l1)) = true.
Proof.
  intros H1 H2. assert (forall l, slot ∉ l -> slot ∉ take 1 (List.filter slot_software_enabled l)) as Hnot.
  { intros l Hl Hin. apply Hl. eapply elem_of_sublist; [exact Hin|]. etrans; [apply sublist_take|apply filter_sublist]. }
  induction l1 as [|x l1 IH]; cbn [app existsb].
  - rewrite andb_true_r. destruct b; cbn [app List.filter andb]; [|split; [by intros ?%Hnot|done]].
    destruct (slot_software_enabled slot); [|split; [by intros ?%Hnot|done]]. cbn [take]. rewrite take_0. by rewrite list_elem_of_singleton.
  - apply not_elem_of_cons in H1 as [Hx H1]. cbn [List.filter]. destruct (slot_software_enabled x); [|by apply IH].
    cbn [take orb negb]. rewrite take_0, list_elem_of_singleton, !andb_false_r. done.
Qed.

Lemma recipients_receives g d mode n slot p :
  slots_distinct (by_apic_id g) -> by_apic_id g !! n = Some slot -> slot_shared slot = Some p ->
  slot ∈ recipients g d mode <-> receives g d mode n slot = true.
Proof.
  intros Hdist Hn Hp. pose proof (list_elem_of_split_length _ _ _ Hn) as (l1 & l2 & Hl & Hlen).
  pose proof (slots_apart _ Hdist) as Hap. unfold apart in Hap. rewrite Hl, omap_app in Hap. cbn in Hap. rewrite Hp in Hap.
  apply list.NoDup_app in Hap as (_ & Hd1 & Hd2). apply list.NoDup_cons in Hd2 as [Hd2 _].
  assert ((slot ∉ l1) /\ (slot ∉ l2)) as [N1 N2].
  { split; intros Hin; [apply (Hd1 p); [|apply elem_of_cons; by left]|apply Hd2]; apply list_elem_of_omap; by exists slot. }
  set (S1 := selected (selects g d) 0 l1). set (S2 := selected (selects g d) (S n) l2).
  assert (selected (selects g d) 0 (by_apic_id g) = S1 ++ (if selects g d n slot then [slot] else []) ++ S2) as Hsel.
  { rewrite Hl, selected_app. cbn [selected]. by replace (0 + length l1)%nat with n by lia. }
  assert (preceded g d n = existsb slot_software_enabled S1) as Hpre.
  { unfold preceded, S1. rewrite Hl, Hlen, take_app_length. done. }
  assert ((slot ∉ S1) /\ (slot ∉ S2)) as [M1 M2] by
    (split; intros Hin; [apply N1|apply N2]; exact (elem_of_sublist _ _ _ Hin (selected_sublist _ _ _))).
  assert (slot ∈ S1 ++ (if selects g d n slot then [slot] else []) ++ S2 <-> selects g d n slot = true) as Hin.
  { rewrite !elem_of_app. destruct (selects g d n slot); [rewrite list_elem_of_singleton|rewrite elem_of_nil]; naive_solver. }
  unfold recipients, receives, arbitrate. rewrite Hsel, Hpre. destruct d; [by rewrite Hin, andb_true_r| | |];
    (destruct (mode =? DeliveryMode.LOWEST_PRIORITY); cbn [negb orb]; [by apply first_enabled|by rewrite Hin, andb_true_r]).
Qed.

(** The slot and the shared state of an APIC, both by the processor's number. *)
Lemma slot_owner {C} `{Laws : TimeAccessLaws C} (sys : System (C:=C)) n slot p s :
  sys_ok sys -> by_apic_id (sys_global sys) !! n = Some slot -> slot_shared slot = Some p ->
  shareds (sys_global sys) !! p = Some s ->
  exists j vp, sys_vps sys !! j = Some vp /\ vp_index s = Z.of_nat j /\ Z.to_nat (id (vp_apic vp)) = n /\ shared (vp_apic vp) = p.
Proof.
  intros HS Hn Hp Hs. destruct (so_owned _ HS n slot p Hn Hp) as (j & vp & Hvp & Hid). exists j, vp.
  destruct (ap_slot _ _ _ (vo_apic _ _ _ _ (so_vps _ HS j vp Hvp))) as (slot0 & Hsl0 & Hmi). rewrite Hid, Hn in Hsl0. injection Hsl0 as <-.
  assert (shared (vp_apic vp) = p) as Hsh by (rewrite (mi_shared _ _ Hmi) in Hp; congruence).
  destruct (vo_index _ _ _ _ (so_vps _ HS j vp Hvp)) as (s0 & Hs0 & Hk). rewrite Hsh, Hs in Hs0. injection Hs0 as <-. done.
Qed.

(** A wake of processor [j] comes from the slot of its APIC. *)
Lemma woken_slot {C} `{Laws : TimeAccessLaws C} (sys : System (C:=C)) j vp slot s d mode slot' p' s' :
  sys_ok sys -> sys_vps sys !! j = Some vp -> by_apic_id (sys_global sys) !! Z.to_nat (id (vp_apic vp)) = Some slot ->
  shareds (sys_global sys) !! shared (vp_apic vp) = Some s ->
  slot' ∈ recipients (sys_global sys) d mode -> slot_shared slot' = Some p' -> shareds (sys_global sys) !! p' = Some s' ->
  vp_index s' = Z.of_nat j -> slot' = slot /\ s' = s.
Proof.
  intros HS Hvp Hsl Hs Hin Hp' Hs' Hi'.
  pose proof (elem_of_sublist _ _ _ Hin (recipients_sublist _ d mode)) as Hel. apply list_elem_of_lookup in Hel as [n Hn].
  destruct (slot_owner sys n slot' p' s' HS Hn Hp' Hs') as (k & vq & Hvq & Hk & Hid & Hsh).
  assert (k = j) as -> by lia. rewrite Hvp in Hvq. injection Hvq as <-. split; congruence.
Qed.

(** C16: an interrupt request, of any delivery mode and to any destination, does
    exactly what it should to every processor of a set in any state that
    operations led to. It goes to the APICs that the destination selects. A
    physical destination selects one APIC; a logical one, in x2APIC mode, the
    members of the cluster whose bit is set, in cluster mode the APICs of that
    cluster whose logical identifiers meet, and otherwise those whose logical
    identifiers meet; a lowest-priority request that is not physical goes to the
    first of them that is enabled. An APIC that it goes to and that accepts it
    has afterwards that request and nothing else besides what it had: a vector
    with its trigger mode, if the APIC is enabled and the vector is 16 or more,
    or one of the events NMI, INIT, SIPI and EXTINT. Every other APIC is left as
    it was. A processor is woken if and only if its APIC took the request and
    did not have the vector, or any event, already; and nothing else is woken. *)
Theorem routing_exact {C} `{Laws : TimeAccessLaws C} avoid (sys : System (C:=C)) d mode v level :
  apic_reachable avoid sys -> (forall i, d = Physical i \/ d = Logical i -> 0 <= i) -> vector_ok v ->
  let g := sys_global sys in
  let r := request_arena g d mode v level (shareds g) in
  (forall j vp slot s, sys_vps sys !! j = Some vp -> by_apic_id g !! Z.to_nat (id (vp_apic vp)) = Some slot ->
    shareds g !! shared (vp_apic vp) = Some s ->
    let takes := receives g d mode (Z.to_nat (id (vp_apic vp))) slot && accepts slot mode v in
    exists s', r.1 !! shared (vp_apic vp) = Some s' /\ (if takes then requested_as mode v level s s' else s' = s) /\
      (Z.of_nat j ∈ r.2 <-> takes && is_new mode v s = true)) /\
  (forall i, i ∈ r.2 -> exists j, i = Z.of_nat j /\ is_Some (sys_vps sys !! j)).
Proof.
  intros Hr Hd Hv g r. apply reachable_ok in Hr as HS. pose proof (sys_distinct _ HS) as Hdist. fold g in Hdist.
  pose proof (apart_sublist _ _ (recipients_sublist g d mode) (slots_apart _ Hdist)) as Hap.
  unfold r. rewrite (request_arena_each g d mode v level _ Hd). split.
  - intros j vp slot s Hvp Hsl Hs. destruct (ap_slot _ _ _ (vo_apic _ _ _ _ (so_vps _ HS j vp Hvp))) as (slot0 & Hsl0 & Hmi).
    fold g in Hsl0. rewrite Hsl in Hsl0. injection Hsl0 as <-. pose proof (mi_shared _ _ Hmi) as Hp.
    destruct (vo_index _ _ _ _ (so_vps _ HS j vp Hvp)) as (s0 & Hs0 & Hi). fold g in Hs0. rewrite Hs in Hs0. injection Hs0 as <-.
    pose proof (recipients_receives g d mode _ slot _ Hdist Hsl Hp) as Hrec.
    pose proof (Forall_lookup_1 _ _ _ _ (g_ok_shared _ (so_global _ HS)) Hs) as Hok.
    pose proof (deliver_exact slot mode v level s Hok Hv) as Hde. cbn zeta in Hde.
    assert (forall slot' p' s', slot' ∈ recipients g d mode -> slot_shared slot' = Some p' -> shareds g !! p' = Some s' ->
      vp_index s' = Z.of_nat j -> slot' = slot /\ s' = s) as Huniq
      by (intros slot' p' s'; by apply (woken_slot sys j vp slot s d mode slot' p' s')).
    destruct (request_each_cell mode v level (recipients g d mode) (shareds g) slot _ Hap Hp) as [Hyes Hno].
    assert (Z.of_nat j ∈ (request_each mode v level (recipients g d mode) (shareds g)).2 <->
      receives g d mode (Z.to_nat (id (vp_apic vp))) slot = true /\
      slot_hardware_enabled slot && (shared_request_interrupt (slot_software_enabled slot) mode v level false s).2 = true) as Hw.
    { rewrite request_each_wakes, <-Hrec by done. split.
      - intros (slot' & p' & s' & Hin & Hp' & Hs' & Hi' & Hwake). by destruct (Huniq slot' p' s') as [-> ->].
      - intros [Hin Hwake]. by exists slot, (shared (vp_apic vp)), s. }
    destruct (receives g d mode (Z.to_nat (id (vp_apic vp))) slot) eqn:Hreq; cbn [andb].
    + rewrite (Hyes (proj2 Hrec eq_refl)), Hs. eexists. split; [reflexivity|]. rewrite Hw.
      destruct (accepts slot mode v) eqn:Hacc; destruct Hde as [D1 D2]; (split; [exact D1|]); cbn [andb].
      * unfold accepts in Hacc. apply andb_prop in Hacc as [Hhw _]. rewrite Hhw, D2. cbn [andb]. tauto.
      * rewrite D2. split; [by intros [_ ?]|done].
    + exists s. rewrite Hw. split; [|split; [done|split; [by intros [? _]|done]]]. rewrite Hno; [done| |].
      * intros Hin. apply Hrec in Hin. congruence.
      * apply Forall_forall. intros s' Hin%list_elem_of_In Hp'. by destruct (Huniq s' _ s Hin Hp' Hs Hi).
  - intros i Hi%request_each_wakes; [|done]. destruct Hi as (slot & p & s & Hin & Hp & Hs & <- & _).
    pose proof (elem_of_sublist _ _ _ Hin (recipients_sublist g d mode)) as Hel. apply list_elem_of_lookup in Hel as [n Hn].
    destruct (slot_owner sys n slot p s HS Hn Hp Hs) as (j & vp & Hvp & Hj & _). exists j. by rewrite Hvp.
Qed.

Lemma routing_exact_witness :
  let r := request_arena (sys_global example_system) (Physical 0) DeliveryMode.FIXED 0x50 true (shareds (sys_global example_system)) in
  0 ∈ r.2.
Proof.
  destruct (routing_exact _ example_system (Physical 0) DeliveryMode.FIXED 0x50 true example_reachable) as [H _].
  - intros i [[= <-]|[=]]. lia.
  - by split.
  - assert (match by_apic_id (sys_global example_system) !! Z.to_nat (id (vp_apic example_vp)),
        shareds (sys_global example_system) !! shared (vp_apic example_vp) with
      | Some slot, Some s => receives (sys_global example_system) (Physical 0) DeliveryMode.FIXED (Z.to_nat (id (vp_apic example_vp))) slot &&
          accepts slot DeliveryMode.FIXED 0x50 && is_new DeliveryMode.FIXED 0x50 s = true
      | _, _ => False end) as Ht by (vm_compute; reflexivity).
    destruct (by_apic_id (sys_global example_system) !! _) as [slot|] eqn:Hsl; [|destruct Ht].
    destruct (shareds (sys_global example_system) !! shared (vp_apic example_vp)) as [s|] eqn:Hs; [|destruct Ht].
    destruct (H 0%nat example_vp slot s ltac:(vm_compute; reflexivity) Hsl Hs) as (s' & _ & _ & Hw). apply Hw. exact Ht.
Defined.

Lemma msi_requests_witness :
  exists sys', exec (OpMsi 0xFEE00000 0x50) example_system = Ok sys' /\
    (requested sys' 0 0x50 <->
      requested example_system 0 0x50 \/
      (0x50 = msi_data_vector 0x50 /\ 16 <= 0x50 /\ reaches 0xFEE00000 example_system example_vp = true)).
Proof.
  eexists. split; [reflexivity|].
  apply (msi_requests _ example_system _ 0xFEE00000 0x50 0 example_vp 0x50 example_reachable);
    [reflexivity|vm_compute; reflexivity|vm_compute; reflexivity|by split].
Defined.
