(* ===== verification/IrqRouting.v ===== *)
(** From the I/O APIC to the hypervisor: the message of an interrupt request,
    the table of routes of a partition ([vmm_core/virt/src/irqcon.rs]) and the
    routing through an interrupt-remapping IOMMU
    ([openvmm/openvmm_core/src/worker/dispatch/ioapic_iommu_wiring.rs]).

    A message is the pair of its address and its data. The methods of a routing
    run under its lock, one at a time; tracing has no model. *)

From S2P Require Import Prelude ChipsetDevice.
From S2P Require IoApic LocalApic.

Definition IRQ_LINES : Z := 24.

(** * Messages *)

(** [MsiAddress::with_virt_destination] for the fields of a new address. *)
Definition virt_destination_fields (destination : Z) : Z * Z :=
  (ucast 8 destination, Z.land (ucast 8 (Z.shiftr destination 7)) (unot 8 1)).

(** [MsiRequest::new_x86]. *)
Definition new_x86 (mode destination : Z) (is_logical_destination : bool) (vector : Z)
    (is_level_triggered : bool) : Z * Z :=
  let '(low, high) := virt_destination_fields (ucast 16 destination) in
  (IoApic.msi_address low high is_logical_destination (mode =? LocalApic.DeliveryMode.LOWEST_PRIORITY),
   IoApic.msi_data vector (Z.land mode 0x7) false is_level_triggered is_level_triggered).

(** [MsiRequest::as_x86]. *)
Definition as_x86 (request : Z * Z) : Z * Z := (ucast 32 request.1, request.2).

Module HvInterruptType.
Definition HvX64InterruptTypeFixed : Z := 0.
Definition HvX64InterruptTypeLowestPriority : Z := 1.
Definition HvX64InterruptTypeSmi : Z := 2.
Definition HvX64InterruptTypeRemoteRead : Z := 3.
Definition HvX64InterruptTypeNmi : Z := 4.
Definition HvX64InterruptTypeInit : Z := 5.
Definition HvX64InterruptTypeSipi : Z := 6.
End HvInterruptType.

(** [HvInterruptControl]: the type, then the two flags of x86. *)
Definition interrupt_control (ty : Z) (level logical : bool) : Z :=
  Z.lor ty (Z.lor (Z.shiftl (b2z level) 32) (Z.shiftl (b2z logical) 33)).

(** [MsiRequest::hv_x86_interrupt_control]. *)
Definition hv_x86_interrupt_control (request : Z * Z) : Z :=
  let '(address, data) := as_x86 request in
  let mode := LocalApic.msi_data_delivery_mode data in
  let ty :=
    if mode =? LocalApic.DeliveryMode.FIXED then HvInterruptType.HvX64InterruptTypeFixed
    else if mode =? LocalApic.DeliveryMode.LOWEST_PRIORITY then HvInterruptType.HvX64InterruptTypeLowestPriority
    else if mode =? LocalApic.DeliveryMode.SMI then HvInterruptType.HvX64InterruptTypeSmi
    else if mode =? LocalApic.DeliveryMode.REMOTE_READ then HvInterruptType.HvX64InterruptTypeRemoteRead
    else if mode =? LocalApic.DeliveryMode.NMI then HvInterruptType.HvX64InterruptTypeNmi
    else if mode =? LocalApic.DeliveryMode.INIT then HvInterruptType.HvX64InterruptTypeInit
    else if mode =? LocalApic.DeliveryMode.SIPI then HvInterruptType.HvX64InterruptTypeSipi
    else unot 32 0 in
  interrupt_control ty (LocalApic.msi_data_trigger_mode_level data) (LocalApic.msi_address_logical address).

(** * Routing *)

(** The trait [IoApicRouting]. *)
Class IoApicRouting (R : Type) : Type := {
  set_irq_route : forall {E}, Z -> option (Z * Z) -> R -> res E R;
  assert_irq : forall {E}, Z -> R -> res E R;
}.

(** [IrqRoutes]: its lock holds the routes. *)
Definition routes_new : list (option (Z * Z)) := replicate (Z.to_nat IRQ_LINES) None.

Definition routes_set_irq_route {E} (irq : Z) (request : option (Z * Z)) (routes : list (option (Z * Z)))
    : res E (list (option (Z * Z))) :=
  vec_set routes irq request.

(** [IrqRoutes::assert_irq], with the closure [assert] on what it captures. *)
Definition routes_assert_irq {E S} (irq : Z) (assert : Z * Z -> S -> S) (routes : list (option (Z * Z)))
    (s : S) : res E S :=
  let! request := vec_get routes irq in
  Ok (match request with
      | Some request => assert request s
      | None => s
      end).

Section Partition.

(** What the partition does with a message: [WhpPartitionInner::interrupt],
    [UhPartitionInner::request_msi]. *)
Context {S : Type} (interrupt : Z * Z -> S -> S).

Record Partition : Type := mkPartition {
  irq_routes : list (option (Z * Z));
  target : S;
}.

Definition partition_routing : IoApicRouting Partition := {|
  set_irq_route _ irq request p :=
    let! routes := routes_set_irq_route irq request (irq_routes p) in
    Ok (mkPartition routes (target p));
  assert_irq _ irq p :=
    let! s := routes_assert_irq irq interrupt (irq_routes p) (target p) in
    Ok (mkPartition (irq_routes p) s);
|}.

End Partition.

Arguments Partition : clear implicits.
Arguments mkPartition {S} _ _.

(** * Interrupt remapping *)

(** The trait [InterruptRemapper]: the translation of the message of a device;
    a fault may be recorded. *)
Class InterruptRemapper (M : Type) : Type := {
  remap_msi : Z -> Z -> Z -> M -> option (Z * Z) * M;
}.

(** One bit for every line. *)
Definition ALL_IRQS : Z := Z.shiftl 1 IRQ_LINES - 1.

Record Route : Type := mkRoute {
  raw : option (Z * Z);
  programmed : option (Z * Z);
}.

Definition route_default : Route := mkRoute None None.

Record RemapState (M : Type) : Type := mkRemap {
  rid : Z;
  remapper : M;
}.

Arguments mkRemap {M} _ _.
Arguments rid {M} _.
Arguments remapper {M} _.

Record IoApicRoutingInner (R M : Type) : Type := mkInner {
  hv_routing : R;
  dirty : Z;
  remap : option (RemapState M);
  routes : list Route;
}.

Arguments mkInner {R M} _ _ _ _.
Arguments hv_routing {R M} _.
Arguments dirty {R M} _.
Arguments remap {R M} _.
Arguments routes {R M} _.

#[global] Instance IoApicRoutingInner_settable R M : Settable (IoApicRoutingInner R M) := fun r =>
  mkInner (hv_routing r) (dirty r) (remap r) (routes r).

Section Remapping.

Context {R M : Type} `{IoApicRouting R} `{InterruptRemapper M}.

Definition connection_new (hv : R) : IoApicRoutingInner R M :=
  mkInner hv 0 None (replicate (Z.to_nat IRQ_LINES) route_default).

Definition mark_dirty (mask : Z) (r : IoApicRoutingInner R M) : IoApicRoutingInner R M :=
  r <| dirty := Z.lor (dirty r) mask |>.

Definition clear_dirty (mask : Z) (r : IoApicRoutingInner R M) : IoApicRoutingInner R M :=
  r <| dirty := Z.land (dirty r) (unot 32 mask) |>.

(** [connect_remapper], but for the registration with the remapper. *)
Definition connect_remapper {E} (rid : Z) (remapper : M) (r : IoApicRoutingInner R M)
    : res E (IoApicRoutingInner R M) :=
  assert! bool_decide (remap r = None) in
  Ok (mark_dirty ALL_IRQS (r <| remap := Some (mkRemap rid remapper) |>)).

(** The translation of the raw route, and the remapper after it. *)
Definition translated (route : Route) (rm : option (RemapState M)) : option (Z * Z) * option (RemapState M) :=
  match rm with
  | Some s =>
      match raw route with
      | Some q =>
          let '(t, m) := remap_msi (rid s) q.1 q.2 (remapper s) in
          (t, Some (mkRemap (rid s) m))
      | None => (None, rm)
      end
  | None => (raw route, rm)
  end.

Definition set_route {E} (irq : Z) (r : IoApicRoutingInner R M) : res E (IoApicRoutingInner R M) :=
  let! route := vec_get (routes r) irq in
  let '(t, rm) := translated route (remap r) in
  let r := r <| remap := rm |> in
  let! r :=
    if negb (bool_decide (programmed route = t)) then
      let! l := vec_set (routes r) irq (mkRoute (raw route) t) in
      let! hv := set_irq_route irq t (hv_routing r) in
      Ok (r <| routes := l |> <| hv_routing := hv |>)
    else Ok r in
  let! mask := ushl 32 1 irq in
  Ok (clear_dirty mask r).

Definition inner_set_irq_route {E} (irq : Z) (request : option (Z * Z)) (r : IoApicRoutingInner R M)
    : res E (IoApicRoutingInner R M) :=
  let! route := vec_get (routes r) irq in
  let! l := vec_set (routes r) irq (mkRoute request (programmed route)) in
  let r := r <| routes := l |> in
  match remap r with
  | Some _ => let! mask := ushl 32 1 irq in Ok (mark_dirty mask r)
  | None => set_route irq r
  end.

Definition inner_assert_irq {E} (irq : Z) (r : IoApicRoutingInner R M) : res E (IoApicRoutingInner R M) :=
  let! mask := ushl 32 1 irq in
  let! r := if negb (Z.land (dirty r) mask =? 0) then set_route irq r else Ok r in
  let! hv := assert_irq irq (hv_routing r) in
  Ok (r <| hv_routing := hv |>).

Definition device_id (r : IoApicRoutingInner R M) : Z :=
  match remap r with Some s => rid s | None => 0 end.

Definition retranslate (r : IoApicRoutingInner R M) : IoApicRoutingInner R M := mark_dirty ALL_IRQS r.

#[global] Instance inner_routing : IoApicRouting (IoApicRoutingInner R M) := {|
  set_irq_route _ := inner_set_irq_route;
  assert_irq _ := inner_assert_irq;
|}.

End Remapping.
