(* ===== verification/IrqRoutingSpec.v ===== *)
(** What an implementation of [IoApicRouting] promises to the I/O APIC, and that
    the table of routes of a partition and the remapping through an IOMMU keep
    the promise; messages are decoded as they were made. *)

From stdpp Require Import sets.
From S2P Require Import Prelude ChipsetDevice IrqRouting IoApic IoApicSpec.
From S2P Require LocalApic.

Definition is_line (irq : Z) : Prop := 0 <= irq < IRQ_LINES.

(** * The interface *)

(** A routing sends messages to a target by [interrupt]. Asserting a line sends
    its message, if it has one; setting a route sets the message of that line
    to the translation of the route, and sends nothing. *)
Class IoApicRoutingLaws {S : Type} (interrupt : Z * Z -> S -> S) (R : Type) `{IoApicRouting R} : Type := {
  ir_inv : R -> Prop;
  ir_target : R -> S;
  ir_translate : R -> Z * Z -> option (Z * Z);
  ir_message : R -> Z -> option (Z * Z);
  ir_set_ok : forall {E} irq q r, ir_inv r -> is_line irq ->
    exists r', set_irq_route (E:=E) irq q r = Ok r' /\ ir_inv r' /\ ir_target r' = ir_target r /\
      (forall m, ir_translate r' m = ir_translate r m) /\
      forall i, is_line i -> ir_message r' i = if i =? irq then q ≫= ir_translate r else ir_message r i;
  ir_assert_ok : forall {E} irq r, ir_inv r -> is_line irq ->
    exists r', assert_irq (E:=E) irq r = Ok r' /\ ir_inv r' /\
      ir_target r' = match ir_message r irq with Some m => interrupt m (ir_target r) | None => ir_target r end /\
      (forall m, ir_translate r' m = ir_translate r m) /\
      forall i, is_line i -> ir_message r' i = ir_message r i;
}.

(** * The table of a partition *)

#[global] Instance partition_laws {S} (interrupt : Z * Z -> S -> S) :
  IoApicRoutingLaws (H:=partition_routing interrupt) interrupt (Partition S).
Proof.
  refine {|
    ir_inv := fun p : Partition S => length (irq_routes p) = Z.to_nat IRQ_LINES;
    ir_target := target;
    ir_translate := fun _ => Some;
    ir_message := fun p irq => irq_routes p !!! Z.to_nat irq;
  |}; intros E irq.
  - intros q [l s] Hl Hi. unfold is_line in Hi. cbn in *. unfold routes_set_irq_route.
    rewrite vec_set_ok by lia. cbn [res_bind]. eexists. split; [reflexivity|]. cbn. rewrite length_insert.
    split_and!; try done. intros i Hi'. unfold is_line in Hi'. destruct (Z.eqb_spec i irq) as [->|Hne].
    + rewrite list_lookup_total_insert_eq by lia. by destruct q.
    + by rewrite list_lookup_total_insert_ne by lia.
  - intros [l s] Hl Hi. unfold is_line in Hi. cbn in *. unfold routes_assert_irq.
    destruct (vec_get_ok (E:=E) l irq) as (o & -> & Ho); [lia|]. cbn [res_bind].
    eexists. split; [reflexivity|]. cbn. rewrite (list_lookup_total_correct _ _ _ Ho). done.
Defined.

(** * Remapping *)

(** Looking up a translation does not change the translations, in the states of
    an invariant. *)
Class RemapperLaws (M : Type) `{InterruptRemapper M} : Type := {
  remap_inv : M -> Prop;
  remap_stable d a x d' a' x' m : is_u 16 d -> is_u 16 d' -> remap_inv m ->
    (remap_msi d a x (remap_msi d' a' x' m).2).1 = (remap_msi d a x m).1;
  remap_keeps d a x m : is_u 16 d -> remap_inv m -> remap_inv (remap_msi d a x m).2;
}.

#[global] Instance Route_inhabited : Inhabited Route := populate route_default.

Section Remapping.

Context {S : Type} {interrupt : Z * Z -> S -> S} {R M : Type}.
Context `{HR : IoApicRouting R} `{LR : !IoApicRoutingLaws interrupt R}.
Context `{HM : InterruptRemapper M} `{LM : !RemapperLaws M}.

Implicit Type r : IoApicRoutingInner R M.

(** The route [q] translated by the remapper of [rm]. *)
Definition through (rm : option (RemapState M)) (q : Z * Z) : option (Z * Z) :=
  match rm with
  | Some s => (remap_msi (rid s) q.1 q.2 (remapper s)).1
  | None => Some q
  end.

Definition raw_route r (irq : Z) : option (Z * Z) := raw (routes r !!! Z.to_nat irq).
Definition programmed_route r (irq : Z) : option (Z * Z) := programmed (routes r !!! Z.to_nat irq).

(** The identifier and the state of the remapper are in order. *)
Definition remap_ok (rm : option (RemapState M)) : Prop :=
  forall s, rm = Some s -> is_u 16 (rid s) /\ remap_inv (remapper s).

Lemma translated_spec route rm :
  remap_ok rm ->
  (translated route rm).1 = raw route ≫= through rm /\ remap_ok (translated route rm).2 /\
  forall q, through (translated route rm).2 q = through rm q.
Proof.
  intros Hok. unfold translated, through. destruct rm as [s|].
  - destruct (Hok s eq_refl) as [Hr Hinv]. destruct (raw route) as [q|]; [|done]. cbn [mbind option_bind].
    pose proof (fun a x => remap_stable (rid s) a x (rid s) q.1 q.2 (remapper s) Hr Hr Hinv) as Hst.
    pose proof (remap_keeps (rid s) q.1 q.2 (remapper s) Hr Hinv) as Hk.
    destruct (remap_msi (rid s) q.1 q.2 (remapper s)) as [t m]. split; [done|]. split.
    + by intros s' [= <-].
    + intros q'. apply Hst.
  - split; [by destruct (raw route)|done].
Qed.

(** The hypervisor has the route that was last programmed. *)
Record linked r : Prop := {
  lk_hv : ir_inv (hv_routing r);
  lk_len : length (routes r) = Z.to_nat IRQ_LINES;
  lk_dirty : is_u 32 (dirty r);
  lk_programmed : forall i, is_line i ->
    ir_message (hv_routing r) i = programmed_route r i ≫= ir_translate (hv_routing r);
  lk_remap : remap_ok (remap r);
}.

(** A line that is not dirty is programmed with its translation. *)
Definition fresh r : Prop :=
  forall i, is_line i -> Z.testbit (dirty r) i = false -> programmed_route r i = raw_route r i ≫= through (remap r).

Lemma is_line_bound i : is_line i -> 0 <= i < 24.
Proof. done. Qed.

Lemma mark_linked mask r : is_u 32 mask -> linked r -> linked (mark_dirty mask r).
Proof. intros Hm [L1 L2 L3 L4 L5]. split; try done. cbn. auto with word. Qed.

(** [set_route] programs the translation of one line. *)
Lemma set_route_ok {E} irq r :
  linked r -> is_line irq ->
  exists r', set_route (E:=E) irq r = Ok r' /\ linked r' /\ (forall q, through (remap r') q = through (remap r) q) /\
    ir_target (hv_routing r') = ir_target (hv_routing r) /\
    (forall m, ir_translate (hv_routing r') m = ir_translate (hv_routing r) m) /\
    (forall i, raw_route r' i = raw_route r i) /\
    (forall i, is_line i -> programmed_route r' i = if i =? irq then raw_route r irq ≫= through (remap r) else programmed_route r i) /\
    (forall i, is_line i -> Z.testbit (dirty r') i = negb (i =? irq) && Z.testbit (dirty r) i).
Proof.
  intros [L1 L2 L3 L4 L5] Hi. pose proof (is_line_bound _ Hi) as Hb. unfold set_route. change IRQ_LINES with 24 in *.
  destruct (vec_get_ok (E:=E) (routes r) irq) as (route & -> & Hroute); [lia|]. cbn [res_bind].
  assert (routes r !!! Z.to_nat irq = route) as Htot by (by apply list_lookup_total_correct).
  pose proof (translated_spec route (remap r) L5) as (T1 & T3 & T2). destruct (translated route (remap r)) as [t rm].
  cbn [fst snd] in T1, T2, T3. rewrite ushl_1 by lia.
  assert (forall hv l, ir_inv hv -> ir_target hv = ir_target (hv_routing r) ->
    (forall m, ir_translate hv m = ir_translate (hv_routing r) m) ->
    length l = 24%nat -> (forall i, raw (l !!! Z.to_nat i) = raw_route r i) ->
    (forall i, is_line i -> programmed (l !!! Z.to_nat i) = if i =? irq then t else programmed_route r i) ->
    (forall i, is_line i -> ir_message hv i = programmed (l !!! Z.to_nat i) ≫= ir_translate hv) ->
    let r' := mkInner hv (Z.land (dirty r) (unot 32 (2 ^ irq))) rm l in
    linked r' /\ (forall q, through (remap r') q = through (remap r) q) /\
    ir_target (hv_routing r') = ir_target (hv_routing r) /\
    (forall m, ir_translate (hv_routing r') m = ir_translate (hv_routing r) m) /\
    (forall i, raw_route r' i = raw_route r i) /\
    (forall i, is_line i -> programmed_route r' i = if i =? irq then raw_route r irq ≫= through (remap r) else programmed_route r i) /\
    (forall i, is_line i -> Z.testbit (dirty r') i = negb (i =? irq) && Z.testbit (dirty r) i)) as Hfin.
  { intros hv l H1 H2 H3 H4 H5 H6 H7 r'. split; [|split_and!; try done].
    - split; try done. cbn. auto with word.
    - intros i Hl. unfold programmed_route, r'. cbn. rewrite H6 by done. unfold raw_route. by rewrite Htot, T1.
    - intros i Hl. pose proof (is_line_bound _ Hl). cbn. rewrite Z.land_spec, testbit_unot, testbit_pow2 by lia.
      rewrite (Z.eqb_sym irq i).
      destruct (Z.leb_spec 0 i), (Z.ltb_spec i 32); try lia. by rewrite andb_comm. }
  case_bool_decide as Hp; cbn [negb].
  - cbn [res_bind]. eexists. split; [reflexivity|]. apply (Hfin (hv_routing r) (routes r)); try done.
    intros i Hl. destruct (Z.eqb_spec i irq) as [->|]; [by rewrite Htot|done].
  - rewrite vec_set_ok by (cbn; lia). cbn [res_bind].
    destruct (ir_set_ok (E:=E) irq t (hv_routing r) L1 Hi) as (hv & Hset & H1 & H2 & H3 & H4).
    change (hv_routing (r <| remap := rm |>)) with (hv_routing r). rewrite Hset. cbn [res_bind].
    eexists. split; [reflexivity|].
    assert (forall i, is_line i -> programmed (<[Z.to_nat irq := mkRoute (raw route) t]> (routes r) !!! Z.to_nat i) =
      if i =? irq then t else programmed_route r i) as Hprog.
    { intros i Hl. pose proof (is_line_bound _ Hl). destruct (Z.eqb_spec i irq) as [->|].
      - by rewrite list_lookup_total_insert_eq by lia.
      - by rewrite list_lookup_total_insert_ne by lia. }
    apply (Hfin hv (<[Z.to_nat irq := mkRoute (raw route) t]> (routes r))); try done.
    + rewrite length_insert. lia.
    + intros i. unfold raw_route. destruct (decide (Z.to_nat i = Z.to_nat irq)) as [->|].
      * rewrite list_lookup_total_insert_eq by lia. by rewrite Htot.
      * by rewrite list_lookup_total_insert_ne by done.
    + intros i Hl. rewrite H4, Hprog by done. destruct (Z.eqb_spec i irq) as [->|].
      * destruct t; [cbn; by rewrite H3|done].
      * rewrite L4 by done. destruct (programmed_route r i); [cbn; by rewrite H3|done].
Qed.

(** How the routing translates a route, and the message of a line. *)
Definition inner_translate r (q : Z * Z) : option (Z * Z) := through (remap r) q ≫= ir_translate (hv_routing r).
Definition inner_message r (i : Z) : option (Z * Z) := raw_route r i ≫= inner_translate r.

Lemma inner_translate_eq r r' :
  (forall q, through (remap r') q = through (remap r) q) ->
  (forall m, ir_translate (hv_routing r') m = ir_translate (hv_routing r) m) ->
  forall q, inner_translate r' q = inner_translate r q.
Proof. intros H1 H2 q. unfold inner_translate. rewrite H1. destruct (through (remap r) q); [apply H2|done]. Qed.

Lemma bind_eq {A B} (o : option A) (f g : A -> option B) : (forall x, f x = g x) -> o ≫= f = o ≫= g.
Proof. intros Hfg. destruct o; [apply Hfg|done]. Qed.

Lemma fresh_eq r r' (irq : Z) :
  (forall q, through (remap r') q = through (remap r) q) ->
  (forall i, is_line i -> i <> irq -> Z.testbit (dirty r') i = Z.testbit (dirty r) i /\
    programmed_route r' i = programmed_route r i /\ raw_route r' i = raw_route r i) ->
  (is_line irq -> Z.testbit (dirty r') irq = false ->
    programmed_route r' irq = raw_route r' irq ≫= through (remap r)) ->
  fresh r -> fresh r'.
Proof.
  intros Ht Ho Hi Hf i Hl Hd. rewrite (bind_eq _ _ _ Ht). destruct (decide (i = irq)) as [->|Hne]; [by apply Hi|].
  destruct (Ho i Hl Hne) as (E1 & -> & ->). apply Hf; [done|congruence].
Qed.

Lemma inner_set_ok {E} irq q r :
  linked r -> is_line irq ->
  exists r', inner_set_irq_route (E:=E) irq q r = Ok r' /\ linked r' /\ (fresh r -> fresh r') /\
    ir_target (hv_routing r') = ir_target (hv_routing r) /\
    (forall m, inner_translate r' m = inner_translate r m) /\
    (forall i, is_line i -> raw_route r' i = if i =? irq then q else raw_route r i) /\
    (remap r <> None -> remap r' = remap r).
Proof.
  intros HL Hi. pose proof HL as [L1 L2 L3 L4 L5]. pose proof (is_line_bound _ Hi) as Hb.
  unfold inner_set_irq_route. change IRQ_LINES with 24 in *.
  destruct (vec_get_ok (E:=E) (routes r) irq) as (route & -> & Hroute); [lia|]. cbn [res_bind].
  assert (routes r !!! Z.to_nat irq = route) as Htot by (by apply list_lookup_total_correct).
  rewrite vec_set_ok by lia. cbn [res_bind]. set (r1 := r <| routes := _ |>).
  assert (forall i, is_line i -> raw_route r1 i = (if i =? irq then q else raw_route r i) /\
    programmed_route r1 i = programmed_route r i) as Hr1.
  { intros i Hl. pose proof (is_line_bound _ Hl). unfold raw_route, programmed_route, r1. cbn.
    destruct (Z.eqb_spec i irq) as [->|].
    - rewrite list_lookup_total_insert_eq by lia. by rewrite Htot.
    - by rewrite list_lookup_total_insert_ne by lia. }
  assert (linked r1) as HL1.
  { split; try done; [cbn; by rewrite length_insert|]. intros i Hl. destruct (Hr1 i Hl) as [_ ->]. by apply L4. }
  change (remap r1) with (remap r). destruct (remap r) as [s|] eqn:Hrm.
  - rewrite ushl_1 by lia. cbn [res_bind]. eexists. split; [reflexivity|].
    split; [apply mark_linked; [apply is_u_pow2; lia|done]|]. split_and!; try done.
    + apply (fresh_eq r (mark_dirty (2 ^ irq) r1) irq); [done| |].
      * intros i Hl Hne. pose proof (is_line_bound _ Hl). destruct (Hr1 i Hl) as [E1 E2].
        destruct (Z.eqb_spec i irq); [done|]. split; [|split; [exact E2|exact E1]].
        cbn. rewrite Z.lor_spec, testbit_pow2 by lia. destruct (Z.eqb_spec irq i); [lia|]. by rewrite orb_false_r.
      * intros _. cbn. rewrite Z.lor_spec, testbit_pow2, Z.eqb_refl, orb_true_r by lia. done.
    + intros i Hl. by apply Hr1.
  - destruct (set_route_ok (E:=E) irq r1 HL1 Hi) as (r' & -> & HL' & Ht & Hta & Htr & Hraw & Hprog & Hdir).
    exists r'. change (remap r1) with (remap r) in *. change (hv_routing r1) with (hv_routing r) in *.
    split_and!; try done.
    + apply (fresh_eq r r' irq); [done| |].
      * intros i Hl Hne. destruct (Hr1 i Hl) as [E1 E2]. rewrite Hdir, Hprog, Hraw, E1, E2 by done.
        by destruct (Z.eqb_spec i irq).
      * intros _ _. rewrite Hprog, Z.eqb_refl, Hraw by done. done.
    + by apply inner_translate_eq.
    + intros i Hl. rewrite Hraw. by apply Hr1.
Qed.

(** Asserting a line sends the translation of its route, if that is fresh. *)
Lemma inner_assert_ok {E} irq r :
  linked r -> is_line irq ->
  exists r' m, inner_assert_irq (E:=E) irq r = Ok r' /\ linked r' /\ (fresh r -> fresh r') /\
    ir_target (hv_routing r') =
      match m with Some m => interrupt m (ir_target (hv_routing r)) | None => ir_target (hv_routing r) end /\
    (forall q, inner_translate r' q = inner_translate r q) /\
    (forall i, raw_route r' i = raw_route r i) /\
    (fresh r \/ Z.testbit (dirty r) irq = true -> m = inner_message r irq).
Proof.
  intros HL Hi. pose proof (is_line_bound _ Hi) as Hb. unfold inner_assert_irq. rewrite ushl_1 by lia. cbn [res_bind].
  rewrite land_pow2_testbit, negb_involutive by lia.
  assert (exists r1, (if Z.testbit (dirty r) irq then set_route irq r else Ok r) = Ok (E:=E) r1 /\
    linked r1 /\ (fresh r -> fresh r1) /\ (forall q, through (remap r1) q = through (remap r) q) /\
    ir_target (hv_routing r1) = ir_target (hv_routing r) /\
    (forall m, ir_translate (hv_routing r1) m = ir_translate (hv_routing r) m) /\
    (forall i, raw_route r1 i = raw_route r i) /\
    (fresh r \/ Z.testbit (dirty r) irq = true ->
      programmed_route r1 irq = raw_route r irq ≫= through (remap r))) as
    (r1 & -> & HL1 & HF & Ht & Hta & Htr & Hraw & Hprog).
  { destruct (Z.testbit (dirty r) irq) eqn:Hd.
    - destruct (set_route_ok (E:=E) irq r HL Hi) as (r1 & -> & HL1 & Ht & Hta & Htr & Hraw & Hprog & Hdir).
      exists r1. split_and!; try done.
      + apply (fresh_eq r r1 irq); [done| |].
        * intros i Hl Hne. rewrite Hdir, Hprog, Hraw by done. by destruct (Z.eqb_spec i irq).
        * intros _ _. by rewrite Hprog, Z.eqb_refl, Hraw by done.
      + intros _. by rewrite Hprog, Z.eqb_refl by done.
    - exists r. split_and!; try done. intros [Hf|[=]]. by apply Hf. }
  cbn [res_bind].
  destruct (ir_assert_ok (E:=E) irq (hv_routing r1) (lk_hv _ HL1) Hi) as (hv & -> & A1 & A2 & A3 & A4).
  cbn [res_bind]. eexists _, (ir_message (hv_routing r1) irq). split; [reflexivity|]. cbn [hv_routing].
  split; [|split; [exact HF|]].
  { destruct HL1 as [L1 L2 L3 L4 L5]. split; try done. intros i Hl.
    change (ir_message hv i = programmed_route r1 i ≫= ir_translate hv). by rewrite A4, L4, (bind_eq _ _ _ A3) by done. }
  split_and!; try done.
  - change (ir_target hv = match ir_message (hv_routing r1) irq with
      | Some m => interrupt m (ir_target (hv_routing r)) | None => ir_target (hv_routing r) end). by rewrite A2, Hta.
  - apply inner_translate_eq; [done|]. intros m. change (ir_translate hv m = ir_translate (hv_routing r) m).
    by rewrite A3.
  - intros Hor. rewrite (lk_programmed _ HL1), (bind_eq _ _ _ Htr), Hprog by done.
    unfold inner_message, inner_translate. by destruct (raw_route r irq).
Qed.

(** The remapping routing keeps the promise it relies on. *)
#[global] Instance inner_laws : IoApicRoutingLaws interrupt (IoApicRoutingInner R M).
Proof.
  refine {|
    ir_inv := fun r => linked r /\ fresh r;
    ir_target := fun r => ir_target (hv_routing r);
    ir_translate := inner_translate;
    ir_message := inner_message;
  |}.
  - intros E irq q r [HL HF] Hi.
    destruct (inner_set_ok (E:=E) irq q r HL Hi) as (r' & H1 & HL' & HF' & H2 & H3 & H4 & _).
    exists r'. split_and!; auto. intros i Hl. unfold inner_message. rewrite (bind_eq _ _ _ H3), H4 by done.
    by destruct (i =? irq).
  - intros E irq r [HL HF] Hi.
    destruct (inner_assert_ok (E:=E) irq r HL Hi) as (r' & m & H1 & HL' & HF' & H2 & H3 & H4 & H5).
    exists r'. rewrite <-H5 by auto. split_and!; auto. intros i Hl. unfold inner_message.
    by rewrite (bind_eq _ _ _ H3), H4.
Defined.

Lemma testbit_ALL_IRQS i : is_line i -> Z.testbit ALL_IRQS i = true.
Proof. intros Hi%is_line_bound. change ALL_IRQS with (Z.ones 24). rewrite testbit_ones by lia. div_lia || lia. Qed.

Lemma retranslate_ok r : linked r -> linked (retranslate r) /\ fresh (retranslate r).
Proof.
  intros HL. split; [by apply mark_linked|]. intros i Hi. cbn.
  by rewrite Z.lor_spec, (testbit_ALL_IRQS i Hi), orb_true_r.
Qed.

(** What happens to the routing: the I/O APIC's calls, the connection of the
    IOMMU, its invalidations, and the guest's writes to its tables. *)
Inductive RoutingOp : Type :=
| RSet (irq : Z) (request : option (Z * Z))
| RAssert (irq : Z)
| RConnect (rid : Z) (m : M)
| RRetranslate
| RTables (m : M).

Definition routing_op_ok (op : RoutingOp) r : Prop :=
  match op with
  | RSet irq _ | RAssert irq => is_line irq
  | RConnect d m => remap r = None /\ is_u 16 d /\ remap_inv m
  | RRetranslate => True
  | RTables m => remap_inv m
  end.

Definition routing_exec (op : RoutingOp) r : res void (IoApicRoutingInner R M) :=
  match op with
  | RSet irq q => inner_set_irq_route irq q r
  | RAssert irq => inner_assert_irq irq r
  | RConnect d m => connect_remapper d m r
  | RRetranslate => Ok (retranslate r)
  | RTables m => Ok (r <| remap := (fun s => mkRemap (rid s) m) <$> remap r |>)
  end.

Inductive routing_reachable : IoApicRoutingInner R M -> Prop :=
| routing_start hv :
    ir_inv hv -> (forall i, is_line i -> ir_message hv i = None) -> routing_reachable (connection_new hv)
| routing_then r op r' :
    routing_reachable r -> routing_op_ok op r -> routing_exec op r = Ok r' -> routing_reachable r'.

Lemma routing_exec_linked op r :
  linked r -> routing_op_ok op r -> exists r', routing_exec op r = Ok r' /\ linked r'.
Proof.
  intros HL Hop. destruct op as [irq q|irq|d m| |m]; cbn [routing_exec routing_op_ok] in *.
  - destruct (inner_set_ok (E:=void) irq q r HL Hop) as (r' & -> & HL' & _). eauto.
  - destruct (inner_assert_ok (E:=void) irq r HL Hop) as (r' & m & -> & HL' & _). eauto.
  - destruct Hop as (Hnone & Hd & Hm). unfold connect_remapper. rewrite bool_decide_eq_true_2 by done.
    eexists. split; [reflexivity|]. apply mark_linked; [done|]. destruct HL. split; try done. by intros s [= <-].
  - eexists. split; [reflexivity|]. by apply retranslate_ok.
  - eexists. split; [reflexivity|]. destruct HL as [L1 L2 L3 L4 L5]. split; try done. cbn [remap].
    destruct (remap r) as [s|] eqn:Hs; [|done]. intros s' [= <-]. split; [by apply (L5 s)|done].
Qed.

Lemma routing_linked r : routing_reachable r -> linked r.
Proof.
  induction 1 as [hv Hinv Hnone|r op r' _ IH Hop He].
  - split; [done|done|done| |done]. intros i Hi. unfold programmed_route, connection_new. cbn [routes hv_routing].
    rewrite lookup_total_replicate_2 by (apply is_line_bound in Hi; unfold IRQ_LINES; lia). by rewrite Hnone.
  - destruct (routing_exec_linked op r IH Hop) as (r1 & Hr1 & HL). congruence.
Qed.

(** C17: interrupt remapping. Whatever the I/O APIC, the guest's writes to the
    remapping tables and the IOMMU's invalidations did before, no operation
    panics, and once the IOMMU has invalidated the routes, asserting a line
    sends its message translated by the current tables, or nothing if it has no
    route or the translation faults. Setting a route looks up no translation. *)
Theorem remapped_delivery r irq q :
  routing_reachable r -> is_line irq ->
  (exists r', inner_assert_irq irq (retranslate r) = Ok (E:=void) r' /\
    ir_target (hv_routing r') =
      match (raw_route r irq ≫= through (remap r)) ≫= ir_translate (hv_routing r) with
      | Some m => interrupt m (ir_target (hv_routing r))
      | None => ir_target (hv_routing r)
      end) /\
  (exists r', inner_set_irq_route irq q r = Ok (E:=void) r' /\ raw_route r' irq = q /\
    ir_target (hv_routing r') = ir_target (hv_routing r) /\ (remap r <> None -> remap r' = remap r)).
Proof.
  intros Hr Hi. apply routing_linked in Hr as HL. destruct (retranslate_ok r HL) as [HL1 HF1]. split.
  - destruct (inner_assert_ok (E:=void) irq _ HL1 Hi) as (r' & m & H1 & _ & _ & H2 & _ & _ & H3).
    exists r'. split; [done|]. rewrite H2, (H3 (or_introl HF1)).
    change (inner_message (retranslate r) irq) with (raw_route r irq ≫= inner_translate r).
    unfold inner_translate. by destruct (raw_route r irq).
  - destruct (inner_set_ok (E:=void) irq q r HL Hi) as (r' & H1 & _ & _ & H2 & _ & H4 & H5).
    exists r'. rewrite H4, Z.eqb_refl by done. done.
Qed.

End Remapping.

(** * Messages *)

Lemma virt_fields_u destination :
  is_u 8 (virt_destination_fields destination).1 /\ is_u 8 (virt_destination_fields destination).2.
Proof. cbn [virt_destination_fields fst snd]. split; auto with word. Qed.

(** The two fields of the address hold 15 bits of the destination. *)
Lemma virt_fields_join destination :
  let '(low, high) := virt_destination_fields (ucast 16 destination) in
  Z.lor low (Z.shiftl (Z.land high (unot 16 1)) 7) = destination mod 2 ^ 15.
Proof.
  cbn [virt_destination_fields]. change (destination mod 2 ^ 15) with (ucast 15 destination).
  apply Z.bits_inj'. intros i Hi.
  rewrite Z.lor_spec, Z.shiftl_spec, !Z.land_spec, !testbit_ucast, !testbit_unot by lia.
  change 1 with (2 ^ 0). rewrite testbit_pow2 by lia. destruct (Z.ltb_spec i 7).
  - rewrite (Z.testbit_neg_r _ (i - 7)) by lia. decide_positions; cbn [andb orb negb]; by rewrite ?orb_false_r.
  - rewrite Z.shiftr_spec, testbit_ucast by lia. replace (i - 7 + 7) with i by lia.
    decide_positions; cbn [andb orb negb]; by rewrite ?andb_true_r, ?andb_false_r, ?orb_false_r, ?orb_diag.
Qed.

(** The message made for an interrupt is decoded as it was made: the local
    APICs read its vector, delivery mode, trigger mode and destination mode
    back, and the low 15 bits of its destination, the rest of which is lost. *)
Theorem msi_roundtrip mode destination logical vector level :
  is_u 8 mode -> is_u 8 vector ->
  let '(address, data) := as_x86 (new_x86 mode destination logical vector level) in
  LocalApic.virt_destination address = destination mod 2 ^ 15 /\
  LocalApic.msi_address_logical address = logical /\
  LocalApic.msi_data_vector data = vector /\
  LocalApic.msi_data_delivery_mode data = mode mod 2 ^ 3 /\
  LocalApic.msi_data_trigger_mode_level data = level.
Proof.
  intros Hm Hv. pose proof (virt_fields_u (ucast 16 destination)) as [Hlow Hhigh].
  pose proof (virt_fields_join destination) as Hjoin. unfold new_x86, as_x86.
  destruct (virt_destination_fields (ucast 16 destination)) as [low high]. cbn [fst snd] in *.
  destruct (msi_address_fields low high logical (mode =? LocalApic.DeliveryMode.LOWEST_PRIORITY) Hlow Hhigh)
    as (Hu & _ & F1 & F2 & _ & F4).
  destruct (msi_data_fields vector (Z.land mode 0x7) false level level Hv) as (G1 & G2 & _ & _ & G5).
  { change 7 with (Z.ones 3). rewrite Z.land_ones by lia. apply Z.mod_pos_bound. lia. }
  assert (forall a, is_u 32 a -> ucast 32 a = a) as Hcast by (intros a Ha; by apply Z.mod_small).
  rewrite Hcast by exact Hu.
  split_and!; [|exact F4|exact G1| |exact G5].
  - unfold LocalApic.virt_destination, LocalApic.msi_address_destination, LocalApic.msi_address_extended,
      bits. change (Z.ones 8) with 0xff. by rewrite F1, F2.
  - unfold LocalApic.msi_data_delivery_mode, bits. change (Z.ones 3) with 7. rewrite G2.
    change 7 with (Z.ones 3). by rewrite Z.land_ones by lia.
Qed.

(** * Witnesses *)

Lemma msi_roundtrip_witness :
  let '(address, data) := as_x86 (new_x86 0 0x1234 false 0x41 true) in
  LocalApic.virt_destination address = 0x1234 mod 2 ^ 15 /\
  LocalApic.msi_address_logical address = false /\
  LocalApic.msi_data_vector data = 0x41 /\
  LocalApic.msi_data_delivery_mode data = 0 mod 2 ^ 3 /\
  LocalApic.msi_data_trigger_mode_level data = true.
Proof. apply (msi_roundtrip 0 0x1234 false 0x41 true); by split. Defined.

(** A target that lists the messages it was sent, and a table that adds to the
    vector of each message, or faults. *)
Definition record_message (m : Z * Z) (l : list (Z * Z)) : list (Z * Z) := l ++ [m].

#[global] Instance example_remapper : InterruptRemapper (option Z) := {|
  remap_msi _ address data m := ((fun d => (address, data + d)) <$> m, m);
|}.

#[global] Instance example_remapper_laws : RemapperLaws (option Z).
Proof. by refine {| remap_inv := fun _ => True |}. Defined.

#[global] Instance example_routing : IoApicRouting (Partition (list (Z * Z))) := partition_routing record_message.
#[global] Instance example_routing_laws : IoApicRoutingLaws record_message (Partition (list (Z * Z))) :=
  partition_laws record_message.

Definition example_partition : Partition (list (Z * Z)) := mkPartition routes_new [].

(** Line 4 has a route, before and after the IOMMU is connected. *)
Definition example_set (M : Type) `{InterruptRemapper M} : IoApicRoutingInner (Partition (list (Z * Z))) M :=
  match inner_set_irq_route (E:=void) 4 (Some (0xfee00000, 0x20)) (connection_new example_partition) with
  | Ok r => r
  | _ => connection_new example_partition
  end.

Definition example_connected {M : Type} `{InterruptRemapper M} (m : M) : IoApicRoutingInner (Partition (list (Z * Z))) M :=
  match connect_remapper (E:=void) 0xA0 m (example_set M) with Ok r => r | _ => example_set M end.

Lemma example_connected_reachable {M} `{RemapperLaws M} (m : M) :
  remap_inv m -> routing_reachable (interrupt:=record_message) (example_connected m).
Proof.
  intros Hm. refine (routing_then (example_set M) (RConnect 0xA0 m) _ _ _ _).
  - refine (routing_then (connection_new example_partition) (RSet 4 (Some (0xfee00000, 0x20))) _ _ _ _).
    + apply routing_start; [done|]. intros i Hi%is_line_bound. change (routes_new !!! Z.to_nat i = None). unfold routes_new.
      by rewrite lookup_total_replicate_2 by (unfold IRQ_LINES; lia).
    + by split.
    + vm_compute. reflexivity.
  - split; [vm_compute; reflexivity|]. by split; [split; lia|].
  - vm_compute. reflexivity.
Qed.

Definition example_inner : IoApicRoutingInner (Partition (list (Z * Z))) (option Z) := example_connected (Some 1).

Lemma remapped_delivery_witness :
  (exists r', inner_assert_irq 4 (retranslate example_inner) = Ok (E:=void) r' /\
    ir_target (hv_routing r') =
      match (raw_route example_inner 4 ≫= through (remap example_inner)) ≫= ir_translate (hv_routing example_inner) with
      | Some m => record_message m (ir_target (hv_routing example_inner))
      | None => ir_target (hv_routing example_inner)
      end) /\
  (exists r', inner_set_irq_route 4 None example_inner = Ok (E:=void) r' /\
    raw_route r' 4 = None /\
    ir_target (hv_routing r') = ir_target (hv_routing example_inner) /\
    (remap example_inner <> None -> remap r' = remap example_inner)).
Proof.
  apply (remapped_delivery example_inner 4 None); [by apply example_connected_reachable|by split].
Defined.
