(* ===== verification/IoApicWired.v ===== *)
(** The I/O APIC wired to a routing: the calls it makes reach an implementation
    of [IoApicRouting], of which only the interface is known. And its histories:
    no level-triggered interrupt is lost. *)

From stdpp Require Import sets.
From S2P Require Import Prelude ChipsetDevice IrqRouting IrqRoutingSpec IoApic IoApicSpec.

(** * The calls of an operation *)

Definition call_line (c : RoutingCall) : Z :=
  match c with Assert n => n | SetRoute n _ => n end.

(** The calls added are on the first [num] lines. *)
Definition extends (num : nat) (g g' : Glue) : Prop :=
  exists log, routing g' = routing g ++ log /\ Forall (fun c => 0 <= call_line c < Z.of_nat num) log.

Lemma extends_refl num g : extends num g g.
Proof. exists []. by rewrite app_nil_r. Qed.

Lemma extends_trans num g g1 g2 : extends num g g1 -> extends num g1 g2 -> extends num g g2.
Proof.
  intros (l1 & E1 & F1) (l2 & E2 & F2). exists (l1 ++ l2). split; [by rewrite E2, E1, app_assoc|]. by apply Forall_app.
Qed.

Lemma extends_call num c g : 0 <= call_line c < Z.of_nat num -> extends num g (call c g).
Proof. intros Hc. exists [c]. split; [done|]. by constructor. Qed.

Lemma line_cast n num : (num < 256)%nat -> 0 <= n < Z.of_nat num -> ucast 8 n = n.
Proof. intros. unfold ucast. apply Z.mod_small. lia. Qed.

Lemma evaluate_extends {E} num n edge e g e' g' :
  0 <= n < Z.of_nat num -> evaluate n edge e g = Ok (E:=E) (e', g') -> extends num g g'.
Proof.
  intros Hn. unfold evaluate. destruct (_ || _); [intros [= <- <-]; apply extends_refl|].
  intros (c & _ & (per & _ & [= <- <-])%res_bind_Ok)%res_bind_Ok. exists [Assert n]. split; [done|]. by constructor.
Qed.

Lemma update_route_extends num n e g : 0 <= n < Z.of_nat num -> extends num g (update_route n e g).2.
Proof. intros Hn. unfold update_route. destruct request_eqb; [apply extends_refl|by apply extends_call]. Qed.

Lemma write_redirection_extends {E} idx val d d' :
  (length (irqs d) < 256)%nat -> write_redirection_register idx val d = Ok (E:=E) d' ->
  extends (length (irqs d)) (glue d) (glue d') /\ length (irqs d') = length (irqs d).
Proof.
  intros Hlen. unfold write_redirection_register. destruct (irqs d !! _) as [e|] eqn:He.
  2: { intros [= <-]. split; [apply extends_refl|done]. }
  apply lookup_lt_Some in He as Hlt. rewrite (line_cast _ (length (irqs d))) by lia.
  set (e1 := e <| redirection := _ |>).
  pose proof (update_route_extends (length (irqs d)) (Z.of_nat (Z.to_nat (idx / 2))) e1 (glue d) ltac:(lia)) as H1.
  destruct update_route as [e2 g2]. intros ([e3 g3] & H2 & [= <-])%res_bind_Ok. cbn [irqs glue fst snd].
  split; [|apply length_insert]. apply (extends_trans _ _ g2); [done|]. by eapply evaluate_extends; [|exact H2]; lia.
Qed.

Lemma eoi_loop_extends {E} num vec l n g l' g' :
  (num < 256)%nat -> 0 <= n -> n + Z.of_nat (length l) <= Z.of_nat num ->
  eoi_loop vec n l g = Ok (E:=E) (l', g') -> extends num g g' /\ length l' = length l.
Proof.
  intros Hnum. revert n g l' g'. induction l as [|e l IH]; intros n g l' g' Hn Hle.
  { intros [= <- <-]. split; [apply extends_refl|done]. }
  cbn [eoi_loop length] in *. intros ([e1 g1] & H1 & ([l2 g2] & H2 & [= <- <-])%res_bind_Ok)%res_bind_Ok.
  rewrite (line_cast n num) in H1 by lia. apply IH in H2 as [H2 H3]; [|lia|lia]. cbn [length fst snd] in *.
  split; [|by rewrite H3]. apply (extends_trans _ _ g1); [|done]. unfold entry_eoi in H1.
  destruct (_ =? vec); [|injection H1 as <- <-; apply extends_refl]. by eapply evaluate_extends; [|exact H1]; lia.
Qed.

Lemma reset_loop_extends num l n g :
  (num < 256)%nat -> 0 <= n -> n + Z.of_nat (length l) <= Z.of_nat num ->
  extends num g (reset_loop n l g).2 /\ length (reset_loop n l g).1 = length l.
Proof.
  intros Hnum. revert n g. induction l as [|e l IH]; intros n g Hn Hle; [split; [apply extends_refl|done]|].
  cbn [reset_loop length] in *. rewrite (line_cast n num) by lia.
  destruct (IH (n + 1) (call (SetRoute n None) g)) as [H1 H2]; [lia|lia|].
  destruct reset_loop as [l1 g1]. cbn [fst snd] in *. split; [|by cbn; rewrite H2].
  apply (extends_trans _ _ (call (SetRoute n None) g)); [|done]. apply extends_call. cbn. lia.
Qed.

Lemma restore_loop_extends {E} num states l n g l' g' :
  (num < 256)%nat -> 0 <= n -> n + Z.of_nat (length l) <= Z.of_nat num ->
  restore_loop n states l g = Ok (E:=E) (l', g') -> extends num g g' /\ length l' = length l.
Proof.
  intros Hnum. revert states n g l' g'. induction l as [|e l IH]; intros states n g l' g' Hn Hle.
  { destruct states as [|[]]; intros [= <- <-]; (split; [apply extends_refl|done]). }
  destruct states as [|[state level] states]; [intros [= <- <-]; (split; [apply extends_refl|done])|].
  cbn [restore_loop length] in *. intros ([e1 g1] & H1 & ([l2 g2] & H2 & [= <- <-])%res_bind_Ok)%res_bind_Ok.
  rewrite (line_cast n num) in H1 by lia. apply IH in H2 as [H2 H3]; [|lia|lia]. cbn [length fst snd] in *.
  split; [|by rewrite H3]. apply (extends_trans _ _ g1); [|done].
  apply (extends_trans _ _ (call (SetRoute n (as_msi state)) g)); [apply extends_call; cbn; lia|].
  by eapply evaluate_extends; [|exact H1]; lia.
Qed.

Lemma mmio_write_extends address data d d' :
  (length (irqs d) < 256)%nat -> mmio_write address data d = Ok d' ->
  extends (length (irqs d)) (glue d) (glue d') /\ length (irqs d') = length (irqs d).
Proof.
  intros Hlen. unfold mmio_write. destruct (_ =? IOAPIC_DEVICE_MMIO_REGION_BASE_ADDRESS); [|done].
  assert (extends (length (irqs d)) (glue d) (glue d) /\ length (irqs d) = length (irqs d)) as Hrefl
    by (split; [apply extends_refl|done]).
  destruct (_ =? REGISTER_INDEX); [intros (b & _ & [= <-])%res_bind_Ok; exact Hrefl|].
  destruct (_ =? REGISTER_DATA); [|done]. destruct (_ =? 4); [|done]. unfold write_register.
  destruct (_ =? INDEX_ID); [intros [= <-]; exact Hrefl|].
  destruct (_ || _); [intros [= <-]; exact Hrefl|].
  destruct (_ <=? _); [|intros [= <-]; exact Hrefl].
  intros (i & _ & Hw)%res_bind_Ok. by eapply write_redirection_extends.
Qed.

Lemma ioapic_step_extends op d d' :
  ioapic_inv d -> valid_op op -> ioapic_step op d = Ok d' ->
  extends (length (irqs d)) (glue d) (glue d') /\ length (irqs d') = length (irqs d).
Proof.
  intros Hd Hop. pose proof (iv_count _ Hd) as [_ Hlen].
  assert (extends (length (irqs d)) (glue d) (glue d) /\ length (irqs d) = length (irqs d)) as Hrefl
    by (split; [apply extends_refl|done]).
  destruct op as [n high|vec|address data|address len| |s]; cbn [ioapic_step].
  - unfold set_irq. destruct (irqs d !! Z.to_nat n) as [e|] eqn:He; [|intros [= <-]; exact Hrefl].
    apply lookup_lt_Some in He. destruct high.
    + intros ([e1 g1] & H1 & [= <-])%res_bind_Ok. cbn [irqs glue fst snd]. split; [|apply length_insert].
      unfold entry_assert in H1. cbn [valid_op] in Hop. rewrite (line_cast n (length (irqs d))) in H1 by lia.
      eapply evaluate_extends, H1. lia.
    + intros [= <-]. cbn. split; [apply extends_refl|apply length_insert].
  - intros ([l g] & H1 & [= <-])%res_bind_Ok. cbn [irqs glue fst snd].
    eapply eoi_loop_extends; [| |  |exact H1]; lia.
  - destruct (mmio_write address data d) as [d1| |] eqn:Hw; cbn; [|intros [= <-]; exact Hrefl|done].
    intros [= <-]. by eapply mmio_write_extends.
  - destruct (mmio_read address len d); cbn; [intros [= <-]; exact Hrefl..|done].
  - intros [= <-]. unfold reset. pose proof (reset_loop_extends (length (irqs d)) (irqs d) 0 (glue d) Hlen) as Hr.
    destruct reset_loop as [l g]. cbn [irqs glue fst snd] in *. apply Hr; lia.
  - unfold restore. destruct (negb _); [intros [= <-]; exact Hrefl|].
    match goal with |- context [res_bind ?m _] => destruct m as [l| |] end; cbn [res_bind on_error]; [|intros [= <-]; exact Hrefl|done].
    destruct (restore_loop 0 _ (irqs d) (glue d)) as [[l' g']| |] eqn:Hr; cbn [res_bind on_error]; [|by intros [= <-]|done].
    intros [= <-]. cbn [irqs glue fst snd]. eapply restore_loop_extends; [| | |exact Hr]; lia.
Qed.

(** * No level-triggered interrupt is lost *)

(** Line [n] awaits an end of interrupt. *)
Definition awaits (d : IoApicDevice) (n : nat) : Prop :=
  exists e, irqs d !! n = Some e /\ remote_irr (redirection e) = true.

(** What is left, after [op], of an interrupt that was asserted on line [n] and
    not ended: an end of interrupt of the line's vector ends it, a reset forgets
    it, and a restored state says itself what was asserted before it was saved. *)
Definition still_owed (op : IoApicOp) (d : IoApicDevice) (n : nat) (owed : Prop) : Prop :=
  match op with
  | OpEoi vec => owed /\ forall e, irqs d !! n = Some e -> vector (redirection e) <> vec
  | OpReset => False
  | OpRestore s =>
      match restore s d with
      | Ok _ => exists r, redirection_entries s !! n = Some r /\ remote_irr r = true
      | _ => owed
      end
  | _ => owed
  end.

Lemma still_owed_mono op d n (P Q : Prop) : (P -> Q) -> still_owed op d n P -> still_owed op d n Q.
Proof. intros H. destruct op; cbn; try tauto. by destruct (restore _ _); auto. Qed.

(** A history: the device, and the lines on which an interrupt was asserted that
    has not been ended since. *)
Inductive history : IoApicDevice -> (nat -> Prop) -> Prop :=
| history_new num d : 0 < num < 256 -> ioapic_new (E:=void) num = Ok d -> history d (fun _ => False)
| history_step op d d' owed log :
    history d owed -> typed_op op -> ioapic_step op d = Ok d' -> routing (glue d') = routing (glue d) ++ log ->
    history d' (fun n => Assert (Z.of_nat n) ∈ log \/ still_owed op d n (owed n)).

(** An entry awaits an end after its evaluation only if it did before, or was
    asserted. *)
Lemma evaluated_remote edge e :
  remote_irr (redirection (if fires edge e then delivered e else e)) = true ->
  fires edge e = true \/ remote_irr (redirection e) = true.
Proof. destruct (fires edge e); [by left|by right]. Qed.

Lemma set_irq_awaits n high d d' :
  ioapic_inv d -> 0 <= n -> set_irq n high d = Ok (E:=void) d' ->
  exists log, routing (glue d') = routing (glue d) ++ log /\ forall k, awaits d' k -> Assert (Z.of_nat k) ∈ log \/ awaits d k.
Proof.
  intros Hd Hn. unfold set_irq. destruct (irqs d !! Z.to_nat n) as [e|] eqn:He.
  2: { intros [= <-]. exists []. rewrite app_nil_r. auto. }
  destruct (entry_lookup d _ e Hd He) as [Hwf Hlen]. destruct high.
  - unfold entry_assert. rewrite (line_cast n (length (irqs d))) by lia.
    destruct (evaluate_wf (E:=void) (length (irqs d)) (Z.to_nat n) (negb (line_level e)) (e <| line_level := true |>) (glue d))
      as (e' & g' & Hev & _ & _ & _ & _ & He' & Hrt); [done|by apply line_pre|apply Hd|exact (iv_routes _ Hd _ _ He)|].
    rewrite Z2Nat.id in Hev, Hrt by done. rewrite Hev. intros [= <-]. cbn [glue irqs]. eexists. split; [exact Hrt|].
    intros k (x & Hx & Hrem). cbn in Hx. destruct (decide (k = Z.to_nat n)) as [->|Hne].
    + rewrite list_lookup_insert_eq in Hx by lia. injection Hx as <-. rewrite He' in Hrem.
      apply evaluated_remote in Hrem as [->|Hrem]; [left; rewrite Z2Nat.id by done; by apply list_elem_of_singleton|].
      right. by exists e.
    + rewrite list_lookup_insert_ne in Hx by done. right. by exists x.
  - intros [= <-]. exists []. rewrite app_nil_r. split; [done|]. intros k (x & Hx & Hrem). right. cbn in Hx.
    destruct (decide (k = Z.to_nat n)) as [->|Hne].
    + rewrite list_lookup_insert_eq in Hx by lia. injection Hx as <-. by exists e.
    + rewrite list_lookup_insert_ne in Hx by done. by exists x.
Qed.

Lemma write_half_awaits idx val e : remote_irr (write_half idx val e) = true -> remote_irr e = true.
Proof.
  destruct (Z.land idx 1 =? 1) eqn:Hi; [|by rewrite write_low_remote]. unfold remote_irr. by rewrite write_high_bit by (done || lia).
Qed.

Lemma write_redirection_awaits idx val d d' :
  ioapic_inv d -> is_u 32 val -> write_redirection_register idx val d = Ok (E:=IoError) d' ->
  exists log, routing (glue d') = routing (glue d) ++ log /\ forall k, awaits d' k -> Assert (Z.of_nat k) ∈ log \/ awaits d k.
Proof.
  intros Hd Hval. unfold write_redirection_register. set (n := Z.to_nat (idx / 2)). destruct (irqs d !! n) as [e|] eqn:He.
  2: { intros [= <-]. exists []. rewrite app_nil_r. auto. }
  destruct (entry_lookup d _ e Hd He) as [Hwf Hlen]. rewrite ucast_small by lia.
  set (e1 := e <| redirection := write_half idx val (redirection e) |>).
  pose proof (update_route_spec (length (irqs d)) (Z.of_nat n) e1 (glue d)) as Hup.
  pose proof (update_route_extends (length (irqs d)) (Z.of_nat n) e1 (glue d) ltac:(lia)) as (l1 & Hl1 & _).
  destruct (update_route (Z.of_nat n) e1 (glue d)) as [e2 g2]. cbn [snd] in Hl1. destruct Hup as (Hpre & Hred & _ & Hg2 & Hr2 & _).
  { apply is_u_write_half; [apply Hwf|done]. }
  { apply write_half_remote, Hwf. }
  { apply Hd. }
  { exact (iv_routes _ Hd _ _ He). }
  destruct (evaluate_wf (E:=IoError) (length (irqs d)) n false e2 g2) as (e' & g' & -> & _ & _ & _ & _ & He' & Hrt); try done.
  intros [= <-]. cbn [glue irqs fst snd]. rewrite Hl1, <-app_assoc in Hrt. eexists. split; [exact Hrt|].
  intros k (x & Hx & Hrem). cbn in Hx. destruct (decide (k = n)) as [->|Hne].
  - rewrite list_lookup_insert_eq in Hx by lia. injection Hx as <-. rewrite He' in Hrem.
    apply evaluated_remote in Hrem as [->|Hrem]; [left; rewrite elem_of_app, list_elem_of_singleton; auto|].
    right. exists e. split; [done|]. rewrite Hred in Hrem. by apply (write_half_awaits idx val).
  - rewrite list_lookup_insert_ne in Hx by done. right. by exists x.
Qed.

Lemma mmio_write_awaits address data d d' :
  ioapic_inv d -> Forall (is_u 8) data -> mmio_write address data d = Ok d' ->
  exists log, routing (glue d') = routing (glue d) ++ log /\ forall k, awaits d' k -> Assert (Z.of_nat k) ∈ log \/ awaits d k.
Proof.
  intros Hd Hdata. unfold mmio_write. destruct (_ =? IOAPIC_DEVICE_MMIO_REGION_BASE_ADDRESS); [|done].
  assert (forall i j, exists log, routing (glue d) = routing (glue d) ++ log /\
    forall k, awaits (d <| id := i |> <| index := j |>) k -> Assert (Z.of_nat k) ∈ log \/ awaits d k) as Hrefl
    by (intros i j; exists []; rewrite app_nil_r; auto).
  destruct (_ =? REGISTER_INDEX); [intros (b & _ & [= <-])%res_bind_Ok; exact (Hrefl (id d) b)|].
  destruct (_ =? REGISTER_DATA); [|done]. destruct (Z.eqb_spec (Z.of_nat (length data)) 4) as [Hlen|]; [|done]. unfold write_register.
  destruct (_ =? INDEX_ID); [intros [= <-]; exact (Hrefl _ (index d))|].
  destruct (_ || _); [intros [= <-]; exact (Hrefl (id d) (index d))|].
  destruct (_ <=? _); [|intros [= <-]; exact (Hrefl (id d) (index d))].
  intros (i & _ & Hw)%res_bind_Ok. eapply write_redirection_awaits; [done| |exact Hw].
  pose proof (le_value_bound data Hdata) as Hb. rewrite Hlen in Hb. exact Hb.
Qed.

Lemma eoi_awaits vec d d' :
  ioapic_inv d -> handle_eoi vec d = Ok (E:=void) d' ->
  exists log, routing (glue d') = routing (glue d) ++ log /\
    forall k, awaits d' k -> Assert (Z.of_nat k) ∈ log \/ still_owed (OpEoi vec) d k (awaits d k).
Proof.
  intros Hd Hs. destruct (eoi_spec (E:=void) vec d Hd) as (d1 & Hs1 & _ & Hi & Hr). rewrite Hs in Hs1. injection Hs1 as <-.
  eexists. split; [exact Hr|]. intros k (x & Hx & Hrem). rewrite Hi in Hx.
  change (map (after_eoi vec) (irqs d)) with (after_eoi vec <$> irqs d) in Hx.
  rewrite list_lookup_fmap in Hx. apply fmap_Some in Hx as (e & He & ->). unfold after_eoi in Hrem.
  destruct (Z.eqb_spec (vector (redirection e)) vec) as [Hv|Hv]; cbn [andb] in Hrem.
  - destruct (redelivers vec e) eqn:Hre; cbn [negb] in Hrem.
    + left. apply list_elem_of_fmap_2, (redelivered_elem vec (irqs d) 0 k e He Hre).
    + change (remote_irr (set_remote_irr false (redirection e)) = true) in Hrem. by rewrite remote_irr_set in Hrem.
  - right. cbn. split; [by exists e|]. intros e0 He0. rewrite He in He0. by injection He0 as <-.
Qed.

Lemma restore_awaits s d d' :
  ioapic_inv d -> saved_ok s -> on_error (E:=void) d (restore s d) = Ok d' ->
  exists log, routing (glue d') = routing (glue d) ++ log /\
    forall k, awaits d' k -> Assert (Z.of_nat k) ∈ log \/ still_owed (OpRestore s) d k (awaits d k).
Proof.
  intros Hd Hok. cbn [still_owed]. destruct (saved_lengths s (length (irqs d))) eqn:Hl.
  2: { rewrite restore_bad by done. intros [= <-]. exists []. rewrite app_nil_r. auto. }
  destruct (restore_ok s d Hd Hok Hl) as (d1 & -> & _ & Hi & _ & _ & log & Hlog & _ & Hin). intros [= <-].
  exists log. split; [done|]. intros k (x & Hx & Hrem). rewrite Hi in Hx.
  change (map restored ?l) with (restored <$> l) in Hx. rewrite list_lookup_fmap in Hx. apply fmap_Some in Hx as ([r lv] & Hst & ->).
  apply evaluated_remote in Hrem as [Hf|Hrem]; [left; by apply (Hin k (r, lv))|right].
  exists r. split; [|exact Hrem]. apply lookup_zip_with_Some in Hst as (? & ? & [= <- <-] & Hr & _). exact Hr.
Qed.

(** An entry that awaits an end after an operation was asserted by it, or
    awaited the end before and was not ended. *)
Lemma step_awaits op d d' :
  ioapic_inv d -> typed_op op -> ioapic_step op d = Ok d' ->
  exists log, routing (glue d') = routing (glue d) ++ log /\
    forall k, awaits d' k -> Assert (Z.of_nat k) ∈ log \/ still_owed op d k (awaits d k).
Proof.
  intros Hd Hop. assert (exists log, routing (glue d) = routing (glue d) ++ log /\
    forall k, awaits d k -> Assert (Z.of_nat k) ∈ log \/ awaits d k) as Hrefl by (exists []; rewrite app_nil_r; auto).
  destruct op as [n high|vec|address data|address len| |s]; cbn [ioapic_step].
  - by apply set_irq_awaits.
  - by apply eoi_awaits.
  - destruct Hop as (_ & Hdata & _). destruct (mmio_write address data d) as [d1| |] eqn:Hw; cbn; [|intros [= <-]; exact Hrefl|done].
    intros [= <-]. by eapply mmio_write_awaits.
  - destruct (mmio_read address len d); cbn; [intros [= <-]; exact Hrefl..|done].
  - intros Hs. destruct (ioapic_step_extends OpReset d d' Hd I Hs) as [(log & Hlog & _) _]. exists log. split; [done|].
    injection Hs as <-. intros k (x & Hx & Hrem). exfalso. unfold reset in Hx.
    destruct (reset_loop_spec (length (irqs d)) (irqs d) 0 (glue d)) as (g' & Heq & _ & _);
      [pose proof (iv_count _ Hd); lia|apply Hd|]. change (Z.of_nat 0) with 0 in Heq. rewrite Heq in Hx. cbn in Hx.
    change (map reset_entry (irqs d)) with (reset_entry <$> irqs d) in Hx.
    rewrite list_lookup_fmap in Hx. by apply fmap_Some in Hx as (e & _ & ->).
  - by apply restore_awaits.
Qed.

Lemma history_inv d owed : history d owed -> ioapic_inv d /\ forall n, awaits d n -> owed n.
Proof.
  induction 1 as [num d Hn Hnew|op d d' owed log _ [IH1 IH2] Hop Hs Hlog].
  - destruct (new_inv num Hn) as (d1 & Hnew1 & Hd1). rewrite Hnew in Hnew1. injection Hnew1 as <-. split; [done|].
    intros n (e & He & Hrem). unfold ioapic_new in Hnew. rewrite usub_ok in Hnew by lia. injection Hnew as <-.
    cbn in He. by apply lookup_replicate in He as [-> _].
  - destruct (ioapic_step_inv op d IH1 (typed_op_valid _ _ _ IH1 Hop Hs)) as (d1 & Hs1 & Hd1). rewrite Hs in Hs1. injection Hs1 as <-.
    split; [done|]. intros n Hn. destruct (step_awaits op d d' IH1 Hop Hs) as (log' & Hlog' & Ha).
    rewrite Hlog in Hlog'. apply app_inv_head in Hlog' as <-. destruct (Ha n Hn) as [?|Hk]; [by left|right].
    eapply still_owed_mono; [|exact Hk]. apply IH2.
Qed.

(** C23: after any history of the device, the next operation panics if and only
    if it is a read of one of the two registers of more than four bytes.
    Otherwise the routing's route of each line is the message of its redirection
    entry afterwards, and every interrupt so far was asserted on a set route. No
    level-triggered interrupt is lost: on each line that is high and whose entry
    is level-triggered and not masked, an interrupt was asserted that has not
    been ended since, by the operation itself or before it, or before the state
    was saved that was restored last. *)
Theorem ioapic_reachable_safe d owed op :
  history d owed -> typed_op op ->
  match ioapic_step op d with
  | Ok d' => overruns op = false /\ asserts_routed (routing (glue d')) /\
      exists log, routing (glue d') = routing (glue d) ++ log /\
      forall n e, irqs d' !! n = Some e ->
        route_of (Z.of_nat n) (routing (glue d')) = as_msi (redirection e) /\
        (is_level (redirection e) = true -> masked (redirection e) = false -> line_level e = true ->
          remote_irr (redirection e) = true /\ (Assert (Z.of_nat n) ∈ log \/ still_owed op d n (owed n)))
  | Err _ => False
  | Panic => overruns op = true
  end.
Proof.
  intros Hh Hop. destruct (history_inv d owed Hh) as [Hd _]. destruct (overruns op) eqn:Ho; [by rewrite overruns_panics|].
  destruct (ioapic_step_inv op d Hd) as (d' & Hs & Hd'); [by apply valid_op_typed|]. rewrite Hs.
  destruct (step_awaits op d d' Hd Hop Hs) as (log & Hlog & _). split_and!; [done|apply Hd'|]. exists log. split; [done|].
  destruct (history_inv d' _ (history_step op d d' owed log Hh Hop Hs Hlog)) as [_ Ha].
  intros n e He. destruct (entry_lookup d' n e Hd' He) as [Hwf _].
  split; [rewrite (iv_routes _ Hd' _ _ He); apply Hwf|]. intros Hl Hm Hln. pose proof (ew_level _ Hwf Hl Hm Hln) as Hrem.
  split; [done|]. apply (Ha n). by exists e.
Qed.

(** The line 4 of [program_ops], which is high, when its interrupt is ended. *)
Lemma program_history : exists owed, history ioapic_programmed owed.
Proof.
  assert (forall ops d owed d', history d owed -> Forall typed_op ops -> ioapic_run ops d = Ok d' -> exists owed', history d' owed') as Hrun.
  { induction ops as [|op ops IH]; intros d owed d' Hh Hops; cbn [ioapic_run]; [intros [= <-]; by eexists|].
    inversion_clear Hops as [|? ? Hop Hops']. intros (d1 & H1 & H2)%res_bind_Ok. destruct (history_inv d owed Hh) as [Hd _].
    destruct (step_awaits op d d1 Hd Hop H1) as (log & Hlog & _). eapply IH; [by eapply history_step|done|done]. }
  apply (Hrun program_ops ioapic_24 (fun _ => False)); [by apply (history_new 24); [lia|]|repeat constructor; done|vm_compute; reflexivity].
Qed.

Lemma ioapic_reachable_safe_witness :
  exists d' log, ioapic_step (OpEoi 0x30) ioapic_programmed = Ok d' /\ routing (glue d') = routing (glue ioapic_programmed) ++ log /\
    Assert 4 ∈ log.
Proof.
  destruct program_history as [owed Hh]. pose proof (ioapic_reachable_safe ioapic_programmed owed (OpEoi 0x30) Hh I) as H.
  assert (match ioapic_step (OpEoi 0x30) ioapic_programmed with
    | Ok d' => match irqs d' !! 4%nat with
        | Some e => is_level (redirection e) = true /\ masked (redirection e) = false /\ line_level e = true
        | None => False end
    | _ => False end) as Hline by (vm_compute; repeat split).
  destruct (ioapic_step (OpEoi 0x30) ioapic_programmed) as [d'| |]; [|destruct Hline..].
  destruct H as (_ & _ & log & Hlog & H). exists d', log. split; [reflexivity|]. split; [exact Hlog|].
  destruct (irqs d' !! 4%nat) as [e|] eqn:He; [|destruct Hline]. destruct Hline as (H1 & H2 & H3).
  destruct (H 4%nat e He) as [_ Hdel]. destruct (Hdel H1 H2 H3) as [_ [Hin|[_ Hv]]]; [exact Hin|].
  exfalso. apply (Hv (mkEntry 0xc030 true (as_msi 0xc030))); vm_compute; reflexivity.
Defined.

(** * The device and its routing *)

Section Wired.

Context {S : Type} {interrupt : Z * Z -> S -> S} {R : Type}.
Context `{HR : IoApicRouting R} `{LR : !IoApicRoutingLaws interrupt R}.

Record Wired : Type := mkWired {
  w_ioapic : IoApicDevice;
  w_routing : R;
}.

Definition route_call {E} (c : RoutingCall) (r : R) : res E R :=
  match c with
  | Assert n => assert_irq n r
  | SetRoute n q => set_irq_route n q r
  end.

Fixpoint replay {E} (log : list RoutingCall) (r : R) : res E R :=
  match log with
  | [] => Ok r
  | c :: log => let! r := route_call c r in replay log r
  end.

(** One operation: the calls it makes reach the routing. *)
Definition wired_step (op : IoApicOp) (w : Wired) : res void Wired :=
  let d := w_ioapic w in
  let! d' := ioapic_step op d in
  let! r := replay (drop (length (routing (glue d))) (routing (glue d'))) (w_routing w) in
  Ok (mkWired d' r).

(** The routing has been told of every route. *)
Record wired_inv (w : Wired) : Prop := {
  wi_ioapic : ioapic_inv (w_ioapic w);
  wi_lines : Z.of_nat (length (irqs (w_ioapic w))) <= IRQ_LINES;
  wi_routing : ir_inv (w_routing w);
  wi_message : forall i, is_line i ->
    ir_message (w_routing w) i = route_of i (routing (glue (w_ioapic w))) ≫= ir_translate (w_routing w);
}.

(** The target after the calls [log], when the lines start with the routes [o]. *)
Fixpoint sent (tr : Z * Z -> option (Z * Z)) (o : Z -> option (Z * Z)) (log : list RoutingCall) (s : S) : S :=
  match log with
  | [] => s
  | c :: log =>
      sent tr (fun i => route_step i (o i) c) log
        match c with
        | Assert n => match o n ≫= tr with Some m => interrupt m s | None => s end
        | SetRoute _ _ => s
        end
  end.

Lemma sent_ext tr tr' o o' log s :
  (forall m, tr m = tr' m) -> (forall i, o i = o' i) -> sent tr o log s = sent tr' o' log s.
Proof.
  intros Ht. revert o o' s. induction log as [|c log IH]; intros o o' s Ho; [done|]. cbn [sent].
  rewrite (IH _ (fun i => route_step i (o' i) c)) by (intros i; by rewrite Ho).
  destruct c as [n|]; [|done]. by rewrite (Ho n), (bind_eq _ _ _ Ht).
Qed.

Lemma replay_ok {E} log o r :
  ir_inv r -> (forall i, is_line i -> ir_message r i = o i ≫= ir_translate r) ->
  Forall (fun c => is_line (call_line c)) log ->
  exists r', replay (E:=E) log r = Ok r' /\ ir_inv r' /\
    (forall m, ir_translate r' m = ir_translate r m) /\
    (forall i, is_line i -> ir_message r' i = foldl (route_step i) (o i) log ≫= ir_translate r) /\
    ir_target r' = sent (ir_translate r) o log (ir_target r).
Proof.
  revert o r. induction log as [|c log IH]; intros o r Hr Ho Hl.
  { exists r. by split_and!. }
  apply Forall_cons_iff in Hl as [Hc Hl]. cbn [replay sent foldl].
  assert (exists r1, route_call (E:=E) c r = Ok r1 /\ ir_inv r1 /\ (forall m, ir_translate r1 m = ir_translate r m) /\
    (forall i, is_line i -> ir_message r1 i = route_step i (o i) c ≫= ir_translate r1) /\
    ir_target r1 = match c with
      | Assert n => match o n ≫= ir_translate r with Some m => interrupt m (ir_target r) | None => ir_target r end
      | SetRoute _ _ => ir_target r end) as (r1 & -> & H1 & H2 & H3 & H4).
  { destruct c as [n|n q]; cbn [route_call call_line] in *.
    - destruct (ir_assert_ok (E:=E) n r Hr Hc) as (r1 & H1 & H2 & H3 & H4 & H5). exists r1.
      rewrite <-(Ho n Hc). split_and!; try done. intros i Hi. by rewrite H5, Ho, (bind_eq _ _ _ H4) by done.
    - destruct (ir_set_ok (E:=E) n q r Hr Hc) as (r1 & H1 & H2 & H3 & H4 & H5). exists r1.
      split_and!; try done. intros i Hi. rewrite H5, (bind_eq _ _ _ H4) by done. cbn [route_step].
      rewrite (Z.eqb_sym n i). destruct (i =? n); [done|]. by apply Ho. }
  cbn [res_bind]. destruct (IH _ r1 H1 H3 Hl) as (r' & H5 & H6 & H7 & H8 & H9). exists r'. split_and!; try done.
  - intros m. by rewrite H7.
  - intros i Hi. by rewrite H8, (bind_eq _ _ _ H2).
  - by rewrite H9, H4, (sent_ext _ _ _ _ _ _ H2 (fun _ => eq_refl)).
Qed.

Lemma sent_asserts tr o l s :
  sent tr o (map Assert l) s =
    foldl (fun s n => match o n ≫= tr with Some m => interrupt m s | None => s end) s l.
Proof.
  revert s. induction l as [|n l IH]; intros s; [done|]. cbn [map sent foldl route_step]. apply IH.
Qed.

Lemma wired_step_ok op w :
  wired_inv w -> valid_op op ->
  exists w' log, wired_step op w = Ok w' /\ wired_inv w' /\ ioapic_step op (w_ioapic w) = Ok (w_ioapic w') /\
    routing (glue (w_ioapic w')) = routing (glue (w_ioapic w)) ++ log /\
    (forall m, ir_translate (w_routing w') m = ir_translate (w_routing w) m) /\
    ir_target (w_routing w') =
      sent (ir_translate (w_routing w)) (fun i => route_of i (routing (glue (w_ioapic w)))) log (ir_target (w_routing w)).
Proof.
  intros [W1 W2 W3 W4] Hop. destruct (ioapic_step_inv op _ W1 Hop) as (d' & Hd & Hinv).
  destruct (ioapic_step_extends op _ d' W1 Hop Hd) as [(log & Hlog & Hlines) Hlen].
  assert (Forall (fun c => is_line (call_line c)) log) as Hl.
  { eapply Forall_impl; [|exact Hlines]. intros c Hc. unfold is_line. cbn in Hc. lia. }
  destruct (replay_ok (E:=void) log _ _ W3 W4 Hl) as (r' & Hr & H1 & H2 & H3 & H4).
  unfold wired_step. rewrite Hd. cbn [res_bind]. rewrite Hlog, drop_app_length, Hr. cbn [res_bind].
  eexists _, log. split; [reflexivity|]. cbn [w_ioapic w_routing]. split_and!; try done.
  split; cbn [w_ioapic w_routing]; [done|by rewrite Hlen|done|].
  intros i Hi. rewrite H3, Hlog, (bind_eq _ _ _ H2) by done. unfold route_of. by rewrite foldl_app.
Qed.

(** The message of a line is the message of its entry. *)
Lemma entry_message w n e :
  wired_inv w -> irqs (w_ioapic w) !! n = Some e ->
  route_of (Z.of_nat n) (routing (glue (w_ioapic w))) = as_msi (redirection e).
Proof.
  intros [W1 _ _ _] He. rewrite (iv_routes _ W1 _ _ He). by apply (entry_lookup _ n e W1 He).
Qed.

Lemma wired_typed op w w' : wired_inv w -> typed_op op -> wired_step op w = Ok w' -> valid_op op.
Proof.
  intros HW Hop Hs. unfold wired_step in Hs. destruct (ioapic_step op (w_ioapic w)) as [d'|[]|] eqn:Hd; [|done].
  by apply (typed_op_valid op (w_ioapic w) d'); [apply HW|..].
Qed.

Inductive wired_reachable : Wired -> Prop :=
| wired_start num d r :
    0 < num <= IRQ_LINES -> ioapic_new (E:=void) num = Ok d -> ir_inv r ->
    (forall i, is_line i -> ir_message r i = None) -> wired_reachable (mkWired d r)
| wired_then w op w' :
    wired_reachable w -> typed_op op -> wired_step op w = Ok w' -> wired_reachable w'.

Lemma wired_reachable_inv w : wired_reachable w -> wired_inv w.
Proof.
  induction 1 as [num d r Hn Hnew Hr Hm|w op w' _ IH Hop Hs].
  - assert (0 < num < 256) as Hb by (unfold IRQ_LINES in Hn; lia).
    destruct (new_inv num Hb) as (d1 & Hnew1 & Hd1). rewrite Hnew in Hnew1. injection Hnew1 as <-.
    unfold ioapic_new in Hnew. rewrite usub_ok in Hnew by lia. injection Hnew as <-.
    split; cbn [w_ioapic w_routing irqs glue routing]; [done| |done|].
    + rewrite length_replicate. lia.
    + intros i Hi. by rewrite Hm.
  - destruct (wired_step_ok op w IH (wired_typed op w w' IH Hop Hs)) as (w1 & log & H1 & H2 & _). rewrite Hs in H1. by injection H1 as <-.
Qed.

(** C21: over any routing that keeps the interface's promise, the I/O APIC and
    its routing never panic, and raising a line sends one message to the
    target, the message of the line's entry as the routing translates it, if
    the line is due: its entry is not masked, and was low if edge-triggered or
    awaits no end of interrupt if level-triggered. Otherwise the target is left
    alone. *)
Theorem line_sends_message w n e :
  wired_reachable w -> irqs (w_ioapic w) !! Z.to_nat n = Some e -> 0 <= n ->
  let q := redirection e in
  let due := negb (masked q) && (if is_level q then negb (remote_irr q) else negb (line_level e)) in
  exists w', wired_step (OpSetIrq n true) w = Ok w' /\
    ir_target (w_routing w') =
      match (if due then as_msi q ≫= ir_translate (w_routing w) else None) with
      | Some m => interrupt m (ir_target (w_routing w))
      | None => ir_target (w_routing w)
      end.
Proof.
  intros Hw He Hn q due. apply wired_reachable_inv in Hw as HW.
  destruct (wired_step_ok (OpSetIrq n true) w HW Hn) as (w' & log & H1 & _ & H2 & H3 & _ & H4).
  exists w'. split; [done|]. rewrite H4. destruct (set_irq_spec _ n e (wi_ioapic _ HW) He Hn) as [(d' & Hd & Hr & _) _].
  cbn [ioapic_step] in H2. rewrite Hd in H2. injection H2 as ->. rewrite Hr in H3. apply app_inv_head in H3.
  change ((if due then [Assert n] else []) = log) in H3. subst log.
  pose proof (entry_message w _ e HW He) as Hm. rewrite Z2Nat.id in Hm by done.
  destruct due; cbn [sent]; [|done]. by rewrite Hm.
Qed.

End Wired.

(** * An I/O APIC over the table of a partition *)

Fixpoint wired_run {R} `{IoApicRouting R} (ops : list IoApicOp) (w : Wired (R:=R)) : res void (Wired (R:=R)) :=
  match ops with
  | [] => Ok w
  | op :: ops => let! w := wired_step op w in wired_run ops w
  end.

Lemma wired_run_reachable {S} {interrupt : Z * Z -> S -> S} {R} `{LR : IoApicRoutingLaws S interrupt R} ops w w' :
  wired_reachable (interrupt:=interrupt) w -> Forall typed_op ops -> wired_run ops w = Ok w' ->
  wired_reachable (interrupt:=interrupt) w'.
Proof.
  intros Hw Hops. revert w Hw. induction Hops as [|op ops Hop _ IH]; intros w Hw; cbn [wired_run].
  - by intros [= <-].
  - intros (w1 & H1 & H2)%res_bind_Ok. apply (IH w1); [|done]. by apply (wired_then w op).
Qed.

Definition example_unwired : Wired := mkWired ioapic_24 example_partition.

(** Line 4 is programmed as the lines of [IoApicSpec.program_ops] are. *)
Definition example_wired : Wired :=
  match wired_run program_ops example_unwired with Ok w => w | _ => example_unwired end.

Lemma example_wired_reachable : wired_reachable (interrupt:=record_message) example_wired.
Proof.
  apply (wired_run_reachable program_ops example_unwired).
  - apply (wired_start 24); [by split|reflexivity|done|]. intros i Hi%is_line_bound.
    change (routes_new !!! Z.to_nat i = None). unfold routes_new.
    by rewrite lookup_total_replicate_2 by (unfold IRQ_LINES; lia).
  - repeat constructor; try done.
  - vm_compute. reflexivity.
Qed.

Lemma line_sends_message_witness :
  exists e w', irqs (w_ioapic example_wired) !! 1%nat = Some e /\
    wired_step (OpSetIrq 1 true) example_wired = Ok w' /\
    ir_target (w_routing w') =
      match (if negb (masked (redirection e)) &&
               (if is_level (redirection e) then negb (remote_irr (redirection e)) else negb (line_level e))
             then as_msi (redirection e) ≫= ir_translate (w_routing example_wired) else None) with
      | Some m => record_message m (ir_target (w_routing example_wired))
      | None => ir_target (w_routing example_wired)
      end.
Proof.
  eexists.
  destruct (line_sends_message example_wired 1 _ example_wired_reachable eq_refl ltac:(lia)) as (w' & H1 & H2).
  exists w'. split; [reflexivity|]. split; [exact H1|exact H2].
Defined.
