(* ===== verification/ApicProps.v ===== *)
(** What one local APIC does with the interrupts it has: taking and ending them,
    lazy ends of interrupt, and its timer against a count-by-count reference. *)

From stdpp Require Import sets.
From S2P Require Import Prelude VmTime VmTimeSpec LocalApic ApicBanks LocalApicSpec LocalApicOps LocalApicScan.
From S2P Require Import LocalApicSystem.

(** * Taking and ending an interrupt *)

(** An end of interrupt takes the top of the stack off. *)
Lemma eoi_pops {E} lazy x s v :
  is_offloaded (apic x) = false -> isr (apic x) = s ++ [v] ->
  exists x', eoi lazy x = Ok (E:=E) x' /\ isr (apic x') = s /\ irr (apic x') = irr (apic x) /\
    next_irr_cache (apic x') = next_irr_cache (apic x) /\ global x' = global x /\
    cl_eois (client x') = cl_eois (client x) ++ (if bank_bit (tmr (apic x)) v then [v] else []).
Proof.
  intros Ho Hs. unfold eoi, ensure_state_local. rewrite Ho. cbn [res_bind]. rewrite Hs.
  unfold isr_pop. rewrite isr_top_snoc. cbn [bank_mask]. rewrite removelast_last.
  set (x1 := x <| apic := _ |>). set (x2 := if lazy then _ else _).
  assert (isr (apic x2) = s /\ irr (apic x2) = irr (apic x) /\ tmr (apic x2) = tmr (apic x) /\
    next_irr_cache (apic x2) = next_irr_cache (apic x) /\ global x2 = global x /\ client x2 = client x)
    as (E1 & E2 & E3 & E4 & E5 & E6).
  { by subst x2; destruct lazy. }
  rewrite E3, bank_test, negb_involutive. destruct (bank_bit (tmr (apic x)) v).
  - eexists. split; [reflexivity|]. cbn. by rewrite E6.
  - exists x2. by rewrite E6, app_nil_r.
Qed.

(** C29: an interrupt is taken and ended once, in order of priority. Taking the
    interrupt that the APIC reports removes it from the requests and no other.
    Unless it ends by itself it is then in service, and only interrupts of a
    higher class are reported; the guest's next end of interrupt ends this one,
    leaves the ones it interrupted in service, and is passed on if and only if
    the interrupt was requested as level-triggered. *)
Theorem taken_then_ended now g a c v :
  global_ok g -> apic_ok now g a -> is_offloaded a = false -> next_irr a = Some v ->
  exists a1, acknowledge_interrupt v a = Ok (E:=void) a1 /\
    (forall w, vector_ok w -> bank_bit (irr a1) w = negb (v =? w) && bank_bit (irr a) w) /\
    if bank_bit (auto_eoi a) v then isr a1 = isr a
    else
      isr a1 = isr a ++ [v] /\ (forall w, next_irr a1 = Some w -> priority v < priority w) /\
      exists x, eoi false (mkAccess g a1 c) = Ok (E:=void) x /\ isr (apic x) = isr a /\ irr (apic x) = irr a1 /\
        cl_eois (client x) = cl_eois c ++ (if bank_bit (tmr a) v then [v] else []).
Proof.
  intros Hg Ha Ho Hn.
  destruct (acknowledge_ok (E:=void) now g a v Hg Ha Ho Hn) as (a1 & H1 & H2 & H3 & H4 & H5 & _ & _ & H6 & _).
  exists a1. split; [done|]. split; [done|]. destruct (bank_bit (auto_eoi a) v); [done|]. split; [done|]. split.
  - intros w Hw. destruct (next_irr_spec a1 w (ap_core _ _ _ (os_apic _ _ _ _ _ _ H2)) H6 Hw) as (_ & _ & _ & Hp & _).
    rewrite H4, Forall_app, Forall_singleton in Hp. apply Hp.
  - destruct (eoi_pops (E:=void) false (mkAccess g a1 c) (isr a) v H6 H4) as (x & E1 & E2 & E3 & _ & _ & E6).
    exists x. cbn [apic client] in *. by rewrite H5 in E6.
Qed.

(** * Lazy ends of interrupt *)

Lemma bank_bit_single v w :
  vector_ok v -> vector_ok w -> bank_bit (<[Z.to_nat (v / 32) := 2 ^ (v mod 32)]> zero_banks) w = (v =? w).
Proof.
  intros Hv Hw. pose proof (bank_bit_set zero_banks v w zero_banks_ok Hv Hw) as Hb.
  rewrite (bank_bit_zero w Hw), orb_false_r in Hb. rewrite <-Hb. do 2 f_equal. unfold zero_banks.
  by rewrite lookup_total_replicate_2 by (by apply bank_lt).
Qed.

(** The guest may skip an end of interrupt when the APIC says so. If an
    interrupt is in service, its end is not passed on and makes no other
    interrupt deliverable; if none is, the interrupt about to be delivered is
    the only one, and the APIC still says so once it is taken. *)
Theorem lazy_eoi_sound now g a c :
  global_ok g -> apic_ok now g a -> is_lazy_eoi_pending a = true ->
  if bool_decide (isr a = []) then
    forall v a1, next_irr a = Some v -> bank_bit (auto_eoi a) v = false ->
      acknowledge_interrupt v a = Ok (E:=void) a1 -> is_lazy_eoi_pending a1 = true
  else
    exists x, lazy_eoi (mkAccess g a c) = Ok (E:=void) x /\ cl_eois (client x) = cl_eois c /\
      next_irr (apic x) = None.
Proof.
  intros Hg Ha Hl. pose proof Hl as Hl'. unfold is_lazy_eoi_pending in Hl'. destruct (is_offloaded a) eqn:Ho; [done|].
  pose proof (core_cache _ (ap_core _ _ _ Ha) Ho) as Hc.
  unfold lazy_eoi_vector in Hl'. cbn [bank_mask] in Hl'. case_bool_decide as Hi.
  - intros v a1 Hn Hauto Hack. destruct (acknowledge_ok (E:=void) now g a v Hg Ha Ho Hn)
      as (a2 & H1 & H2 & H3 & H4 & H5 & _ & _ & H6 & _). rewrite H1 in Hack. injection Hack as <-.
    destruct (next_irr_spec a v (ap_core _ _ _ Ha) Ho Hn) as (Hcache & _ & Hr & _).
    rewrite Hcache in Hl'. cbn [negb] in Hl'.
    assert (vector_ok v) as Hv by (unfold vector_ok; lia).
    case_bool_decide as Hirr; cbn [negb] in Hl'; [|done]. rewrite Hi, Hauto in H4. cbn [app] in H4.
    pose proof (core_cache _ (ap_core _ _ _ (os_apic _ _ _ _ _ _ H2)) H6) as Hc2.
    assert (next_irr_cache a2 = None) as Hnone.
    { destruct (next_irr_cache a2) as [w|]; [|done]. destruct Hc2 as (Hw & Hb & _).
      rewrite H3, <-Hirr, bank_bit_single in Hb by done. by destruct (v =? w). }
    unfold is_lazy_eoi_pending, lazy_eoi_vector. rewrite H6, Hnone, H4, H5. cbn [isr_top]. cbn. exact Hl'.
  - destruct (next_irr_cache a) as [w|] eqn:Hcache; [by destruct (negb (bool_decide (isr a = [])))|].
    destruct (isr a) as [|v s _] eqn:His using rev_ind; [done|]. rewrite isr_top_snoc in Hl'.
    destruct (eoi_pops (E:=void) true (mkAccess g a c) s v Ho His) as (x & E1 & E2 & E3 & E4 & _ & E6).
    exists x. unfold lazy_eoi. cbn [apic]. rewrite Hl. split; [done|]. cbn [apic client] in *. split.
    + rewrite E6. rewrite bank_test in Hl'. apply negb_true_iff in Hl'. by rewrite Hl', app_nil_r.
    + unfold next_irr. rewrite E4, Hcache. by destruct (negb _).
Qed.

(** * The timer *)

(** One count of the timer. *)
Definition tick (icr : Z) (one_shot : bool) (ccr : Z) : Z :=
  if ccr =? 0 then 0 else if ccr =? 1 then (if one_shot then 0 else icr) else ccr - 1.

(** The count after [n] counts. *)
Definition ticks (n : Z) (a : LocalApic) : Z :=
  Nat.iter (Z.to_nat n) (tick (timer_icr a) (lvt_timer_mode (lvt_timer a) =? TimerMode.ONE_SHOT)) (timer_ccr a).

Lemma iter_S {A} (f : A -> A) n x : Nat.iter (S n) f x = f (Nat.iter n f x).
Proof. done. Qed.

Lemma iter_add {A} (f : A -> A) n m x : Nat.iter (n + m) f x = Nat.iter n f (Nat.iter m f x).
Proof. induction n as [|n IH]; [done|]. by rewrite iter_S, <-IH. Qed.

Lemma iter_tick_zero icr b n : Nat.iter n (tick icr b) 0 = 0.
Proof. induction n as [|n IH]; [done|]. by rewrite iter_S, IH. Qed.

Lemma iter_tick_down icr b n c : Z.of_nat n < c -> Nat.iter n (tick icr b) c = c - Z.of_nat n.
Proof.
  induction n as [|n IH]; intros Hn; [cbn; lia|]. rewrite iter_S, IH by lia. unfold tick. destruct (Z.eqb_spec (c - Z.of_nat n) 0), (Z.eqb_spec (c - Z.of_nat n) 1); lia.
Qed.

Lemma iter_tick_end icr b c : 0 < c -> Nat.iter (Z.to_nat c) (tick icr b) c = if b then 0 else icr.
Proof.
  intros Hc. replace (Z.to_nat c) with (S (Z.to_nat (c - 1))) by lia. rewrite iter_S, iter_tick_down by lia.
  unfold tick. destruct (Z.eqb_spec (c - Z.of_nat (Z.to_nat (c - 1))) 0), (Z.eqb_spec (c - Z.of_nat (Z.to_nat (c - 1))) 1); lia || done.
Qed.

Lemma iter_tick_periodic icr m :
  0 < icr -> 0 <= m -> Nat.iter (Z.to_nat m) (tick icr false) icr = icr - m mod icr.
Proof.
  intros Hi Hm. pose proof (Z.div_mod m icr ltac:(lia)) as Hd. pose proof (Z.mod_pos_bound m icr Hi) as Hb.
  assert (forall k, 0 <= k -> Nat.iter (Z.to_nat (icr * k)) (tick icr false) icr = icr) as Hk.
  { intros k. apply (natlike_ind (fun k => Nat.iter (Z.to_nat (icr * k)) (tick icr false) icr = icr)).
    - by rewrite Z.mul_0_r.
    - intros x Hx IH. replace (Z.to_nat (icr * Z.succ x)) with (Z.to_nat (icr * x) + Z.to_nat icr)%nat by lia.
      by rewrite iter_add, iter_tick_end. }
  pose proof (Z.div_pos m icr Hm Hi). assert (0 <= icr * (m / icr)) by (apply Z.mul_nonneg_nonneg; lia).
  replace (Z.to_nat m) with (Z.to_nat (m mod icr) + Z.to_nat (icr * (m / icr)))%nat by lia.
  rewrite iter_add, Hk by done. rewrite iter_tick_down; lia.
Qed.

(** The count after an evaluation, count by count. *)
Lemma timer_after_ticks now a :
  now_ok now -> timer_ok now a -> (timer_after now a).1 = ticks (counts_at now a) a.
Proof.
  intros Hn [Hi Hc Hl _]. destruct (counts_bound now a Hn Hl) as [C0 _]. unfold timer_after, ticks.
  set (n := counts_at now a) in *. destruct (Z.eqb_spec (timer_ccr a) 0) as [->|H0]; [by rewrite iter_tick_zero|].
  destruct (Z.leb_spec (timer_ccr a) n) as [Hle|Hlt].
  - replace (Z.to_nat n) with (Z.to_nat (n - timer_ccr a) + Z.to_nat (timer_ccr a))%nat by lia.
    rewrite iter_add, iter_tick_end by lia. destruct (_ =? TimerMode.ONE_SHOT); cbn [fst].
    + by rewrite iter_tick_zero.
    + by rewrite iter_tick_periodic by lia.
  - cbn [fst]. rewrite iter_tick_down; lia.
Qed.

(** A timer request adds the vector of the timer, if the APIC accepts it. *)
Lemma self_request_pending {E} g a v g' a' :
  global_ok g -> 0 <= v < 256 ->
  self_request DeliveryMode.FIXED v false g a = Ok (E:=E) (g', a') ->
  forall w, vector_ok w ->
    pending g' a' w = pending g a w || (software_enabled a && (16 <=? v) && (v =? w)).
Proof.
  intros Hg Hv. unfold self_request, get_shared, unwrap. destruct (shareds g !! shared a) as [s|] eqn:Hs; [|done].
  cbn [res_bind]. pose proof (Forall_lookup_1 _ _ _ _ (g_ok_shared _ Hg) Hs) as Hok.
  pose proof (fun H => fixed_request s DeliveryMode.FIXED v false false Hok eq_refl H) as HF.
  assert (shared_request_interrupt (software_enabled a) DeliveryMode.FIXED v false false s =
    if software_enabled a && (16 <=? v) then shared_request_interrupt true DeliveryMode.FIXED v false false s
    else (s, false)) as ->.
  { unfold shared_request_interrupt. cbn [Z.eqb orb]. destruct (software_enabled a); [|done]. cbn [negb orb andb].
    destruct (Z.leb_spec 16 v), (Z.leb_spec v 255); done || lia. }
  assert (forall s' b w, pending (put_shared s' a g) (a <| scan_irr := b |>) w =
    bank_bit (new_irr s') w || bank_bit (irr a) w) as Hput.
  { intros s' b w. unfold pending, staged, put_shared.
    change (match <[shared a := s']> (shareds g) !! shared a with Some s => bank_bit (new_irr s) w | None => false end
      || bank_bit (irr a) w = bank_bit (new_irr s') w || bank_bit (irr a) w).
    by rewrite list_lookup_insert_eq by (by eapply lookup_lt_Some). }
  assert (forall w, pending g a w = bank_bit (new_irr s) w || bank_bit (irr a) w) as Hpg.
  { intros w. unfold pending, staged. by rewrite Hs. }
  destruct (software_enabled a && (16 <=? v)) eqn:Hb.
  - destruct (HF ltac:(apply andb_true_iff in Hb as [_ Hb]; lia)) as (HN & _).
    destruct shared_request_interrupt as [s' wk]. intros [= <- <-] w Hw. cbn [fst] in HN.
    rewrite Hput, Hpg, HN by done. destruct (v =? w), (bank_bit (new_irr s) w), (bank_bit (irr a) w); done.
  - intros [= <- <-] w Hw. by rewrite Hput, Hpg, orb_false_r.
Qed.

(** The timer counts. Evaluated at any time, its current count is the one
    that counting one by one would reach from the last evaluation, reloaded if
    periodic and stopped if one-shot, and its interrupt is requested, once, if
    and only if the count ran out since, and the timer is not masked, the APIC
    is enabled and the vector is valid; no other request changes. *)
Theorem timer_counts_ticks now g a :
  now_ok now -> global_ok g -> apic_ok now g a ->
  exists g' a', eval_time now g a = Ok (E:=void) (g', a') /\
    timer_ccr a' = ticks (counts_at now a) a /\
    forall v, vector_ok v ->
      pending g' a' v = pending g a v ||
        (expires now a && negb (lvt_masked (lvt_timer a)) && (software_enabled a && (16 <=? v)) &&
         (lvt_vector (lvt_timer a) =? v)).
Proof.
  intros Hn Hg Ha. destruct (eval_time_request (E:=void) now g a Hn Hg Ha) as (g' & b & He & Hr & _).
  exists g', (timer_set now b a). split; [done|]. split.
  { change (timer_ccr (timer_set now b a)) with (timer_after now a).1. apply timer_after_ticks; [done|apply Ha]. }
  intros v Hv. change (pending g' (timer_set now b a) v) with (pending g' (a <| scan_irr := b |>) v).
  unfold timer_request in Hr. destruct (expires now a && _); cbn [andb].
  - assert (0 <= lvt_vector (lvt_timer a) < 256) as Hlv.
    { unfold lvt_vector, bits. rewrite Z.land_ones by lia. apply Z.mod_pos_bound. lia. }
    rewrite (self_request_pending g a _ _ _ Hg Hlv Hr v Hv). destruct (Z.eqb_spec (lvt_vector (lvt_timer a)) v) as [->|];
      [done|]. by rewrite !andb_false_r.
  - destruct Hr as [-> ->]. by rewrite orb_false_r.
Qed.

(** With these dividers every 100 ns are a whole number of counts. *)
Lemma counts_whole now a :
  dcr_divider_shift (timer_dcr a) <= 2 ->
  exists k, 0 < k /\ k * 2 ^ dcr_divider_shift (timer_dcr a) = 20 /\ counts_at now a = (now - last_time a) * k.
Proof.
  intros Hs. pose proof (shift_bound (timer_dcr a)) as Hb. unfold counts_at.
  set (s := dcr_divider_shift (timer_dcr a)) in *.
  assert (exists k, 0 < k /\ k * 2 ^ s = 20) as (k & Hk & Hk20).
  { assert (s = 0 \/ s = 1 \/ s = 2) as [-> |[-> | ->]] by lia; [exists 20|exists 10|exists 5]; by split. }
  exists k. split_and!; [done|done|]. rewrite <-Hk20, Z.mul_assoc, Z.div_mul; [done|]. nia.
Qed.

(** A timer that still runs was evaluated up to the present. *)
Lemma timer_after_whole now a :
  dcr_divider_shift (timer_dcr a) <= 2 -> (timer_after now a).1 <> 0 -> (timer_after now a).2 = now.
Proof.
  intros Hs. destruct (counts_whole now a Hs) as (k & _ & K20 & K1).
  assert (last_time a + counts_at now a * 2 ^ dcr_divider_shift (timer_dcr a) * 5 / 100 = now) as Hlast.
  { rewrite K1, <-Z.mul_assoc, <-Z.mul_assoc, (Z.mul_assoc k), K20.
    change (20 * 5) with 100. rewrite Z.div_mul; lia. }
  unfold timer_after. rewrite Hlast. destruct (timer_ccr a =? 0); [done|].
  destruct (_ <=? _); [|done]. by destruct (_ =? TimerMode.ONE_SHOT).
Qed.

(** For these dividers an evaluation in between leaves no trace in the count. *)
Lemma timer_after_twice now now' b a :
  now_ok now -> now_ok now' -> timer_ok now a -> now <= now' -> dcr_divider_shift (timer_dcr a) <= 2 ->
  let once := timer_after now' a in
  let twice := timer_after now' (timer_set now b a) in
  twice.1 = once.1 /\ (once.1 <> 0 -> twice.2 = once.2).
Proof.
  intros Hn Hn' Ht Hle Hs. pose proof Ht as [Hi Hc Hl Hx]. set (a1 := timer_set now b a).
  assert (timer_ok now' a) as Ht' by (split; try done; lia).
  destruct (timer_after_bounds now a Hn Ht) as [B1 B2].
  assert (timer_ok now' a1) as Ht1.
  { split; [done|exact B1| |exact Hx]. change (0 <= (timer_after now a).2 <= now'). lia. }
  assert ((timer_after now' a1).1 = (timer_after now' a).1) as Heq.
  { rewrite !timer_after_ticks by done. unfold ticks at 1.
    change (timer_ccr a1) with (timer_after now a).1. rewrite timer_after_ticks by done.
    change (timer_icr a1) with (timer_icr a). change (lvt_timer a1) with (lvt_timer a).
    destruct (decide ((timer_after now a).1 = 0)) as [Hz|Hz].
    - rewrite timer_after_ticks in Hz by done. rewrite Hz, iter_tick_zero. unfold ticks in *.
      destruct (counts_whole now a Hs) as (k & K0 & K20 & K1). destruct (counts_whole now' a Hs) as (k' & K0' & K20' & K1').
      assert (k' = k) as -> by nia.
      replace (Z.to_nat (counts_at now' a)) with (Z.to_nat ((now' - now) * k) + Z.to_nat (counts_at now a))%nat by nia.
      by rewrite iter_add, Hz, iter_tick_zero.
    - pose proof (timer_after_whole now a Hs Hz) as Hw. unfold ticks. rewrite <-iter_add. f_equal.
      destruct (counts_whole now a Hs) as (k & K0 & K20 & K1). destruct (counts_whole now' a Hs) as (k' & K0' & K20' & K1').
      destruct (counts_whole now' a1 Hs) as (k1 & K01 & K201 & K11).
      change (timer_dcr a1) with (timer_dcr a) in *. change (last_time a1) with (timer_after now a).2 in K11.
      rewrite Hw in K11. assert (k' = k /\ k1 = k) as [-> ->] by nia. nia. }
  split; [exact Heq|]. intros Hrun. rewrite !timer_after_whole; try done. by rewrite Heq.
Qed.

(** Reading the timer does not disturb it, for the dividers 1, 2 and 4. An
    evaluation at some time in between leaves the count of every later
    evaluation as it is without it, and the time that the count was taken at
    while the timer runs. *)
Theorem timer_reads_exact now now' g a :
  now_ok now -> now_ok now' -> now <= now' -> global_ok g -> apic_ok now g a ->
  dcr_divider_shift (timer_dcr a) <= 2 ->
  exists g1 a1 g2 a2 g3 a3, eval_time now g a = Ok (E:=void) (g1, a1) /\
    eval_time now' g1 a1 = Ok (E:=void) (g2, a2) /\ eval_time now' g a = Ok (E:=void) (g3, a3) /\
    timer_ccr a2 = timer_ccr a3 /\ (timer_ccr a3 <> 0 -> last_time a2 = last_time a3).
Proof.
  intros Hn Hn' Hle Hg Ha Hs.
  destruct (eval_time_keeps (E:=void) now g a Hn Hg Ha) as (g1 & b1 & E1 & HK).
  assert (global_ok g1 /\ apic_ok now' g1 (timer_set now b1 a)) as [Hg1 Ha1].
  { split; [apply (os_global _ _ _ _ _ _ (proj1 HK))|]. apply (apic_ok_later now); [|done].
    apply (os_apic _ _ _ _ _ _ (proj1 HK)). }
  destruct (eval_time_keeps (E:=void) now' g1 _ Hn' Hg1 Ha1) as (g2 & b2 & E2 & _).
  destruct (eval_time_keeps (E:=void) now' g a Hn' Hg (apic_ok_later _ _ _ _ Ha Hle)) as (g3 & b3 & E3 & _).
  exists g1, (timer_set now b1 a), g2, (timer_set now' b2 (timer_set now b1 a)), g3, (timer_set now' b3 a).
  split_and!; try done; apply (timer_after_twice now now' b1 a); try done; apply Ha.
Qed.

(** * Writes of the destination format register *)

(** A guest's memory write to the destination format register stops the
    VMM if and only if the top four bits of the value are neither all zero nor
    all one. *)
Theorem dfr_write_panics address data x :
  access_ok x -> xapic_enabled (apic x) = true -> is_valid_apic_access address = true ->
  mmio_register address = ApicRegister.DFR -> Forall (is_u 8) data ->
  mmio_write address data x = Panic (E:=void) <-> dfr_valid (mmio_value address data) = false.
Proof.
  intros Hx Hxa Hva Hr Hd. split.
  - intros HP. destruct (dfr_valid (mmio_value address data)) eqn:Hv; [|done].
    destruct (mmio_write_runs (E:=void) true address data x Hx Hd (fun _ => Hv)) as (y & Hy & _). congruence.
  - intros Hv. unfold mmio_write. rewrite Hxa, Hva. cbn [negb orb]. fold (mmio_value address data).
    fold (mmio_register address). rewrite Hr. unfold write_register. cbn [Z.eqb Pos.eqb ApicRegister.DFR
      ApicRegister.TPR ApicRegister.EOI ApicRegister.LDR].
    assert (x2apic_enabled (apic x) = false) as ->.
    { unfold xapic_enabled in Hxa. apply andb_true_iff in Hxa as [_ H]. by apply negb_true_iff. }
    cbn [negb andb]. unfold cluster_mode. unfold dfr_valid in Hv. apply orb_false_iff in Hv as [H1 H2].
    cbn [Z.eqb Pos.eqb]. rewrite H1, H2. done.
Qed.

(** * Examples *)

(** The processor of [LocalApicSystem.example_system] after a scan. *)
Definition scanned_system : System (C:=VmTimeAccess * TimerState) :=
  match exec (OpScan 0 8000) example_system with Ok sys => sys | _ => example_system end.

Definition scanned_vp : Vp :=
  match sys_vps scanned_system with vp :: _ => vp | [] => example_vp end.

Definition scanned_apic : LocalApic := vp_apic scanned_vp.

Lemma scanned_ok : sys_ok scanned_system.
Proof.
  apply (exec_run (OpScan 0 8000) example_system scanned_system).
  - eapply reachable_ok, example_reachable.
  - exists example_vp. split; [vm_compute; reflexivity|]. split; [lia|]. by vm_compute.
  - vm_compute. reflexivity.
Qed.

Lemma scanned_vp_at : sys_vps scanned_system !! 0%nat = Some scanned_vp.
Proof. vm_compute. reflexivity. Qed.

Lemma scanned_apic_ok : apic_ok (sys_now scanned_system) (sys_global scanned_system) scanned_apic.
Proof. exact (vo_apic _ _ _ _ (so_vps _ scanned_ok 0%nat scanned_vp scanned_vp_at)). Qed.

(** A periodic timer of vector 0x40, started at time 0. *)
Definition started (a : LocalApic) : LocalApic :=
  a <| timer_icr := 1000 |> <| timer_ccr := 1000 |> <| last_time := 0 |> <| lvt_timer := 0x20040 |>.

(** The count of a timer from 1000 with the divider [dcr], read at the times [l]. *)
Fixpoint read_at (l : list Z) (g : GlobalState) (a : LocalApic) : Z :=
  match l with
  | [] => timer_ccr a
  | t :: l => match eval_time (E:=void) t g a with Ok (g', a') => read_at l g' a' | _ => 0 end
  end.

Definition reads (dcr : Z) (l : list Z) : Z :=
  read_at l (sys_global scanned_system) (started scanned_apic <| timer_dcr := dcr |>).

(** With the divider 128, sixteen reads in 9.7 microseconds take one count too many. *)
Lemma timer_reads_drift :
  reads 0xA [97] = 985 /\ reads 0xA [7; 13; 19; 25; 31; 37; 43; 49; 55; 61; 67; 73; 79; 85; 91; 97] = 984.
Proof. by vm_compute. Qed.

(** A pending interrupt that ends by itself keeps the registers from the
    hardware, but not once they have been saved and restored. *)
Definition auto_system : System (C:=VmTimeAccess * TimerState) :=
  match exec_all [OpAdd 0 true example_source; OpSynic 0 0x50 true; OpScan 0 8000] (empty_system false false 60) with
  | Ok sys => sys
  | _ => empty_system false false 60
  end.

Definition offloads (a : LocalApic) : bool :=
  match push_to_offload (enable_offload a) with Ok (_, Some _) => true | _ => false end.

Definition saved_and_restored (sys : System (C:=VmTimeAccess * TimerState)) : bool * bool :=
  match sys_vps sys with
  | vp :: _ =>
      match save (E:=void) (sys_global sys) (vp_apic vp) with
      | Ok (g, a, st) =>
          match reset (E:=void) g a with
          | Ok (g, fresh) =>
              match restore st g fresh with Ok (_, a') => (offloads a, offloads a') | _ => (true, false) end
          | _ => (true, false)
          end
      | _ => (true, false)
      end
  | [] => (true, false)
  end.

Lemma restore_forgets_auto_eoi : saved_and_restored auto_system = (false, true).
Proof. by vm_compute. Qed.

Lemma taken_then_ended_witness :
  exists a1, acknowledge_interrupt 0x31 scanned_apic = Ok (E:=void) a1 /\
    (forall w, vector_ok w -> bank_bit (irr a1) w = negb (0x31 =? w) && bank_bit (irr scanned_apic) w) /\
    if bank_bit (auto_eoi scanned_apic) 0x31 then isr a1 = isr scanned_apic
    else
      isr a1 = isr scanned_apic ++ [0x31] /\ (forall w, next_irr a1 = Some w -> priority 0x31 < priority w) /\
      exists x, eoi false (mkAccess (sys_global scanned_system) a1 (mkClient 0 0 0 [] [] ([], []))) = Ok (E:=void) x /\
        isr (apic x) = isr scanned_apic /\ irr (apic x) = irr a1 /\
        cl_eois (client x) = [] ++ (if bank_bit (tmr scanned_apic) 0x31 then [0x31] else []).
Proof.
  apply (taken_then_ended (sys_now scanned_system) (sys_global scanned_system) scanned_apic
    (mkClient 0 0 0 [] [] ([], [])) 0x31 (so_global _ scanned_ok) scanned_apic_ok); vm_compute; reflexivity.
Defined.

Lemma lazy_eoi_sound_witness :
  if bool_decide (isr scanned_apic = []) then
    forall v a1, next_irr scanned_apic = Some v -> bank_bit (auto_eoi scanned_apic) v = false ->
      acknowledge_interrupt v scanned_apic = Ok (E:=void) a1 -> is_lazy_eoi_pending a1 = true
  else
    exists x, lazy_eoi (mkAccess (sys_global scanned_system) scanned_apic (mkClient 0 0 0 [] [] ([], []))) =
        Ok (E:=void) x /\ cl_eois (client x) = [] /\ next_irr (apic x) = None.
Proof.
  apply (lazy_eoi_sound (sys_now scanned_system) (sys_global scanned_system) scanned_apic
    (mkClient 0 0 0 [] [] ([], [])) (so_global _ scanned_ok) scanned_apic_ok). vm_compute. reflexivity.
Defined.

Lemma started_ok now now' g a : apic_ok now g a -> 0 <= now' -> apic_ok now' g (started a).
Proof.
  intros [[C1 C2 C3 C4 C5] [T1 T2 T3 T4] A3 A4 (slot & Hs & [M1 M2 M3 M4 M5 M6 M7]) A6] Hn.
  split; [by split| |done|done|by exists slot|done]. split; [by split|by split|by split|exact T4].
Qed.

Lemma timer_counts_ticks_witness :
  let a := started scanned_apic in
  exists g' a', eval_time 90 (sys_global scanned_system) a = Ok (E:=void) (g', a') /\
    timer_ccr a' = ticks (counts_at 90 a) a /\
    forall v, vector_ok v ->
      pending g' a' v = pending (sys_global scanned_system) a v ||
        (expires 90 a && negb (lvt_masked (lvt_timer a)) && (software_enabled a && (16 <=? v)) &&
         (lvt_vector (lvt_timer a) =? v)).
Proof.
  intros a. apply (timer_counts_ticks 90 (sys_global scanned_system) a);
    [by split|apply (so_global _ scanned_ok)|exact (started_ok _ 90 _ _ scanned_apic_ok ltac:(lia))].
Defined.

Lemma timer_reads_exact_witness :
  let g := sys_global scanned_system in
  let a := started scanned_apic in
  exists g1 a1 g2 a2 g3 a3, eval_time 7 g a = Ok (E:=void) (g1, a1) /\
    eval_time 97 g1 a1 = Ok (E:=void) (g2, a2) /\ eval_time 97 g a = Ok (E:=void) (g3, a3) /\
    timer_ccr a2 = timer_ccr a3 /\ (timer_ccr a3 <> 0 -> last_time a2 = last_time a3).
Proof.
  intros g a. apply (timer_reads_exact 7 97 g a); [by split|by split|lia|apply (so_global _ scanned_ok)|
    exact (started_ok _ 7 _ _ scanned_apic_ok ltac:(lia))|by vm_compute].
Defined.

Lemma dfr_write_panics_witness :
  mmio_write 0xfee000e0 [0; 0; 0; 0x10]
    (mkAccess (sys_global scanned_system) scanned_apic (mkClient 0 0 (sys_now scanned_system) [] [] (zero_banks, zero_banks)))
    = Panic (E:=void) <-> dfr_valid (mmio_value 0xfee000e0 [0; 0; 0; 0x10]) = false.
Proof.
  apply dfr_write_panics; try (by vm_compute); [|repeat constructor; lia].
  split; [apply (so_now _ scanned_ok)|apply (so_global _ scanned_ok)|apply scanned_apic_ok|apply zero_banks_ok..].
Defined.
