(* ===== verification/InterruptPath.v ===== *)
(** The path of a line interrupt: the I/O APIC, the routes of the partition and
    the local APICs together.

    A platform is an I/O APIC wired to a partition whose target is the set of
    local APICs. Messages of the I/O APIC are requested of the local APICs, and
    the interrupts that a local APIC ends are ended at the I/O APIC, as
    [WhpPartitionInner] and [WhpApicClient] connect them
    ([vmm_core/virt_whp/src/lib.rs], [apic.rs]). *)

From stdpp Require Import sets sorting.
From S2P Require Import Prelude VmTime VmTimeSpec LocalApic ApicBanks LocalApicSpec LocalApicSystem ApicRouting.
From S2P Require Import IrqRouting IrqRoutingSpec IoApicWired.
From S2P Require IoApic IoApicSpec.

Section Platform.

Context {C : Type} `{Laws : TimeAccessLaws C}.

(** [interrupt]: the message is requested of the set, the processors woken. *)
Definition apic_message (m : Z * Z) (sys : System (C:=C)) : System :=
  exec_request (request_interrupt m.1 m.2 (sys_global sys)) sys.

#[global] Instance apic_routing : IoApicRouting (Partition (System (C:=C))) := partition_routing apic_message.
#[global] Instance apic_routing_laws : IoApicRoutingLaws apic_message (Partition (System (C:=C))) :=
  partition_laws apic_message.

Definition Platform : Type := Wired (R:=Partition (System (C:=C))).

Implicit Type p : Platform.

Definition platform_sys p : System := target (w_routing p).

Definition with_sys (sys : System) p : Platform :=
  mkWired (w_ioapic p) (mkPartition (irq_routes (w_routing p)) sys).

Inductive PlatformOp : Type :=
| PIo (op : IoApicSpec.IoApicOp)
| PApic (op : ApicOp (C:=C)).

(** The interrupts ended between two states of the local APICs. *)
Definition ended (sys sys' : System (C:=C)) : list Z := drop (length (sys_eois sys)) (sys_eois sys').

(** An operation of the local APICs: each interrupt it ends is ended at the
    I/O APIC. *)
Definition apic_step (op : ApicOp) p : res void Platform :=
  let! sys := exec op (platform_sys p) in
  wired_run (map IoApicSpec.OpEoi (ended (platform_sys p) sys)) (with_sys sys p).

Definition platform_step (op : PlatformOp) p : res void Platform :=
  match op with
  | PIo op => wired_step op p
  | PApic op => apic_step op p
  end.

(** Any access of the guest, and any call of the code that runs the processors
    that it may make. *)
Definition platform_op_typed (op : PlatformOp) p : Prop :=
  match op with
  | PIo op => IoApicSpec.typed_op op
  | PApic op => op_typed op (platform_sys p)
  end.

(** A read of a register of the I/O APIC of more than four bytes, or a write of
    an unknown destination format to a local APIC. *)
Definition platform_stops (op : PlatformOp) p : bool :=
  match op with
  | PIo op => IoApicSpec.overruns op
  | PApic op => op_stops op (platform_sys p)
  end.

Definition platform_op_ok (op : PlatformOp) p : Prop :=
  match op with
  | PIo op => IoApicSpec.valid_op op
  | PApic op => op_ok op (platform_sys p)
  end.

Lemma platform_op_ok_typed op p : platform_op_ok op p <-> platform_op_typed op p /\ platform_stops op p = false.
Proof. destruct op; [apply IoApicSpec.valid_op_typed|apply op_ok_typed]. Qed.

(** * Messages keep the local APICs in order *)

Definition calm (sys sys' : System (C:=C)) : Prop := sys_step (fun _ _ => False) (fun _ => False) sys sys'.

Lemma calm_refl sys : sys_ok sys -> calm sys sys.
Proof. intros HS. by split. Qed.

Lemma calm_trans sys sys1 sys2 : calm sys sys1 -> calm sys1 sys2 -> calm sys sys2.
Proof. intros [A1 A2 A3] [B1 B2 B3]. split; auto. Qed.

Lemma message_calm m sys : sys_ok sys -> calm sys (apic_message m sys).
Proof. apply exec_msi_step. Qed.

Lemma sent_calm tr o log sys : sys_ok sys -> calm sys (sent (interrupt:=apic_message) tr o log sys).
Proof.
  revert o sys. induction log as [|c log IH]; intros o sys HS; [by apply calm_refl|]. cbn [sent].
  destruct c as [n|]; [|by apply IH]. destruct (o n ≫= tr) as [m|]; [|by apply IH].
  apply (calm_trans _ (apic_message m sys)); [by apply message_calm|]. apply IH, (message_calm m sys HS).
Qed.

Record platform_inv p : Prop := {
  pi_wired : wired_inv (interrupt:=apic_message) p;
  pi_sys : sys_ok (platform_sys p);
}.

Lemma with_sys_inv sys p : platform_inv p -> sys_ok sys -> platform_inv (with_sys sys p).
Proof. intros [[W1 W2 W3 W4] _] HS. by split. Qed.

Lemma io_ok op p :
  platform_inv p -> IoApicSpec.valid_op op ->
  exists p' log, wired_step op p = Ok p' /\ platform_inv p' /\ calm (platform_sys p) (platform_sys p') /\
    IoApicSpec.ioapic_step op (w_ioapic p) = Ok (w_ioapic p') /\
    IoApic.routing (IoApic.glue (w_ioapic p')) = IoApic.routing (IoApic.glue (w_ioapic p)) ++ log /\
    platform_sys p' = sent (interrupt:=apic_message) Some
      (fun i => IoApicSpec.route_of i (IoApic.routing (IoApic.glue (w_ioapic p)))) log (platform_sys p).
Proof.
  intros [W HS] Hop. destruct (wired_step_ok op p W Hop) as (p' & log & H1 & H2 & H3 & H4 & _ & H5).
  exists p', log. change (platform_sys p' = sent (interrupt:=apic_message) Some
      (fun i => IoApicSpec.route_of i (IoApic.routing (IoApic.glue (w_ioapic p)))) log (platform_sys p)) in H5.
  assert (calm (platform_sys p) (platform_sys p')) as HC by (rewrite H5; by apply sent_calm).
  split_and!; try done. split; [done|apply HC].
Qed.

Lemma eois_ok l p :
  platform_inv p ->
  exists p', wired_run (map IoApicSpec.OpEoi l) p = Ok p' /\ platform_inv p' /\ calm (platform_sys p) (platform_sys p').
Proof.
  revert p. induction l as [|v l IH]; intros p Hp.
  { exists p. split; [done|]. split; [done|]. apply calm_refl, Hp. }
  cbn [map wired_run]. destruct (io_ok (IoApicSpec.OpEoi v) p Hp I) as (p1 & log & -> & H1 & H2 & _). cbn [res_bind].
  destruct (IH p1 H1) as (p' & H3 & H4 & H5). exists p'. split; [done|]. split; [done|]. by eapply calm_trans.
Qed.

Lemma platform_step_inv op p :
  platform_inv p -> platform_op_ok op p -> exists p', platform_step op p = Ok p' /\ platform_inv p'.
Proof.
  intros Hp Hop. destruct op as [op|op]; cbn [platform_step platform_op_ok] in *.
  - destruct (io_ok op p Hp Hop) as (p' & log & H1 & H2 & _). eauto.
  - unfold apic_step. destruct (exec_step op _ (pi_sys _ Hp) Hop) as (sys & -> & Hs). cbn [res_bind].
    destruct (eois_ok (ended (platform_sys p) sys) (with_sys sys p)) as (p' & H1 & H2 & _); [|eauto].
    apply with_sys_inv, Hs. done.
Qed.

Lemma platform_stops_panics op p : platform_inv p -> platform_op_typed op p -> platform_stops op p = true -> platform_step op p = Panic.
Proof.
  intros [HW HS] Hop Hs. destruct op as [op|op]; cbn [platform_step platform_stops platform_op_typed] in *.
  - unfold wired_step. by rewrite (IoApicSpec.overruns_panics op _ (wi_ioapic _ HW)).
  - unfold apic_step. by rewrite op_stops_panics.
Qed.

Inductive platform_reachable : Platform -> Prop :=
| platform_start num d x2 hv now :
    0 < num <= IRQ_LINES -> IoApic.ioapic_new (E:=void) num = Ok d -> now_ok now ->
    platform_reachable (mkWired d (mkPartition routes_new (empty_system x2 hv now)))
| platform_then p op p' :
    platform_reachable p -> platform_op_typed op p -> platform_step op p = Ok p' -> platform_reachable p'.

Lemma routes_new_message i : is_line i -> routes_new !!! Z.to_nat i = None.
Proof.
  intros Hi%is_line_bound. unfold routes_new. by rewrite lookup_total_replicate_2 by (unfold IRQ_LINES; lia).
Qed.

Lemma platform_reachable_inv p : platform_reachable p -> platform_inv p.
Proof.
  induction 1 as [num d x2 hv now Hn Hd Hnow|p op p' _ IH Hop Hs].
  - split; [|by apply empty_ok]. apply wired_reachable_inv, (wired_start num); try done. apply routes_new_message.
  - destruct (platform_stops op p) eqn:Hst; [by rewrite platform_stops_panics in Hs|].
    destruct (platform_step_inv op p IH) as (p1 & H1 & H2); [by apply platform_op_ok_typed|]. congruence.
Qed.

(** * Delivery *)

(** The message [m] is for processor [j], whose APIC is on and enabled. *)
Definition hits (m : Z * Z) (sys : System (C:=C)) (j : nat) : Prop :=
  vp_at sys j (fun vp => reaches m.1 sys vp = true).

Lemma hits_message m m' sys j : hits m sys j -> hits m (apic_message m' sys) j.
Proof.
  intros (vp & Hvp & Hr). eexists. split; [by apply lookup_mark|]. revert Hr. unfold reaches, apic_message, exec_request,
    request_interrupt, global_request_interrupt. by destruct request_arena as [ar w].
Qed.

Lemma message_requested m sys j :
  sys_ok sys -> hits m sys j -> msi_data_delivery_mode m.2 = DeliveryMode.FIXED -> 16 <= msi_data_vector m.2 < 256 ->
  requested (apic_message m sys) j (msi_data_vector m.2).
Proof.
  intros HS (vp & Hvp & Hr) Hm Hv. apply (msi_requested sys m.1 m.2 j vp); try done; [split; lia|]. right. split_and!; [done|lia|done].
Qed.

Lemma asserts_requested o n m l sys j v :
  sys_ok sys -> n ∈ l -> o n = Some m -> hits m sys j ->
  msi_data_delivery_mode m.2 = DeliveryMode.FIXED -> msi_data_vector m.2 = v -> 16 <= v < 256 ->
  requested (sent (interrupt:=apic_message) Some o (map IoApic.Assert l) sys) j v.
Proof.
  intros HS Hn Ho Hh Hm <- Hv. revert sys HS Hh. induction l as [|k l IH]; intros sys HS Hh; [by apply not_elem_of_nil in Hn|].
  cbn [map sent IoApicSpec.route_step]. destruct (decide (k = n)) as [->|Hne].
  - rewrite Ho. cbn [mbind option_bind]. pose proof (message_calm m sys HS) as HC.
    apply (sent_calm Some o (map IoApic.Assert l) _ (ss_ok _ _ _ _ HC)); [split; lia|tauto|].
    by apply message_requested.
  - apply elem_of_cons in Hn as [|Hn]; [done|]. destruct (o k ≫= Some) as [m'|]; [|by apply IH].
    apply IH; [done|apply (message_calm m' sys HS)|by apply hits_message].
Qed.

(** The fields of the message of an entry. *)
Lemma entry_msi q m :
  IoApic.as_msi q = Some m ->
  msi_data_delivery_mode m.2 = IoApic.delivery_mode q /\ msi_data_vector m.2 = IoApic.vector q /\
  msi_data_trigger_mode_level m.2 = IoApic.trigger_mode_level q /\ 0 <= IoApic.vector q < 256.
Proof.
  unfold IoApic.as_msi. destruct (IoApic.masked q); [done|]. intros [= <-]. cbn [snd].
  destruct (IoApicSpec.msi_data_fields (IoApic.vector q) (IoApic.delivery_mode q) (IoApic.destination_mode_logical q)
    true (IoApic.trigger_mode_level q) (IoApicSpec.vector_u8 q) (IoApicSpec.delivery_mode_u3 q)) as (H1 & H2 & _ & _ & H5).
  split_and!; [exact H2|exact H1|exact H5|apply (IoApicSpec.vector_u8 q)..].
Qed.


(** C27: from a line to a processor. Raising a line whose entry is due, fixed
    and of a valid vector requests the vector of every processor that the
    entry's message is for. *)
Theorem line_requests p n e m j :
  platform_reachable p -> IoApic.irqs (w_ioapic p) !! Z.to_nat n = Some e -> 0 <= n ->
  let q := IoApic.redirection e in
  IoApic.as_msi q = Some m ->
  (if IoApic.is_level q then IoApic.remote_irr q = false else IoApic.line_level e = false) ->
  IoApic.delivery_mode q = DeliveryMode.FIXED -> 16 <= IoApic.vector q -> hits m (platform_sys p) j ->
  exists p', platform_step (PIo (IoApicSpec.OpSetIrq n true)) p = Ok p' /\
    requested (platform_sys p') j (IoApic.vector q).
Proof.
  intros Hp He Hn q Hm Hdue Hmode Hv Hh. apply platform_reachable_inv in Hp. pose proof Hp as [HW HS].
  destruct (io_ok (IoApicSpec.OpSetIrq n true) p Hp Hn) as (p' & log & H1 & _ & _ & H2 & H3 & H4).
  exists p'. split; [done|]. destruct (IoApicSpec.set_irq_spec _ n e (wi_ioapic _ HW) He Hn) as [(d' & Hd & Hr & _) _].
  cbn [IoApicSpec.ioapic_step] in H2. rewrite Hd in H2. injection H2 as ->. rewrite Hr in H3. apply app_inv_head in H3.
  fold q in H3.
  assert (negb (IoApic.masked q) = true) as Hmask by (unfold IoApic.as_msi in Hm; by destruct (IoApic.masked q)).
  assert (log = map IoApic.Assert [n]) as ->.
  { rewrite <-H3, Hmask. destruct (IoApic.is_level q); by rewrite Hdue. }
  destruct (entry_msi q m Hm) as (F1 & F2 & _ & F4). rewrite H4.
  apply (asserts_requested _ n m); [done|by apply list_elem_of_singleton| |done|by rewrite F1|done|lia].
  pose proof (entry_message p _ e HW He) as Ho. rewrite Z2Nat.id in Ho by done. by rewrite Ho.
Qed.

Lemma hits_sent m o log sys j : hits m sys j -> hits m (sent (interrupt:=apic_message) Some o log sys) j.
Proof.
  revert o sys. induction log as [|c log IH]; intros o sys Hh; [done|]. cbn [sent]. destruct c as [n|]; [|by apply IH].
  destruct (o n ≫= Some) as [m'|]; apply IH; [by apply hits_message|done].
Qed.

(** What the end of an interrupt changes of an entry. *)
Lemma after_eoi_fields v e :
  let q := IoApic.redirection e in
  let q' := IoApic.redirection (IoApicSpec.after_eoi v e) in
  IoApic.vector q' = IoApic.vector q /\ IoApic.is_level q' = IoApic.is_level q /\ IoApic.masked q' = IoApic.masked q /\
  IoApic.as_msi q' = IoApic.as_msi q /\ IoApic.delivery_mode q' = IoApic.delivery_mode q /\
  IoApic.line_level (IoApicSpec.after_eoi v e) = IoApic.line_level e.
Proof.
  cbn zeta. unfold IoApicSpec.after_eoi. destruct (_ && _); [|done].
  change (IoApic.redirection (IoApicSpec.acknowledged e)) with (IoApic.set_remote_irr false (IoApic.redirection e)).
  by rewrite IoApicSpec.vector_set, IoApicSpec.is_level_set, IoApicSpec.masked_set, IoApicSpec.as_msi_set, IoApicSpec.delivery_mode_set.
Qed.

(** One end of interrupt, of any vector [u], at a level-triggered line. *)
Lemma eoi_line u p n e :
  platform_inv p -> IoApic.irqs (w_ioapic p) !! n = Some e ->
  let q := IoApic.redirection e in
  IoApic.is_level q = true -> IoApic.masked q = false ->
  exists p', wired_step (IoApicSpec.OpEoi u) p = Ok p' /\ platform_inv p' /\ calm (platform_sys p) (platform_sys p') /\
    IoApic.irqs (w_ioapic p') !! n = Some (IoApicSpec.after_eoi u e) /\
    (forall m j, hits m (platform_sys p) j -> hits m (platform_sys p') j) /\
    (IoApic.vector q = u -> IoApic.remote_irr (IoApic.redirection (IoApicSpec.after_eoi u e)) = IoApic.line_level e) /\
    (IoApic.vector q = u -> IoApic.line_level e = true -> forall m j, IoApic.as_msi q = Some m ->
      IoApic.delivery_mode q = DeliveryMode.FIXED -> 16 <= u -> hits m (platform_sys p) j -> requested (platform_sys p') j u).
Proof.
  intros Hp He q Hlev Hmask. pose proof Hp as [HW HS].
  destruct (io_ok (IoApicSpec.OpEoi u) p Hp I) as (p' & log & H1 & H2 & H3 & H4 & H5 & H6).
  destruct (IoApicSpec.eoi_spec (E:=void) u (w_ioapic p) (wi_ioapic _ HW)) as (d' & Hd & _ & Hirqs & Hrt).
  cbn [IoApicSpec.ioapic_step] in H4. rewrite Hd in H4. injection H4 as ->. rewrite Hrt in H5. apply app_inv_head in H5 as <-.
  assert (IoApic.vector q = u -> IoApicSpec.redelivers u e = IoApic.line_level e) as Hre.
  { intros Hvec. unfold IoApicSpec.redelivers. fold q. by rewrite Hvec, Z.eqb_refl, Hmask, Hlev. }
  exists p'. split; [done|]. split; [done|]. split; [done|]. split.
  { rewrite Hirqs. change (map (IoApicSpec.after_eoi u)) with (fmap (M:=list) (IoApicSpec.after_eoi u)). by rewrite list_lookup_fmap, He. }
  split; [intros m j Hh; rewrite H6; by apply hits_sent|]. split.
  - intros Hvec. unfold IoApicSpec.after_eoi. fold q. rewrite Hvec, Z.eqb_refl, (Hre Hvec). cbn [andb].
    destruct (IoApic.line_level e) eqn:Hln; cbn [negb]; [|apply IoApicSpec.remote_irr_set].
    destruct (IoApicSpec.entry_lookup _ n e (wi_ioapic _ HW) He) as [[_ _ _ Hl] _]. by apply Hl.
  - intros Hvec Hln m j Hm Hmode Hv Hh. destruct (entry_msi q m Hm) as (F1 & F2 & _ & F4). rewrite H6.
    apply (asserts_requested _ (Z.of_nat n) m); [done| | |done|by rewrite F1|congruence|lia].
    + apply (IoApicSpec.redelivered_elem u (IoApic.irqs (w_ioapic p)) 0 n e He). by rewrite (Hre Hvec).
    + by rewrite (entry_message p n e HW He).
Qed.

Lemma eois_again l p n e :
  platform_inv p -> IoApic.irqs (w_ioapic p) !! n = Some e ->
  let q := IoApic.redirection e in
  let v := IoApic.vector q in
  IoApic.is_level q = true -> IoApic.masked q = false ->
  exists p' e', wired_run (map IoApicSpec.OpEoi l) p = Ok p' /\ IoApic.irqs (w_ioapic p') !! n = Some e' /\
    (v ∈ l \/ IoApic.remote_irr q = IoApic.line_level e -> IoApic.remote_irr (IoApic.redirection e') = IoApic.line_level e) /\
    (IoApic.line_level e = true -> forall m j, IoApic.as_msi q = Some m -> IoApic.delivery_mode q = DeliveryMode.FIXED ->
      16 <= v -> hits m (platform_sys p) j -> v ∈ l \/ requested (platform_sys p) j v -> requested (platform_sys p') j v).
Proof.
  revert p e. induction l as [|u l IH]; intros p e Hp He q v Hlev Hmask.
  { exists p, e. split; [done|]. split; [done|]. split; [by intros [?%not_elem_of_nil|]|].
    intros _ m j _ _ _ _ [?%not_elem_of_nil|]; done. }
  destruct (eoi_line u p n e Hp He Hlev Hmask) as (p1 & H1 & H2 & H3 & H4 & H5 & H6 & H7).
  destruct (after_eoi_fields u e) as (F1 & F2 & F3 & F4 & F5 & F6). fold q in F1, F2, F3, F4, F5.
  destruct (IH p1 _ H2 H4) as (p' & e' & H8 & H9 & H10 & H11); [by rewrite F2|by rewrite F3|].
  rewrite F1, F6 in H10, H11. rewrite F4, F5 in H11. fold v in H10, H11.
  exists p', e'. cbn [map wired_run]. rewrite H1. cbn [res_bind]. split; [done|]. split; [done|]. split.
  - intros Hv. apply H10. destruct (decide (v = u)) as [Heq|Hne]; [right; exact (H6 Heq)|].
    destruct Hv as [[?|?]%elem_of_cons|Hrem]; [done|by left|right].
    unfold IoApicSpec.after_eoi. fold q. fold v. by destruct (Z.eqb_spec v u); [|exact Hrem].
  - intros Hln m j Hm Hmode Hv Hh Hor. apply (H11 Hln m j); try done; [by apply H5|].
    destruct (decide (v = u)) as [Heq|Hne]; [right; rewrite Heq; apply (H7 Heq Hln m j); (done || lia)|].
    destruct Hor as [[?|?]%elem_of_cons|Hreq]; [done|by left|right].
    apply H3; [|tauto|done]. destruct (entry_msi q m Hm) as (_ & _ & _ & F7). fold v in F7. split; lia.
Qed.

(** C20: level-triggered interrupts. When an operation of a processor ends the
    interrupt [v], among others or alone, each line with that vector that is
    level-triggered and not masked is dealt with: if it is low, it can be
    delivered again; if it is high, it awaits the next end, and if its delivery
    mode is fixed and its vector is one that a local APIC accepts, 16 or more, it
    is requested again of every processor that its message is for. *)
Theorem level_interrupt_again p op sys v n e :
  platform_reachable p -> op_typed op (platform_sys p) -> exec op (platform_sys p) = Ok sys ->
  v ∈ ended (platform_sys p) sys -> IoApic.irqs (w_ioapic p) !! n = Some e ->
  let q := IoApic.redirection e in
  IoApic.vector q = v -> IoApic.is_level q = true -> IoApic.masked q = false ->
  exists p' e', platform_step (PApic op) p = Ok p' /\ IoApic.irqs (w_ioapic p') !! n = Some e' /\
    IoApic.remote_irr (IoApic.redirection e') = IoApic.line_level e /\
    (IoApic.line_level e = true -> forall m j, IoApic.as_msi q = Some m ->
      IoApic.delivery_mode q = DeliveryMode.FIXED -> 16 <= v -> hits m sys j -> requested (platform_sys p') j v).
Proof.
  intros Hp Hop Hex Hend He q <- Hlev Hmask. apply platform_reachable_inv in Hp. pose proof Hp as [HW HS].
  pose proof (exec_run op _ _ HS Hop Hex) as Hst. pose proof (with_sys_inv sys p Hp (ss_ok _ _ _ _ Hst)) as Hp1.
  destruct (eois_again (ended (platform_sys p) sys) (with_sys sys p) n e Hp1 He Hlev Hmask) as (p' & e' & H1 & H2 & H3 & H4).
  exists p', e'. cbn [platform_step]. unfold apic_step. rewrite Hex. cbn [res_bind]. split; [done|]. split; [done|].
  split; [by apply H3; left|]. intros Hln m j Hm Hmode Hv Hh. apply (H4 Hln m j); try done. by left.
Qed.

End Platform.

(** * A machine with one processor and a level-triggered line *)

Fixpoint platform_run {C} `{TimeAccessLaws C} (ops : list PlatformOp) (p : Platform (C:=C)) : res void Platform :=
  match ops with
  | [] => Ok p
  | op :: ops => let! p := platform_step op p in platform_run ops p
  end.

Definition empty_platform : Platform (C:=VmTimeAccess * TimerState) :=
  mkWired IoApicSpec.ioapic_24 (mkPartition routes_new (empty_system false false 60)).

(** The processor is added and line 4 is programmed and raised, as in
    [IoApicSpec.program_ops]. *)
Definition raised_ops : list PlatformOp := PApic (OpAdd 0 true example_source) :: map PIo IoApicSpec.program_ops.

Definition raised_platform : Platform (C:=VmTimeAccess * TimerState) :=
  match platform_run raised_ops empty_platform with Ok p => p | _ => empty_platform end.

(** The processor has found the interrupt and taken it. *)
Definition taken_platform : Platform (C:=VmTimeAccess * TimerState) :=
  match platform_run [PApic (OpScan 0 8000); PApic (OpAck 0 0x30)] raised_platform with
  | Ok p => p
  | _ => raised_platform
  end.

Definition platform_ops_ok {C} `{TimeAccessLaws C} : list PlatformOp -> Platform (C:=C) -> Prop :=
  fix go ops p :=
    match ops with
    | [] => True
    | op :: ops => platform_op_typed op p /\ forall p', platform_step op p = Ok p' -> go ops p'
    end.

Lemma platform_run_reachable {C} `{TimeAccessLaws C} ops (p p' : Platform (C:=C)) :
  platform_reachable p -> platform_ops_ok ops p -> platform_run ops p = Ok p' -> platform_reachable p'.
Proof.
  revert p. induction ops as [|op ops IH]; intros p Hp Hops; cbn [platform_run]; [by intros [= <-]|].
  destruct Hops as [Hop Hops]. intros (p1 & H1 & H2)%res_bind_Ok. apply (IH p1); [|by apply Hops|done].
  by apply (platform_then p op).
Qed.

Lemma raised_reachable : platform_reachable raised_platform.
Proof.
  apply (platform_run_reachable raised_ops empty_platform).
  - apply (platform_start 24); [by split|reflexivity|by split].
  - split; [split; [done|]; split; [apply example_source_inv|done]|].
    intros p1 _. repeat (split; [repeat constructor; done|intros ? _]). done.
  - vm_compute. reflexivity.
Qed.

Definition the_vp (p : Platform (C:=VmTimeAccess * TimerState)) : Vp :=
  match sys_vps (platform_sys p) with vp :: _ => vp | [] => example_vp end.

Lemma taken_reachable : platform_reachable taken_platform.
Proof.
  apply (platform_run_reachable [PApic (OpScan 0 8000); PApic (OpAck 0 0x30)] raised_platform);
    [apply raised_reachable| |vm_compute; reflexivity].
  split.
  - exists (the_vp raised_platform). split; [vm_compute; reflexivity|]. split; [lia|]. by vm_compute.
  - intros p Hp. vm_compute in Hp. injection Hp as <-.
    split; [|done]. eexists. split; [reflexivity|]. by split.
Qed.

(** The guest ends the interrupt. *)
Definition eoi_op : ApicOp (C:=VmTimeAccess * TimerState) := OpAccess 0 70 (MmioWrite 0xfee000b0 [0; 0; 0; 0]).

Lemma eoi_op_typed : op_typed eoi_op (platform_sys taken_platform).
Proof.
  exists (the_vp taken_platform). split; [vm_compute; reflexivity|].
  split; [repeat constructor; lia|]. split; [by split|]. by vm_compute.
Qed.

Definition eoi_system : System (C:=VmTimeAccess * TimerState) :=
  match exec eoi_op (platform_sys taken_platform) with Ok sys => sys | _ => platform_sys taken_platform end.

Definition line_4 (p : Platform (C:=VmTimeAccess * TimerState)) : IoApic.IrqEntry :=
  match IoApic.irqs (w_ioapic p) !! 4%nat with Some e => e | None => IoApic.mkEntry 0 false None end.


(** Line 1 of [IoApicSpec.program_ops] is edge-triggered, with vector 0x31. *)
Definition line_1 (p : Platform (C:=VmTimeAccess * TimerState)) : IoApic.IrqEntry :=
  match IoApic.irqs (w_ioapic p) !! 1%nat with Some e => e | None => IoApic.mkEntry 0 false None end.

Lemma line_requests_witness :
  exists p', platform_step (PIo (IoApicSpec.OpSetIrq 1 true)) raised_platform = Ok p' /\
    requested (platform_sys p') 0 (IoApic.vector (IoApic.redirection (line_1 raised_platform))).
Proof.
  destruct (IoApic.as_msi (IoApic.redirection (line_1 raised_platform))) as [m|] eqn:Hm; [|by vm_compute in Hm].
  apply (line_requests raised_platform 1 (line_1 raised_platform) m 0 raised_reachable);
    [vm_compute; reflexivity|lia|exact Hm|vm_compute; reflexivity|vm_compute; reflexivity|by vm_compute|].
  vm_compute in Hm. injection Hm as <-. exists (the_vp raised_platform). split; vm_compute; reflexivity.
Defined.

Lemma level_interrupt_again_witness :
  exists p' e', platform_step (PApic eoi_op) taken_platform = Ok p' /\ IoApic.irqs (w_ioapic p') !! 4%nat = Some e' /\
    IoApic.remote_irr (IoApic.redirection e') = IoApic.line_level (line_4 taken_platform) /\
    (IoApic.line_level (line_4 taken_platform) = true ->
      forall m j, IoApic.as_msi (IoApic.redirection (line_4 taken_platform)) = Some m ->
      IoApic.delivery_mode (IoApic.redirection (line_4 taken_platform)) = DeliveryMode.FIXED -> 16 <= 0x30 ->
      hits m eoi_system j -> requested (platform_sys p') j 0x30).
Proof.
  apply (level_interrupt_again taken_platform eoi_op eoi_system 0x30 4 (line_4 taken_platform) taken_reachable eoi_op_typed);
    [vm_compute; reflexivity|vm_compute; constructor|vm_compute; reflexivity..].
Defined.
