(* ===== verification/GuestMem.v ===== *)
(** Guest memory as devices and the IOMMU see it: a partial map from guest
    physical addresses to bytes.

    An access of several bytes succeeds if and only if all of them are mapped. A
    failed write leaves the memory as it is, which holds of writes within a page,
    the unit that memory is mapped in. *)

From stdpp Require Import gmap.
From S2P Require Import Prelude.

Notation GuestMemory := (gmap Z Z).

Implicit Type m : GuestMemory.

Fixpoint read_at (n : nat) (a : Z) m : option (list Z) :=
  match n with
  | O => Some []
  | S n => b ← m !! a; l ← read_at n (a + 1) m; Some (b :: l)
  end.

Fixpoint store (a : Z) (l : list Z) m : GuestMemory :=
  match l with
  | [] => m
  | b :: l => store (a + 1) l (<[a := b]> m)
  end.

Definition write_at (a : Z) (l : list Z) m : option GuestMemory :=
  _ ← read_at (length l) a m; Some (store a l m).

(** [read_plain] of a little-endian word of [n] bytes. *)
Definition read_word (n : nat) (a : Z) m : option Z := le_value <$> read_at n a m.

(** * Lemmas *)

(** The bytes from [a] to [a + n]. *)
Definition within (a n x : Z) : Prop := a <= x < a + n.

#[global] Instance within_dec a n x : Decision (within a n x).
Proof. unfold within. apply _. Defined.

Lemma read_at_spec n a m l :
  read_at n a m = Some l <-> length l = n /\ forall i : nat, (i < n)%nat -> m !! (a + Z.of_nat i) = l !! i.
Proof.
  revert a l. induction n as [|n IH]; intros a l; cbn [read_at].
  { split; [intros [= <-]; split; [done|lia]|]. intros [Hl _]. by destruct l. }
  destruct (m !! a) as [b|] eqn:Hb; cbn [mbind option_bind].
  2: { split; [done|]. intros [Hl H]. specialize (H 0%nat ltac:(lia)). rewrite Z.add_0_r, Hb in H.
       by destruct l. }
  transitivity (exists l', read_at n (a + 1) m = Some l' /\ l = b :: l').
  { destruct (read_at n (a + 1) m) as [l'|]; cbn [mbind option_bind]; naive_solver. }
  split.
  - intros (l' & [Hl H]%IH & ->). split; [cbn; lia|]. intros [|i] Hi; [by rewrite Z.add_0_r|].
    change ((b :: l') !! S i) with (l' !! i). rewrite <-H by lia. f_equal. lia.
  - intros [Hl H]. destruct l as [|b' l']; [done|]. exists l'. split.
    + apply IH. cbn in Hl. split; [lia|]. intros i Hi. specialize (H (S i) ltac:(lia)). change ((b' :: l') !! S i) with (l' !! i) in H.
      rewrite <-H. f_equal. lia.
    + specialize (H 0%nat ltac:(lia)). rewrite Z.add_0_r, Hb in H. by injection H as ->.
Qed.

Lemma read_at_total n a m :
  (forall i : nat, (i < n)%nat -> is_Some (m !! (a + Z.of_nat i))) -> exists l, read_at n a m = Some l.
Proof.
  revert a. induction n as [|n IH]; intros a H; cbn [read_at]; [eauto|].
  destruct (H 0%nat ltac:(lia)) as [b Hb]. rewrite Z.add_0_r in Hb. rewrite Hb. cbn [mbind option_bind].
  destruct (IH (a + 1)) as [l ->]; [|cbn; eauto]. intros i Hi. specialize (H (S i) ltac:(lia)).
  replace (a + 1 + Z.of_nat i) with (a + Z.of_nat (S i)) by lia. done.
Qed.

Lemma read_at_length n a m l : read_at n a m = Some l -> length l = n.
Proof. intros H%read_at_spec. apply H. Qed.

(** A read depends on the bytes it reads. *)
Lemma read_at_agree n a m m' :
  (forall x, within a (Z.of_nat n) x -> m' !! x = m !! x) -> read_at n a m' = read_at n a m.
Proof.
  revert a. induction n as [|n IH]; intros a H; [done|]. cbn [read_at].
  rewrite (H a), (IH (a + 1)) by (try intros x Hx; try apply H; unfold within in *; lia). done.
Qed.

Lemma read_at_app n k a m l :
  read_at (n + k) a m = Some l <->
  read_at n a m = Some (take n l) /\ read_at k (a + Z.of_nat n) m = Some (drop n l) /\ length l = (n + k)%nat.
Proof.
  rewrite !read_at_spec, length_take, length_drop. split.
  - intros [Hl H]. split_and!; try lia.
    + intros i Hi. rewrite lookup_take_lt by done. apply H. lia.
    + intros i Hi. rewrite lookup_drop, <-H by lia. f_equal. lia.
  - intros ([_ H1] & [_ H2] & Hl). split; [done|]. intros i Hi. destruct (decide (i < n)%nat) as [Hin|Hin].
    + rewrite H1 by done. by rewrite lookup_take_lt.
    + specialize (H2 (i - n)%nat ltac:(lia)). rewrite lookup_drop in H2.
      replace (n + (i - n))%nat with i in H2 by lia. rewrite <-H2. f_equal. lia.
Qed.

Lemma store_lookup a l m x :
  store a l m !! x = if decide (within a (Z.of_nat (length l)) x) then l !! Z.to_nat (x - a) else m !! x.
Proof.
  revert a m. induction l as [|b l IH]; intros a m; cbn [store length].
  { destruct (decide _) as [H|]; [unfold within in H; lia|done]. }
  rewrite IH. unfold within. destruct (decide (x = a)) as [->|Hne].
  - rewrite decide_False, decide_True by lia. by rewrite lookup_insert_eq, Z.sub_diag.
  - rewrite lookup_insert_ne by done. repeat destruct (decide _); try lia; [|done].
    replace (Z.to_nat (x - a)) with (S (Z.to_nat (x - (a + 1)))) by lia. done.
Qed.

Lemma write_at_spec a l m m' :
  write_at a l m = Some m' <-> m' = store a l m /\ forall x, within a (Z.of_nat (length l)) x -> is_Some (m !! x).
Proof.
  unfold write_at. destruct (read_at (length l) a m) as [old|] eqn:Hr; cbn [mbind option_bind].
  - apply read_at_spec in Hr as [Hl H]. split; [|by intros [-> _]]. intros [= <-]. split; [done|].
    intros x Hx. unfold within in Hx. specialize (H (Z.to_nat (x - a)) ltac:(lia)).
    replace (a + Z.of_nat (Z.to_nat (x - a))) with x in H by lia. rewrite H. apply lookup_lt_is_Some. lia.
  - split; [done|]. intros [_ H]. exfalso. destruct (read_at_total (length l) a m) as [l' ?]; [|congruence].
    intros i Hi. apply H. unfold within. lia.
Qed.

(** What was written is read back. *)
Lemma read_write a l m m' : write_at a l m = Some m' -> read_at (length l) a m' = Some l.
Proof.
  intros [-> _]%write_at_spec. apply read_at_spec. split; [done|]. intros i Hi.
  rewrite store_lookup, decide_True by (unfold within; lia). f_equal. lia.
Qed.

Lemma write_frame a l m m' x :
  write_at a l m = Some m' -> ~ within a (Z.of_nat (length l)) x -> m' !! x = m !! x.
Proof. intros [-> _]%write_at_spec Hx. by rewrite store_lookup, decide_False. Qed.

(** A write keeps the set of mapped addresses. *)
Lemma write_mapped a l m m' x : write_at a l m = Some m' -> is_Some (m' !! x) <-> is_Some (m !! x).
Proof.
  intros [-> H]%write_at_spec. rewrite store_lookup. destruct (decide _) as [Hx|]; [|done].
  split; [by intros _; apply H|]. intros _. apply lookup_lt_is_Some. unfold within in Hx. lia.
Qed.

Lemma read_word_agree n a m m' :
  (forall x, within a (Z.of_nat n) x -> m' !! x = m !! x) -> read_word n a m' = read_word n a m.
Proof. intros H. unfold read_word. by rewrite (read_at_agree n a m m'). Qed.

(** * Pages of 4 KB *)

Definition same_page (a b : Z) : Prop := a / 2 ^ 12 = b / 2 ^ 12.

(** The address in the page of [gpa] with the offset of [iova]. *)
Definition in_page (gpa iova : Z) : Z := gpa / 2 ^ 12 * 2 ^ 12 + iova mod 2 ^ 12.
