(* ===== verification/AmdIommu.v ===== *)
(** The AMD IOMMU ([vm/devices/iommu/amd_iommu/src/lib.rs] and [spec/]): the
    device table, the page-table walk, interrupt remapping, the event log, the
    command buffer and the registers.

    [IommuSharedState] is a record of the registers, guest memory and the
    number of times the IOMMU's own interrupt was delivered. The lock around
    the registers is not modelled: each method is one step. The PCI
    configuration space is another component. *)

From stdpp Require Import gmap.
From S2P Require Import Prelude ChipsetDevice GuestMem.

(** * Layouts *)

(** The bit fields are decoded once, into records of the fields that are used. *)

Record DevTabBase : Type := { dtb_size : Z; dtb_base_addr : Z }.

Definition DevTabBase_from_bits (x : Z) : DevTabBase :=
  {| dtb_size := bits x 0 9; dtb_base_addr := bits x 12 40 |}.

(** [CmdBufBase] and [EvtLogBase], which have the same layout. *)
Record RingBase : Type := { rb_base_addr : Z; rb_length : Z }.

Definition RingBase_from_bits (x : Z) : RingBase :=
  {| rb_base_addr := bits x 12 40; rb_length := bits x 56 4 |}.

Record IommuCtrl : Type := {
  iommu_en : bool;
  evt_log_en : bool;
  evt_int_en : bool;
  com_wait_int_en : bool;
  cmd_buf_en : bool;
  ga_en : bool;
}.

Definition IommuCtrl_from_bits (x : Z) : IommuCtrl := {|
  iommu_en := Z.testbit x 0;
  evt_log_en := Z.testbit x 2;
  evt_int_en := Z.testbit x 3;
  com_wait_int_en := Z.testbit x 4;
  cmd_buf_en := Z.testbit x 12;
  ga_en := Z.testbit x 17;
|}.

Record ExclBase : Type := { ex_en : bool; allow : bool; excl_base_addr : Z }.

Definition ExclBase_from_bits (x : Z) : ExclBase :=
  {| ex_en := Z.testbit x 0; allow := Z.testbit x 1; excl_base_addr := bits x 12 40 |}.

(** [ExclLimit::limit_addr]. *)
Definition limit_addr (x : Z) : Z := bits x 12 40.

(** The pointer of [CmdBufHead], [CmdBufTail], [EvtLogHead] and [EvtLogTail]. *)
Definition ring_ptr (x : Z) : Z := bits x 4 15.

(** A register with this pointer, as [CmdBufHead::new().with_head_ptr]. *)
Definition with_ring_ptr (p : Z) : Z := Z.shiftl p 4.

(** The bits of [IommuStatus]. *)
Definition EVT_OVERFLOW : Z := 0.
Definition EVT_LOG_INT : Z := 1.
Definition COM_WAIT_INT : Z := 2.
Definition EVT_LOG_RUN : Z := 3.
Definition CMD_BUF_RUN : Z := 4.

Record DteDw0 : Type := {
  dte_v : bool;
  dte_tv : bool;
  dte_mode : Z;
  host_pt_root_ptr : Z;
  dte_ir : bool;
  dte_iw : bool;
}.

Definition DteDw0_from_bits (x : Z) : DteDw0 := {|
  dte_v := Z.testbit x 0;
  dte_tv := Z.testbit x 1;
  dte_mode := bits x 9 3;
  host_pt_root_ptr := bits x 12 40;
  dte_ir := Z.testbit x 61;
  dte_iw := Z.testbit x 62;
|}.

Definition page_table_root_address (d : DteDw0) : Z := Z.shiftl (host_pt_root_ptr d) 12.

Record DteDw1 : Type := { domain_id : Z; dte_ex : bool }.

Definition DteDw1_from_bits (x : Z) : DteDw1 := {| domain_id := bits x 0 16; dte_ex := Z.testbit x 39 |}.

Record DteDw2 : Type := { dte_iv : bool; int_tab_len : Z; int_tab_root_ptr : Z; int_ctl : Z }.

Definition DteDw2_from_bits (x : Z) : DteDw2 := {|
  dte_iv := Z.testbit x 0;
  int_tab_len := bits x 1 4;
  int_tab_root_ptr := bits x 6 46;
  int_ctl := bits x 60 2;
|}.

Definition int_tab_address (d : DteDw2) : Z := Z.shiftl (int_tab_root_ptr d) 6.
Definition int_tab_entries (d : DteDw2) : Z := Z.shiftl 1 (int_tab_len d).

Record Dte : Type := mkDte { dw0 : DteDw0; dw1 : DteDw1; dw2 : DteDw2 }.

Definition DTE_SIZE : Z := 32.

(** [PagingMode] and [IntCtl]. *)
Definition PAGING_MODE_DISABLED : Z := 0.
Definition PAGING_MODE_RESERVED : Z := 7.
Definition INT_CTL_ABORT : Z := 0.
Definition INT_CTL_PASS_THROUGH : Z := 1.
Definition INT_CTL_REMAP : Z := 2.

(** * Page table entries *)

(** The fields of [IommuPte] that are used, and the raw entry. *)
Record IommuPte : Type := mkPte {
  pte_raw : Z;
  is_present : bool;
  next_level : Z;
  pte_address : Z;
  has_read : bool;
  has_write : bool;
}.

Definition IommuPte_from_bits (x : Z) : IommuPte := {|
  pte_raw := x;
  is_present := Z.testbit x 0;
  next_level := bits x 9 3;
  pte_address := bits x 12 40;
  has_read := Z.testbit x 61;
  has_write := Z.testbit x 62;
|}.

Definition BITS_PER_LEVEL : Z := 9.

Definition is_leaf (p : IommuPte) : bool := (next_level p =? 0) || (next_level p =? 7).

Definition phys_address (p : IommuPte) : Z := Z.shiftl (pte_address p) 12.

(** The shift [12 + (level - 1) * BITS_PER_LEVEL]. *)
Definition level_shift {E} (level : Z) : res E Z :=
  let! l := usub level 1 in
  Ok (12 + l * BITS_PER_LEVEL).

Definition va_index {E} (va level : Z) : res E Z :=
  let! shift := level_shift level in
  let! x := ushr 64 va shift in
  Ok (Z.land x 0x1ff).

Definition page_size_at_level {E} (level : Z) : res E Z :=
  let! shift := level_shift level in
  ushl 64 1 shift.

Definition page_offset_mask {E} (level : Z) : res E Z :=
  let! size := page_size_at_level level in
  usub size 1.

(** [trailing_ones] of a [w]-bit word. *)
Definition trailing_ones (w x : Z) : Z := trailing_zeros w (unot w x).

Definition mode7_page_size {E} (raw_pte : Z) : res E (option Z) :=
  let first_zero := trailing_ones 64 (Z.lor raw_pte 0xfff) in
  if 52 <=? first_zero then Ok None
  else
    let! size := ushl 64 1 (first_zero + 1) in
    Ok (Some size).

Definition mode7_page_base {E} (raw_pte page_size : Z) : res E Z :=
  let! mask := usub page_size 1 in
  Ok (Z.land (phys_address (IommuPte_from_bits raw_pte)) (unot 64 mask)).

(** * Interrupt remapping table entries *)

Record Irte : Type := {
  remap_en : bool;
  int_type : Z;
  dm : bool;
  irte_destination : Z;
  irte_vector : Z;
}.

(** [Irte], of 32 bits. *)
Definition Irte_from_bits (x : Z) : Irte := {|
  remap_en := Z.testbit x 0;
  int_type := bits x 2 3;
  dm := Z.testbit x 6;
  irte_destination := bits x 8 8;
  irte_vector := bits x 16 8;
|}.

(** [IrteGa], of two words; the destination is put together from both. *)
Definition IrteGa_from_bits (lo hi : Z) : Irte := {|
  remap_en := Z.testbit lo 0;
  int_type := bits lo 2 3;
  dm := Z.testbit lo 6;
  irte_destination := Z.lor (bits lo 8 24) (Z.shiftl (bits hi 56 8) 24);
  irte_vector := bits hi 0 8;
|}.

Definition IRTE_SIZE : Z := 4.
Definition IRTE_GA_SIZE : Z := 16.

Record RemappedInterrupt : Type := mkRemapped {
  ri_destination : Z;
  ri_vector : Z;
  ri_dm : bool;
  ri_int_type : Z;
}.

(** * Faults and events *)

Inductive IommuFault : Type :=
| IllegalDevTableEntry (device_id address : Z) (is_interrupt is_write : bool)
| IoPageFault (device_id domain_id address : Z) (is_write : bool)
| DevTabHardwareError (device_id address : Z)
| PageTabHardwareError (device_id address : Z).

Record EventEntry : Type := mkEvent { ev_dw0 : Z; ev_dw1 : Z; ev_dw2 : Z; ev_dw3 : Z }.

Definition event_bytes (e : EventEntry) : list Z :=
  le_bytes 4 (ev_dw0 e) ++ le_bytes 4 (ev_dw1 e) ++ le_bytes 4 (ev_dw2 e) ++ le_bytes 4 (ev_dw3 e).

(** [address as u32] and [(address >> 32) as u32]. *)
Definition low_half (a : Z) : Z := ucast 32 a.
Definition high_half (a : Z) : Z := ucast 32 (Z.shiftr a 32).

Definition illegal_dev_table_entry (device_id : Z) (is_interrupt is_write : bool) (address : Z) : EventEntry :=
  let flags := Z.lor (Z.shiftl (b2z is_write) 2) (Z.shiftl (b2z is_interrupt) 3) in
  mkEvent (Z.lor (Z.shiftl device_id 16) flags) (Z.shiftl 1 28) (low_half address) (high_half address).

Definition io_page_fault (device_id domain_id : Z) (is_interrupt is_write : bool) (address : Z) : EventEntry :=
  let flags := b2z is_interrupt in
  mkEvent (Z.lor (Z.shiftl device_id 16) flags) (Z.lor (Z.shiftl 2 28) domain_id) (low_half address)
    (Z.lor (Z.shiftl (b2z is_write) 31) (Z.land (high_half address) 0x7fffffff)).

Definition dev_tab_hardware_error (device_id address : Z) : EventEntry :=
  mkEvent (Z.shiftl device_id 16) (Z.shiftl 3 28) (low_half address) (high_half address).

Definition page_tab_hardware_error (device_id address : Z) : EventEntry :=
  mkEvent (Z.shiftl device_id 16) (Z.shiftl 4 28) (low_half address) (high_half address).

Definition illegal_command_error (cmd_address : Z) : EventEntry :=
  mkEvent 0 (Z.shiftl 5 28) (low_half cmd_address) (high_half cmd_address).

Definition command_hardware_error (cmd_address : Z) : EventEntry :=
  mkEvent 0 (Z.shiftl 6 28) (low_half cmd_address) (high_half cmd_address).

Definition to_event_entry (f : IommuFault) : EventEntry :=
  match f with
  | IllegalDevTableEntry device_id address is_interrupt is_write =>
      illegal_dev_table_entry device_id is_interrupt is_write address
  | IoPageFault device_id domain_id address is_write => io_page_fault device_id domain_id false is_write address
  | DevTabHardwareError device_id address => dev_tab_hardware_error device_id address
  | PageTabHardwareError device_id address => page_tab_hardware_error device_id address
  end.

(** * State *)

Record AmdIommuState : Type := mkState {
  dev_tab_base : Z;
  cmd_buf_base : Z;
  evt_log_base : Z;
  iommu_ctrl : Z;
  excl_base : Z;
  excl_limit : Z;
  cmd_buf_head : Z;
  cmd_buf_tail : Z;
  evt_log_head : Z;
  evt_log_tail : Z;
  iommu_status : Z;
  gen_xt_int_ctrl : Z;
  ppr_xt_int_ctrl : Z;
}.

#[global] Instance AmdIommuState_settable : Settable AmdIommuState := fun s =>
  mkState (dev_tab_base s) (cmd_buf_base s) (evt_log_base s) (iommu_ctrl s) (excl_base s) (excl_limit s)
    (cmd_buf_head s) (cmd_buf_tail s) (evt_log_head s) (evt_log_tail s) (iommu_status s) (gen_xt_int_ctrl s)
    (ppr_xt_int_ctrl s).

Definition state_default : AmdIommuState := mkState 0 0 0 0 0 0 0 0 0 0 0 0 0.

(** [msi_interrupt] counts the deliveries of the interrupt, if there is one. *)
Record IommuSharedState : Type := mkShared {
  guest_memory : GuestMemory;
  state : AmdIommuState;
  msi_interrupt : option Z;
}.

#[global] Instance IommuSharedState_settable : Settable IommuSharedState := fun s =>
  mkShared (guest_memory s) (state s) (msi_interrupt s).

Definition shared_new (guest_memory : GuestMemory) (msi_interrupt : option Z) : IommuSharedState :=
  mkShared guest_memory state_default msi_interrupt.

Definition deliver_interrupt (s : IommuSharedState) : IommuSharedState :=
  s <| msi_interrupt := (Z.add 1) <$> msi_interrupt s |>.

Definition ctrl (s : IommuSharedState) : IommuCtrl := IommuCtrl_from_bits (iommu_ctrl (state s)).

Definition is_enabled (s : IommuSharedState) : bool := iommu_en (ctrl s).

(** [read_plain] of a device table entry, whose last word is not used. *)
Definition read_dte (a : Z) (m : GuestMemory) : option Dte :=
  d0 ← read_word 8 a m; d1 ← read_word 8 (a + 8) m; d2 ← read_word 8 (a + 16) m; _ ← read_word 8 (a + 24) m;
  Some (mkDte (DteDw0_from_bits d0) (DteDw1_from_bits d1) (DteDw2_from_bits d2)).

(** A failed read as a fault. *)
Definition map_err {E A} (r : option A) (e : E) : res E A :=
  match r with Some a => Ok a | None => Err e end.

Definition lookup_dte_inner (device_id : Z) (s : IommuSharedState) : res IommuFault Dte :=
  let dtb := DevTabBase_from_bits (dev_tab_base (state s)) in
  let base_gpa := Z.shiftl (dtb_base_addr dtb) 12 in
  let max_entries := (dtb_size dtb + 1) * 4096 / DTE_SIZE in
  if max_entries <=? device_id then Err (IllegalDevTableEntry device_id 0 false false)
  else
    let! dte_gpa := uadd 64 base_gpa (device_id * DTE_SIZE) in
    map_err (read_dte dte_gpa (guest_memory s)) (DevTabHardwareError device_id dte_gpa).

(** * Translation *)

(** The loop of [walk_page_table] from a table of level [current_level] on;
    the level falls with every iteration. *)
Fixpoint walk_loop (fuel : nat) (device_id domain_id iova : Z) (write : bool) (m : GuestMemory)
    (table_addr current_level : Z) (can_read can_write : bool) : res IommuFault Z :=
  match fuel with
  | O => Panic
  | S fuel =>
      let! index := va_index iova current_level in
      let! pte_gpa := uadd 64 table_addr (index * 8) in
      let! raw := map_err (read_word 8 pte_gpa m) (PageTabHardwareError device_id pte_gpa) in
      let pte := IommuPte_from_bits raw in
      if negb (is_present pte) then Err (IoPageFault device_id domain_id iova write)
      else
        let can_read := can_read && has_read pte in
        let can_write := can_write && has_write pte in
        if is_leaf pte || (current_level =? 1) then
          let! page_base_mask :=
            if next_level pte =? 7 then
              let! page_size := mode7_page_size raw in
              match page_size with
              | None => Err (IoPageFault device_id domain_id iova write)
              | Some page_size =>
                  let! mask := usub page_size 1 in
                  let! base := mode7_page_base raw page_size in
                  Ok (base, mask)
              end
            else
              let! mask := page_offset_mask current_level in
              Ok (phys_address pte, mask) in
          let '(page_base, page_size_mask) := page_base_mask in
          let gpa := Z.lor page_base (Z.land iova page_size_mask) in
          if write && negb can_write then Err (IoPageFault device_id domain_id iova true)
          else if negb write && negb can_read then Err (IoPageFault device_id domain_id iova false)
          else Ok gpa
        else
          let next := next_level pte in
          if (next =? 0) || (current_level <=? next) then Err (IoPageFault device_id domain_id iova write)
          else walk_loop fuel device_id domain_id iova write m (phys_address pte) next can_read can_write
  end.

Definition walk_page_table (device_id domain_id root_addr iova levels : Z) (write dte_ir dte_iw : bool)
    (s : IommuSharedState) : res IommuFault Z :=
  walk_loop (Z.to_nat levels) device_id domain_id iova write (guest_memory s) root_addr levels dte_ir dte_iw.

(** The address is in the exclusion range, and the range is for the device. *)
Definition excluded (iova : Z) (dte : Dte) (st : AmdIommuState) : bool :=
  let excl_base_reg := ExclBase_from_bits (excl_base st) in
  let excl_start := Z.shiftl (excl_base_addr excl_base_reg) 12 in
  let excl_end := Z.lor (Z.shiftl (limit_addr (excl_limit st)) 12) 0xfff in
  ex_en excl_base_reg && (allow excl_base_reg || dte_ex (dw1 dte)) &&
  ((excl_start <=? iova) && (iova <=? excl_end)).

Definition translate_inner (device_id iova : Z) (write : bool) (s : IommuSharedState) : res IommuFault Z :=
  if negb (iommu_en (ctrl s)) then Ok iova
  else
    let! dte := lookup_dte_inner device_id s in
    if negb (dte_v (dw0 dte)) then Ok iova
    else if negb (dte_tv (dw0 dte)) then Err (IoPageFault device_id (domain_id (dw1 dte)) iova write)
    else if excluded iova dte (state s) then Ok iova
    else
      let mode := dte_mode (dw0 dte) in
      if mode =? PAGING_MODE_DISABLED then Ok iova
      else if mode =? PAGING_MODE_RESERVED then Err (IllegalDevTableEntry device_id 0 false write)
      else
        let va_width := mode * 9 + 12 in
        if (va_width <? 64) && negb (Z.shiftr iova va_width =? 0) then
          Err (IoPageFault device_id (domain_id (dw1 dte)) iova write)
        else
          walk_page_table device_id (domain_id (dw1 dte)) (page_table_root_address (dw0 dte)) iova mode write
            (dte_ir (dw0 dte)) (dte_iw (dw0 dte)) s.

(** * Interrupt remapping *)

Definition read_irte_ga (a : Z) (m : GuestMemory) : option Irte :=
  lo ← read_word 8 a m; hi ← read_word 8 (a + 8) m; Some (IrteGa_from_bits lo hi).

Definition lookup_irte_inner (device_id : Z) (dte : Dte) (msi_data : Z) (s : IommuSharedState)
    : res IommuFault RemappedInterrupt :=
  let dw2 := dw2 dte in
  if negb (dte_iv dw2) then Err (IllegalDevTableEntry device_id 0 true false)
  else
    let irt_base := int_tab_address dw2 in
    let irte_index := Z.land msi_data 0x7ff in
    if int_tab_entries dw2 <=? irte_index then Err (IoPageFault device_id (domain_id (dw1 dte)) 0 false)
    else
      let! irte :=
        if ga_en (ctrl s) then
          let! irte_gpa := uadd 64 irt_base (irte_index * IRTE_GA_SIZE) in
          map_err (read_irte_ga irte_gpa (guest_memory s)) (PageTabHardwareError device_id irte_gpa)
        else
          let! irte_gpa := uadd 64 irt_base (irte_index * IRTE_SIZE) in
          map_err (Irte_from_bits <$> read_word 4 irte_gpa (guest_memory s))
            (PageTabHardwareError device_id irte_gpa) in
      if negb (remap_en irte) then Err (IoPageFault device_id (domain_id (dw1 dte)) 0 false)
      else Ok (mkRemapped (irte_destination irte) (irte_vector irte) (dm irte) (int_type irte)).

Definition MSI_ADDRESS_PREFIX : Z := 0xfee00000.

(** The message of a remapped interrupt. *)
Definition remapped_message (ri : RemappedInterrupt) : Z * Z :=
  (Z.lor (Z.lor MSI_ADDRESS_PREFIX (Z.shiftl (ri_destination ri) 12)) (Z.shiftl (b2z (ri_dm ri)) 2),
   Z.lor (ri_vector ri) (Z.shiftl (ri_int_type ri) 8)).

Definition remap_msi_inner (device_id address data : Z) (s : IommuSharedState) : res IommuFault (Z * Z) :=
  if negb (iommu_en (ctrl s)) then Ok (address, data)
  else
    let! dte := lookup_dte_inner device_id s in
    if negb (dte_v (dw0 dte)) then Ok (address, data)
    else
      let int_ctl_mode := int_ctl (dw2 dte) in
      if int_ctl_mode =? INT_CTL_PASS_THROUGH then Ok (address, data)
      else if int_ctl_mode =? INT_CTL_ABORT then
        if negb (dte_iv (dw2 dte)) then Ok (address, data)
        else Err (IllegalDevTableEntry device_id address true false)
      else if int_ctl_mode =? INT_CTL_REMAP then
        let! ri := lookup_irte_inner device_id dte data s in
        Ok (remapped_message ri)
      else Err (IllegalDevTableEntry device_id address true false).

(** * Event log *)

Definition ring_size_bytes (log2_entries : Z) : option Z :=
  if log2_entries <? 8 then None else Some (Z.shiftl 1 log2_entries * 16).

Definition cmd_buf_size_bytes (st : AmdIommuState) : option Z :=
  ring_size_bytes (rb_length (RingBase_from_bits (cmd_buf_base st))).

Definition evt_log_size_bytes (st : AmdIommuState) : option Z :=
  ring_size_bytes (rb_length (RingBase_from_bits (evt_log_base st))).

(** The byte offset of a ring pointer, within the ring. *)
Definition ring_offset (reg buf_size_bytes : Z) : Z := Z.shiftl (ring_ptr reg) 4 mod buf_size_bytes.

Definition set_status (bit : Z) (b : bool) (s : IommuSharedState) : IommuSharedState :=
  s <| state := state s <| iommu_status := with_bit bit b (iommu_status (state s)) |> |>.

Definition write_event_inner {E} (event : EventEntry) (s : IommuSharedState) : res E IommuSharedState :=
  let c := ctrl s in
  if negb (iommu_en c) || negb (evt_log_en c) then Ok s
  else if Z.testbit (iommu_status (state s)) EVT_OVERFLOW then Ok s
  else
    match evt_log_size_bytes (state s) with
    | None => Ok s
    | Some buf_size_bytes =>
        let base_gpa := Z.shiftl (rb_base_addr (RingBase_from_bits (evt_log_base (state s)))) 12 in
        let tail_offset := ring_offset (evt_log_tail (state s)) buf_size_bytes in
        let head_offset := ring_offset (evt_log_head (state s)) buf_size_bytes in
        let next_tail := (tail_offset + 16) mod buf_size_bytes in
        if next_tail =? head_offset then
          let s := set_status EVT_OVERFLOW true s in
          Ok (if evt_int_en c then deliver_interrupt s else s)
        else
          let! entry_gpa := uadd 64 base_gpa tail_offset in
          match write_at entry_gpa (event_bytes event) (guest_memory s) with
          | None => Ok s
          | Some m =>
              let s := s <| guest_memory := m |> in
              let s := s <| state := state s <| evt_log_tail := with_ring_ptr (Z.shiftr next_tail 4) |> |> in
              Ok (if evt_int_en c then deliver_interrupt (set_status EVT_LOG_INT true s) else s)
          end
    end.

Definition queue_event {E} (event : EventEntry) (s : IommuSharedState) : res E IommuSharedState :=
  write_event_inner event s.

(** [AmdTranslator::translate], up to the closure: the address, or the fault
    that was logged. *)
Definition amd_translate {E} (rid iova : Z) (write : bool) (s : IommuSharedState)
    : res E (IommuSharedState * (IommuFault + Z)) :=
  match translate_inner rid iova write s with
  | Ok gpa => Ok (s, inr gpa)
  | Err fault => let! s := queue_event (to_event_entry fault) s in Ok (s, inl fault)
  | Panic => Panic
  end.

Definition VA_SIZE : Z := 48.

Definition amd_max_iova : Z := Z.shiftl 1 VA_SIZE.

(** [remap_msi] of [InterruptRemapper]: a fault is logged. *)
Definition amd_remap_msi {E} (device_id address data : Z) (s : IommuSharedState)
    : res E (IommuSharedState * option (Z * Z)) :=
  match remap_msi_inner device_id address data s with
  | Ok result => Ok (s, Some result)
  | Err fault => let! s := queue_event (to_event_entry fault) s in Ok (s, None)
  | Panic => Panic
  end.

(** [IommuSignalMsi::signal_msi]: the message passed on, if any. *)
Definition signal_msi {E} (devid : option Z) (address data : Z) (s : IommuSharedState)
    : res E (IommuSharedState * option (Z * Z)) :=
  match devid with
  | None => Ok (s, None)
  | Some device_id => amd_remap_msi (ucast 16 device_id) address data s
  end.

(** * Command buffer *)

Record CommandEntry : Type := mkCommand { cmd_dw0 : Z; cmd_dw1 : Z; cmd_dw2 : Z; cmd_dw3 : Z }.

Definition read_command (a : Z) (m : GuestMemory) : option CommandEntry :=
  d0 ← read_word 4 a m; d1 ← read_word 4 (a + 4) m; d2 ← read_word 4 (a + 8) m; d3 ← read_word 4 (a + 12) m;
  Some (mkCommand d0 d1 d2 d3).

Definition opcode (e : CommandEntry) : Z := Z.shiftr (cmd_dw1 e) 28.

Module CommandOpcode.
Definition COMPLETION_WAIT : Z := 1.
Definition INVALIDATE_DEVTAB_ENTRY : Z := 2.
Definition INVALIDATE_IOMMU_PAGES : Z := 3.
Definition INVALIDATE_IOTLB_PAGES : Z := 4.
Definition INVALIDATE_INTERRUPT_TABLE : Z := 5.
Definition PREFETCH_IOMMU_PAGES : Z := 6.
Definition INVALIDATE_IOMMU_ALL : Z := 8.
End CommandOpcode.

Record CompletionWait : Type := { cw_s : bool; cw_i : bool; cw_store_address : Z; cw_store_data : Z }.

(** [CompletionWaitDw0Dw1] with [store_address], and [completion_wait_store_data]. *)
Definition completion_wait (e : CommandEntry) : CompletionWait :=
  let raw := Z.lor (cmd_dw0 e) (Z.shiftl (cmd_dw1 e) 32) in {|
  cw_s := Z.testbit raw 0;
  cw_i := Z.testbit raw 1;
  cw_store_address := Z.shiftl (Z.lor (Z.shiftl (bits raw 32 20) 29) (bits raw 3 29)) 3;
  cw_store_data := Z.lor (cmd_dw2 e) (Z.shiftl (cmd_dw3 e) 32);
|}.

(** [InvalidateInterruptTable::device_id]. *)
Definition invalidate_device_id (e : CommandEntry) : Z := bits (cmd_dw0 e) 0 16.

Inductive PendingInvalidation : Type :=
| NoInvalidation
| DeviceInvalidation (device_id : Z)
| AllInvalidation.

Definition process_completion_wait (e : CommandEntry) (s : IommuSharedState) : IommuSharedState :=
  let fields := completion_wait e in
  let s :=
    if cw_s fields then
      match write_at (cw_store_address fields) (le_bytes 8 (cw_store_data fields)) (guest_memory s) with
      | Some m => s <| guest_memory := m |>
      | None => s
      end
    else s in
  if cw_i fields then
    let s := set_status COM_WAIT_INT true s in
    if com_wait_int_en (ctrl s) then deliver_interrupt s else s
  else s.

(** The invalidations of a batch, coalesced. *)
Definition coalesce (device_id : Z) (p : PendingInvalidation) : PendingInvalidation :=
  match p with
  | NoInvalidation => DeviceInvalidation device_id
  | DeviceInvalidation id => if id =? device_id then DeviceInvalidation id else AllInvalidation
  | AllInvalidation => AllInvalidation
  end.

(** A command other than an unknown one: the state after it. *)
Definition process_command (e : CommandEntry) (p : PendingInvalidation) (s : IommuSharedState)
    : option (IommuSharedState * PendingInvalidation) :=
  let op := opcode e in
  if op =? CommandOpcode.COMPLETION_WAIT then Some (process_completion_wait e s, p)
  else if (op =? CommandOpcode.INVALIDATE_DEVTAB_ENTRY) || (op =? CommandOpcode.INVALIDATE_IOMMU_PAGES)
       || (op =? CommandOpcode.INVALIDATE_IOTLB_PAGES) || (op =? CommandOpcode.PREFETCH_IOMMU_PAGES)
  then Some (s, p)
  else if op =? CommandOpcode.INVALIDATE_INTERRUPT_TABLE then Some (s, coalesce (invalidate_device_id e) p)
  else if op =? CommandOpcode.INVALIDATE_IOMMU_ALL then Some (s, AllInvalidation)
  else None.

(** The command buffer stops at [entry_gpa], with an event. *)
Definition halt_commands {E} (event : EventEntry) (s : IommuSharedState) : res E IommuSharedState :=
  let! s := write_event_inner event s in
  Ok (set_status CMD_BUF_RUN false s).

Fixpoint command_loop {E} (fuel : nat) (base_gpa buf_size_bytes : Z) (p : PendingInvalidation)
    (s : IommuSharedState) : res E (IommuSharedState * PendingInvalidation) :=
  match fuel with
  | O => Panic
  | S fuel =>
      let head_offset := ring_offset (cmd_buf_head (state s)) buf_size_bytes in
      let tail_offset := ring_offset (cmd_buf_tail (state s)) buf_size_bytes in
      if head_offset =? tail_offset then Ok (s, p)
      else
        let! entry_gpa := uadd 64 base_gpa head_offset in
        match read_command entry_gpa (guest_memory s) with
        | None => let! s := halt_commands (command_hardware_error entry_gpa) s in Ok (s, p)
        | Some entry =>
            match process_command entry p s with
            | None => let! s := halt_commands (illegal_command_error entry_gpa) s in Ok (s, p)
            | Some (s, p) =>
                let next_head := (head_offset + 16) mod buf_size_bytes in
                command_loop fuel base_gpa buf_size_bytes p
                  (s <| state := state s <| cmd_buf_head := with_ring_ptr (Z.shiftr next_head 4) |> |>)
            end
        end
  end.

Definition process_commands {E} (s : IommuSharedState) : res E (IommuSharedState * PendingInvalidation) :=
  let c := ctrl s in
  if negb (iommu_en c) || negb (cmd_buf_en c) then Ok (s, NoInvalidation)
  else
    match cmd_buf_size_bytes (state s) with
    | None => Ok (set_status CMD_BUF_RUN false s, NoInvalidation)
    | Some buf_size_bytes =>
        let base_gpa := Z.shiftl (rb_base_addr (RingBase_from_bits (cmd_buf_base (state s)))) 12 in
        command_loop (Z.to_nat (buf_size_bytes / 16)) base_gpa buf_size_bytes NoInvalidation s
    end.

(** * Registers *)

Module MmioRegister.
Definition DEV_TAB_BASE : Z := 0x0000.
Definition CMD_BUF_BASE : Z := 0x0008.
Definition EVT_LOG_BASE : Z := 0x0010.
Definition IOMMU_CTRL : Z := 0x0018.
Definition EXCL_BASE : Z := 0x0020.
Definition EXCL_LIMIT : Z := 0x0028.
Definition EXT_FEAT : Z := 0x0030.
Definition GEN_XT_INT_CTRL : Z := 0x0170.
Definition PPR_XT_INT_CTRL : Z := 0x0178.
Definition EXT_FEAT2 : Z := 0x01a0.
Definition CMD_BUF_HEAD : Z := 0x2000.
Definition CMD_BUF_TAIL : Z := 0x2008.
Definition EVT_LOG_HEAD : Z := 0x2010.
Definition EVT_LOG_TAIL : Z := 0x2018.
Definition IOMMU_STATUS : Z := 0x2020.
End MmioRegister.

Definition ADVERTISED_EXT_FEAT : Z := 0xc4.

Definition read_register (offset : Z) (s : IommuSharedState) : Z :=
  let st := state s in
  let r := ucast 16 offset in
  if r =? MmioRegister.DEV_TAB_BASE then dev_tab_base st
  else if r =? MmioRegister.CMD_BUF_BASE then cmd_buf_base st
  else if r =? MmioRegister.EVT_LOG_BASE then evt_log_base st
  else if r =? MmioRegister.IOMMU_CTRL then iommu_ctrl st
  else if r =? MmioRegister.EXCL_BASE then excl_base st
  else if r =? MmioRegister.EXCL_LIMIT then excl_limit st
  else if r =? MmioRegister.EXT_FEAT then ADVERTISED_EXT_FEAT
  else if r =? MmioRegister.EXT_FEAT2 then 0
  else if r =? MmioRegister.CMD_BUF_HEAD then cmd_buf_head st
  else if r =? MmioRegister.CMD_BUF_TAIL then cmd_buf_tail st
  else if r =? MmioRegister.EVT_LOG_HEAD then evt_log_head st
  else if r =? MmioRegister.EVT_LOG_TAIL then evt_log_tail st
  else if r =? MmioRegister.IOMMU_STATUS then iommu_status st
  else if r =? MmioRegister.GEN_XT_INT_CTRL then gen_xt_int_ctrl st
  else if r =? MmioRegister.PPR_XT_INT_CTRL then ppr_xt_int_ctrl st
  else 0.

Definition update_status_from_ctrl (st : AmdIommuState) : AmdIommuState :=
  let c := IommuCtrl_from_bits (iommu_ctrl st) in
  let run := iommu_en c && cmd_buf_en c && bool_decide (is_Some (cmd_buf_size_bytes st)) in
  let log := iommu_en c && evt_log_en c && bool_decide (is_Some (evt_log_size_bytes st)) in
  st <| iommu_status := with_bit EVT_LOG_RUN log (with_bit CMD_BUF_RUN run (iommu_status st)) |>.

(** A write to the status register clears the bits written as one, of the
    first three, and keeps the next two. *)
Definition cleared_status (status value : Z) : Z :=
  let rw1c bit := Z.testbit status bit && negb (Z.testbit value bit) in
  with_bit CMD_BUF_RUN (Z.testbit status CMD_BUF_RUN)
    (with_bit EVT_LOG_RUN (Z.testbit status EVT_LOG_RUN)
      (with_bit COM_WAIT_INT (rw1c COM_WAIT_INT)
        (with_bit EVT_LOG_INT (rw1c EVT_LOG_INT) (with_bit EVT_OVERFLOW (rw1c EVT_OVERFLOW) 0)))).

(** [write_register] up to the invalidation, which is returned. *)
Definition write_register {E} (offset value : Z) (s : IommuSharedState)
    : res E (IommuSharedState * PendingInvalidation) :=
  let st := state s in
  let en := iommu_en (ctrl s) in
  let r := ucast 16 offset in
  let done st := Ok (s <| state := st |>, NoInvalidation) in
  if r =? MmioRegister.DEV_TAB_BASE then done (if negb en then st <| dev_tab_base := value |> else st)
  else if r =? MmioRegister.CMD_BUF_BASE then done (if negb en then st <| cmd_buf_base := value |> else st)
  else if r =? MmioRegister.EVT_LOG_BASE then done (if negb en then st <| evt_log_base := value |> else st)
  else if r =? MmioRegister.IOMMU_CTRL then
    let old_ctrl := ctrl s in
    let s := s <| state := update_status_from_ctrl (st <| iommu_ctrl := value |>) |> in
    let new_ctrl := IommuCtrl_from_bits value in
    if iommu_en new_ctrl && cmd_buf_en new_ctrl && negb (cmd_buf_en old_ctrl) then process_commands s
    else Ok (s, NoInvalidation)
  else if r =? MmioRegister.EXCL_BASE then done (st <| excl_base := value |>)
  else if r =? MmioRegister.EXCL_LIMIT then done (st <| excl_limit := value |>)
  else if (r =? MmioRegister.EXT_FEAT) || (r =? MmioRegister.EXT_FEAT2) then Ok (s, NoInvalidation)
  else if r =? MmioRegister.CMD_BUF_HEAD then done (if negb en then st <| cmd_buf_head := value |> else st)
  else if r =? MmioRegister.CMD_BUF_TAIL then process_commands (s <| state := st <| cmd_buf_tail := value |> |>)
  else if r =? MmioRegister.EVT_LOG_HEAD then done (st <| evt_log_head := value |>)
  else if r =? MmioRegister.EVT_LOG_TAIL then done (if negb en then st <| evt_log_tail := value |> else st)
  else if r =? MmioRegister.IOMMU_STATUS then
    done (st <| iommu_status := cleared_status (iommu_status st) value |>)
  else if r =? MmioRegister.GEN_XT_INT_CTRL then done (st <| gen_xt_int_ctrl := value |>)
  else if r =? MmioRegister.PPR_XT_INT_CTRL then done (st <| ppr_xt_int_ctrl := value |>)
  else Ok (s, NoInvalidation).

(** [ChangeDeviceState::reset]. *)
Definition iommu_reset (s : IommuSharedState) : IommuSharedState := s <| state := state_default |>.

(** * The device *)

Record AmdIommuDevice : Type := mkDevice { mmio_base : Z; shared : IommuSharedState }.

#[global] Instance AmdIommuDevice_settable : Settable AmdIommuDevice := fun d => mkDevice (mmio_base d) (shared d).

(** The bytes read; every byte is 0xff if the size is not supported. *)
Definition mmio_read (addr : Z) (len : nat) (d : AmdIommuDevice) : res IoError (list Z) :=
  let! offset := usub addr (mmio_base d) in
  let bytes := le_bytes 8 (read_register (Z.land offset (unot 64 7)) (shared d)) in
  match len with
  | 8%nat => Ok bytes
  | 4%nat => Ok (take 4 (drop (Z.to_nat (Z.land offset 4)) bytes))
  | _ => Err InvalidAccessSize
  end.

(** The half of the bytes from [half_offset] on replaced. *)
Definition set_half (half_offset : nat) (data bytes : list Z) : list Z :=
  take half_offset bytes ++ data ++ drop (half_offset + 4) bytes.

Definition mmio_write (addr : Z) (data : list Z) (d : AmdIommuDevice)
    : res IoError (AmdIommuDevice * PendingInvalidation) :=
  let! offset := usub addr (mmio_base d) in
  let reg_offset := Z.land offset (unot 64 7) in
  let! r :=
    match length data with
    | 8%nat => write_register reg_offset (le_value data) (shared d)
    | 4%nat =>
        let val := read_register reg_offset (shared d) in
        let bytes := set_half (Z.to_nat (Z.land offset 4)) data (le_bytes 8 val) in
        write_register reg_offset (le_value bytes) (shared d)
    | _ => Err InvalidAccessSize
    end in
  Ok (d <| shared := r.1 |>, r.2).
