(* ===== verification/AmdIommuSpec.v ===== *)
(** Translation by the AMD IOMMU: the page-table walk against a relation that
    says which accesses a page table grants, and what a translation depends on. *)

From stdpp Require Import gmap.
From S2P Require Import Prelude GuestMem AmdIommu.

Implicit Type m : GuestMemory.
Implicit Type s : IommuSharedState.

(** * Entries *)

(** The bits of an address above a page of level [level]. *)
Definition level_bits (level : Z) : Z := 12 + (level - 1) * 9.

Definition index_of (iova level : Z) : Z := bits iova (level_bits level) 9.

Lemma level_shift_ok {E} level : 1 <= level -> level_shift level = Ok (E:=E) (level_bits level).
Proof. intros. unfold level_shift. by rewrite usub_ok by lia. Qed.

Lemma va_index_ok {E} iova level : 1 <= level <= 6 -> va_index iova level = Ok (E:=E) (index_of iova level).
Proof.
  intros. unfold va_index. rewrite level_shift_ok by lia. cbn [res_bind].
  rewrite ushr_ok by (unfold level_bits; lia). done.
Qed.

Lemma index_bound iova level : 0 <= index_of iova level < 512.
Proof. apply (bits_bound iova (level_bits level) 9). lia. Qed.

Lemma page_offset_mask_ok {E} level :
  1 <= level <= 6 -> page_offset_mask level = Ok (E:=E) (2 ^ level_bits level - 1).
Proof.
  intros. unfold page_offset_mask, page_size_at_level. rewrite level_shift_ok by lia. cbn [res_bind].
  assert (0 <= level_bits level < 64) as Hb by (unfold level_bits; lia). rewrite ushl_1 by done. cbn [res_bind].
  apply usub_ok. pose proof (Z.pow_pos_nonneg 2 (level_bits level)). lia.
Qed.

Lemma phys_address_bound raw : 0 <= phys_address (IommuPte_from_bits raw) < 2 ^ 52.
Proof.
  unfold phys_address. cbn [pte_address IommuPte_from_bits]. pose proof (bits_bound raw 12 40 ltac:(lia)) as [H0 H1].
  rewrite Z.shiftl_mul_pow2 by lia. lia.
Qed.

Lemma phys_address_page raw : phys_address (IommuPte_from_bits raw) mod 2 ^ 12 = 0.
Proof. unfold phys_address. rewrite Z.shiftl_mul_pow2 by lia. apply Z.mod_mul. lia. Qed.

(** The page of a leaf entry found at [level]: its frame, and its size as a
    power of two. An entry of mode 7 holds the size in its address: the bits
    below the first clear one, from bit 12 on. *)
Definition leaf_page (raw level : Z) : option (Z * Z) :=
  let frame := phys_address (IommuPte_from_bits raw) in
  if next_level (IommuPte_from_bits raw) =? 7 then
    let k := trailing_ones 64 (Z.lor raw 0xfff) + 1 in
    if 52 <? k then None else Some (frame / 2 ^ k * 2 ^ k, k)
  else Some (frame, level_bits level).

Lemma trailing_ones_bound w x : 0 <= w -> 0 <= trailing_ones w x <= w.
Proof.
  intros. unfold trailing_ones. split; [by apply trailing_zeros_nonneg|].
  pose proof (is_u_unot w x ltac:(done)) as Hu. destruct (Z.eq_dec (unot w x) 0) as [->|]; [done|].
  pose proof (trailing_zeros_bound w (unot w x)). unfold is_u in *. lia.
Qed.

Lemma mode7_leaf {E} raw :
  mode7_page_size raw = Ok (E:=E) (let k := trailing_ones 64 (Z.lor raw 0xfff) + 1 in
                                   if 52 <? k then None else Some (2 ^ k)).
Proof.
  unfold mode7_page_size. set (n := trailing_ones 64 (Z.lor raw 0xfff)). cbn zeta.
  pose proof (trailing_ones_bound 64 (Z.lor raw 0xfff) ltac:(lia)) as Hn. fold n in Hn.
  destruct (Z.leb_spec 52 n), (Z.ltb_spec 52 (n + 1)); try lia; [done|]. rewrite ushl_1 by lia. done.
Qed.

Lemma mode7_base {E} raw k :
  0 <= k <= 63 ->
  mode7_page_base raw (2 ^ k) =
    Ok (E:=E) (phys_address (IommuPte_from_bits raw) / 2 ^ k * 2 ^ k).
Proof.
  intros Hk. unfold mode7_page_base. pose proof (Z.pow_pos_nonneg 2 k). rewrite usub_ok by lia. cbn [res_bind].
  f_equal. apply land_not_mask; [lia|]. apply (is_u_mono 52); [apply phys_address_bound|lia].
Qed.

(** * What a page table grants *)

(** The entry for [iova] in the table at [table], of level [level]. *)
Definition entry_gpa (table level iova : Z) : Z := table + index_of iova level * 8.

Definition entry_at m (table level iova : Z) : option Z := read_word 8 (entry_gpa table level iova) m.

Definition permits (write : bool) (raw : Z) : bool :=
  if write then has_write (IommuPte_from_bits raw) else has_read (IommuPte_from_bits raw).

(** The tables in [m] from the one at [table] on grant an access to [iova], at
    the address [gpa]: the entries on the way are present and permit it, and
    the levels fall. *)
Inductive grants m (iova : Z) (write : bool) : Z -> Z -> Z -> Prop :=
| grants_page table level raw frame k :
    entry_at m table level iova = Some raw ->
    is_present (IommuPte_from_bits raw) = true -> permits write raw = true ->
    is_leaf (IommuPte_from_bits raw) = true \/ level = 1 ->
    leaf_page raw level = Some (frame, k) ->
    grants m iova write table level (Z.lor frame (iova mod 2 ^ k))
| grants_table table level raw gpa :
    entry_at m table level iova = Some raw ->
    is_present (IommuPte_from_bits raw) = true -> permits write raw = true ->
    is_leaf (IommuPte_from_bits raw) = false -> level <> 1 ->
    next_level (IommuPte_from_bits raw) < level ->
    grants m iova write (phys_address (IommuPte_from_bits raw)) (next_level (IommuPte_from_bits raw)) gpa ->
    grants m iova write table level gpa.

Lemma not_leaf_level raw :
  is_leaf (IommuPte_from_bits raw) = false -> 1 <= next_level (IommuPte_from_bits raw) <= 6.
Proof.
  unfold is_leaf. intros [H0%Z.eqb_neq H7%Z.eqb_neq]%orb_false_iff.
  pose proof (bits_bound raw 9 3 ltac:(lia)) as Hb. cbn [next_level IommuPte_from_bits] in *. unfold is_u in Hb. lia.
Qed.

(** The leaf case of the walk computes the page. *)
Definition leaf_result {E} (raw level : Z) (fault : E) : res E (Z * Z) :=
  match leaf_page raw level with
  | Some (frame, k) => Ok (frame, 2 ^ k - 1)
  | None => Err fault
  end.

Lemma leaf_ok {E} raw level (fault : E) :
  1 <= level <= 6 ->
  (if next_level (IommuPte_from_bits raw) =? 7 then
     let! page_size := mode7_page_size raw in
     match page_size with
     | None => Err fault
     | Some page_size =>
         let! mask := usub page_size 1 in
         let! base := mode7_page_base raw page_size in
         Ok (base, mask)
     end
   else
     let! mask := page_offset_mask level in
     Ok (phys_address (IommuPte_from_bits raw), mask)) = leaf_result raw level fault.
Proof.
  intros Hl. unfold leaf_result, leaf_page. destruct (_ =? 7).
  - rewrite mode7_leaf. cbn [res_bind]. cbn zeta. set (k := _ + 1).
    destruct (Z.ltb_spec 52 k); [done|].
    assert (0 <= k) by (pose proof (trailing_ones_bound 64 (Z.lor raw 0xfff)); lia).
    pose proof (Z.pow_pos_nonneg 2 k). rewrite usub_ok by lia. cbn [res_bind]. by rewrite mode7_base by lia.
  - by rewrite page_offset_mask_ok by lia.
Qed.

Lemma entry_gpa_ok {E} table level iova :
  0 <= table < 2 ^ 52 -> uadd 64 table (index_of iova level * 8) = Ok (E:=E) (entry_gpa table level iova).
Proof. intros. pose proof (index_bound iova level). rewrite uadd_ok by lia. done. Qed.

Lemma leaf_page_size raw level frame k : 1 <= level -> leaf_page raw level = Some (frame, k) -> 12 <= k.
Proof.
  unfold leaf_page. intros Hl. destruct (_ =? 7).
  - set (n := trailing_ones 64 (Z.lor raw 0xfff)). destruct (_ <? _) eqn:Hk; [done|]. intros [= <- <-].
    destruct (decide (12 <= n)); [lia|]. exfalso. apply Z.ltb_ge in Hk.
    assert (Z.testbit (unot 64 (Z.lor raw 0xfff)) n = true) as Ht.
    { apply trailing_zeros_testbit. pose proof (is_u_unot 64 (Z.lor raw 0xfff) ltac:(lia)) as [H0 _].
      destruct (Z.eq_dec (unot 64 (Z.lor raw 0xfff)) 0) as [E|]; [|lia].
      unfold n, trailing_ones in Hk. rewrite E in Hk. done. }
    pose proof (trailing_ones_bound 64 (Z.lor raw 0xfff) ltac:(lia)). fold n in H.
    rewrite testbit_unot, Z.lor_spec in Ht by lia. change 0xfff with (Z.ones 12) in Ht.
    rewrite testbit_ones in Ht by lia. destruct (Z.leb_spec 0 n), (Z.ltb_spec n 12); lia.
  - intros [= <- <-]. unfold level_bits. lia.
Qed.

(** One iteration of the walk. *)
Lemma walk_step fuel d dom iova write m table level r w :
  1 <= level <= 6 -> 0 <= table < 2 ^ 52 ->
  walk_loop (S fuel) d dom iova write m table level r w =
  match entry_at m table level iova with
  | None => Err (PageTabHardwareError d (entry_gpa table level iova))
  | Some raw =>
      let pte := IommuPte_from_bits raw in
      let r := r && has_read pte in
      let w := w && has_write pte in
      let fault := Err (IoPageFault d dom iova write) in
      if negb (is_present pte) then fault
      else if is_leaf pte || (level =? 1) then
        match leaf_page raw level with
        | None => fault
        | Some (frame, k) => if (if write then w else r) then Ok (Z.lor frame (iova mod 2 ^ k)) else fault
        end
      else if level <=? next_level pte then fault
      else walk_loop fuel d dom iova write m (phys_address pte) (next_level pte) r w
  end.
Proof.
  intros Hl Ht. cbn [walk_loop]. rewrite va_index_ok by done. cbn [res_bind]. rewrite entry_gpa_ok by done.
  cbn [res_bind]. unfold entry_at. destruct (read_word 8 _ m) as [raw|]; [|done]. cbn [map_err res_bind].
  set (pte := IommuPte_from_bits raw). cbn zeta. destruct (is_present pte); [|done]. cbn [negb].
  destruct (is_leaf pte || (level =? 1)) eqn:Hleaf.
  - unfold pte. rewrite (leaf_ok raw level (IoPageFault d dom iova write) Hl). fold pte. unfold leaf_result.
    destruct (leaf_page raw level) as [[frame k]|] eqn:Hp; [|done]. cbn [res_bind].
    apply leaf_page_size in Hp; [|lia]. rewrite land_mask by lia.
    destruct write; cbn [negb andb]; [by destruct (w && _)|by destruct (r && _)].
  - apply orb_false_iff in Hleaf as [Hlf _]. pose proof (not_leaf_level raw Hlf) as Hn. fold pte in Hn.
    destruct (Z.eqb_spec (next_level pte) 0); [lia|]. done.
Qed.

(** The walk grants what the tables grant. *)
Lemma walk_grants fuel d dom iova write m table level r w gpa :
  1 <= level <= 6 -> level <= Z.of_nat fuel -> 0 <= table < 2 ^ 52 ->
  walk_loop fuel d dom iova write m table level r w = Ok gpa <->
  (if write then w else r) = true /\ grants m iova write table level gpa.
Proof.
  revert table level r w. induction fuel as [|fuel IH]; intros table level r w Hl Hf Ht; [lia|].
  rewrite walk_step by done. split.
  - destruct (entry_at m table level iova) as [raw|] eqn:He; [|done]. cbn zeta.
    destruct (is_present _) eqn:Hp; [|done]. cbn [negb]. destruct (is_leaf _ || _) eqn:Hleaf.
    + destruct (leaf_page raw level) as [[frame k]|] eqn:Hpage; [|done].
      destruct (if write then _ else _) eqn:Hw; [|done]. intros [= <-].
      apply orb_true_iff in Hleaf. rewrite Z.eqb_eq in Hleaf.
      split; [destruct write; by apply andb_true_iff in Hw as [-> _]|]. eapply grants_page; try done.
      unfold permits. destruct write; by apply andb_true_iff in Hw as [_ ->].
    + apply orb_false_iff in Hleaf as [Hlf Hl1%Z.eqb_neq]. pose proof (not_leaf_level raw Hlf) as Hn.
      destruct (Z.leb_spec level (next_level (IommuPte_from_bits raw))); [done|].
      intros [Hw Hg]%IH; [|lia..|apply phys_address_bound].
      split; [destruct write; by apply andb_true_iff in Hw as [-> _]|]. eapply grants_table; try done.
      unfold permits. destruct write; by apply andb_true_iff in Hw as [_ ->].
  - intros [Hw Hg]. inversion Hg as [? ? raw frame k He Hp Hpm Hleaf Hpage|? ? raw ? He Hp Hpm Hleaf Hl1 Hlt Hg']; subst;
      rewrite He; cbn zeta; rewrite Hp; cbn [negb]; unfold permits in Hpm.
    + replace (is_leaf _ || (level =? 1)) with true by (symmetry; apply orb_true_iff; rewrite Z.eqb_eq; naive_solver).
      rewrite Hpage. destruct write; by rewrite Hw, Hpm.
    + rewrite Hleaf. destruct (Z.eqb_spec level 1); [done|]. cbn [orb]. pose proof (not_leaf_level raw Hleaf) as Hn.
      destruct (Z.leb_spec level (next_level (IommuPte_from_bits raw))); [lia|].
      apply IH; [lia..|apply phys_address_bound|]. split; [|done]. destruct write; by rewrite Hw, Hpm.
Qed.

(** * Device table entries *)

Definition dte_gpa (d : Z) (st : AmdIommuState) : Z :=
  Z.shiftl (dtb_base_addr (DevTabBase_from_bits (dev_tab_base st))) 12 + d * DTE_SIZE.

(** The device table has an entry for [d]. *)
Definition has_dte (d : Z) (st : AmdIommuState) : bool :=
  d <? (dtb_size (DevTabBase_from_bits (dev_tab_base st)) + 1) * 128.

Definition dte_at (d : Z) s : option Dte :=
  if has_dte d (state s) then read_dte (dte_gpa d (state s)) (guest_memory s) else None.

Lemma lookup_dte_ok d s :
  is_u 16 d ->
  lookup_dte_inner d s =
    if has_dte d (state s) then map_err (dte_at d s) (DevTabHardwareError d (dte_gpa d (state s)))
    else Err (IllegalDevTableEntry d 0 false false).
Proof.
  intros Hd. unfold lookup_dte_inner, dte_at, has_dte. set (dtb := DevTabBase_from_bits _). cbn zeta.
  replace ((dtb_size dtb + 1) * 4096 / DTE_SIZE) with ((dtb_size dtb + 1) * 128).
  2: { replace ((dtb_size dtb + 1) * 4096) with ((dtb_size dtb + 1) * 128 * DTE_SIZE) by (unfold DTE_SIZE; lia).
       by rewrite Z.div_mul. }
  destruct (Z.leb_spec ((dtb_size dtb + 1) * 128) d), (Z.ltb_spec d ((dtb_size dtb + 1) * 128)); try lia; [done|].
  rewrite uadd_ok; [done|]. pose proof (bits_bound (dev_tab_base (state s)) 12 40 ltac:(lia)) as Hb.
  change (is_u 40 (dtb_base_addr dtb)) in Hb. rewrite Z.shiftl_mul_pow2 by lia. unfold is_u, DTE_SIZE in *. lia.
Qed.

(** * Translation *)

Definition fault_device (f : IommuFault) : Z :=
  match f with
  | IllegalDevTableEntry d _ _ _ | IoPageFault d _ _ _ | DevTabHardwareError d _ | PageTabHardwareError d _ => d
  end.

(** The entry [dte] of a device lets an access to [iova] through untranslated. *)
Definition passes (iova : Z) (dte : Dte) (st : AmdIommuState) : bool :=
  negb (dte_v (dw0 dte)) ||
  dte_tv (dw0 dte) && (excluded iova dte st || (dte_mode (dw0 dte) =? PAGING_MODE_DISABLED)).

(** The entry [dte] translates the access to [iova] with its page tables. *)
Definition translates (iova : Z) (write : bool) (dte : Dte) : bool :=
  dte_v (dw0 dte) && dte_tv (dw0 dte) && (1 <=? dte_mode (dw0 dte)) && (dte_mode (dw0 dte) <=? 6) &&
  (iova <? 2 ^ (dte_mode (dw0 dte) * 9 + 12)) && (if write then dte_iw (dw0 dte) else dte_ir (dw0 dte)).

(** The IOMMU lets the device [d] access [iova], at the address [gpa]. *)
Definition allowed (d iova : Z) (write : bool) s (gpa : Z) : Prop :=
  if is_enabled s then
    exists dte, dte_at d s = Some dte /\
      if passes iova dte (state s) then gpa = iova
      else translates iova write dte = true /\
        grants (guest_memory s) iova write (page_table_root_address (dw0 dte)) (dte_mode (dw0 dte)) gpa
  else gpa = iova.

(** The walk ends, with an address or a fault of the device. *)
Lemma walk_ends fuel d dom iova write m table level r w :
  1 <= level <= 6 -> level <= Z.of_nat fuel -> 0 <= table < 2 ^ 52 ->
  match walk_loop fuel d dom iova write m table level r w with
  | Ok _ => True
  | Err f => fault_device f = d
  | Panic => False
  end.
Proof.
  revert table level r w. induction fuel as [|fuel IH]; intros table level r w Hl Hf Ht; [lia|].
  rewrite walk_step by done. destruct (entry_at m table level iova) as [raw|]; [|done]. cbn zeta.
  destruct (is_present _); [|done]. cbn [negb]. destruct (is_leaf _ || _) eqn:Hleaf.
  - destruct (leaf_page raw level) as [[frame k]|]; [|done]. by destruct (if write then _ else _).
  - apply orb_false_iff in Hleaf as [Hlf _]. pose proof (not_leaf_level raw Hlf).
    destruct (Z.leb_spec level (next_level (IommuPte_from_bits raw))); [done|].
    apply IH; [lia..|apply phys_address_bound].
Qed.

Lemma read_dte_dw0 a m dte : read_dte a m = Some dte -> exists x, dw0 dte = DteDw0_from_bits x.
Proof.
  unfold read_dte. intros H. destruct (read_word 8 a m) as [x|]; [|done]. exists x.
  destruct (read_word 8 (a + 8) m); [|done]. destruct (read_word 8 (a + 16) m); [|done].
  destruct (read_word 8 (a + 24) m); [|done]. by injection H as <-.
Qed.

Lemma dte_bounds d s dte :
  dte_at d s = Some dte -> 0 <= dte_mode (dw0 dte) < 8 /\ 0 <= page_table_root_address (dw0 dte) < 2 ^ 52.
Proof.
  unfold dte_at. destruct (has_dte d (state s)); [|done]. intros [x ->]%read_dte_dw0. unfold page_table_root_address.
  cbn [dte_mode host_pt_root_ptr DteDw0_from_bits]. split; [apply (bits_bound x 9 3); lia|].
  pose proof (bits_bound x 12 40 ltac:(lia)) as Hb. unfold is_u in Hb. rewrite Z.shiftl_mul_pow2 by lia. lia.
Qed.

Lemma shiftr_zero a n : 0 <= a -> 0 <= n -> (Z.shiftr a n =? 0) = (a <? 2 ^ n).
Proof.
  intros Ha Hn. rewrite Z.shiftr_div_pow2 by done. pose proof (Z.pow_pos_nonneg 2 n ltac:(lia) Hn).
  destruct (Z.eqb_spec (a / 2 ^ n) 0) as [E|E], (Z.ltb_spec a (2 ^ n)); try done.
  - apply Z.div_small_iff in E; [|lia]. lia.
  - rewrite Z.div_small in E by lia. done.
Qed.

(** Translation by cases, with the walk of the page tables. *)
Lemma translate_eq d iova write s :
  is_u 16 d -> is_u 64 iova ->
  translate_inner d iova write s =
  if is_enabled s then
    let! dte := lookup_dte_inner d s in
    if passes iova dte (state s) then Ok iova
    else if dte_tv (dw0 dte) && (dte_mode (dw0 dte) =? PAGING_MODE_RESERVED)
    then Err (IllegalDevTableEntry d 0 false write)
    else if negb (dte_tv (dw0 dte)) || negb (iova <? 2 ^ (dte_mode (dw0 dte) * 9 + 12))
    then Err (IoPageFault d (domain_id (dw1 dte)) iova write)
    else
      walk_page_table d (domain_id (dw1 dte)) (page_table_root_address (dw0 dte)) iova (dte_mode (dw0 dte)) write
        (dte_ir (dw0 dte)) (dte_iw (dw0 dte)) s
  else Ok iova.
Proof.
  intros Hd Hi. unfold translate_inner, is_enabled. destruct (iommu_en (ctrl s)); [|done]. cbn [negb].
  rewrite (lookup_dte_ok d s Hd). destruct (has_dte d (state s)); [|done].
  destruct (dte_at d s) as [dte|] eqn:Hdte; [|done]. cbn [map_err res_bind]. unfold passes.
  destruct (dte_bounds d s dte Hdte) as [Hm _]. destruct (dte_v (dw0 dte)); [|done]. cbn [negb orb].
  destruct (dte_tv (dw0 dte)); [|done]. cbn [negb orb andb]. destruct (excluded iova dte (state s)); [done|].
  cbn [orb]. destruct (_ =? PAGING_MODE_DISABLED); [done|]. destruct (_ =? PAGING_MODE_RESERVED); [done|].
  set (w := dte_mode (dw0 dte) * 9 + 12). rewrite shiftr_zero by (unfold is_u in *; lia).
  destruct (Z.ltb_spec w 64); [done|]. cbn [andb].
  destruct (Z.ltb_spec iova (2 ^ w)); [done|]. exfalso. unfold is_u in Hi.
  pose proof (Z.pow_le_mono_r 2 64 w). lia.
Qed.

(** An access that is not passed through is translated by page tables of one
    to six levels, or refused. *)
Lemma translate_cases d iova write s dte :
  is_u 16 d -> is_u 64 iova -> is_enabled s = true -> dte_at d s = Some dte -> passes iova dte (state s) = false ->
  (1 <= dte_mode (dw0 dte) <= 6 /\ dte_v (dw0 dte) = true /\ dte_tv (dw0 dte) = true /\
   iova < 2 ^ (dte_mode (dw0 dte) * 9 + 12) /\
   translate_inner d iova write s =
     walk_page_table d (domain_id (dw1 dte)) (page_table_root_address (dw0 dte)) iova (dte_mode (dw0 dte)) write
       (dte_ir (dw0 dte)) (dte_iw (dw0 dte)) s) \/
  (translates iova write dte = false /\
   exists f, translate_inner d iova write s = Err f /\ fault_device f = d).
Proof.
  intros Hd Hi Hen Hdte Hp. rewrite (translate_eq d iova write s Hd Hi), Hen, (lookup_dte_ok d s Hd).
  assert (has_dte d (state s) = true) as -> by (unfold dte_at in Hdte; by destruct (has_dte d (state s))).
  rewrite Hdte. cbn [map_err res_bind]. rewrite Hp. destruct (dte_bounds d s dte Hdte) as [Hm _].
  unfold passes in Hp. apply orb_false_iff in Hp as [Hv%negb_false_iff Hp]. unfold translates. rewrite Hv.
  destruct (dte_tv (dw0 dte)); [|right; eauto]. cbn [andb negb orb] in *. apply orb_false_iff in Hp as [_ Hm0].
  unfold PAGING_MODE_DISABLED, PAGING_MODE_RESERVED in *.
  destruct (Z.eqb_spec (dte_mode (dw0 dte)) 7) as [->|].
  { right. split; [done|eauto]. }
  destruct (Z.ltb_spec iova (2 ^ (dte_mode (dw0 dte) * 9 + 12))); cbn [negb].
  - left. split_and!; try done; lia.
  - right. split; [|eauto]. by rewrite andb_false_r.
Qed.

Lemma walk_page_grants d dom root iova level write r w s gpa :
  1 <= level <= 6 -> 0 <= root < 2 ^ 52 ->
  walk_page_table d dom root iova level write r w s = Ok gpa <->
  (if write then w else r) = true /\ grants (guest_memory s) iova write root level gpa.
Proof. intros. apply walk_grants; lia. Qed.

Lemma walk_page_ends d dom root iova level write r w s :
  1 <= level <= 6 -> 0 <= root < 2 ^ 52 ->
  match walk_page_table d dom root iova level write r w s with
  | Ok _ => True
  | Err f => fault_device f = d
  | Panic => False
  end.
Proof. intros. apply walk_ends; lia. Qed.

Lemma translates_walk iova write dte :
  1 <= dte_mode (dw0 dte) <= 6 -> dte_v (dw0 dte) = true -> dte_tv (dw0 dte) = true ->
  iova < 2 ^ (dte_mode (dw0 dte) * 9 + 12) ->
  translates iova write dte = if write then dte_iw (dw0 dte) else dte_ir (dw0 dte).
Proof.
  intros Hm Hv Htv Hw. unfold translates. rewrite Hv, Htv. destruct (Z.leb_spec 1 (dte_mode (dw0 dte))); [|lia].
  destruct (Z.leb_spec (dte_mode (dw0 dte)) 6); [|lia]. by rewrite (proj2 (Z.ltb_lt _ _) Hw).
Qed.

(** The device has no entry that can be read. *)
Lemma translate_no_dte d iova write s :
  is_u 16 d -> is_u 64 iova -> is_enabled s = true -> dte_at d s = None ->
  exists f, translate_inner d iova write s = Err f /\ fault_device f = d.
Proof.
  intros Hd Hi Hen Hdte. rewrite (translate_eq d iova write s Hd Hi), Hen, (lookup_dte_ok d s Hd), Hdte.
  destruct (has_dte d (state s)); cbn; eauto.
Qed.

Lemma translate_passes d iova write s dte :
  is_u 16 d -> is_u 64 iova -> is_enabled s = true -> dte_at d s = Some dte -> passes iova dte (state s) = true ->
  translate_inner d iova write s = Ok iova.
Proof.
  intros Hd Hi Hen Hdte Hp. rewrite (translate_eq d iova write s Hd Hi), Hen, (lookup_dte_ok d s Hd), Hdte.
  unfold dte_at in Hdte. destruct (has_dte d (state s)); [|done]. cbn. by rewrite Hp.
Qed.

Lemma translate_Ok d iova write s gpa :
  is_u 16 d -> is_u 64 iova -> translate_inner d iova write s = Ok gpa <-> allowed d iova write s gpa.
Proof.
  intros Hd Hi. unfold allowed. destruct (is_enabled s) eqn:Hen.
  2: { rewrite (translate_eq d iova write s Hd Hi), Hen. naive_solver. }
  destruct (dte_at d s) as [dte|] eqn:Hdte.
  2: { destruct (translate_no_dte d iova write s) as (f & -> & _); [done..|]. naive_solver. }
  transitivity (if passes iova dte (state s) then gpa = iova else translates iova write dte = true /\
    grants (guest_memory s) iova write (page_table_root_address (dw0 dte)) (dte_mode (dw0 dte)) gpa);
    [|naive_solver].
  destruct (passes iova dte (state s)) eqn:Hp.
  { rewrite (translate_passes d iova write s dte) by done. naive_solver. }
  destruct (translate_cases d iova write s dte Hd Hi Hen Hdte Hp) as [(Hm & Hv & Htv & Hw & ->)|(Ht & f & -> & Hf)].
  - rewrite (translates_walk iova write dte) by done. apply walk_page_grants; [done|]. by apply (dte_bounds d s).
  - rewrite Ht. naive_solver.
Qed.

Lemma translate_ends d iova write s :
  is_u 16 d -> is_u 64 iova ->
  match translate_inner d iova write s with
  | Ok _ => True
  | Err f => fault_device f = d
  | Panic => False
  end.
Proof.
  intros Hd Hi. destruct (is_enabled s) eqn:Hen.
  2: { by rewrite (translate_eq d iova write s Hd Hi), Hen. }
  destruct (dte_at d s) as [dte|] eqn:Hdte.
  2: { by destruct (translate_no_dte d iova write s) as (f & -> & Hf). }
  destruct (passes iova dte (state s)) eqn:Hp.
  { by rewrite (translate_passes d iova write s dte). }
  destruct (translate_cases d iova write s dte Hd Hi Hen Hdte Hp) as [(Hm & Hv & Htv & Hw & ->)|(Ht & f & -> & Hf)];
    [|done]. apply walk_page_ends; [done|]. by apply (dte_bounds d s).
Qed.

(** C7: the IOMMU lets a device access exactly what its device table entry and
    page tables allow, with the page-table walk ending in every case. If the
    IOMMU is enabled, an access goes to the address that a chain of present
    entries of falling levels grants, each of which permits the access, as does
    the device's entry. It passes unchanged if the IOMMU is disabled, if the
    device's entry is not valid, or if its translation is valid and it has no
    page tables or the address is in the exclusion range; anything else is a
    fault of that device. *)
Theorem translate_exact d iova write s :
  is_u 16 d -> is_u 64 iova ->
  match translate_inner d iova write s with
  | Ok gpa => allowed d iova write s gpa
  | Err f => fault_device f = d /\ forall gpa, ~ allowed d iova write s gpa
  | Panic => False
  end.
Proof.
  intros Hd Hi. pose proof (translate_ends d iova write s Hd Hi) as HE.
  pose proof (fun gpa => translate_Ok d iova write s gpa Hd Hi) as HO.
  destruct (translate_inner d iova write s) as [gpa|f|]; [by apply HO| |done]. split; [done|].
  by intros gpa Hal%HO.
Qed.

(** * Pages *)

Lemma lor_page a x :
  a mod 2 ^ 12 = 0 -> Z.lor a x = Z.lor (a / 2 ^ 12) (x / 2 ^ 12) * 2 ^ 12 + x mod 2 ^ 12.
Proof.
  intros Ha. rewrite <-!Z.shiftr_div_pow2, <-Z.shiftr_lor, Z.shiftr_div_pow2 by lia.
  assert (Z.lor a x mod 2 ^ 12 = x mod 2 ^ 12) as <-.
  { rewrite <-!Z.land_ones in * by lia. by rewrite Z.land_lor_distr_l, Ha. }
  pose proof (Z.div_mod (Z.lor a x) (2 ^ 12)). lia.
Qed.

Lemma high_bits_page a b n w : 12 <= n -> same_page a b -> bits a n w = bits b n w.
Proof.
  intros Hn Hab. unfold bits. f_equal. rewrite !Z.shiftr_div_pow2 by lia.
  replace (2 ^ n) with (2 ^ 12 * 2 ^ (n - 12)) by (rewrite <-Z.pow_add_r by lia; f_equal; lia).
  pose proof (Z.pow_pos_nonneg 2 (n - 12)). rewrite <-!Z.div_div by lia. unfold same_page in Hab. by rewrite Hab.
Qed.

Lemma mod_pow_page x k : 12 <= k -> x mod 2 ^ k / 2 ^ 12 = (x / 2 ^ 12) mod 2 ^ (k - 12) /\ (x mod 2 ^ k) mod 2 ^ 12 = x mod 2 ^ 12.
Proof.
  intros Hk. pose proof (Z.pow_pos_nonneg 2 (k - 12)).
  replace (2 ^ k) with (2 ^ 12 * 2 ^ (k - 12)) by (rewrite <-Z.pow_add_r by lia; f_equal; lia).
  rewrite Z.rem_mul_r by lia. rewrite (Z.mul_comm (2 ^ 12)), Z.div_add, Z.mod_add, Z.mod_mod by lia.
  split; [|done]. rewrite Z.div_small; [done|]. apply Z.mod_pos_bound. lia.
Qed.

Lemma leaf_frame_page raw level frame k :
  1 <= level -> leaf_page raw level = Some (frame, k) -> frame mod 2 ^ 12 = 0.
Proof.
  intros Hl Hp. pose proof (leaf_page_size raw level frame k Hl Hp) as Hk. revert Hp. unfold leaf_page.
  destruct (_ =? 7); [|intros [= <- <-]; apply phys_address_page].
  destruct (_ <? _); [done|]. intros [= <- ->].
  replace (2 ^ k) with (2 ^ (k - 12) * 2 ^ 12) at 2 by (rewrite <-Z.pow_add_r by lia; f_equal; lia).
  rewrite Z.mul_assoc. apply Z.mod_mul. lia.
Qed.

Lemma grants_page_offset m iova iova' write table level gpa :
  1 <= level -> same_page iova iova' ->
  grants m iova write table level gpa -> grants m iova' write table level (in_page gpa iova').
Proof.
  intros Hl Hpg HG. revert Hl. induction HG as [table level raw frame k He Hp Hpm Hleaf Hpage|
    table level raw gpa He Hp Hpm Hleaf Hl1 Hlt HG IH]; intros Hl.
  - assert (Z.lor frame (iova' mod 2 ^ k) = in_page (Z.lor frame (iova mod 2 ^ k)) iova') as <-.
    { pose proof (leaf_page_size raw level frame k Hl Hpage) as Hk. unfold in_page.
      rewrite !(lor_page frame) by (by eapply leaf_frame_page).
      destruct (mod_pow_page iova k Hk) as [-> ->], (mod_pow_page iova' k Hk) as [-> ->].
      unfold same_page in Hpg. rewrite <-Hpg. f_equal.
      rewrite Z.div_add_l, (Z.div_small (iova mod _)) by (try apply Z.mod_pos_bound; lia). lia. }
    eapply grants_page; try done. rewrite <-He. unfold entry_at, entry_gpa, index_of. do 2 f_equal.
    by erewrite (high_bits_page iova iova') by (done || unfold level_bits; lia).
  - eapply grants_table; try done; [|apply IH; by apply not_leaf_level].
    rewrite <-He. unfold entry_at, entry_gpa, index_of. do 2 f_equal.
    by erewrite (high_bits_page iova iova') by (done || unfold level_bits; lia).
Qed.

Lemma excluded_page iova iova' dte st : same_page iova iova' -> excluded iova dte st = excluded iova' dte st.
Proof.
  intros Hpg. unfold excluded. f_equal. rewrite !Z.shiftl_mul_pow2 by lia.
  set (a := excl_base_addr _). set (b := limit_addr _).
  rewrite (lor_page (b * 2 ^ 12)) by (apply Z.mod_mul; lia). rewrite Z.div_mul by lia.
  change (0xfff / 2 ^ 12) with 0. change (0xfff mod 2 ^ 12) with 0xfff. rewrite Z.lor_0_r.
  unfold same_page in Hpg. f_equal; apply eq_bool_prop_intro; rewrite !Is_true_true, !Z.leb_le; div_lia.
Qed.

Lemma passes_page iova iova' dte st : same_page iova iova' -> passes iova dte st = passes iova' dte st.
Proof. intros. unfold passes. by rewrite (excluded_page iova iova'). Qed.

Lemma translates_page iova iova' write dte :
  same_page iova iova' -> translates iova write dte = translates iova' write dte.
Proof.
  intros Hpg. unfold translates. destruct (Z.leb_spec 1 (dte_mode (dw0 dte))); [|by rewrite !andb_false_r].
  destruct (Z.leb_spec (dte_mode (dw0 dte)) 6); [|by rewrite !andb_false_r]. do 2 f_equal.
  set (w := dte_mode (dw0 dte) * 9 + 12).
  assert (2 ^ w = 2 ^ 12 * 2 ^ (w - 12)) as -> by (rewrite <-Z.pow_add_r by lia; f_equal; lia).
  unfold same_page in Hpg. apply eq_bool_prop_intro. rewrite !Is_true_true, !Z.ltb_lt.
  change (2 ^ 12) with 4096 in *. set (q := 2 ^ (w - 12)). pose proof (Z.div_mod iova 4096). pose proof (Z.div_mod iova' 4096).
  pose proof (Z.mod_pos_bound iova 4096). pose proof (Z.mod_pos_bound iova' 4096). nia.
Qed.

Lemma allowed_page d iova iova' write s gpa :
  same_page iova iova' -> allowed d iova write s gpa -> allowed d iova' write s (in_page gpa iova').
Proof.
  intros Hpg. assert (in_page iova iova' = iova') as Hid.
  { unfold in_page, same_page in *. rewrite Hpg. pose proof (Z.div_mod iova' (2 ^ 12)). lia. }
  unfold allowed. destruct (is_enabled s); [|by intros ->]. intros (dte & Hdte & H). exists dte. split; [done|].
  rewrite <-(passes_page iova iova') by done. destruct (passes iova dte (state s)); [by subst|].
  destruct H as [Ht HG]. rewrite <-(translates_page iova iova') by done. split; [done|].
  apply (grants_page_offset _ iova); [|done|done]. unfold translates in Ht.
  repeat apply andb_true_iff in Ht as [Ht ?]. lia.
Qed.

(** A translation holds for the whole page. *)
Lemma translate_page d iova iova' write s gpa :
  is_u 16 d -> is_u 64 iova -> is_u 64 iova' -> same_page iova iova' ->
  translate_inner d iova write s = Ok gpa -> translate_inner d iova' write s = Ok (in_page gpa iova').
Proof. intros Hd Hi Hi' Hpg. rewrite !translate_Ok by done. by apply allowed_page. Qed.

(** Translation keeps the offset in the page. *)
Lemma grants_offset m iova write table level gpa :
  1 <= level -> grants m iova write table level gpa -> gpa mod 2 ^ 12 = iova mod 2 ^ 12.
Proof.
  intros Hl HG. revert Hl. induction HG as [table level raw frame k ? ? ? ? Hpage|]; intros Hl.
  - rewrite (lor_page frame) by (by eapply leaf_frame_page). rewrite Z.add_comm, Z.mod_add, Z.mod_mod by lia.
    by apply mod_pow_page, (leaf_page_size raw level frame).
  - by apply IHHG, not_leaf_level.
Qed.

Lemma allowed_offset d iova write s gpa : allowed d iova write s gpa -> gpa mod 2 ^ 12 = iova mod 2 ^ 12.
Proof.
  unfold allowed. destruct (is_enabled s); [|by intros ->]. intros (dte & _ & H).
  destruct (passes iova dte (state s)); [by subst|]. destruct H as [Ht HG].
  eapply grants_offset; [|done]. unfold translates in Ht. repeat apply andb_true_iff in Ht as [Ht ?]. lia.
Qed.

(** * What a translation depends on *)

(** The addresses of the entries that a walk reads. *)
Fixpoint walk_reads (fuel : nat) (iova : Z) m (table level : Z) : list Z :=
  match fuel with
  | O => []
  | S fuel =>
      entry_gpa table level iova ::
      match entry_at m table level iova with
      | Some raw =>
          let pte := IommuPte_from_bits raw in
          if is_present pte && negb (is_leaf pte || (level =? 1)) && negb (level <=? next_level pte)
          then walk_reads fuel iova m (phys_address pte) (next_level pte) else []
      | None => []
      end
  end.

(** A byte that the translation of an access of [d] to [iova] reads. *)
Definition translate_reads (d iova : Z) s (x : Z) : Prop :=
  is_enabled s = true /\
  (within (dte_gpa d (state s)) DTE_SIZE x \/
   exists dte a, dte_at d s = Some dte /\ within a 8 x /\
     a ∈ walk_reads (Z.to_nat (dte_mode (dw0 dte))) iova (guest_memory s) (page_table_root_address (dw0 dte))
           (dte_mode (dw0 dte))).

Lemma walk_reads_agree fuel iova m m' table level :
  (forall a x, a ∈ walk_reads fuel iova m table level -> within a 8 x -> m' !! x = m !! x) ->
  walk_reads fuel iova m' table level = walk_reads fuel iova m table level.
Proof.
  revert table level. induction fuel as [|fuel IH]; intros table level H; [done|]. cbn [walk_reads] in *.
  assert (entry_at m' table level iova = entry_at m table level iova) as ->.
  { apply read_word_agree. intros x Hx. apply (H (entry_gpa table level iova)); [left|done]. }
  f_equal. destruct (entry_at m table level iova) as [raw|]; [|done]. cbn zeta in *.
  destruct (is_present _ && _ && _); [|done]. apply IH. intros a x Ha. apply H. by right.
Qed.

Lemma walk_agree fuel d dom iova write m m' table level r w :
  1 <= level <= 6 -> 0 <= table < 2 ^ 52 ->
  (forall a x, a ∈ walk_reads fuel iova m table level -> within a 8 x -> m' !! x = m !! x) ->
  walk_loop fuel d dom iova write m' table level r w = walk_loop fuel d dom iova write m table level r w.
Proof.
  revert table level r w. induction fuel as [|fuel IH]; intros table level r w Hl Ht H; [done|].
  rewrite !walk_step by done. cbn [walk_reads] in *.
  assert (entry_at m' table level iova = entry_at m table level iova) as ->.
  { apply read_word_agree. intros x Hx. apply (H (entry_gpa table level iova)); [left|done]. }
  destruct (entry_at m table level iova) as [raw|]; [|done]. cbn zeta in *.
  destruct (is_present _); [|done]. cbn [negb andb] in *. destruct (is_leaf _ || _) eqn:Hleaf; [done|].
  apply orb_false_iff in Hleaf as [Hlf _]. pose proof (not_leaf_level raw Hlf). cbn [negb andb] in *.
  destruct (level <=? _); [done|]. apply IH; [lia|apply phys_address_bound|]. intros a x Ha. apply H. by right.
Qed.

Lemma read_dte_agree a m m' :
  (forall x, within a DTE_SIZE x -> m' !! x = m !! x) -> read_dte a m' = read_dte a m.
Proof.
  intros H. unfold read_dte.
  rewrite !(read_word_agree 8 _ m m'); [done|..]; intros x Hx; apply H; unfold within, DTE_SIZE in *; lia.
Qed.

Lemma dte_at_agree d s m :
  (forall x, within (dte_gpa d (state s)) DTE_SIZE x -> m !! x = guest_memory s !! x) ->
  dte_at d (s <| guest_memory := m |>) = dte_at d s.
Proof.
  intros H. unfold dte_at. change (state (s <| guest_memory := m |>)) with (state s).
  destruct (has_dte d (state s)); [|done]. by apply read_dte_agree.
Qed.

(** A translation is the same in memories that agree on what it reads, and it
    reads the same there. *)
Lemma translate_agree d iova write s m :
  is_u 16 d -> is_u 64 iova -> (forall x, translate_reads d iova s x -> m !! x = guest_memory s !! x) ->
  translate_inner d iova write (s <| guest_memory := m |>) = translate_inner d iova write s.
Proof.
  intros Hd Hi H. set (s' := s <| guest_memory := m |>).
  destruct (is_enabled s) eqn:Hen.
  2: { rewrite (translate_eq d iova write s'), (translate_eq d iova write s) by done.
       change (is_enabled s') with (is_enabled s). by rewrite Hen. }
  assert (dte_at d s' = dte_at d s) as Hdte.
  { apply dte_at_agree. intros x Hx. apply H. split; [done|by left]. }
  rewrite (translate_eq d iova write s'), (translate_eq d iova write s) by done.
  change (is_enabled s') with (is_enabled s). rewrite Hen, !lookup_dte_ok by done.
  change (state s') with (state s). destruct (has_dte d (state s)); [|done]. rewrite Hdte.
  destruct (dte_at d s) as [dte|] eqn:Hat; [|done]. cbn [map_err res_bind].
  destruct (dte_bounds d s dte Hat) as [Hm Hr]. destruct (passes iova dte (state s)) eqn:Hp; [done|].
  destruct (dte_tv (dw0 dte)) eqn:Htv; [|done]. cbn [andb negb orb].
  destruct (Z.eqb_spec (dte_mode (dw0 dte)) PAGING_MODE_RESERVED) as [|Hm7]; [done|].
  destruct (negb (iova <? _)); [done|]. unfold PAGING_MODE_RESERVED in *.
  assert (dte_mode (dw0 dte) <> 0).
  { intros Hm0. unfold passes in Hp. rewrite Htv, Hm0 in Hp. by rewrite !orb_true_r in Hp. }
  apply walk_agree; [lia|done|]. intros a x Ha Hx. apply H. split; [done|]. right. by exists dte, a.
Qed.

Lemma walk_reads_page fuel iova iova' m table level :
  1 <= level -> same_page iova iova' -> walk_reads fuel iova m table level = walk_reads fuel iova' m table level.
Proof.
  intros Hl Hpg. revert table level Hl. induction fuel as [|fuel IH]; intros table level Hl; [done|]. cbn [walk_reads].
  assert (entry_gpa table level iova = entry_gpa table level iova') as He.
  { unfold entry_gpa, index_of. by erewrite (high_bits_page iova iova') by (done || unfold level_bits; lia). }
  unfold entry_at. rewrite He. f_equal. destruct (read_word 8 _ m) as [raw|]; [|done]. cbn zeta.
  destruct (is_leaf _ || _) eqn:Hleaf; [by rewrite andb_false_r|].
  apply orb_false_iff in Hleaf as [Hlf _]. destruct (_ && _); [|done]. by apply IH, not_leaf_level.
Qed.

Lemma translate_reads_page d iova iova' s x :
  same_page iova iova' -> translate_reads d iova s x -> translate_reads d iova' s x.
Proof.
  intros Hpg (Hen & [Hx|(dte & a & Hdte & Hx & Ha)]); split; [done| |done|]; [by left|].
  right. exists dte, a. split_and!; [done|done|]. destruct (dte_bounds d s dte Hdte) as [Hm _].
  destruct (decide (1 <= dte_mode (dw0 dte))); [by rewrite <-(walk_reads_page _ iova iova')|].
  replace (dte_mode (dw0 dte)) with 0 in Ha by lia. by apply not_elem_of_nil in Ha.
Qed.

(** * Pages of mode 7 *)

Lemma trailing_ones_unique w x n :
  0 <= n < w -> (forall i, 0 <= i < n -> Z.testbit x i = true) -> Z.testbit x n = false -> trailing_ones w x = n.
Proof.
  intros Hn Hones Hzero. unfold trailing_ones. set (y := unot w x).
  assert (forall i, 0 <= i < w -> Z.testbit y i = negb (Z.testbit x i)) as Hy.
  { intros i Hi. unfold y. rewrite testbit_unot by lia. destruct (Z.leb_spec 0 i), (Z.ltb_spec i w); try lia. done. }
  assert (0 < y) as Hpos.
  { pose proof (is_u_unot w x ltac:(lia)) as Hu. fold y in Hu. destruct (Z.eq_dec y 0) as [E|]; [|unfold is_u in Hu; lia].
    specialize (Hy n Hn). by rewrite E, Z.testbit_0_l, Hzero in Hy. }
  pose proof (trailing_zeros_testbit w y Hpos) as Ht. pose proof (trailing_zeros_nonneg w y ltac:(lia)) as H0.
  destruct (Z.lt_trichotomy (trailing_zeros w y) n) as [Hlt|[Heq|Hgt]]; [|done|].
  - rewrite Hy, Hones in Ht by lia. done.
  - pose proof (trailing_zeros_low w y n Hpos Hgt) as Hl. rewrite Hy, Hzero in Hl by lia. done.
Qed.

(** The address field of a page, as drivers encode it. *)
Definition encode_mode7_address_field (paddr pgsize : Z) : Z :=
  Z.land (Z.land (Z.lor paddr (pgsize - 1)) (unot 64 (Z.shiftr pgsize 1))) 0xffffffffff000.

Lemma testbit_PM_ADDR_MASK i : 0 <= i -> Z.testbit 0xffffffffff000 i = (12 <=? i) && (i <? 52).
Proof.
  intros Hi. change 0xffffffffff000 with (Z.shiftl (Z.ones 40) 12). rewrite Z.shiftl_spec by lia.
  rewrite testbit_ones by lia. lia.
Qed.

Lemma testbit_encode paddr k i :
  1 <= k <= 52 -> 0 <= i ->
  Z.testbit (encode_mode7_address_field paddr (2 ^ k)) i =
    (12 <=? i) && (i <? 52) && negb (i =? k - 1) && (Z.testbit paddr i || (i <? k)).
Proof.
  intros Hk Hi. unfold encode_mode7_address_field.
  rewrite Z.shiftr_div_pow2, <-Z.pow_sub_r by lia. replace (2 ^ k - 1) with (Z.ones k) by (rewrite Z.ones_equiv; lia).
  rewrite !Z.land_spec, Z.lor_spec, testbit_PM_ADDR_MASK, testbit_unot, testbit_pow2, testbit_ones by lia.
  rewrite (Z.eqb_sym (k - 1) i). destruct (Z.leb_spec 0 i); [|lia]. cbn [andb].
  destruct (Z.ltb_spec i 64), (Z.leb_spec 12 i), (Z.ltb_spec i 52), (i =? k - 1); try lia; cbn [andb negb];
    by rewrite ?andb_true_r, ?andb_false_r.
Qed.

(** A page of any size that drivers encode with the next level 7 is decoded
    to the page that was meant: its size, from 8 KB to the whole address space, and its
    address, whatever the other fields of the entry hold. *)
Theorem mode7_roundtrip paddr k flags :
  13 <= k <= 52 -> is_u 52 paddr -> paddr mod 2 ^ k = 0 ->
  (forall i, 12 <= i < 52 -> Z.testbit flags i = false) ->
  let raw := Z.lor (encode_mode7_address_field paddr (2 ^ k)) flags in
  mode7_page_size raw = Ok (E:=void) (Some (2 ^ k)) /\ mode7_page_base raw (2 ^ k) = Ok (E:=void) paddr.
Proof.
  intros Hk Hp Hal Hfl raw.
  assert (forall i, 12 <= i < 52 -> Z.testbit raw i = negb (i =? k - 1) && (Z.testbit paddr i || (i <? k))) as Hraw.
  { intros i Hi. unfold raw. rewrite Z.lor_spec, Hfl, orb_false_r, testbit_encode by lia.
    destruct (Z.leb_spec 12 i), (Z.ltb_spec i 52); try lia. done. }
  assert (forall i, i < k -> Z.testbit paddr i = false) as Hlow.
  { intros i Hi. rewrite <-(Z.mod_pow2_bits_low paddr k i Hi), Hal. apply Z.testbit_0_l. }
  split.
  - rewrite mode7_leaf. rewrite (trailing_ones_unique 64 (Z.lor raw 0xfff) (k - 1)); [|lia| |].
    + cbn zeta. replace (k - 1 + 1) with k by lia. destruct (Z.ltb_spec 52 k); [lia|done].
    + intros i Hi. change 0xfff with (Z.ones 12). rewrite Z.lor_spec, testbit_ones by lia.
      destruct (Z.ltb_spec i 12); [destruct (Z.leb_spec 0 i); [apply orb_true_r|lia]|].
      rewrite Hraw by lia. destruct (Z.eqb_spec i (k - 1)), (Z.ltb_spec i k); lia.
    + change 0xfff with (Z.ones 12). rewrite Z.lor_spec, testbit_ones, Hraw, Z.eqb_refl by lia.
      destruct (Z.ltb_spec (k - 1) 12); [lia|]. by rewrite andb_false_r.
  - rewrite mode7_base by lia. f_equal. rewrite <-Z.shiftl_mul_pow2, <-Z.shiftr_div_pow2 by lia.
    apply Z.bits_inj'. intros i Hi. rewrite Z.shiftl_spec by lia. destruct (Z.ltb_spec i k) as [Hlt|Hge].
    { rewrite Hlow by lia. apply Z.testbit_neg_r. lia. }
    rewrite Z.shiftr_spec by lia. replace (i - k + k) with i by lia. unfold phys_address.
    cbn [pte_address IommuPte_from_bits]. rewrite Z.shiftl_spec by lia. unfold bits.
    rewrite Z.land_spec, Z.shiftr_spec, testbit_ones by lia. replace (i - 12 + 12) with i by lia.
    destruct (Z.ltb_spec i 52) as [Hs|Hb].
    + rewrite Hraw by lia. destruct (Z.eqb_spec i (k - 1)), (Z.ltb_spec i k), (Z.leb_spec 0 (i - 12)), (Z.ltb_spec (i - 12) 40);
        try lia. cbn [negb andb]. by rewrite orb_false_r, andb_true_r.
    + destruct (Z.ltb_spec (i - 12) 40); [lia|]. rewrite andb_false_r, andb_false_r. symmetry.
      by apply (is_u_testbit_high 52).
Qed.

Lemma mode7_roundtrip_witness :
  let raw := Z.lor (encode_mode7_address_field 0x80000 (2 ^ 13)) 0x6000000000000e01 in
  mode7_page_size raw = Ok (E:=void) (Some (2 ^ 13)) /\ mode7_page_base raw (2 ^ 13) = Ok (E:=void) 0x80000.
Proof.
  apply (mode7_roundtrip 0x80000 13 0x6000000000000e01); [lia|by split|done|]. intros i Hi.
  assert (0x6000000000000e01 = Z.lor (Z.shiftl 0x600 52) 0xe01) as -> by done. rewrite Z.lor_spec.
  rewrite (is_u_testbit_high 12 0xe01) by (by split || lia). by rewrite Z.shiftl_spec, Z.testbit_neg_r by lia.
Defined.
