(* ===== verification/IommuCommon.v ===== *)
(** The parts that the IOMMUs share ([vm/devices/iommu/iommu_common/src/lib.rs]):
    memory seen through an IOMMU, and the list of interrupt routes to be
    translated again.

    The trait [IommuTranslator] is a class on a type [W] that holds the IOMMU
    and guest memory. Translation returns the address, or a fault that it has
    logged; the closure that the source runs under the lock runs next. *)

From stdpp Require Import gmap.
From S2P Require Import Prelude GuestMem.

(** * Bus ranges ([pci_core/src/bus_range.rs]) *)

(** The packed [(secondary, subordinate)]. *)
Definition AssignedBusRange : Type := Z.

Definition bus_range_new : AssignedBusRange := 0.

Definition set_bus_range (secondary subordinate : Z) : AssignedBusRange :=
  Z.lor (ucast 16 (Z.shiftl secondary 8)) subordinate.

Definition bus_range (r : AssignedBusRange) : Z * Z := (ucast 8 (Z.shiftr r 8), ucast 8 r).

Definition contains_bus (bus : Z) (r : AssignedBusRange) : bool :=
  let '(secondary, subordinate) := bus_range r in (secondary <=? bus) && (bus <=? subordinate).

(** * Translating memory *)

Class IommuTranslator (W F : Type) : Type := {
  tr_memory : W -> GuestMemory;
  tr_set_memory : GuestMemory -> W -> W;
  max_iova : Z;
  tr_translate : Z -> Z -> bool -> W -> res void (W * (F + Z));
}.

Inductive BackingError (F : Type) : Type :=
| RidOutOfRange (addr rid secondary subordinate : Z)
| TranslationFault (addr : Z) (error : F)
| InnerError (addr : Z).
Arguments RidOutOfRange {F} _ _ _ _.
Arguments TranslationFault {F} _ _.
Arguments InnerError {F} _.

Record TranslatingMemory : Type := mkTranslating {
  tm_bus_range : AssignedBusRange;
  rid_offset : Z;
}.

(** [rid]; the error is [(rid, secondary, subordinate)]. *)
Definition tm_rid (t : TranslatingMemory) : res (Z * Z * Z) Z :=
  let '(secondary, subordinate) := bus_range (tm_bus_range t) in
  let! rid := uadd 32 (Z.shiftl secondary 8) (rid_offset t) in
  if subordinate <? Z.shiftr rid 8 then Err (rid, secondary, subordinate) else Ok (ucast 16 rid).

Definition chunk_size (iova remaining : Z) : Z :=
  let page_offset := Z.land iova 0xfff in
  let bytes_in_page := 0x1000 - page_offset in
  Z.min remaining bytes_in_page.

Section Translating.

Context {W F : Type} `{IommuTranslator W F}.

(** The loop of [do_translated_op]; [op] fails with [None]. *)
Fixpoint translated_loop {X} (fuel : nat) (t : TranslatingMemory) (iova len : Z) (write : bool)
    (op : Z -> Z -> Z -> W * X -> option (W * X)) (offset : Z) (st : W * X)
    : res void (W * X * option (BackingError F)) :=
  if len <=? offset then Ok (st, None)
  else
    match fuel with
    | O => Panic
    | S fuel =>
        let! current_iova := uadd 64 iova offset in
        let chunk_len := chunk_size current_iova (len - offset) in
        match tm_rid t with
        | Err (rid, secondary, subordinate) => Ok (st, Some (RidOutOfRange current_iova rid secondary subordinate))
        | Panic => Panic
        | Ok rid =>
            let! r := tr_translate rid current_iova write st.1 in
            match r with
            | (w, inl fault) => Ok (w, st.2, Some (TranslationFault current_iova fault))
            | (w, inr gpa) =>
                match op gpa offset chunk_len (w, st.2) with
                | Some st => translated_loop fuel t iova len write op (offset + chunk_len) st
                | None => Ok (w, st.2, Some (InnerError iova))
                end
            end
        end
    end.

Definition do_translated_op {X} (t : TranslatingMemory) (iova len : Z) (write : bool)
    (op : Z -> Z -> Z -> W * X -> option (W * X)) (st : W * X) : res void (W * X * option (BackingError F)) :=
  translated_loop (Z.to_nat len) t iova len write op 0 st.

(** The bytes read so far are the front of the destination. *)
Definition read_fallback (t : TranslatingMemory) (addr len : Z) (w : W)
    : res void (W * list Z * option (BackingError F)) :=
  do_translated_op t addr len false (fun gpa _ chunk_len st =>
    l ← read_at (Z.to_nat chunk_len) gpa (tr_memory st.1); Some (st.1, st.2 ++ l)) (w, []).

Definition write_fallback (t : TranslatingMemory) (addr : Z) (src : list Z) (w : W)
    : res void (W * unit * option (BackingError F)) :=
  do_translated_op t addr (Z.of_nat (length src)) true (fun gpa offset chunk_len st =>
    m ← write_at gpa (take (Z.to_nat chunk_len) (drop (Z.to_nat offset) src)) (tr_memory st.1);
    Some (tr_set_memory m st.1, tt)) (w, tt).

Definition fill_fallback (t : TranslatingMemory) (addr val len : Z) (w : W)
    : res void (W * unit * option (BackingError F)) :=
  do_translated_op t addr len true (fun gpa _ chunk_len st =>
    m ← write_at gpa (replicate (Z.to_nat chunk_len) val) (tr_memory st.1);
    Some (tr_set_memory m st.1, tt)) (w, tt).

End Translating.

(** * Interrupt routes *)

Class RetranslateInterrupts (T : Type) : Type := {
  rt_device_id : T -> Z;
  rt_retranslate : T -> T;
}.

(** The list holds weak references: names of routes, which are dead if the
    store has no route of that name. *)
Definition RetranslateInterruptsList : Type := list nat.

Definition list_new : RetranslateInterruptsList := [].

Definition register (route : nat) (routes : RetranslateInterruptsList) : RetranslateInterruptsList :=
  routes ++ [route].

Definition unregister {T} (route : nat) (store : gmap nat T) (routes : RetranslateInterruptsList)
    : RetranslateInterruptsList :=
  filter (fun w => is_Some (store !! w) /\ w <> route) routes.

Definition invalidate {T} `{RetranslateInterrupts T} (device_id : option Z)
    (st : gmap nat T * RetranslateInterruptsList) : gmap nat T * RetranslateInterruptsList :=
  let '(store, routes) := st in
  let live_routes := filter (fun w => is_Some (store !! w)) routes in
  (fold_left (fun store w =>
     alter (fun route =>
       if bool_decide (device_id = None) || bool_decide (device_id = Some (rt_device_id route))
       then rt_retranslate route else route) w store) live_routes store, live_routes).
