(* ===== verification/IommuCommonSpec.v ===== *)
(** Accesses through an IOMMU: splitting them at page boundaries is the same as
    translating every byte, and a device is confined, for any IOMMU that keeps the
    promises of [TranslatorLaws]. *)

From stdpp Require Import gmap.
From S2P Require Import Prelude GuestMem IommuCommon.

(** The address that the IOMMU translates to, if it does. *)
Definition target {W F} `{IommuTranslator W F} (rid iova : Z) (write : bool) (w : W) : option Z :=
  match tr_translate rid iova write w with Ok (_, inr gpa) => Some gpa | _ => None end.

(** What the splitting relies on. A translation is for a whole page and keeps
    the offset in it; one that succeeds changes nothing, and one that fails
    changes the bytes [tr_log] of memory at most; and it depends on the bytes
    [tr_reads] only. *)
Class TranslatorLaws (W F : Type) `{IommuTranslator W F} : Type := {
  tr_reads : Z -> Z -> W -> Z -> Prop;
  tr_log : W -> Z -> Prop;
  tr_get_set m w : tr_memory (tr_set_memory m w) = m;
  tr_set_get w : tr_set_memory (tr_memory w) w = w;
  tr_set_set m m' w : tr_set_memory m (tr_set_memory m' w) = tr_set_memory m w;
  tr_total rid iova write w : is_u 16 rid -> is_u 64 iova ->
    exists w' r, tr_translate rid iova write w = Ok (w', r) /\ forall gpa, r = inr gpa -> w' = w;
  tr_page rid iova iova' write w gpa : is_u 16 rid -> is_u 64 iova -> is_u 64 iova' -> same_page iova iova' ->
    target rid iova write w = Some gpa -> target rid iova' write w = Some (in_page gpa iova');
  tr_offset rid iova write w gpa : is_u 16 rid -> is_u 64 iova ->
    target rid iova write w = Some gpa -> gpa mod 2 ^ 12 = iova mod 2 ^ 12;
  tr_local rid iova write w m : is_u 16 rid -> is_u 64 iova ->
    (forall x, tr_reads rid iova w x -> m !! x = tr_memory w !! x) ->
    target rid iova write (tr_set_memory m w) = target rid iova write w;
  tr_fault rid iova write w w' f x : tr_translate rid iova write w = Ok (w', inl f) -> ~ tr_log w x ->
    tr_memory w' !! x = tr_memory w !! x;
  tr_log_set m w x : tr_log (tr_set_memory m w) x -> tr_log w x;
}.

(** * Requester identifiers *)

Lemma bus_range_bounds r : is_u 8 (bus_range r).1 /\ is_u 8 (bus_range r).2.
Proof. split; apply is_u_ucast; lia. Qed.

Lemma set_bus_range_get a b : is_u 8 a -> is_u 8 b -> bus_range (set_bus_range a b) = (a, b).
Proof.
  intros Ha Hb. unfold bus_range, set_bus_range, ucast. unfold is_u in Ha. assert (0 <= Z.shiftl a 8 < 2 ^ 16) by (rewrite Z.shiftl_mul_pow2 by lia; lia).
  rewrite (Z.mod_small (Z.shiftl a 8)) by done.
  rewrite lor_shiftl_add by (done || lia). unfold is_u in Hb. rewrite Z.shiftr_div_pow2 by lia. f_equal; div_lia.
Qed.

(** The identifier of a device names a bus of its range. *)
Lemma tm_rid_range t rid :
  is_u 16 (rid_offset t) -> tm_rid t = Ok rid ->
  is_u 16 rid /\ (bus_range (tm_bus_range t)).1 <= rid / 2 ^ 8 <= (bus_range (tm_bus_range t)).2 /\
  rid = (bus_range (tm_bus_range t)).1 * 2 ^ 8 + rid_offset t.
Proof.
  intros Ho. unfold tm_rid. destruct (bus_range_bounds (tm_bus_range t)) as [H1 H2].
  destruct (bus_range (tm_bus_range t)) as [a b]. cbn [fst snd] in *. unfold is_u in *.
  rewrite Z.shiftl_mul_pow2, uadd_ok by lia. cbn [res_bind]. rewrite Z.shiftr_div_pow2 by lia.
  destruct (Z.ltb_spec b ((a * 2 ^ 8 + rid_offset t) / 2 ^ 8)); [done|]. intros [= <-].
  unfold ucast. rewrite Z.mod_small by div_lia. split_and!; div_lia.
Qed.

Lemma tm_rid_total t : is_u 16 (rid_offset t) -> tm_rid t <> Panic.
Proof.
  intros Ho. unfold tm_rid. destruct (bus_range_bounds (tm_bus_range t)) as [H1 H2].
  destruct (bus_range (tm_bus_range t)) as [a b]. cbn [fst snd] in *. unfold is_u in *.
  rewrite Z.shiftl_mul_pow2, uadd_ok by lia. cbn [res_bind]. by destruct (_ <? _).
Qed.

(** * Chunks *)

Lemma chunk_size_eq iova remaining : chunk_size iova remaining = Z.min remaining (2 ^ 12 - iova mod 2 ^ 12).
Proof. unfold chunk_size. change 0xfff with (2 ^ 12 - 1). by rewrite land_mask. Qed.

Lemma chunk_bounds iova remaining :
  0 < remaining -> 0 < chunk_size iova remaining <= remaining.
Proof. intros. rewrite chunk_size_eq. pose proof (Z.mod_pos_bound iova (2 ^ 12)). lia. Qed.

Lemma chunk_page iova remaining j :
  0 <= j < chunk_size iova remaining -> same_page iova (iova + j) /\ (iova + j) mod 2 ^ 12 = iova mod 2 ^ 12 + j.
Proof. rewrite chunk_size_eq. intros Hj. unfold same_page. split; div_lia. Qed.

Section Accesses.

Context {W F : Type} `{Laws : TranslatorLaws W F}.

Implicit Type w : W.

(** A translation that succeeds, over a chunk. *)
Lemma target_chunk rid iova write w gpa remaining j :
  is_u 16 rid -> is_u 64 iova -> is_u 64 (iova + j) -> 0 <= j < chunk_size iova remaining ->
  target rid iova write w = Some gpa -> target rid (iova + j) write w = Some (gpa + j).
Proof.
  intros Hr Hi Hj Hc Ht. destruct (chunk_page iova remaining j Hc) as [Hp Ho].
  rewrite (tr_page rid iova (iova + j) write w gpa) by done. f_equal. unfold in_page. rewrite Ho.
  rewrite <-(tr_offset rid iova write w gpa) by done. pose proof (Z.div_mod gpa (2 ^ 12)). lia.
Qed.

(** The outcome of a translation. *)
Lemma translate_target rid iova write w :
  is_u 16 rid -> is_u 64 iova ->
  match target rid iova write w with
  | Some gpa => tr_translate rid iova write w = Ok (w, inr gpa)
  | None => exists w' f, tr_translate rid iova write w = Ok (w', inl f)
  end.
Proof.
  intros Hr Hi. destruct (tr_total rid iova write w Hr Hi) as (w' & r & Ht & Hw). unfold target. rewrite Ht.
  destruct r as [f|gpa]; [eauto|]. by rewrite (Hw gpa).
Qed.

(** * Reads *)

(** The byte that the device [rid] finds at [iova]. *)
Definition byte_at (rid iova : Z) w : option Z := gpa ← target rid iova false w; tr_memory w !! gpa.

(** The bytes that it finds from [iova] on. *)
Definition bytes_from (rid iova : Z) w (l : list Z) : Prop :=
  forall i b, l !! i = Some b -> byte_at rid (iova + Z.of_nat i) w = Some b.

Lemma bytes_from_app rid iova w l l' :
  bytes_from rid iova w l -> bytes_from rid (iova + Z.of_nat (length l)) w l' -> bytes_from rid iova w (l ++ l').
Proof.
  intros H1 H2 i b [Hi|[Hlen Hi]]%lookup_app_Some; [by apply H1|]. apply H2 in Hi.
  replace (iova + Z.of_nat (length l) + Z.of_nat (i - length l)) with (iova + Z.of_nat i) in Hi by lia. done.
Qed.

Definition read_op : Z -> Z -> Z -> W * list Z -> option (W * list Z) := fun gpa _ chunk_len st =>
  l ← read_at (Z.to_nat chunk_len) gpa (tr_memory st.1); Some (st.1, st.2 ++ l).

(** A chunk holds the bytes that the device finds, if it finds them all. *)
Lemma read_chunk rid iova remaining gpa w :
  is_u 16 rid -> is_u 64 iova -> 0 < remaining -> iova + remaining <= 2 ^ 64 -> target rid iova false w = Some gpa ->
  match read_at (Z.to_nat (chunk_size iova remaining)) gpa (tr_memory w) with
  | Some l => bytes_from rid iova w l
  | None => exists j, 0 <= j < remaining /\ byte_at rid (iova + j) w = None
  end.
Proof.
  intros Hr Hi Hrem Hlen Ht. pose proof (chunk_bounds iova remaining Hrem) as Hc.
  assert (forall j, 0 <= j < chunk_size iova remaining -> byte_at rid (iova + j) w = tr_memory w !! (gpa + j)) as Hb.
  { intros j Hj. unfold byte_at. rewrite (target_chunk rid iova false w gpa remaining) by (done || unfold is_u in *; lia).
    done. }
  destruct (read_at _ gpa (tr_memory w)) as [l|] eqn:Hrd.
  - apply read_at_spec in Hrd as [Hl Hb']. intros i b Hib. pose proof (lookup_lt_Some _ _ _ Hib).
    rewrite Hb by lia. rewrite Hb' by lia. done.
  - destruct (decide (Forall (fun j => is_Some (tr_memory w !! (gpa + Z.of_nat j))) (seq 0 (Z.to_nat (chunk_size iova remaining)))))
      as [Hall|Hnot].
    + exfalso. rewrite Forall_seq in Hall.
      assert (exists l, read_at (Z.to_nat (chunk_size iova remaining)) gpa (tr_memory w) = Some l) as [l ?]; [|congruence].
      apply read_at_total. intros j Hj. apply Hall. lia.
    + apply not_Forall_Exists in Hnot; [|apply _]. apply Exists_exists in Hnot as (j & Hj%in_seq & Hn).
      exists (Z.of_nat j). split; [lia|]. rewrite Hb by lia. by apply eq_None_not_Some.
Qed.

Lemma read_loop fuel t rid iova len offset w acc :
  tm_rid t = Ok rid -> is_u 16 rid -> 0 <= iova -> iova + len <= 2 ^ 64 -> 0 <= offset -> len - offset <= Z.of_nat fuel ->
  Z.of_nat (length acc) = offset -> offset <= len -> bytes_from rid iova w acc ->
  match translated_loop fuel t iova len false read_op offset (w, acc) with
  | Ok (w', l, None) => w' = w /\ Z.of_nat (length l) = len /\ bytes_from rid iova w l
  | Ok (_, _, Some _) => exists j, 0 <= j < len /\ byte_at rid (iova + j) w = None
  | _ => False
  end.
Proof.
  intros Hrid Hr Hi Hlen. revert offset acc. induction fuel as [|fuel IH]; intros offset acc Ho Hf Hacc Hol HB;
    cbn [translated_loop]; (destruct (Z.leb_spec len offset) as [|Hlt]; [split_and!; [done|lia|done]|]); [lia|].
  rewrite uadd_ok by lia. cbn [res_bind]. rewrite Hrid. cbn [fst snd].
  assert (is_u 64 (iova + offset)) as Hio by (unfold is_u; lia).
  pose proof (translate_target rid (iova + offset) false w Hr Hio) as HT.
  destruct (target rid (iova + offset) false w) as [gpa|] eqn:Ht.
  2: { destruct HT as (w' & f & ->). cbn [res_bind]. exists offset. split; [lia|]. unfold byte_at. by rewrite Ht. }
  rewrite HT. cbn [res_bind]. unfold read_op at 1. cbn [fst snd].
  pose proof (read_chunk rid (iova + offset) (len - offset) gpa w Hr Hio ltac:(lia) ltac:(lia) Ht) as HC.
  pose proof (chunk_bounds (iova + offset) (len - offset) ltac:(lia)) as Hcb.
  destruct (read_at _ gpa (tr_memory w)) as [l|] eqn:Hrd; cbn [mbind option_bind].
  - apply read_at_length in Hrd. apply IH; [lia|lia|rewrite length_app; lia|lia|].
    apply bytes_from_app; [done|]. by replace (Z.of_nat (length acc)) with offset by lia.
  - destruct HC as (j & Hj & Hn). exists (offset + j). split; [lia|]. by rewrite Z.add_assoc.
Qed.

(** The byte that the device of [t] finds at [iova]: none if the device's
    identifier is out of its range of buses. *)
Definition device_byte (t : TranslatingMemory) (iova : Z) w : option Z :=
  match tm_rid t with Ok rid => byte_at rid iova w | _ => None end.

(** A device's read through the IOMMU returns the bytes that translating
    each of its addresses gives, and changes nothing; it fails exactly when one
    of the addresses has no translation for reading, or no memory there, or the
    device's identifier is outside its range of buses. *)
Theorem dma_read_exact t iova len w :
  is_u 16 (rid_offset t) -> 0 <= iova -> 0 <= len -> iova + len <= 2 ^ 64 ->
  match read_fallback t iova len w with
  | Ok (w', l, None) =>
      w' = w /\ Z.of_nat (length l) = len /\
      forall i b, l !! i = Some b -> device_byte t (iova + Z.of_nat i) w = Some b
  | Ok (_, _, Some _) => exists j, 0 <= j < len /\ device_byte t (iova + j) w = None
  | _ => False
  end.
Proof.
  intros Ho Hi Hl Hlen. unfold device_byte. destruct (tm_rid t) as [rid|[[rid a] b]|] eqn:Hrid.
  - apply (read_loop _ t rid); try done; try lia. by apply (tm_rid_range t).
  - unfold read_fallback, do_translated_op. destruct (Z.to_nat len) eqn:Hn; cbn [translated_loop];
      (destruct (Z.leb_spec len 0); [split_and!; [done|cbn; lia|done]|]); [lia|].
    rewrite uadd_ok by lia. cbn [res_bind]. rewrite Hrid. exists 0. split; [lia|done].
  - by apply tm_rid_total in Hrid.
Qed.

(** * Writes *)

(** Memory [m] after the bytes [src] are written one by one from [iova] on, as
    the IOMMU translates in [w]. *)
Fixpoint dma_store (rid iova : Z) (src : list Z) w (m : GuestMemory) : option GuestMemory :=
  match src with
  | [] => Some m
  | b :: src =>
      gpa ← target rid iova true w; _ ← m !! gpa; dma_store rid (iova + 1) src w (<[gpa := b]> m)
  end.

Lemma dma_store_app rid iova l l' w m :
  dma_store rid iova (l ++ l') w m =
    dma_store rid iova l w m ≫= dma_store rid (iova + Z.of_nat (length l)) l' w.
Proof.
  revert iova m. induction l as [|b l IH]; intros iova m; cbn [app dma_store length].
  { by rewrite Z.add_0_r. }
  destruct (target rid iova true w) as [gpa|]; [|done]. cbn [mbind option_bind]. destruct (m !! gpa); [|done].
  cbn [mbind option_bind]. rewrite IH. replace (iova + Z.of_nat (S (length l))) with (iova + 1 + Z.of_nat (length l)) by lia.
  done.
Qed.

Lemma dma_store_chunk rid iova l w m gpa :
  (forall j : nat, (j < length l)%nat -> target rid (iova + Z.of_nat j) true w = Some (gpa + Z.of_nat j)) ->
  dma_store rid iova l w m = write_at gpa l m.
Proof.
  revert iova gpa m. induction l as [|b l IH]; intros iova gpa m HT; [done|]. cbn [dma_store length].
  pose proof (HT 0%nat ltac:(cbn; lia)) as H0. cbn in H0. rewrite !Z.add_0_r in H0. rewrite H0. cbn [mbind option_bind].
  unfold write_at. cbn [length read_at]. destruct (m !! gpa) as [old|]; [|done]. cbn [mbind option_bind].
  rewrite (IH (iova + 1) (gpa + 1)).
  - unfold write_at. rewrite (read_at_agree (length l) (gpa + 1) m).
    + by destruct (read_at (length l) (gpa + 1) m).
    + intros x Hx. rewrite lookup_insert_ne; [done|]. unfold within in Hx. lia.
  - intros j Hj. specialize (HT (S j) ltac:(cbn; lia)). rewrite Nat2Z.inj_succ in HT.
    replace (iova + 1 + Z.of_nat j) with (iova + Z.succ (Z.of_nat j)) by lia. rewrite HT. f_equal. lia.
Qed.

(** The bytes written are not ones that translating the access reads. *)
Definition undisturbed (rid iova len : Z) w : Prop :=
  forall i j gpa, 0 <= i < len -> 0 <= j < len ->
    target rid (iova + i) true w = Some gpa -> ~ tr_reads rid (iova + j) w gpa.

Definition write_op (src : list Z) : Z -> Z -> Z -> W * unit -> option (W * unit) := fun gpa offset chunk_len st =>
  m ← write_at gpa (take (Z.to_nat chunk_len) (drop (Z.to_nat offset) src)) (tr_memory st.1);
  Some (tr_set_memory m st.1, tt).

(** Memories that agree on what the translations of an access read. *)
Definition agrees (rid iova len : Z) w (m : GuestMemory) : Prop :=
  forall j x, 0 <= j < len -> tr_reads rid (iova + j) w x -> m !! x = tr_memory w !! x.

Lemma write_loop fuel t rid iova src offset w m :
  let len := Z.of_nat (length src) in
  tm_rid t = Ok rid -> is_u 16 rid -> 0 <= iova -> iova + len <= 2 ^ 64 -> undisturbed rid iova len w ->
  0 <= offset <= len -> len - offset <= Z.of_nat fuel -> agrees rid iova len w m ->
  match translated_loop fuel t iova len true (write_op src) offset (tr_set_memory m w, tt) with
  | Ok (w', _, None) =>
      exists m', w' = tr_set_memory m' w /\
        dma_store rid (iova + offset) (drop (Z.to_nat offset) src) w m = Some m'
  | Ok (_, _, Some _) => dma_store rid (iova + offset) (drop (Z.to_nat offset) src) w m = None
  | _ => False
  end.
Proof.
  intros len Hrid Hr Hi Hlen Hun. revert offset m. induction fuel as [|fuel IH]; intros offset m Ho Hf Hag;
    cbn [translated_loop]; (destruct (Z.leb_spec len offset) as [|Hlt];
      [exists m; split; [done|]; by rewrite drop_ge by lia|]); [lia|].
  rewrite uadd_ok by lia. cbn [res_bind]. rewrite Hrid. cbn [fst snd].
  assert (is_u 64 (iova + offset)) as Hio by (unfold is_u; lia).
  pose proof (translate_target rid (iova + offset) true (tr_set_memory m w) Hr Hio) as HT.
  rewrite (tr_local rid (iova + offset) true w m Hr Hio) in HT by (intros x Hx; apply (Hag offset x); [lia|done]).
  set (c := chunk_size (iova + offset) (len - offset)).
  pose proof (chunk_bounds (iova + offset) (len - offset) ltac:(lia)) as Hc. fold c in Hc.
  set (chunk := take (Z.to_nat c) (drop (Z.to_nat offset) src)).
  assert (length chunk = Z.to_nat c) as Hcl by (unfold chunk; rewrite length_take, length_drop; lia).
  assert (drop (Z.to_nat offset) src = chunk ++ drop (Z.to_nat (offset + c)) src) as Hsplit.
  { unfold chunk. rewrite Z2Nat.inj_add, <-drop_drop by lia. by rewrite take_drop. }
  destruct (target rid (iova + offset) true w) as [gpa|] eqn:Ht.
  2: { destruct HT as (w' & f & ->). cbn [res_bind]. rewrite Hsplit. destruct chunk; [cbn in Hcl; lia|].
       cbn. by rewrite Ht. }
  rewrite HT. cbn [res_bind]. unfold write_op at 1. cbn [fst snd]. fold chunk. rewrite tr_get_set.
  assert (forall j : nat, (j < length chunk)%nat ->
    target rid (iova + offset + Z.of_nat j) true w = Some (gpa + Z.of_nat j)) as Hch.
  { intros j Hj. apply (target_chunk rid (iova + offset) true w gpa (len - offset)); [done|done| | |done].
    - unfold is_u. lia.
    - fold c. lia. }
  rewrite Hsplit, dma_store_app, (dma_store_chunk rid (iova + offset) chunk w m gpa Hch).
  destruct (write_at gpa chunk m) as [m1|] eqn:Hw; cbn [mbind option_bind]; [|done].
  rewrite tr_set_set, Hcl, Z2Nat.id, <-Z.add_assoc by lia. apply IH; [lia|lia|].
  intros j x Hj Hx. rewrite (write_frame gpa chunk m m1 x Hw); [by apply (Hag j)|].
  intros Hin. unfold within in Hin. apply (Hun (offset + (x - gpa)) j x); [lia|done| |done].
  specialize (Hch (Z.to_nat (x - gpa)) ltac:(lia)). rewrite Z2Nat.id in Hch by lia.
  rewrite Z.add_assoc, Hch. f_equal. lia.
Qed.

(** Memory after the device of [t] writes [src] byte by byte. *)
Definition device_store (t : TranslatingMemory) (iova : Z) (src : list Z) w : option GuestMemory :=
  match tm_rid t with Ok rid => dma_store rid iova src w (tr_memory w) | _ => None end.

(** C19: a device's write of some bytes through the IOMMU puts every byte where translating
    its address for writing gives, leaving everything else as it is; it fails
    exactly when one of the addresses has no such translation or no memory
    there, or the device's identifier is outside its range of buses. The write
    must not change the tables that it is translated with ([undisturbed]). *)
Theorem dma_write_exact t iova src w :
  let len := Z.of_nat (length src) in
  is_u 16 (rid_offset t) -> 0 <= iova -> iova + len <= 2 ^ 64 -> 0 < len ->
  (forall rid, tm_rid t = Ok rid -> undisturbed rid iova len w) ->
  match write_fallback t iova src w with
  | Ok (w', _, None) => exists m, w' = tr_set_memory m w /\ device_store t iova src w = Some m
  | Ok (_, _, Some _) => device_store t iova src w = None
  | _ => False
  end.
Proof.
  intros len Ho Hi Hlen Hpos Hun. unfold device_store. destruct (tm_rid t) as [rid|[[rid a] b]|] eqn:Hrid.
  - pose proof (write_loop (Z.to_nat len) t rid iova src 0 w (tr_memory w)) as HL. cbn zeta in HL. fold len in HL.
    rewrite tr_set_get, Z.add_0_r in HL. apply HL; try done; try lia; [by apply (tm_rid_range t)|by apply Hun].
  - unfold write_fallback, do_translated_op. fold len. destruct (Z.to_nat len) eqn:Hn; [lia|]. cbn [translated_loop].
    destruct (Z.leb_spec len 0); [lia|]. rewrite uadd_ok by lia. cbn [res_bind]. by rewrite Hrid.
  - by apply tm_rid_total in Hrid.
Qed.

(** * Confinement *)

(** The states of a write, chunk by chunk: [dma_path t iova src w offset w0] if
    the first [offset] bytes of the access have been written and left [w0]. Each
    chunk is translated in the state that the ones before it left, which is not
    [w] where they changed the tables. *)
Inductive dma_path (t : TranslatingMemory) (iova : Z) (src : list Z) (w : W) : Z -> W -> Prop :=
| path_start : dma_path t iova src w 0 w
| path_chunk offset w0 rid gpa c m :
    dma_path t iova src w offset w0 -> tm_rid t = Ok rid -> 0 < c -> offset + c <= Z.of_nat (length src) ->
    (forall j, 0 <= j < c -> target rid (iova + offset + j) true w0 = Some (gpa + j)) ->
    write_at gpa (take (Z.to_nat c) (drop (Z.to_nat offset) src)) (tr_memory w0) = Some m ->
    dma_path t iova src w (offset + c) (tr_set_memory m w0).

Lemma path_bounds t iova src w offset w0 :
  dma_path t iova src w offset w0 -> 0 <= offset <= Z.of_nat (length src) /\ w0 = tr_set_memory (tr_memory w0) w.
Proof.
  induction 1 as [|offset w0 rid gpa c m HP [IH1 IH2]]; [by rewrite tr_set_get; split; [lia|]|].
  split; [lia|]. rewrite tr_get_set, IH2. apply tr_set_set.
Qed.

Lemma path_log t iova src w offset w0 x : dma_path t iova src w offset w0 -> tr_log w0 x -> tr_log w x.
Proof. induction 1 as [|? w0 ? ? ? m HP IH]; [done|]. intros Hx. by eapply IH, (tr_log_set m). Qed.

(** What a write changed, the IOMMU let the device write when it did. *)
Lemma path_changes t iova src w offset w0 x :
  dma_path t iova src w offset w0 -> tr_memory w0 !! x <> tr_memory w !! x ->
  exists rid before w1 j, tm_rid t = Ok rid /\ dma_path t iova src w before w1 /\
    before <= j < offset /\ target rid (iova + j) true w1 = Some x.
Proof.
  induction 1 as [|offset w0 rid gpa c m HP IH Hrid Hc Ho HT Hw]; intros Hx; [by destruct Hx|].
  pose proof (path_bounds _ _ _ _ _ _ HP) as [Hb _]. rewrite tr_get_set in Hx.
  destruct (decide (within gpa c x)) as [Hin|Hout].
  - unfold within in Hin. exists rid, offset, w0, (offset + (x - gpa)). split_and!; [done|done|lia|lia|].
    rewrite Z.add_assoc, HT by lia. f_equal. lia.
  - destruct IH as (r & b & w1 & j & H1 & H2 & H3 & H4); [|exists r, b, w1, j; split_and!; [done|done|lia|lia|done]].
    rewrite <-(write_frame _ _ _ _ x Hw); [done|]. rewrite length_take, length_drop.
    unfold within in *. lia.
Qed.

(** Where the access writes no table that it is translated with, that is what
    the IOMMU lets the device write from the start. *)
Lemma path_undisturbed t iova src w offset w0 rid :
  let len := Z.of_nat (length src) in
  0 <= iova -> iova + len <= 2 ^ 64 -> is_u 16 rid -> tm_rid t = Ok rid -> undisturbed rid iova len w ->
  dma_path t iova src w offset w0 ->
  agrees rid iova len w (tr_memory w0) /\
  forall j, 0 <= j < len -> target rid (iova + j) true w0 = target rid (iova + j) true w.
Proof.
  intros len Hi Hlen Hr Hrid Hun HP.
  assert (forall m, agrees rid iova len w m -> forall j, 0 <= j < len ->
    target rid (iova + j) true (tr_set_memory m w) = target rid (iova + j) true w) as Hloc.
  { intros m Hm j Hj. apply tr_local; [done|unfold is_u; lia|]. intros x. by apply Hm. }
  assert (agrees rid iova len w (tr_memory w0)) as Hag.
  2: { split; [done|]. pose proof (path_bounds _ _ _ _ _ _ HP) as [_ ->]. by apply Hloc. }
  induction HP as [|offset w0 rid' gpa c m HP IH Hrid' Hc Ho HT Hw]; [done|].
  pose proof (path_bounds _ _ _ _ _ _ HP) as [Hb Hw0]. rewrite Hrid in Hrid'. injection Hrid' as <-.
  intros j x Hj Hx. rewrite tr_get_set, <-(IH j x Hj Hx). apply (write_frame _ _ _ _ x Hw).
  rewrite length_take, length_drop. intros Hin. unfold within in Hin.
  specialize (HT (x - gpa) ltac:(lia)). rewrite Hw0, <-Z.add_assoc, Hloc in HT by (done || lia).
  replace (gpa + (x - gpa)) with x in HT by lia. by apply (Hun (offset + (x - gpa)) j x); [lia| | |].
Qed.

Lemma write_path fuel t iova src w offset w0 :
  let len := Z.of_nat (length src) in
  is_u 16 (rid_offset t) -> 0 <= iova -> iova + len <= 2 ^ 64 -> dma_path t iova src w offset w0 -> len - offset <= Z.of_nat fuel ->
  match translated_loop fuel t iova len true (write_op src) offset (w0, tt) with
  | Ok (w', _, e) => exists offset' w1, dma_path t iova src w offset' w1 /\
      (forall x, ~ tr_log w x -> tr_memory w' !! x = tr_memory w1 !! x) /\ (e = None -> offset' = len /\ w' = w1)
  | _ => False
  end.
Proof.
  intros len Ho Hi Hlen. revert offset w0. induction fuel as [|fuel IH]; intros offset w0 HP Hf;
    pose proof (path_bounds _ _ _ _ _ _ HP) as [Hb _]; fold len in Hb; cbn [translated_loop];
    (destruct (Z.leb_spec len offset); [exists offset, w0; split_and!; [done|done|intros _; split; [lia|done]]|]); [lia|].
  rewrite uadd_ok by lia. cbn [res_bind]. destruct (tm_rid t) as [rid|[[rid a] b]|] eqn:Hrid; [| |by apply tm_rid_total in Hrid].
  2: { by exists offset, w0. }
  destruct (tm_rid_range t rid Ho Hrid) as [Hr _]. assert (is_u 64 (iova + offset)) as Hio by (unfold is_u; lia).
  pose proof (translate_target rid (iova + offset) true w0 Hr Hio) as HT. cbn [fst snd].
  destruct (target rid (iova + offset) true w0) as [gpa|] eqn:Ht.
  2: { destruct HT as (w' & f & HT). rewrite HT. cbn [res_bind]. exists offset, w0. split_and!; [done| |done]. intros x Hx.
       apply (tr_fault _ _ _ _ _ _ x HT). by intros Hl%(path_log _ _ _ _ _ _ x HP). }
  rewrite HT. cbn [res_bind]. unfold write_op at 1. cbn [fst snd].
  pose proof (chunk_bounds (iova + offset) (len - offset) ltac:(lia)) as Hc.
  destruct (write_at _ _ _) as [m|] eqn:Hw; cbn [mbind option_bind]; [|by exists offset, w0].
  apply IH; [|lia]. apply (path_chunk _ _ _ _ offset w0 rid gpa _ m HP Hrid); [lia|lia| |done].
  intros j Hj. apply (target_chunk rid (iova + offset) true w0 gpa (len - offset)); [done|done| |done|done]. unfold is_u. lia.
Qed.

(** C9: a device is confined by the IOMMU, also a device that writes the tables
    that it is translated with. Whether its write succeeds or not, where memory
    changed, and it is not the IOMMU's log of faults, the IOMMU let this device
    write: it translated an address of the access to there, for writing, in the
    state that the bytes of the access before that one had left. A write that
    succeeds is all of such steps, the bytes of the access in their order. If
    the access does not write what its translations read, the changes are where
    the IOMMU lets the device write in the state at the start. *)
Theorem dma_confined t iova src w :
  let len := Z.of_nat (length src) in
  is_u 16 (rid_offset t) -> 0 <= iova -> iova + len <= 2 ^ 64 ->
  match write_fallback t iova src w with
  | Ok (w', _, e) =>
      (forall x, tr_memory w' !! x <> tr_memory w !! x -> ~ tr_log w x ->
        exists rid before w0 j, tm_rid t = Ok rid /\ dma_path t iova src w before w0 /\
          before <= j < len /\ target rid (iova + j) true w0 = Some x /\
          (undisturbed rid iova len w -> target rid (iova + j) true w = Some x)) /\
      (e = None -> dma_path t iova src w len w')
  | _ => False
  end.
Proof.
  intros len Ho Hi Hlen.
  pose proof (write_path (Z.to_nat len) t iova src w 0 w Ho Hi Hlen (path_start _ _ _ _) ltac:(lia)) as HL. fold len in HL.
  change (translated_loop _ _ _ _ _ _ _ _) with (write_fallback t iova src w) in HL.
  destruct (write_fallback t iova src w) as [[[w' []] e]| |]; [|done|done].
  destruct HL as (offset & w1 & HP & Hlog & Hok). split; [|by intros [-> ->]%Hok].
  intros x Hx Hnl. rewrite (Hlog x Hnl) in Hx.
  destruct (path_changes _ _ _ _ _ _ x HP Hx) as (rid & before & w0 & j & Hrid & HP0 & Hj & Ht).
  pose proof (path_bounds _ _ _ _ _ _ HP) as [Hb _]. pose proof (path_bounds _ _ _ _ _ _ HP0) as [Hb0 _]. fold len in Hb.
  exists rid, before, w0, j. split_and!; [done|done|lia|lia|done|]. intros Hun.
  rewrite <-(proj2 (path_undisturbed t iova src w before w0 rid Hi Hlen (proj1 (tm_rid_range t rid Ho Hrid)) Hrid Hun HP0) j); [done|lia].
Qed.

End Accesses.

(** * Interrupt routes *)

Section Routes.

Context {T : Type} `{RetranslateInterrupts T}.

(** A route after an invalidation for a device, or for all. *)
Definition invalidated (device_id : option Z) (route : T) : T :=
  if bool_decide (device_id = None) || bool_decide (device_id = Some (rt_device_id route))
  then rt_retranslate route else route.

Lemma fold_alter_lookup (f : T -> T) l (store : gmap nat T) w :
  NoDup l -> fold_left (fun store w => alter f w store) l store !! w =
    if decide (w ∈ l) then f <$> store !! w else store !! w.
Proof.
  revert store. induction l as [|v l IH]; intros store Hl; [done|]. inversion_clear Hl as [|? ? Hv Hl'].
  cbn [fold_left]. rewrite (IH (alter f v store) Hl'). destruct (decide (w = v)) as [->|Hne].
  - rewrite decide_False by done. rewrite decide_True by constructor. apply lookup_alter_eq.
  - rewrite lookup_alter_ne by done.
    destruct (decide (w ∈ l)), (decide (w ∈ v :: l)) as [Hin|Hout]; try done.
    + exfalso. apply Hout. by constructor.
    + apply elem_of_cons in Hin. naive_solver.
Qed.

(** An invalidation retranslates the registered routes of the device, each
    once, and no other. *)
Lemma invalidate_lookup device_id (store : gmap nat T) (routes : RetranslateInterruptsList) w :
  NoDup routes ->
  (invalidate device_id (store, routes)).1 !! w =
    if decide (w ∈ routes) then invalidated device_id <$> store !! w else store !! w.
Proof.
  intros Hnd. cbn [invalidate fst]. rewrite (fold_alter_lookup (invalidated device_id)).
  2: { by apply list.NoDup_filter. }
  destruct (decide (w ∈ routes)) as [Hin|Hout].
  - destruct (store !! w) as [route|] eqn:Hs; [|by destruct (decide _)].
    rewrite decide_True; [done|]. apply list_elem_of_filter. split; [by rewrite Hs|done].
  - rewrite decide_False; [done|]. by intros [_ ?]%list_elem_of_filter.
Qed.

End Routes.
