(* ===== verification/AmdIommuLog.v ===== *)
(** The event log and the command buffer of the AMD IOMMU: the log is a bounded
    queue, and the commands up to the tail are taken in order. *)

From stdpp Require Import gmap.
From S2P Require Import Prelude GuestMem AmdIommu AmdIommuSpec.

Implicit Type m : GuestMemory.
Implicit Type s : IommuSharedState.

(** * Rings *)

(** A ring of [size] bytes, of entries of 16 bytes. *)
Definition ring_ok (size : Z) : Prop := exists n, 8 <= n <= 15 /\ size = 2 ^ n * 16.

Lemma ring_size_ok x size : ring_size_bytes (bits x 56 4) = Some size -> ring_ok size.
Proof.
  unfold ring_size_bytes. pose proof (bits_bound x 56 4 ltac:(lia)) as Hb. unfold is_u in Hb.
  destruct (Z.ltb_spec (bits x 56 4) 8); [done|]. intros [= <-]. exists (bits x 56 4). split; [lia|].
  by rewrite Z.shiftl_1_l.
Qed.

(** [off] is the offset of an entry. *)
Definition slot_ok (size off : Z) : Prop := 0 <= off < size /\ off mod 16 = 0.

Lemma ring_bounds size : ring_ok size -> 2 ^ 12 <= size <= 2 ^ 19 /\ size mod 16 = 0 /\ 0 < size / 16 /\ size = size / 16 * 16.
Proof.
  intros (n & Hn & ->). pose proof (Z.pow_le_mono_r 2 8 n). pose proof (Z.pow_le_mono_r 2 n 15).
  change (2 ^ 8) with 256 in *. change (2 ^ 15) with 32768 in *. rewrite Z.mod_mul, Z.div_mul by lia. lia.
Qed.

Lemma ring_mod size a : ring_ok size -> a mod 16 = 0 -> slot_ok size (a mod size).
Proof.
  intros Hs Ha. pose proof (ring_bounds size Hs) as (Hb & _ & Hp & He).
  pose proof (Z.mod_pos_bound a size ltac:(lia)). split; [done|].
  rewrite He, (Z.mul_comm _ 16), Z.rem_mul_r, Ha by lia. rewrite Z.add_0_l, Z.mul_comm. apply Z.mod_mul. lia.
Qed.

Lemma ring_offset_ok size reg : ring_ok size -> slot_ok size (ring_offset reg size).
Proof. intros. apply ring_mod; [done|]. rewrite Z.shiftl_mul_pow2 by lia. apply Z.mod_mul. lia. Qed.

(** The pointer of an entry names it. *)
Lemma ring_offset_with size off :
  ring_ok size -> slot_ok size off -> ring_offset (with_ring_ptr (Z.shiftr off 4)) size = off.
Proof.
  intros Hs [Ho H16]. pose proof (ring_bounds size Hs) as (Hb & _). unfold ring_offset, ring_ptr, with_ring_ptr, bits.
  rewrite Z.shiftr_shiftl_l by lia. rewrite Z.shiftl_0_r, Z.land_ones, Z.shiftr_div_pow2, Z.shiftl_mul_pow2 by lia.
  change (2 ^ 4) with 16 in *. change (2 ^ 15) with 32768. rewrite (Z.mod_small (off / 16)) by div_lia.
  rewrite Z.mod_small; div_lia.
Qed.

(** The slot [i] entries after [off]. *)
Definition slot_after (size off i : Z) : Z := (off + 16 * i) mod size.

Lemma slot_after_ok size off i : ring_ok size -> off mod 16 = 0 -> slot_ok size (slot_after size off i).
Proof.
  intros Hs Ho. apply ring_mod; [done|]. rewrite Z.mul_comm, Z.mod_add by lia. done.
Qed.

Lemma slot_after_after size off i j : slot_after size (slot_after size off i) j = slot_after size off (i + j).
Proof.
  unfold slot_after. destruct (decide (size = 0)) as [->|]; [rewrite !Z.mod_0_r; lia|].
  rewrite Z.add_mod_idemp_l by done. f_equal. lia.
Qed.

Lemma slot_after_turn size off i :
  ring_ok size -> slot_after size off (i + size / 16) = slot_after size off i.
Proof.
  intros Hs. pose proof (ring_bounds size Hs) as (Hb & _ & _ & He). unfold slot_after.
  replace (off + 16 * (i + size / 16)) with (off + 16 * i + 1 * size) by lia. apply Z.mod_add. lia.
Qed.

(** The number of entries from [head] to [tail]. *)
Definition distance (size head tail : Z) : Z := ((tail - head) mod size) / 16.

Lemma distance_bounds size head tail : ring_ok size -> 0 <= distance size head tail < size / 16.
Proof.
  intros Hs. pose proof (ring_bounds size Hs) as (Hb & Hm & Hp & He). unfold distance.
  pose proof (Z.mod_pos_bound (tail - head) size ltac:(lia)). split; [apply Z.div_pos; lia|].
  apply Z.div_lt_upper_bound; lia.
Qed.

Lemma distance_slot size head tail :
  ring_ok size -> slot_ok size head -> slot_ok size tail -> slot_after size head (distance size head tail) = tail.
Proof.
  intros Hs [Hh Hh16] [Ht Ht16]. pose proof (ring_bounds size Hs) as (Hb & Hm & Hp & He).
  unfold slot_after, distance. assert (((tail - head) mod size) mod 16 = 0) as H16.
  { apply ring_mod; [done|]. rewrite Zminus_mod, Hh16, Ht16. done. }
  replace (16 * ((tail - head) mod size / 16)) with ((tail - head) mod size)
    by (pose proof (Z.div_mod ((tail - head) mod size) 16); lia).
  rewrite Z.add_mod_idemp_r by lia. replace (head + (tail - head)) with tail by lia. by apply Z.mod_small.
Qed.

(** Within a turn of the ring, slots are distinct. *)
Lemma slot_after_inj size off i j :
  ring_ok size -> 0 <= i < size / 16 -> 0 <= j < size / 16 -> slot_after size off i = slot_after size off j -> i = j.
Proof.
  intros Hs Hi Hj Heq. pose proof (ring_bounds size Hs) as (Hb & Hm & Hp & He). unfold slot_after in Heq.
  assert ((16 * (i - j)) mod size = 0) as Hd.
  { replace (16 * (i - j)) with ((off + 16 * i) - (off + 16 * j)) by lia. by rewrite Zminus_mod, Heq, Z.sub_diag. }
  apply Z.mod_divide in Hd as [q Hq]; [|lia]. assert (q = 0) by nia. lia.
Qed.

Lemma distance_next size head tail :
  ring_ok size -> slot_ok size head -> slot_ok size tail ->
  distance size head (slot_after size tail 1) =
    if distance size head tail + 1 =? size / 16 then 0 else distance size head tail + 1.
Proof.
  intros Hs Hh Ht. pose proof (ring_bounds size Hs) as (Hb & Hm & Hp & He).
  pose proof (distance_bounds size head tail Hs) as Hd. pose proof (slot_after_ok size tail 1 Hs (proj2 Ht)) as Hn.
  pose proof (distance_bounds size head (slot_after size tail 1) Hs) as Hd'.
  pose proof (distance_slot size head _ Hs Hh Hn) as E1. pose proof (distance_slot size head tail Hs Hh Ht) as E2.
  assert (slot_after size tail 1 = slot_after size head (distance size head tail + 1)) as E3.
  { rewrite <-E2 at 1. apply slot_after_after. }
  destruct (Z.eqb_spec (distance size head tail + 1) (size / 16)) as [Hw|Hw];
    (apply (slot_after_inj size head); [done|done|lia|]); rewrite E1, E3; [|done].
  rewrite Hw. apply (slot_after_turn size head 0 Hs).
Qed.

(** * The event log *)

Definition log_base s : Z := Z.shiftl (rb_base_addr (RingBase_from_bits (evt_log_base (state s)))) 12.

Definition overflowed s : bool := Z.testbit (iommu_status (state s)) EVT_OVERFLOW.

(** Events are recorded. *)
Definition logging s : bool := iommu_en (ctrl s) && evt_log_en (ctrl s) && negb (overflowed s).

Definition log_head (size : Z) s : Z := ring_offset (evt_log_head (state s)) size.
Definition log_tail (size : Z) s : Z := ring_offset (evt_log_tail (state s)) size.

(** The log of [size] bytes holds the events [l] that software has not taken. *)
Definition log_holds (size : Z) s (l : list (list Z)) : Prop :=
  Z.of_nat (length l) = distance size (log_head size s) (log_tail size s) /\
  forall i b, l !! i = Some b ->
    read_at 16 (log_base s + slot_after size (log_head size s) (Z.of_nat i)) (guest_memory s) = Some b.

Definition log_mapped (size : Z) s : Prop :=
  forall x, within (log_base s) size x -> is_Some (guest_memory s !! x).

Lemma log_base_bound s : 0 <= log_base s < 2 ^ 52.
Proof.
  unfold log_base. cbn [rb_base_addr RingBase_from_bits].
  pose proof (bits_bound (evt_log_base (state s)) 12 40 ltac:(lia)) as Hb. unfold is_u in Hb.
  rewrite Z.shiftl_mul_pow2 by lia. lia.
Qed.

Lemma length_event_bytes e : length (event_bytes e) = 16%nat.
Proof. done. Qed.

(** Recording an event in a log with room for it, and in a full one. *)
Lemma write_event_room {E} e s size :
  logging s = true -> evt_log_size_bytes (state s) = Some size ->
  let tail := log_tail size s in
  let next := slot_after size tail 1 in
  write_event_inner e s =
    if next =? log_head size s then
      let s := set_status EVT_OVERFLOW true s in
      Ok (E:=E) (if evt_int_en (ctrl s) then deliver_interrupt s else s)
    else
      match write_at (log_base s + tail) (event_bytes e) (guest_memory s) with
      | None => Ok s
      | Some m =>
          let s := s <| guest_memory := m |>
            <| state := state s <| evt_log_tail := with_ring_ptr (Z.shiftr next 4) |> |> in
          Ok (if evt_int_en (ctrl s) then deliver_interrupt (set_status EVT_LOG_INT true s) else s)
      end.
Proof.
  intros Hlog Hsize tail next. unfold logging in Hlog. apply andb_true_iff in Hlog as [[Hen Hlog]%andb_true_iff Hov].
  unfold write_event_inner. rewrite Hen, Hlog. cbn [negb orb]. unfold overflowed in Hov. apply negb_true_iff in Hov.
  rewrite Hov, Hsize. fold (log_base s) (log_head size s) (log_tail size s).
  replace ((log_tail size s + 16) mod size) with next by (unfold next, slot_after; f_equal; lia).
  destruct (next =? log_head size s); [done|]. pose proof (log_base_bound s).
  assert (ring_ok size) as Hs by (by apply (ring_size_ok (evt_log_base (state s)))).
  pose proof (ring_offset_ok size (evt_log_tail (state s)) Hs) as [Ht _]. fold (log_tail size s) in Ht.
  pose proof (ring_bounds size Hs) as (Hb & _). rewrite uadd_ok by lia. done.
Qed.

(** A read of another slot is not affected by a write. *)
Lemma slot_frame base size a b l m m' :
  ring_ok size -> slot_ok size a -> slot_ok size b -> a <> b -> length l = 16%nat ->
  write_at (base + a) l m = Some m' -> read_at 16 (base + b) m' = read_at 16 (base + b) m.
Proof.
  intros Hs [_ Ha] [_ Hb] Hne Hl Hw. apply read_at_agree. intros x Hx. apply (write_frame _ _ _ _ _ Hw).
  rewrite Hl. unfold within in *. intros Hx'. apply Hne. div_lia.
Qed.

Lemma interrupt_log {size} s' (b : bool) l :
  log_holds size (if b then deliver_interrupt (set_status EVT_LOG_INT true s') else s') l <-> log_holds size s' l.
Proof. by destruct b. Qed.

Lemma log_holds_push size e s l m :
  ring_ok size -> log_holds size s l -> Z.of_nat (length l) + 1 <> size / 16 ->
  write_at (log_base s + log_tail size s) (event_bytes e) (guest_memory s) = Some m ->
  log_holds size (s <| guest_memory := m |>
    <| state := state s <| evt_log_tail := with_ring_ptr (Z.shiftr (slot_after size (log_tail size s) 1) 4) |> |>)
    (l ++ [event_bytes e]).
Proof.
  intros Hs [Hlen Hl] Hroom Hw. set (s' := _ <| state := _ |>).
  pose proof (ring_offset_ok size (evt_log_tail (state s)) Hs : slot_ok size (log_tail size s)) as Ht.
  pose proof (ring_offset_ok size (evt_log_head (state s)) Hs : slot_ok size (log_head size s)) as Hh.
  pose proof (distance_bounds size (log_head size s) (log_tail size s) Hs) as Hd.
  assert (log_tail size s' = slot_after size (log_tail size s) 1) as Ht'.
  { apply ring_offset_with; [done|]. apply slot_after_ok; [done|apply Ht]. }
  split.
  - change (log_head size s') with (log_head size s). rewrite length_app, Ht', (distance_next size (log_head size s) (log_tail size s)) by done.
    rewrite <-Hlen in *. destruct (Z.eqb_spec (Z.of_nat (length l) + 1) (size / 16)); [lia|]. cbn. lia.
  - change (log_head size s') with (log_head size s). change (log_base s') with (log_base s).
    change (guest_memory s') with m. intros i b [Hi|[Hge Hi]]%lookup_app_Some.
    + rewrite <-(Hl i b Hi). apply (slot_frame _ size (log_tail size s) _ (event_bytes e)); try done.
      * by apply slot_after_ok; [|apply Hh].
      * rewrite <-(distance_slot size (log_head size s) (log_tail size s)) by done. rewrite <-Hlen.
        pose proof (lookup_lt_Some _ _ _ Hi). intros Heq%slot_after_inj; [lia|done|lia|lia].
    + apply list_lookup_singleton_Some in Hi as [Hi <-]. replace i with (length l) by lia.
      rewrite Hlen, distance_slot by done. apply (read_write _ _ _ _ Hw).
Qed.

Lemma log_full size s l :
  ring_ok size -> log_holds size s l ->
  (slot_after size (log_tail size s) 1 =? log_head size s) = (Z.of_nat (length l) + 1 =? size / 16).
Proof.
  intros Hs [Hlen _]. pose proof (ring_bounds size Hs) as (Hb & _ & Hp & _).
  pose proof (ring_offset_ok size (evt_log_tail (state s)) Hs : slot_ok size (log_tail size s)) as Ht.
  pose proof (ring_offset_ok size (evt_log_head (state s)) Hs : slot_ok size (log_head size s)) as Hh.
  pose proof (distance_bounds size (log_head size s) (log_tail size s) Hs) as Hd.
  rewrite <-(distance_slot size (log_head size s) (log_tail size s)) at 1 by done. rewrite slot_after_after, <-Hlen.
  assert (log_head size s = slot_after size (log_head size s) 0) as E0.
  { unfold slot_after. rewrite Z.mul_0_r, Z.add_0_r. symmetry. apply Z.mod_small, Hh. }
  destruct (Z.eqb_spec (Z.of_nat (length l) + 1) (size / 16)) as [->|Hne].
  - apply Z.eqb_eq. rewrite E0 at 2. apply (slot_after_turn size _ 0 Hs).
  - apply Z.eqb_neq. rewrite E0 at 2. intros Heq%slot_after_inj; [lia|done|lia|lia].
Qed.

Lemma overflow_set s : overflowed (set_status EVT_OVERFLOW true s) = true.
Proof. unfold overflowed. cbn. unfold with_bit. by rewrite Z.lor_spec, Z.pow2_bits_true, orb_true_r. Qed.

Lemma overflow_kept bit b s :
  0 <= bit -> bit <> EVT_OVERFLOW -> overflowed (set_status bit b s) = overflowed s.
Proof.
  intros H0 Hne. unfold overflowed. cbn. unfold with_bit. destruct b.
  - rewrite Z.lor_spec, testbit_pow2 by done. destruct (Z.eqb_spec bit EVT_OVERFLOW); [done|]. apply orb_false_r.
  - rewrite Z.ldiff_spec, testbit_pow2 by done. destruct (Z.eqb_spec bit EVT_OVERFLOW); [done|]. apply andb_true_r.
Qed.

Lemma log_holds_pop size s l k value :
  ring_ok size -> log_holds size s l -> (k <= length l)%nat ->
  ring_offset value size = slot_after size (log_head size s) (Z.of_nat k) ->
  log_holds size (s <| state := state s <| evt_log_head := value |> |>) (drop k l).
Proof.
  intros Hs [Hlen Hl] Hk Hv. set (s' := s <| state := _ |>).
  pose proof (ring_offset_ok size (evt_log_tail (state s)) Hs : slot_ok size (log_tail size s)) as Ht.
  pose proof (ring_offset_ok size (evt_log_head (state s)) Hs : slot_ok size (log_head size s)) as Hh.
  change (ring_offset value size) with (log_head size s') in Hv.
  pose proof (ring_offset_ok size (evt_log_head (state s')) Hs : slot_ok size (log_head size s')) as Hh'.
  change (log_tail size s) with (log_tail size s') in *. split.
  - pose proof (distance_bounds size (log_head size s) (log_tail size s') Hs) as Hd.
    pose proof (distance_bounds size (log_head size s') (log_tail size s') Hs) as Hd'.
    pose proof (distance_slot size _ _ Hs Hh Ht) as E1. pose proof (distance_slot size _ _ Hs Hh' Ht) as E2.
    rewrite length_drop. rewrite Hv, slot_after_after in E2. rewrite <-Hv in E2.
    destruct (decide (Z.of_nat k + distance size (log_head size s') (log_tail size s') < size / 16)) as [Hlt|Hge].
    + rewrite <-E1 in E2 at 2. apply slot_after_inj in E2; [lia|done|lia|lia].
    + exfalso. replace (Z.of_nat k + distance size (log_head size s') (log_tail size s')) with
        (Z.of_nat k + distance size (log_head size s') (log_tail size s') - size / 16 + size / 16) in E2 by lia.
      rewrite slot_after_turn in E2 by done. rewrite <-E1 in E2 at 2. apply slot_after_inj in E2; [lia|done|lia|lia].
  - intros i b Hi. rewrite lookup_drop in Hi. apply Hl in Hi. rewrite Hv, slot_after_after.
    by rewrite <-Nat2Z.inj_add.
Qed.

(** An event is appended, or if there is no room the overflow is recorded. *)
Lemma event_recorded {E} e s size l :
  evt_log_size_bytes (state s) = Some size -> log_mapped size s -> logging s = true -> log_holds size s l ->
  exists s', write_event_inner e s = Ok (E:=E) s' /\
    if Z.of_nat (length l) + 1 =? size / 16 then log_holds size s' l /\ overflowed s' = true
    else log_holds size s' (l ++ [event_bytes e]) /\ overflowed s' = false.
Proof.
  intros Hsize Hmap Hlog Hl. assert (ring_ok size) as Hs by (by apply (ring_size_ok (evt_log_base (state s)))).
  pose proof (ring_offset_ok size (evt_log_tail (state s)) Hs : slot_ok size (log_tail size s)) as Ht.
  pose proof (ring_bounds size Hs) as (Hb & Hm & Hp & He).
  rewrite (write_event_room e s size Hlog Hsize). cbn zeta. rewrite (log_full size s l Hs Hl).
  destruct (Z.eqb_spec (Z.of_nat (length l) + 1) (size / 16)) as [Hf|Hf].
  - eexists. split; [done|]. destruct (evt_int_en _); (split; [exact Hl|]); apply overflow_set.
  - destruct (write_at _ _ (guest_memory s)) as [m|] eqn:Hw.
    + eexists. split; [done|]. split; [apply interrupt_log; by apply log_holds_push|].
      assert (overflowed s = false) as Hov.
      { unfold logging in Hlog. apply andb_true_iff in Hlog as [_ Hlog]. by apply negb_true_iff in Hlog. }
      destruct (evt_int_en _); [|exact Hov]. change (overflowed (set_status EVT_LOG_INT true s) = false).
      by rewrite overflow_kept.
    + exfalso. assert (exists m', write_at (log_base s + log_tail size s) (event_bytes e) (guest_memory s) = Some m')
        as [m' ?]; [|congruence]. eexists. apply write_at_spec. split; [done|]. intros x Hx. apply Hmap.
      unfold within in *. rewrite length_event_bytes in Hx. destruct Ht as [Ht1 Ht2]. div_lia.
Qed.

(** C30: the event log is a queue of bounded length. While events are recorded
    (the IOMMU and its log are enabled, and no overflow is pending), in a log
    that is in guest memory, an event is appended to those that software has not
    taken, each of which stays as it is; when the log is full nothing is
    overwritten and the overflow is recorded. Software takes events from the
    front by moving the head. *)
Theorem event_log_queue e s size l k value :
  evt_log_size_bytes (state s) = Some size -> log_mapped size s -> logging s = true -> log_holds size s l ->
  (exists s', queue_event e s = Ok (E:=void) s' /\
    if Z.of_nat (length l) + 1 =? size / 16 then log_holds size s' l /\ overflowed s' = true
    else log_holds size s' (l ++ [event_bytes e]) /\ overflowed s' = false) /\
  ((k <= length l)%nat -> ring_offset value size = slot_after size (log_head size s) (Z.of_nat k) ->
   exists s', write_register MmioRegister.EVT_LOG_HEAD value s = Ok (E:=void) (s', NoInvalidation) /\
     log_holds size s' (drop k l)).
Proof.
  intros Hsize Hmap Hlog Hl. split; [by apply event_recorded|].
  intros Hk Hv. eexists. split; [reflexivity|]. apply log_holds_pop; [|done..].
  by apply (ring_size_ok (evt_log_base (state s))).
Qed.

(** * What recording an event changes *)

Definition in_log s (x : Z) : Prop :=
  exists size, evt_log_size_bytes (state s) = Some size /\ within (log_base s) size x.

(** The tail of the log, the status and the memory of the log. *)
Record event_frame s s' : Prop := {
  ef_state : exists tail status, state s' = state s <| evt_log_tail := tail |> <| iommu_status := status |>;
  ef_memory : forall x, ~ in_log s x -> guest_memory s' !! x = guest_memory s !! x;
  ef_mapped : forall x, is_Some (guest_memory s' !! x) <-> is_Some (guest_memory s !! x);
}.

Lemma event_frame_refl s : event_frame s s.
Proof.
  split; [|done|done]. exists (evt_log_tail (state s)), (iommu_status (state s)). by destruct s as [m [] i].
Qed.

Lemma event_frame_status s s' bit b : event_frame s s' -> event_frame s (set_status bit b s').
Proof. intros [(t & st & Hs) Hm Hd]. split; [|done|done]. exists t. eexists. cbn. by rewrite Hs. Qed.

Lemma event_frame_deliver s s' (b : bool) :
  event_frame s s' -> event_frame s (if b then deliver_interrupt s' else s').
Proof. intros [Hs Hm Hd]. by destruct b. Qed.

(** Otherwise nothing is. *)
Lemma write_event_silent {E} e s : logging s = false -> write_event_inner e s = Ok (E:=E) s.
Proof.
  intros Hlog. unfold logging, overflowed in Hlog. unfold write_event_inner.
  destruct (iommu_en (ctrl s)); [|done]. destruct (evt_log_en (ctrl s)); [|done]. cbn [negb orb andb] in *.
  apply negb_false_iff in Hlog. by rewrite Hlog.
Qed.

Lemma write_event_frame {E} e s : exists s', write_event_inner e s = Ok (E:=E) s' /\ event_frame s s'.
Proof.
  destruct (logging s) eqn:Hlog.
  2: { exists s. split; [by apply write_event_silent|apply event_frame_refl]. }
  destruct (evt_log_size_bytes (state s)) as [size|] eqn:Hsize.
  2: { exists s. split; [|apply event_frame_refl]. unfold logging, overflowed in Hlog. unfold write_event_inner.
       apply andb_true_iff in Hlog as [[-> ->]%andb_true_iff Ho%negb_true_iff]. cbn [negb orb]. by rewrite Ho, Hsize. }
  assert (ring_ok size) as Hs by (by apply (ring_size_ok (evt_log_base (state s)))).
  pose proof (ring_offset_ok size (evt_log_tail (state s)) Hs : slot_ok size (log_tail size s)) as [Ht Ht16].
  rewrite (write_event_room e s size Hlog Hsize). cbn zeta. destruct (_ =? log_head size s).
  { eexists. split; [done|]. apply event_frame_deliver, event_frame_status, event_frame_refl. }
  destruct (write_at _ _ (guest_memory s)) as [m|] eqn:Hw; [|exists s; split; [done|apply event_frame_refl]].
  eexists. split; [done|]. set (s1 := _ <| state := _ |>).
  assert (event_frame s s1) as HF.
  { split.
    - exists (with_ring_ptr (Z.shiftr (slot_after size (log_tail size s) 1) 4)), (iommu_status (state s)).
      unfold s1. cbn. by destruct s as [? [] ?].
    - intros x Hx. apply (write_frame _ _ _ _ _ Hw). intros Hin. apply Hx. exists size. split; [done|].
      pose proof (ring_bounds size Hs) as (_ & Hm & _). unfold within in *. rewrite length_event_bytes in Hin. div_lia.
    - intros x. by apply (write_mapped _ _ _ _ x Hw). }
  destruct (evt_int_en _); [|done]. by apply (event_frame_deliver _ _ true), event_frame_status.
Qed.

(** Recording an event does not depend on the errors of its context. *)
Lemma write_event_any {E E'} e s s' :
  write_event_inner e s = Ok (E:=E) s' -> write_event_inner e s = Ok (E:=E') s'.
Proof.
  unfold write_event_inner, uadd. destruct (_ || _); [by intros [= <-]|]. destruct (Z.testbit _ _); [by intros [= <-]|].
  destruct (evt_log_size_bytes _); [|by intros [= <-]]. destruct (_ =? _); [by intros [= <-]|].
  destruct (_ <? _); [|done]. cbn [res_bind]. destruct (write_at _ _ _); by intros [= <-].
Qed.

(** * The command buffer *)

Definition cmd_base s : Z := Z.shiftl (rb_base_addr (RingBase_from_bits (cmd_buf_base (state s)))) 12.
Definition cmd_head (size : Z) s : Z := ring_offset (cmd_buf_head (state s)) size.
Definition cmd_tail (size : Z) s : Z := ring_offset (cmd_buf_tail (state s)) size.

(** The next command, if it can be read. *)
Definition next_command (size : Z) s : option CommandEntry :=
  read_command (cmd_base s + cmd_head size s) (guest_memory s).

(** Moves the head past a command. *)
Definition advance_head (size : Z) s : IommuSharedState :=
  s <| state := state s <| cmd_buf_head := with_ring_ptr (Z.shiftr (slot_after size (cmd_head size s) 1) 4) |> |>.

(** The commands [cmds] are taken one after the other. *)
Inductive takes (size : Z) :
  IommuSharedState -> PendingInvalidation -> list CommandEntry -> IommuSharedState -> PendingInvalidation -> Prop :=
| takes_none s p : takes size s p [] s p
| takes_one s p e s1 p1 cmds s' p' :
    cmd_head size s <> cmd_tail size s -> next_command size s = Some e -> process_command e p s = Some (s1, p1) ->
    takes size (advance_head size s1) p1 cmds s' p' -> takes size s p (e :: cmds) s' p'.

(** The invalidation [p'] includes [p]. *)
Definition includes (p p' : PendingInvalidation) : Prop :=
  match p with
  | NoInvalidation => True
  | DeviceInvalidation d => p' = DeviceInvalidation d \/ p' = AllInvalidation
  | AllInvalidation => p' = AllInvalidation
  end.

(** What a command asks to be invalidated. *)
Definition asks (e : CommandEntry) : PendingInvalidation :=
  if opcode e =? CommandOpcode.INVALIDATE_INTERRUPT_TABLE then DeviceInvalidation (invalidate_device_id e)
  else if opcode e =? CommandOpcode.INVALIDATE_IOMMU_ALL then AllInvalidation
  else NoInvalidation.

Lemma includes_trans p1 p2 p3 : includes p1 p2 -> includes p2 p3 -> includes p1 p3.
Proof. destruct p1; cbn; [done| |by intros ->]. intros [-> | ->]; cbn; naive_solver. Qed.

(** The registers that commands do not change. *)
Definition same_rings (s s' : IommuSharedState) : Prop :=
  cmd_buf_base (state s') = cmd_buf_base (state s) /\ cmd_buf_tail (state s') = cmd_buf_tail (state s) /\
  cmd_buf_head (state s') = cmd_buf_head (state s).

Lemma process_command_spec e p s s' p' :
  process_command e p s = Some (s', p') ->
  same_rings s s' /\ includes p p' /\ includes (asks e) p' /\ (asks e = NoInvalidation -> p' = p).
Proof.
  assert (includes p p) as Hrefl by (destruct p; cbn; auto).
  unfold process_command, asks. destruct (Z.eqb_spec (opcode e) CommandOpcode.COMPLETION_WAIT) as [->|_].
  { intros [= <- <-]. split_and!; try done. unfold process_completion_wait. repeat case_match; done. }
  destruct (_ || _ || _ || _) eqn:Hnop.
  { intros [= <- <-]. assert (opcode e <> CommandOpcode.INVALIDATE_INTERRUPT_TABLE /\
      opcode e <> CommandOpcode.INVALIDATE_IOMMU_ALL) as [H5%Z.eqb_neq H8%Z.eqb_neq].
    { rewrite !orb_true_iff, !Z.eqb_eq in Hnop. split; intros Ho; rewrite Ho in Hnop; naive_solver. }
    by rewrite H5, H8. }
  destruct (opcode e =? CommandOpcode.INVALIDATE_INTERRUPT_TABLE).
  { intros [= <- <-]. split; [done|]. unfold coalesce. destruct p as [|d|].
    - split_and!; [done|by left|done].
    - destruct (Z.eqb_spec d (invalidate_device_id e)) as [->|]; (split_and!; [by left|by left|done]) ||
        (split_and!; [by right|by right|done]).
    - split_and!; [done|by right|done]. }
  destruct (opcode e =? CommandOpcode.INVALIDATE_IOMMU_ALL); [|done].
  intros [= <- <-]. split_and!; try done. destruct p; cbn; auto.
Qed.

Lemma distance_zero size head tail :
  ring_ok size -> slot_ok size head -> slot_ok size tail -> distance size head tail = 0 -> head = tail.
Proof.
  intros Hs Hh Ht H0. pose proof (distance_slot size head tail Hs Hh Ht) as E. rewrite H0 in E.
  unfold slot_after in E. rewrite Z.mul_0_r, Z.add_0_r, Z.mod_small in E by apply Hh. done.
Qed.

Lemma distance_advance size head tail :
  ring_ok size -> slot_ok size head -> slot_ok size tail -> head <> tail ->
  distance size (slot_after size head 1) tail = distance size head tail - 1.
Proof.
  intros Hs Hh Ht Hne. pose proof (slot_after_ok size head 1 Hs (proj2 Hh)) as Hn.
  pose proof (distance_bounds size head tail Hs) as Hd. pose proof (distance_bounds size (slot_after size head 1) tail Hs) as Hd'.
  pose proof (distance_slot size head tail Hs Hh Ht) as E1. pose proof (distance_slot size _ tail Hs Hn Ht) as E2.
  rewrite slot_after_after in E2. set (d' := distance size (slot_after size head 1) tail) in *.
  destruct (decide (1 + d' < size / 16)) as [Hlt|Hge].
  - rewrite <-E1 in E2. apply slot_after_inj in E2; [lia|done|lia|lia].
  - exfalso. apply Hne. replace (1 + d') with (0 + size / 16) in E2 by lia. rewrite slot_after_turn in E2 by done.
    unfold slot_after in E2. rewrite Z.mul_0_r, Z.add_0_r, Z.mod_small in E2 by apply Hh. done.
Qed.

Lemma cmd_base_bound s : 0 <= cmd_base s < 2 ^ 52.
Proof.
  unfold cmd_base. cbn [rb_base_addr RingBase_from_bits].
  pose proof (bits_bound (cmd_buf_base (state s)) 12 40 ltac:(lia)) as Hb. unfold is_u in Hb.
  rewrite Z.shiftl_mul_pow2 by lia. lia.
Qed.

(** The command at the head stops the command buffer: it cannot be read or is
    unknown; the event says where it is. *)
Inductive stops (size : Z) s (p : PendingInvalidation) : EventEntry -> Prop :=
| stops_read : next_command size s = None -> stops size s p (command_hardware_error (cmd_base s + cmd_head size s))
| stops_unknown e :
    next_command size s = Some e -> process_command e p s = None ->
    stops size s p (illegal_command_error (cmd_base s + cmd_head size s)).

(** The commands are taken up to the tail, or up to one that stops the buffer. *)
Definition taken (size : Z) s (p : PendingInvalidation) s' : Prop :=
  cmd_head size s = cmd_tail size s /\ s' = s \/
  cmd_head size s <> cmd_tail size s /\ exists ev, stops size s p ev /\ halt_commands ev s = Ok (E:=void) s'.

Lemma command_loop_takes {E} fuel size p s :
  ring_ok size -> distance size (cmd_head size s) (cmd_tail size s) < Z.of_nat fuel ->
  exists cmds s1 p1 s', takes size s p cmds s1 p1 /\
    command_loop fuel (cmd_base s) size p s = Ok (E:=E) (s', p1) /\ taken size s1 p1 s' /\
    Z.of_nat (length cmds) <= distance size (cmd_head size s) (cmd_tail size s).
Proof.
  intros Hs. revert p s. induction fuel as [|fuel IH]; intros p s Hf.
  { pose proof (distance_bounds size (cmd_head size s) (cmd_tail size s) Hs). lia. }
  pose proof (ring_offset_ok size (cmd_buf_tail (state s)) Hs : slot_ok size (cmd_tail size s)) as Ht.
  pose proof (ring_offset_ok size (cmd_buf_head (state s)) Hs : slot_ok size (cmd_head size s)) as Hh.
  pose proof (distance_bounds size (cmd_head size s) (cmd_tail size s) Hs) as Hd.
  cbn [command_loop]. fold (cmd_head size s) (cmd_tail size s).
  destruct (Z.eqb_spec (cmd_head size s) (cmd_tail size s)) as [Heq|Hne].
  { exists [], s, p, s. split_and!; [constructor|done|by left|cbn; lia]. }
  pose proof (cmd_base_bound s) as Hb. pose proof (ring_bounds size Hs) as (Hrb & _). destruct Hh as [Hh0 Hh16].
  rewrite uadd_ok by lia. cbn [res_bind]. fold (next_command size s).
  assert (forall ev, stops size s p ev -> exists cmds s1 p1 s', takes size s p cmds s1 p1 /\
    (let! s2 := halt_commands ev s in Ok (s2, p)) = Ok (E:=E) (s', p1) /\ taken size s1 p1 s' /\
    Z.of_nat (length cmds) <= distance size (cmd_head size s) (cmd_tail size s)) as Hstop.
  { intros ev Hev. destruct (write_event_frame (E:=void) ev s) as (s2 & Hw & _).
    exists [], s, p, (set_status CMD_BUF_RUN false s2).
    split_and!; [constructor|unfold halt_commands; by rewrite (write_event_any _ _ _ Hw)| |cbn; lia].
    right. split; [done|]. exists ev. split; [done|]. unfold halt_commands. by rewrite Hw. }
  destruct (next_command size s) as [e|] eqn:Hn; [|by apply Hstop; constructor].
  destruct (process_command e p s) as [[s1 p1]|] eqn:Hp; [|by apply Hstop; econstructor].
  destruct (process_command_spec _ _ _ _ _ Hp) as ((B1 & B2 & B3) & _).
  replace ((cmd_head size s + 16) mod size) with (slot_after size (cmd_head size s) 1) by (unfold slot_after; f_equal; lia).
  assert (cmd_head size s1 = cmd_head size s) as Hh1 by (unfold cmd_head; by rewrite B3).
  rewrite <-Hh1. fold (advance_head size s1). set (s2 := advance_head size s1).
  assert (cmd_head size s2 = slot_after size (cmd_head size s) 1) as Hh2.
  { rewrite <-Hh1. apply ring_offset_with; [done|]. apply slot_after_ok; [done|]. by rewrite Hh1. }
  assert (cmd_tail size s2 = cmd_tail size s) as Ht2 by (unfold cmd_tail; cbn; by rewrite B2).
  assert (cmd_base s2 = cmd_base s) as Hb2 by (unfold cmd_base; cbn; by rewrite B1).
  assert (distance size (cmd_head size s2) (cmd_tail size s2) = distance size (cmd_head size s) (cmd_tail size s) - 1) as Hd2
    by (rewrite Hh2, Ht2; by apply distance_advance).
  destruct (IH p1 s2) as (cmds & s3 & p3 & s' & H1 & H2 & H3 & H4); [lia|].
  exists (e :: cmds), s3, p3, s'. rewrite <-Hb2. split_and!; [by econstructor|done|done|cbn [length]; rewrite Hh1; lia].
Qed.

Lemma commands_taken s size :
  iommu_en (ctrl s) = true -> cmd_buf_en (ctrl s) = true -> cmd_buf_size_bytes (state s) = Some size ->
  exists cmds s1 p s', takes size s NoInvalidation cmds s1 p /\ process_commands s = Ok (E:=void) (s', p) /\
    taken size s1 p s' /\ Z.of_nat (length cmds) <= distance size (cmd_head size s) (cmd_tail size s).
Proof.
  intros Hen Hcb Hsize. assert (ring_ok size) as Hs by (by apply (ring_size_ok (cmd_buf_base (state s)))).
  unfold process_commands. rewrite Hen, Hcb, Hsize. cbn [negb orb].
  pose proof (distance_bounds size (cmd_head size s) (cmd_tail size s) Hs) as Hd.
  apply (command_loop_takes (E:=void) (Z.to_nat (size / 16)) size NoInvalidation s Hs). lia.
Qed.

Lemma takes_includes size s p cmds s' p' :
  takes size s p cmds s' p' ->
  includes p p' /\ Forall (fun e => includes (asks e) p') cmds /\ (Forall (fun e => asks e = NoInvalidation) cmds -> p' = p).
Proof.
  induction 1 as [s p|s p e s1 p1 cmds s' p' Hne Hn Hp Ht (IH1 & IH2 & IH3)].
  { split_and!; [destruct p; cbn; auto|constructor|done]. }
  destruct (process_command_spec _ _ _ _ _ Hp) as (_ & P1 & P2 & P3). split_and!.
  - by eapply includes_trans.
  - constructor; [by eapply includes_trans|done].
  - intros [Ha Hc]%Forall_cons_iff. rewrite (IH3 Hc). by apply P3.
Qed.

(** The buffer was stopped in the state [s], with the event [ev]: it says that
    it does not run, its head is still at the command, and the event is in the
    log, if the IOMMU records events and the log has room. *)
Record halted s (ev : EventEntry) s' : Prop := {
  ha_run : Z.testbit (iommu_status (state s')) CMD_BUF_RUN = false;
  ha_frame : event_frame s s';
  ha_logged : forall size l, logging s = true -> evt_log_size_bytes (state s) = Some size -> log_mapped size s -> log_holds size s l ->
    if Z.of_nat (length l) + 1 =? size / 16 then log_holds size s' l /\ overflowed s' = true
    else log_holds size s' (l ++ [event_bytes ev]) /\ overflowed s' = false;
  ha_silent : logging s = false -> guest_memory s' = guest_memory s /\ evt_log_tail (state s') = evt_log_tail (state s);
}.

(** The commands are taken up to the tail, or up to one at which the buffer is
    stopped. *)
Definition ended (size : Z) s (p : PendingInvalidation) s' : Prop :=
  cmd_head size s = cmd_tail size s /\ s' = s \/
  cmd_head size s <> cmd_tail size s /\ exists ev, stops size s p ev /\ halted s ev s'.

Lemma halt_halted ev s s' : halt_commands ev s = Ok (E:=void) s' -> halted s ev s'.
Proof.
  unfold halt_commands. destruct (write_event_frame (E:=void) ev s) as (s1 & Hw & HF). rewrite Hw. cbn [res_bind]. intros [= <-]. split.
  - change (Z.testbit (with_bit CMD_BUF_RUN false (iommu_status (state s1))) CMD_BUF_RUN = false). unfold with_bit.
    rewrite Z.ldiff_spec, Z.pow2_bits_true by done. apply andb_false_r.
  - by apply event_frame_status.
  - intros size l Hlog Hsize Hmap Hl. destruct (event_recorded (E:=void) ev s size l Hsize Hmap Hlog Hl) as (s2 & Hw2 & HR).
    rewrite Hw in Hw2. injection Hw2 as <-. by rewrite overflow_kept.
  - intros Hlog. rewrite (write_event_silent (E:=void) ev s Hlog) in Hw. by injection Hw as <-.
Qed.

Lemma taken_ended size s p s' : taken size s p s' -> ended size s p s'.
Proof. intros [?|(Hne & ev & Hev & Hh)]; [by left|]. right. split; [done|]. exists ev. split; [done|]. by apply halt_halted. Qed.

(** C31: the command buffer is processed to its end. With the buffer enabled, the
    commands from the head on are taken in order, up to the tail or to one that
    cannot be read or is unknown; the guest's writes to memory and registers
    cannot make the loop run on. At such a command the buffer stops: its status
    says that it does not run, its head stays at that command, and the error with
    the address of the command is appended to the event log if the IOMMU records
    events, or the overflow is recorded if the log is full; if it does not
    record events, nothing is reported but the status. (The stop is for this
    time; another write of the tail goes on from the same command.) The
    invalidation returned includes what every command taken asked for, and there
    is none if no command asked for one. *)
Theorem commands_processed s size :
  iommu_en (ctrl s) = true -> cmd_buf_en (ctrl s) = true -> cmd_buf_size_bytes (state s) = Some size ->
  exists cmds s1 p s', takes size s NoInvalidation cmds s1 p /\ process_commands s = Ok (E:=void) (s', p) /\
    ended size s1 p s' /\ Z.of_nat (length cmds) <= distance size (cmd_head size s) (cmd_tail size s) /\
    Forall (fun e => includes (asks e) p) cmds /\
    (Forall (fun e => asks e = NoInvalidation) cmds -> p = NoInvalidation).
Proof.
  intros Hen Hcb Hsize. destruct (commands_taken s size Hen Hcb Hsize) as (cmds & s1 & p & s' & H1 & H2 & H3 & H4).
  destruct (takes_includes _ _ _ _ _ _ H1) as (_ & H5 & H6). exists cmds, s1, p, s'. split_and!; try done. by apply taken_ended.
Qed.
