(* ===== verification/AmdIommuDma.v ===== *)
(** Memory seen through the AMD IOMMU: it keeps the promises of a translator, so
    the theorems on the accesses of a device hold of it. Concrete page tables
    evaluate them. *)

From stdpp Require Import gmap.
From S2P Require Import Prelude GuestMem AmdIommu AmdIommuSpec IommuCommon IommuCommonSpec AmdIommuLog.

#[global] Instance amd_translator : IommuTranslator IommuSharedState IommuFault := {|
  tr_memory := guest_memory;
  tr_set_memory m s := s <| guest_memory := m |>;
  max_iova := amd_max_iova;
  tr_translate := amd_translate;
|}.

Lemma target_Ok d iova write s gpa :
  target d iova write s = Some gpa <-> translate_inner d iova write s = Ok gpa.
Proof.
  unfold target. cbn [tr_translate amd_translator]. unfold amd_translate.
  destruct (translate_inner d iova write s) as [g|f|]; [naive_solver| |done].
  destruct (write_event_frame (E:=void) (to_event_entry f) s) as (s' & Hw & _). unfold queue_event. by rewrite Hw.
Qed.

#[global] Instance amd_translator_laws : TranslatorLaws IommuSharedState IommuFault.
Proof.
  refine {| tr_reads := translate_reads; tr_log := in_log |}.
  - done.
  - intros w. cbn. by destruct w.
  - done.
  - intros rid iova write w Hr Hi. cbn [tr_translate amd_translator]. unfold amd_translate.
    pose proof (translate_ends rid iova write w Hr Hi) as He.
    destruct (translate_inner rid iova write w) as [g|f|]; [by eexists _, _| |done].
    destruct (write_event_frame (E:=void) (to_event_entry f) w) as (s' & Hw & _). unfold queue_event. rewrite Hw.
    by eexists _, _.
  - intros rid iova iova' write w gpa Hr Hi Hi' Hp. rewrite !target_Ok. by apply translate_page.
  - intros rid iova write w gpa Hr Hi. rewrite target_Ok, translate_Ok by done. apply allowed_offset.
  - intros rid iova write w m Hr Hi Hm. apply option_eq. intros gpa. rewrite !target_Ok.
    cbn [tr_set_memory amd_translator]. by rewrite (translate_agree rid iova write w m Hr Hi Hm).
  - intros rid iova write w w' f x. cbn [tr_translate tr_memory amd_translator]. unfold amd_translate.
    destruct (translate_inner rid iova write w) as [g|f'|]; [done| |done].
    destruct (write_event_frame (E:=void) (to_event_entry f') w) as (s' & Hw & HF). unfold queue_event. rewrite Hw.
    intros [= <- <-] Hx. by apply (ef_memory _ _ HF).
  - done.
Defined.

(** * Filling *)

Lemma translated_loop_ext {X} fuel t iova len write op op' offset (st : IommuSharedState * X) :
  (forall gpa off c st, 0 <= off -> 0 <= c -> off + c <= len -> op gpa off c st = op' gpa off c st) -> 0 <= offset ->
  translated_loop fuel t iova len write op offset st = translated_loop fuel t iova len write op' offset st.
Proof.
  intros Hop. revert offset st. induction fuel as [|fuel IH]; intros offset st Ho; [done|]. cbn [translated_loop].
  destruct (Z.leb_spec len offset); [done|]. destruct (uadd 64 iova offset) as [cur| |]; [|done|done]. cbn [res_bind].
  destruct (tm_rid t) as [rid|[[? ?] ?]|]; [|done|done]. destruct (tr_translate rid cur write st.1) as [[w [f|gpa]]| |];
    [done| |done|done]. cbn [res_bind].
  pose proof (chunk_bounds cur (len - offset) ltac:(lia)). rewrite Hop by lia.
  destruct (op' gpa offset _ (w, st.2)); [|done]. apply IH. lia.
Qed.

(** Filling a range is writing the byte repeated. *)
Lemma fill_is_write t addr val len (s : IommuSharedState) :
  0 <= len -> fill_fallback t addr val len s = write_fallback t addr (replicate (Z.to_nat len) val) s.
Proof.
  intros Hl. unfold fill_fallback, write_fallback, do_translated_op. rewrite length_replicate, Z2Nat.id by done.
  apply translated_loop_ext; [|done]. intros gpa off c st H1 H2 H3.
  rewrite drop_replicate, take_replicate. do 3 f_equal. lia.
Qed.

(** * Examples *)

(** The words of eight bytes at the given addresses. *)
Definition words (l : list (Z * Z)) (m : GuestMemory) : GuestMemory :=
  foldr (fun '(a, x) m => store a (le_bytes 8 x) m) m l.

Definition present_rw : Z := 2 ^ 0 + 2 ^ 61 + 2 ^ 62.

(** The device 8 has a table of three levels; its pages 0 and 1 are at 0x10000
    and 0x20000, the latter read-only, and page 2 is not present. *)
Definition example_memory : GuestMemory :=
  words [(0x1100, 3 + 3 * 2 ^ 9 + 0x2000 + 2 ^ 61 + 2 ^ 62); (0x1108, 5); (0x1110, 0); (0x1118, 0);
         (0x2000, present_rw + 2 * 2 ^ 9 + 0x3000); (0x3000, present_rw + 1 * 2 ^ 9 + 0x4000);
         (0x4000, present_rw + 0x10000); (0x4008, 1 + 2 ^ 61 + 0x20000); (0x4010, 0);
         (0x10ff8, 0x0807060504030201); (0x20000, 0x1817161514131211)] ∅.

Definition example_iommu : IommuSharedState :=
  shared_new example_memory None <| state := state_default <| dev_tab_base := 0x1000 |> <| iommu_ctrl := 1 |> |>.

(** A device of bus 0, at 1.0. *)
Definition example_device : TranslatingMemory := mkTranslating (set_bus_range 0 0) 8.

Example example_read :
  read_fallback example_device 0xffe 4 example_iommu = Ok (example_iommu, [0x07; 0x08; 0x11; 0x12], None).
Proof. vm_compute. reflexivity. Qed.

Example example_write_fails :
  exists s, write_fallback example_device 0xffe [1; 2; 3] example_iommu =
    Ok (s, tt, Some (TranslationFault 0x1000 (IoPageFault 8 5 0x1000 true))) /\
    guest_memory s !! 0x10ffe = Some 1 /\ guest_memory s !! 0x20000 = Some 0x11.
Proof. eexists. split; [vm_compute; reflexivity|]. by vm_compute. Qed.

(** * Witnesses *)

Lemma translate_exact_witness :
  translate_inner 8 0xffe true example_iommu = Ok 0x10ffe /\
  match translate_inner 8 0xffe true example_iommu with
  | Ok gpa => allowed 8 0xffe true example_iommu gpa
  | Err f => fault_device f = 8 /\ forall gpa, ~ allowed 8 0xffe true example_iommu gpa
  | Panic => False
  end.
Proof. split; [by vm_compute|]. apply translate_exact; by split. Defined.

Lemma dma_read_exact_witness :
  match read_fallback example_device 0xffe 4 example_iommu with
  | Ok (w', l, None) =>
      w' = example_iommu /\ Z.of_nat (length l) = 4 /\
      forall i b, l !! i = Some b -> device_byte example_device (0xffe + Z.of_nat i) example_iommu = Some b
  | Ok (_, _, Some _) => exists j, 0 <= j < 4 /\ device_byte example_device (0xffe + j) example_iommu = None
  | _ => False
  end.
Proof. apply (dma_read_exact example_device 0xffe 4 example_iommu); by split || lia. Defined.

(** The tables are not where the device writes. *)
Lemma example_undisturbed :
  forall rid, tm_rid example_device = Ok rid -> undisturbed rid 0xffe 3 example_iommu.
Proof.
  intros rid Hrid. vm_compute in Hrid. injection Hrid as <-. intros i j gpa Hi Hj Ht [_ Hr].
  assert (0x10ffe <= gpa) as Hg.
  { assert (i = 0 \/ i = 1 \/ i = 2) as [-> | [-> | ->]] by lia; vm_compute in Ht; by simplify_eq. }
  destruct Hr as [Hr|(dte & a & Hd & Ha & Hr)].
  { destruct Hr as [_ Hr]. change (gpa < 0x1120) in Hr. lia. }
  assert (a <= 0x5000); [|unfold within in Ha; lia].
  vm_compute in Hd. injection Hd as <-.
  apply list_elem_of_In in Hr. apply Z.leb_le. clear Ha. revert a Hr. apply forallb_forall.
  by assert (j = 0 \/ j = 1 \/ j = 2) as [-> | [-> | ->]] by lia; vm_compute.
Qed.

Lemma dma_write_exact_witness :
  match write_fallback example_device 0xffe [1; 2; 3] example_iommu with
  | Ok (w', _, None) =>
      exists m, w' = tr_set_memory m example_iommu /\ device_store example_device 0xffe [1; 2; 3] example_iommu = Some m
  | Ok (_, _, Some _) => device_store example_device 0xffe [1; 2; 3] example_iommu = None
  | _ => False
  end.
Proof.
  apply (dma_write_exact example_device 0xffe [1; 2; 3] example_iommu); [by split|done|done|done|].
  apply example_undisturbed.
Defined.

(** The last page but one of the device's table is the table itself, and the
    last one is not present. A write over the end of the former makes the latter
    present, and writes there. *)
Definition hostile_memory : GuestMemory :=
  words [(0x1100, 3 + 3 * 2 ^ 9 + 0x2000 + 2 ^ 61 + 2 ^ 62); (0x1108, 5); (0x1110, 0); (0x1118, 0);
         (0x2000, present_rw + 2 * 2 ^ 9 + 0x3000); (0x3000, present_rw + 1 * 2 ^ 9 + 0x4000);
         (0x4ff0, present_rw + 0x4000); (0x4ff8, 0); (0x30000, 0)] ∅.

Definition hostile_iommu : IommuSharedState :=
  shared_new hostile_memory None <| state := state_default <| dev_tab_base := 0x1000 |> <| iommu_ctrl := 1 |> |>.

Definition hostile_bytes : list Z := le_bytes 8 (present_rw + 0x30000) ++ [0x55].

Lemma dma_confined_witness :
  target 8 0x1ff000 true hostile_iommu = None /\
  exists s', write_fallback example_device 0x1feff8 hostile_bytes hostile_iommu = Ok (s', tt, None) /\
    tr_memory s' !! 0x30000 = Some 0x55 /\
    exists rid before w0 j, tm_rid example_device = Ok rid /\
      dma_path example_device 0x1feff8 hostile_bytes hostile_iommu before w0 /\
      before <= j < 9 /\ target rid (0x1feff8 + j) true w0 = Some 0x30000.
Proof.
  split; [by vm_compute|].
  pose proof (dma_confined example_device 0x1feff8 hostile_bytes hostile_iommu ltac:(by split) ltac:(lia)
    ltac:(by vm_compute)) as H.
  assert (match write_fallback example_device 0x1feff8 hostile_bytes hostile_iommu with
    | Ok (s', tt, None) => tr_memory s' !! 0x30000 = Some 0x55 | _ => False end) as Hok by (vm_compute; reflexivity).
  destruct (write_fallback example_device 0x1feff8 hostile_bytes hostile_iommu) as [[[s' []] [e|]]| |]; [done| |done|done].
  exists s'. split; [done|]. split; [done|]. destruct H as [H _].
  destruct (H 0x30000) as (rid & before & w0 & j & H1 & H2 & H3 & H4 & _).
  - rewrite Hok. assert (tr_memory hostile_iommu !! 0x30000 = Some 0) as -> by (vm_compute; reflexivity). done.
  - intros (size & Hs & _). vm_compute in Hs. done.
  - by exists rid, before, w0, j.
Defined.
