(* ===== verification/AmdIommuRemap.v ===== *)
(** Interrupt remapping through the AMD IOMMU: the message that an entry of the
    interrupt table stands for, the IOMMU as the remapper of the I/O APIC, and
    the guest's invalidation command taking effect on the I/O APIC's lines. *)

From stdpp Require Import gmap.
From S2P Require Import Prelude ChipsetDevice IoApic IoApicSpec IrqRouting IrqRoutingSpec GuestMem AmdIommu AmdIommuSpec AmdIommuLog IommuCommon IommuCommonSpec.
From S2P Require LocalApic.

Implicit Type m : GuestMemory.
Implicit Type s : IommuSharedState.

(** * The interrupt table *)

(** The entry of the table of [dte] that a message with [data] names. *)
Definition irte_at (dte : Dte) (data : Z) s : option Irte :=
  let index := data mod 2 ^ 11 in
  let base := int_tab_address (dw2 dte) in
  if ga_en (ctrl s) then read_irte_ga (base + index * IRTE_GA_SIZE) (guest_memory s)
  else Irte_from_bits <$> read_word 4 (base + index * IRTE_SIZE) (guest_memory s).

(** The message of an entry. *)
Definition irte_message (irte : Irte) : Z * Z :=
  remapped_message (mkRemapped (irte_destination irte) (irte_vector irte) (dm irte) (int_type irte)).

(** The entry [dte] lets messages through unchanged. *)
Definition msi_passes (dte : Dte) : bool :=
  negb (dte_v (dw0 dte)) || (int_ctl (dw2 dte) =? INT_CTL_PASS_THROUGH) ||
  ((int_ctl (dw2 dte) =? INT_CTL_ABORT) && negb (dte_iv (dw2 dte))).

(** The entry [dte] translates messages, with a table that has the entry that
    [data] names. *)
Definition msi_remaps (dte : Dte) (data : Z) : bool :=
  (int_ctl (dw2 dte) =? INT_CTL_REMAP) && dte_iv (dw2 dte) && (data mod 2 ^ 11 <? 2 ^ int_tab_len (dw2 dte)).

(** What becomes of the message [(address, data)] of the device [d]. *)
Definition msi_result (d address data : Z) s : option (Z * Z) :=
  if is_enabled s then
    dte ← dte_at d s;
    if msi_passes dte then Some (address, data)
    else if msi_remaps dte data then
      irte ← irte_at dte data s;
      if remap_en irte then Some (irte_message irte) else None
    else None
  else Some (address, data).

Lemma read_dte_dw2 a m dte : read_dte a m = Some dte -> exists x, dw2 dte = DteDw2_from_bits x.
Proof.
  unfold read_dte. intros Hr. destruct (read_word 8 a m); [|done]. destruct (read_word 8 (a + 8) m); [|done].
  destruct (read_word 8 (a + 16) m) as [x|]; [|done]. exists x. destruct (read_word 8 (a + 24) m); [|done].
  by injection Hr as <-.
Qed.

Lemma int_tab_bounds d s dte :
  dte_at d s = Some dte -> 0 <= int_tab_address (dw2 dte) < 2 ^ 52 /\ 0 <= int_tab_len (dw2 dte) < 16.
Proof.
  unfold dte_at. destruct (has_dte d (state s)); [|done]. intros [x ->]%read_dte_dw2. unfold int_tab_address.
  cbn [int_tab_root_ptr int_tab_len DteDw2_from_bits]. split; [|apply (bits_bound x 1 4); lia].
  pose proof (bits_bound x 6 46 ltac:(lia)) as Hb. unfold is_u in Hb. rewrite Z.shiftl_mul_pow2 by lia. lia.
Qed.

(** The outcome of a lookup, without the fault. *)
Definition outcome {E A} (r : res E A) : option A := match r with Ok a => Some a | _ => None end.

Lemma lookup_irte_ok d dte data s :
  dte_at d s = Some dte ->
  lookup_irte_inner d dte data s <> Panic /\
  outcome (lookup_irte_inner d dte data s) =
    (if dte_iv (dw2 dte) && (data mod 2 ^ 11 <? 2 ^ int_tab_len (dw2 dte)) then
       irte ← irte_at dte data s;
       if remap_en irte then Some (mkRemapped (irte_destination irte) (irte_vector irte) (dm irte) (int_type irte))
       else None
     else None).
Proof.
  intros Hd. destruct (int_tab_bounds d s dte Hd) as [Hb Hl]. unfold lookup_irte_inner, irte_at.
  destruct (dte_iv (dw2 dte)); [|done]. cbn [negb andb]. change 0x7ff with (2 ^ 11 - 1). rewrite land_mask by lia.
  unfold int_tab_entries. rewrite Z.shiftl_1_l, Z.leb_antisym. pose proof (Z.mod_pos_bound data (2 ^ 11) ltac:(lia)).
  destruct (data mod 2 ^ 11 <? 2 ^ int_tab_len (dw2 dte)); [|done]. cbn [negb].
  destruct (ga_en (ctrl s)); rewrite uadd_ok by (unfold IRTE_GA_SIZE, IRTE_SIZE; lia); cbn [res_bind].
  - destruct (read_irte_ga _ _) as [irte|]; [|done]. cbn. by destruct (remap_en irte).
  - destruct (read_word 4 _ _) as [x|]; [|done]. cbn [fmap option_fmap option_map map_err res_bind mbind option_bind].
    by destruct (remap_en (Irte_from_bits x)).
Qed.

(** The lookup gives the result. *)
Lemma remap_msi_inner_ok d address data s :
  is_u 16 d ->
  remap_msi_inner d address data s <> Panic /\ outcome (remap_msi_inner d address data s) = msi_result d address data s.
Proof.
  intros Hd. unfold remap_msi_inner, msi_result. fold (is_enabled s). destruct (is_enabled s); [|done]. cbn [negb].
  rewrite (lookup_dte_ok d s Hd). destruct (dte_at d s) as [dte|] eqn:Hdte.
  2: { by destruct (has_dte d (state s)). }
  assert (has_dte d (state s) = true) as -> by (unfold dte_at in Hdte; by destruct (has_dte d (state s))).
  cbn [map_err res_bind mbind option_bind]. unfold msi_passes, msi_remaps.
  destruct (dte_v (dw0 dte)); [|done]. cbn [negb orb].
  destruct (int_ctl (dw2 dte) =? INT_CTL_PASS_THROUGH); [done|]. cbn [orb].
  destruct (Z.eqb_spec (int_ctl (dw2 dte)) INT_CTL_ABORT) as [->|_]; [by destruct (dte_iv (dw2 dte))|].
  cbn [andb]. destruct (int_ctl (dw2 dte) =? INT_CTL_REMAP); [|done]. cbn [andb].
  destruct (lookup_irte_ok d dte data s Hdte) as [Hp Ho]. unfold irte_message.
  destruct (dte_iv (dw2 dte) && _).
  - destruct (irte_at dte data s) as [irte|]; cbn [mbind option_bind] in *; [|by destruct (lookup_irte_inner d dte data s)].
    destruct (remap_en irte), (lookup_irte_inner d dte data s); by simplify_eq/=.
  - by destruct (lookup_irte_inner d dte data s).
Qed.

Lemma amd_remap_ok {E} d address data s :
  is_u 16 d -> exists s', amd_remap_msi d address data s = Ok (E:=E) (s', msi_result d address data s) /\
    event_frame s s' /\ (msi_result d address data s <> None -> s' = s).
Proof.
  intros Hd. destruct (remap_msi_inner_ok d address data s Hd) as [Hp <-]. unfold amd_remap_msi.
  destruct (remap_msi_inner d address data s) as [r|f|]; [| |done].
  - exists s. split; [done|]. split; [apply event_frame_refl|done].
  - destruct (write_event_frame (E:=E) (to_event_entry f) s) as (s' & Hw & HF). exists s'. unfold queue_event.
    rewrite Hw. done.
Qed.

(** C25: interrupt remapping of a device's message. Whatever the guest put
    into the tables, remapping ends without a panic, and the message passed on is
    the one that the tables stand for: the message itself if the IOMMU is
    disabled or the device's entry lets it through, the message of the entry of
    the interrupt table that it names if the device's entry says so, and none
    otherwise. Besides the message, only what recording a fault may change does:
    the event log in memory, its tail, the status bits, and interrupts of the
    IOMMU itself; and nothing at all if a message is passed on. *)
Theorem signal_msi_exact devid address data s :
  exists s', signal_msi devid address data s =
    Ok (E:=void) (s', devid ≫= fun d => msi_result (ucast 16 d) address data s) /\
    event_frame s s' /\
    forall d, devid = Some d -> msi_result (ucast 16 d) address data s <> None -> s' = s.
Proof.
  destruct devid as [d|]; cbn [signal_msi mbind option_bind].
  - destruct (amd_remap_ok (E:=void) (ucast 16 d) address data s) as (s' & H1 & H2 & H3); [apply is_u_ucast; lia|].
    exists s'. split_and!; [done|done|]. by intros d' [= <-].
  - exists s. split_and!; [done|apply event_frame_refl|done].
Qed.

(** * The message *)

Lemma bits_lor a b off w : bits (Z.lor a b) off w = Z.lor (bits a off w) (bits b off w).
Proof. unfold bits. by rewrite Z.shiftr_lor, Z.land_lor_distr_l. Qed.

Lemma bits_shiftl_above a off n w : 0 <= off -> 0 <= w -> off + w <= n -> bits (Z.shiftl a n) off w = 0.
Proof.
  intros Ho Hw Hn. unfold bits. rewrite Z.shiftr_shiftl_l, Z.land_ones, Z.shiftl_mul_pow2 by lia.
  replace (n - off) with (n - off - w + w) by lia. rewrite Z.pow_add_r, Z.mul_assoc by lia. apply Z.mod_mul. lia.
Qed.

Lemma bits_shiftl_at a n w : 0 <= n -> 0 <= w -> bits (Z.shiftl a n) n w = a mod 2 ^ w.
Proof. intros. unfold bits. by rewrite Z.shiftr_shiftl_l, Z.sub_diag, Z.shiftl_0_r, Z.land_ones by lia. Qed.

Lemma bits_small a off w k : 0 <= off -> is_u k a -> k <= off -> bits a off w = 0.
Proof.
  intros Ho Ha Hk. unfold bits. rewrite Z.shiftr_div_pow2, Z.div_small by (done || unfold is_u in Ha;
    pose proof (Z.pow_le_mono_r 2 k off); lia). done.
Qed.

Lemma b2z_shift_u (b : bool) : is_u 3 (Z.shiftl (b2z b) 2).
Proof. by destruct b. Qed.

(** C39: the message of an entry of the interrupt table as the local APICs
    decode it. Vector, delivery mode and destination mode are those of the entry;
    but of its destination, of up to 32 bits, 8 are left, and the message is
    always edge-triggered. *)
Theorem irte_message_decoded irte :
  is_u 8 (irte_vector irte) -> is_u 3 (int_type irte) ->
  let '(address, data) := irte_message irte in
  LocalApic.virt_destination address = irte_destination irte mod 2 ^ 8 /\
  LocalApic.msi_address_logical address = dm irte /\
  LocalApic.msi_data_vector data = irte_vector irte /\
  LocalApic.msi_data_delivery_mode data = int_type irte /\
  LocalApic.msi_data_trigger_mode_level data = false.
Proof.
  intros Hv Ht. cbn [irte_message remapped_message ri_destination ri_vector ri_dm ri_int_type].
  unfold LocalApic.virt_destination, LocalApic.msi_address_destination, LocalApic.msi_address_extended,
    LocalApic.msi_address_logical, LocalApic.msi_data_vector, LocalApic.msi_data_delivery_mode,
    LocalApic.msi_data_trigger_mode_level. rewrite !bits_lor.
  rewrite (bits_shiftl_at (irte_destination irte)), (bits_shiftl_above (irte_destination irte)) by lia.
  rewrite !(bits_small (Z.shiftl (b2z (dm irte)) 2) _ _ 3) by (lia || apply b2z_shift_u).
  rewrite (bits_shiftl_above (int_type irte)), (bits_shiftl_at (int_type irte)), (bits_small (irte_vector irte) 8 3 8)
    by (done || lia). unfold is_u in Hv, Ht. unfold bits. rewrite Z.shiftr_0_r, (Z.land_ones (irte_vector irte)) by lia.
  rewrite (Z.mod_small (irte_vector irte)), (Z.mod_small (int_type irte)) by lia.
  split_and!.
  - cbn. by rewrite !Z.lor_0_r.
  - rewrite !Z.lor_spec, !Z.shiftl_spec by lia. rewrite (Z.testbit_neg_r (irte_destination irte)) by lia.
    by destruct (dm irte).
  - by rewrite Z.lor_0_r.
  - done.
  - rewrite Z.lor_spec, Z.shiftl_spec by lia. apply orb_false_iff. split; [by apply (is_u_testbit_high 8)|].
    by apply (is_u_testbit_high 3).
Qed.

(** * The IOMMU as the remapper of the I/O APIC *)

#[global] Instance amd_remapper : InterruptRemapper IommuSharedState := {|
  remap_msi d address data s :=
    match amd_remap_msi (E:=void) d address data s with Ok (s', r) => (r, s') | _ => (None, s) end;
|}.

(** The bytes that remapping a message of [d] reads. *)
Definition remap_reads (d : Z) s (x : Z) : Prop :=
  is_enabled s = true /\
  (within (dte_gpa d (state s)) DTE_SIZE x \/
   exists dte, dte_at d s = Some dte /\ within (int_tab_address (dw2 dte)) (2 ^ 11 * IRTE_GA_SIZE) x).

(** The log is not in the tables. *)
Definition tables_apart s : Prop := forall d x, is_u 16 d -> remap_reads d s x -> ~ in_log s x.

Section Frame.

Context s s' (HF : event_frame s s') (HA : tables_apart s).

Lemma frame_regs :
  dev_tab_base (state s') = dev_tab_base (state s) /\ iommu_ctrl (state s') = iommu_ctrl (state s) /\
  evt_log_base (state s') = evt_log_base (state s).
Proof using HF. destruct HF as [(t & st & Hs) _ _]. by rewrite Hs. Qed.

Lemma frame_ctrl : ctrl s' = ctrl s.
Proof using HF. unfold ctrl. by destruct frame_regs as (_ & -> & _). Qed.

Lemma frame_log x : in_log s' x <-> in_log s x.
Proof using HF. unfold in_log, evt_log_size_bytes, log_base. by destruct frame_regs as (_ & _ & ->). Qed.

Lemma frame_dte_gpa d : dte_gpa d (state s') = dte_gpa d (state s).
Proof using HF. unfold dte_gpa. by destruct frame_regs as (-> & _). Qed.

Lemma frame_dte d : is_u 16 d -> is_enabled s = true -> dte_at d s' = dte_at d s.
Proof using HF HA.
  intros Hd Hen. unfold dte_at, has_dte. rewrite frame_dte_gpa. destruct frame_regs as (-> & _).
  destruct (d <? _); [|done]. apply read_dte_agree. intros x Hx. apply (ef_memory _ _ HF). apply (HA d); [done|].
  split; [done|]. by left.
Qed.

Lemma frame_irte d dte data :
  is_u 16 d -> is_enabled s = true -> dte_at d s = Some dte -> irte_at dte data s' = irte_at dte data s.
Proof using HF HA.
  intros Hd Hen Hdte. unfold irte_at. rewrite frame_ctrl. pose proof (Z.mod_pos_bound data (2 ^ 11) ltac:(lia)).
  assert (forall x, within (int_tab_address (dw2 dte)) (2 ^ 11 * IRTE_GA_SIZE) x ->
    guest_memory s' !! x = guest_memory s !! x) as Hm.
  { intros x Hx. apply (ef_memory _ _ HF), (HA d); [done|]. split; [done|]. right. by exists dte. }
  unfold IRTE_GA_SIZE, IRTE_SIZE in *. destruct (ga_en (ctrl s)).
  - unfold read_irte_ga.
    rewrite !(read_word_agree 8 _ (guest_memory s) (guest_memory s')); [done|..]; intros x Hx; apply Hm;
      unfold within in *; lia.
  - f_equal. apply read_word_agree. intros x Hx. apply Hm. unfold within in *. lia.
Qed.

(** Recording a fault changes no translation, and keeps the log apart. *)
Lemma frame_result d address data : is_u 16 d -> msi_result d address data s' = msi_result d address data s.
Proof using HF HA.
  intros Hd. unfold msi_result. assert (is_enabled s' = is_enabled s) as -> by (unfold is_enabled; by rewrite frame_ctrl).
  destruct (is_enabled s) eqn:Hen; [|done]. rewrite (frame_dte d Hd Hen).
  destruct (dte_at d s) as [dte|] eqn:Hdte; [|done]. cbn [mbind option_bind].
  by rewrite (frame_irte d dte data Hd Hen Hdte).
Qed.

Lemma frame_apart : tables_apart s'.
Proof using HF HA.
  intros d x Hd [Hen Hr]. rewrite frame_log. unfold is_enabled in Hen. rewrite frame_ctrl in Hen.
  apply (HA d); [done|]. split; [done|]. rewrite frame_dte_gpa, (frame_dte d Hd Hen) in Hr. done.
Qed.

End Frame.

Lemma remap_msi_eq d address data s :
  is_u 16 d ->
  (remap_msi d address data s).1 = msi_result d address data s /\ event_frame s (remap_msi d address data s).2.
Proof.
  intros Hd. destruct (amd_remap_ok (E:=void) d address data s Hd) as (s' & H1 & H2 & _).
  cbn [remap_msi amd_remapper]. by rewrite H1.
Qed.

#[global] Instance amd_remapper_laws : RemapperLaws IommuSharedState.
Proof.
  refine {| remap_inv := tables_apart |}.
  - intros d a x d' a' x' s Hd Hd' HA. destruct (remap_msi_eq d' a' x' s Hd') as [_ HF].
    destruct (remap_msi_eq d a x s Hd) as [-> _].
    destruct (remap_msi_eq d a x (remap_msi d' a' x' s).2 Hd) as [-> _]. by apply frame_result.
  - intros d a x s Hd HA. destruct (remap_msi_eq d a x s Hd) as [_ HF]. by apply (frame_apart s).
Defined.

(** * The I/O APIC behind the IOMMU *)

Section Wired.

Context {S : Type} {interrupt : Z * Z -> S -> S} {R : Type}.
Context `{HR : IoApicRouting R} `{LR : !IoApicRoutingLaws interrupt R}.

Implicit Type r : IoApicRoutingInner R IommuSharedState.

#[global] Instance inner_retranslate : RetranslateInterrupts (IoApicRoutingInner R IommuSharedState) := {|
  rt_device_id := device_id;
  rt_retranslate := retranslate;
|}.

(** The end of [write_register]: the invalidation, with the I/O APIC's route the
    one that [connect_remapper] has registered. *)
Definition run_invalidation (p : PendingInvalidation) r : IoApicRoutingInner R IommuSharedState :=
  match
    match p with
    | NoInvalidation => None
    | DeviceInvalidation id => Some (Some id)
    | AllInvalidation => Some None
    end
  with
  | Some device_id => default r ((invalidate device_id ({[0%nat := r]}, register 0 list_new)).1 !! 0%nat)
  | None => r
  end.

(** A write of the guest to a register of the IOMMU that remaps the lines. *)
Definition wired_write {E} (offset value : Z) r : res E (IoApicRoutingInner R IommuSharedState) :=
  match remap r with
  | None => Ok r
  | Some st =>
      let! x := write_register offset value (remapper st) in
      Ok (run_invalidation x.2 (r <| remap := Some (mkRemap (rid st) x.1) |>))
  end.

Lemma run_invalidation_ok p r : includes (DeviceInvalidation (device_id r)) p -> run_invalidation p r = retranslate r.
Proof.
  intros Hp. assert (forall o, o = None \/ o = Some (device_id r) ->
    default r ((invalidate o ({[0%nat := r]}, register 0 list_new)).1 !! 0%nat) = retranslate r) as Hinv.
  { intros o Ho. rewrite invalidate_lookup by apply NoDup_singleton.
    rewrite decide_True by constructor. rewrite lookup_singleton_eq. cbn. unfold invalidated.
    destruct Ho as [-> | ->]; [done|]. cbn [rt_device_id inner_retranslate].
    by rewrite (bool_decide_eq_true_2 (Some _ = Some _)), orb_true_r. }
  cbn [includes] in Hp. destruct Hp as [-> | ->]; apply Hinv; auto.
Qed.

(** Commands that can be taken are, and what they ask for is in what is returned. *)
Lemma takes_prefix size s p cmds s1 p1 cmds' s2 p2 s' :
  takes size s p cmds s1 p1 -> takes size s p cmds' s2 p2 -> taken size s2 p2 s' -> includes p1 p2 /\ cmds `prefix_of` cmds'.
Proof.
  intros HT. revert cmds'. induction HT as [s p|s p e s3 p3 cmds s1 p1 Hne He Hp _ IH]; intros cmds' HT' Hend.
  { split; [by apply (takes_includes _ _ _ _ _ _ HT')|apply prefix_nil]. }
  destruct HT' as [s p|s p e' s4 p4 cmds' s2 p2 _ He' Hp' HT'].
  - destruct Hend as [[Heq _]|(_ & ev & [Hn|e' Hn Hu] & _)]; congruence.
  - rewrite He in He'. injection He' as <-. rewrite Hp in Hp'. injection Hp' as <- <-.
    destruct (IH cmds' HT' Hend) as [H1 H2]. split; [done|]. by apply prefix_cons.
Qed.

(** C15: the guest's invalidation command takes effect. The guest hands the IOMMU
    commands, by moving the tail of the command buffer. If one of those that are
    taken, wherever it is among them, invalidates the interrupt table of the I/O
    APIC, or all, then whatever happened before, asserting a line afterwards
    sends what the tables make of its message then, or nothing if they refuse it.
    The memory of the IOMMU's event log must be apart from the tables
    ([tables_apart]): refused messages are logged there while the lines are
    translated again. *)
Theorem invalidation_takes_effect r d s size value cmds s1 p1 e irq :
  routing_reachable (interrupt:=interrupt) r -> remap r = Some (mkRemap d s) -> is_line irq ->
  let s0 := s <| state := state s <| cmd_buf_tail := value |> |> in
  iommu_en (ctrl s) = true -> cmd_buf_en (ctrl s) = true -> cmd_buf_size_bytes (state s) = Some size ->
  takes size s0 NoInvalidation cmds s1 p1 -> e ∈ cmds -> includes (DeviceInvalidation d) (asks e) ->
  exists r' s', wired_write MmioRegister.CMD_BUF_TAIL value r = Ok (E:=void) r' /\ remap r' = Some (mkRemap d s') /\
    (tables_apart s' -> exists r'', inner_assert_irq irq r' = Ok (E:=void) r'' /\
      ir_target (hv_routing r'') =
        match (raw_route r irq ≫= fun q => msi_result d q.1 q.2 s') ≫= ir_translate (hv_routing r) with
        | Some m => interrupt m (ir_target (hv_routing r))
        | None => ir_target (hv_routing r)
        end).
Proof.
  intros Hr Hrm Hi s0 Hen Hcb Hsize HT He Hask. pose proof (routing_linked r Hr) as HL.
  destruct (commands_taken s0 size Hen Hcb Hsize) as (cmds' & s2 & p & s' & HT' & Hpc & Hend & _).
  destruct (takes_prefix _ _ _ _ _ _ _ _ _ _ HT HT' Hend) as [Hp1 _].
  destruct (takes_includes _ _ _ _ _ _ HT) as (_ & Hall & _).
  assert (includes (DeviceInvalidation d) p) as Hp.
  { eapply includes_trans; [exact Hask|]. eapply includes_trans; [|exact Hp1]. rewrite list.Forall_forall in Hall. by apply Hall. }
  set (r1 := r <| remap := Some (mkRemap d s') |>). exists (retranslate r1), s'. split; [|split; [done|]].
  - unfold wired_write. rewrite Hrm. cbn [remapper rid].
    change (write_register MmioRegister.CMD_BUF_TAIL value s) with (process_commands (E:=void) s0). rewrite Hpc.
    cbn [res_bind fst snd]. fold r1. f_equal. by apply run_invalidation_ok.
  - intros HA. destruct (routing_exec_linked (RTables s') r HL HA) as (r2 & Hr2 & HL2). cbn in Hr2. rewrite Hrm in Hr2.
    injection Hr2 as <-. change (linked r1) in HL2. destruct (retranslate_ok r1 HL2) as [HL3 HF3].
    destruct (inner_assert_ok (E:=void) irq _ HL3 Hi) as (r'' & m & H1 & _ & _ & H2 & _ & _ & H3).
    exists r''. split; [done|]. rewrite H2, (H3 (or_introl HF3)).
    change (inner_message (retranslate r1) irq) with (raw_route r irq ≫= inner_translate r1). unfold inner_translate.
    destruct (raw_route r irq) as [q|]; [|done]. cbn [mbind option_bind through r1 remap rid remapper].
    destruct (lk_remap _ HL2 (mkRemap d s') eq_refl) as [Hd _]. destruct (remap_msi_eq d q.1 q.2 s' Hd) as [Hq _].
    change (through (remap r1) q) with (remap_msi d q.1 q.2 s').1. by rewrite Hq.
Qed.

End Wired.

(** * Examples *)

Definition example_ctrl : Z := 2 ^ 0 + 2 ^ 12.

(** The device 0xA0, the I/O APIC, has an interrupt table at 0x6000; its entry
    0x20 is for the vector 0x41 and the processor 3. The command buffer at 0x8000
    holds an invalidation of the table of another device, and one of this. *)
Definition example_tables : GuestMemory :=
  store 0x2400 (le_bytes 8 1 ++ le_bytes 8 0 ++ le_bytes 8 (1 + 8 * 2 ^ 1 + 0x6000 + 2 * 2 ^ 60) ++ le_bytes 8 0)
    (store (0x6000 + 0x20 * 4) (le_bytes 4 (1 + 3 * 2 ^ 8 + 0x41 * 2 ^ 16))
      (store 0x8000 (le_bytes 4 0x10 ++ le_bytes 4 (5 * 2 ^ 28) ++ le_bytes 8 0)
        (store 0x8010 (le_bytes 4 0xA0 ++ le_bytes 4 (5 * 2 ^ 28) ++ le_bytes 8 0) ∅))).

Definition example_amd : IommuSharedState :=
  shared_new example_tables None <| state :=
    state_default <| dev_tab_base := 0x1001 |> <| cmd_buf_base := 0x8000 + 8 * 2 ^ 56 |> <| iommu_ctrl := example_ctrl |> |>.

Definition example_behind : IoApicRoutingInner (Partition (list (Z * Z))) IommuSharedState :=
  example_connected example_amd.

Lemma example_apart : tables_apart example_amd.
Proof. intros d x _ _ (size & Hs & _). by vm_compute in Hs. Qed.

Example example_invalidate :
  exists r', wired_write MmioRegister.CMD_BUF_TAIL 0x20 example_behind = Ok (E:=void) r' /\
  exists r'', inner_assert_irq 4 r' = Ok (E:=void) r'' /\ IrqRouting.target (hv_routing r'') = [(0xfee03000, 0x41)].
Proof. eexists. split; [vm_compute; reflexivity|]. eexists. split; vm_compute; reflexivity. Qed.

(** * Witnesses *)

Lemma irte_message_decoded_witness :
  let '(address, data) := irte_message (Irte_from_bits 0x411304) in
  LocalApic.virt_destination address = irte_destination (Irte_from_bits 0x411304) mod 2 ^ 8 /\
  LocalApic.msi_address_logical address = dm (Irte_from_bits 0x411304) /\
  LocalApic.msi_data_vector data = irte_vector (Irte_from_bits 0x411304) /\
  LocalApic.msi_data_delivery_mode data = int_type (Irte_from_bits 0x411304) /\
  LocalApic.msi_data_trigger_mode_level data = false.
Proof. apply (irte_message_decoded (Irte_from_bits 0x411304)); by split. Defined.

Definition example_command (d : Z) : CommandEntry := mkCommand d (5 * 2 ^ 28) 0 0.

Lemma example_takes :
  exists s1 p1, takes 4096 (example_amd <| state := state example_amd <| cmd_buf_tail := 0x20 |> |>) NoInvalidation
    [example_command 0x10; example_command 0xA0] s1 p1.
Proof.
  do 2 eexists. do 2 (eapply takes_one; [by vm_compute|vm_compute; reflexivity|vm_compute; reflexivity|]). apply takes_none.
Qed.

Lemma invalidation_takes_effect_witness :
  exists r' s', wired_write MmioRegister.CMD_BUF_TAIL 0x20 example_behind = Ok (E:=void) r' /\
    remap r' = Some (mkRemap 0xA0 s') /\
    (tables_apart s' -> exists r'', inner_assert_irq 4 r' = Ok (E:=void) r'' /\
      ir_target (hv_routing r'') =
        match (raw_route example_behind 4 ≫= fun q => msi_result 0xA0 q.1 q.2 s')
          ≫= ir_translate (hv_routing example_behind) with
        | Some m => record_message m (ir_target (hv_routing example_behind))
        | None => ir_target (hv_routing example_behind)
        end).
Proof.
  destruct example_takes as (s1 & p1 & HT).
  apply (invalidation_takes_effect example_behind 0xA0 example_amd 4096 0x20 [example_command 0x10; example_command 0xA0]
    s1 p1 (example_command 0xA0) 4).
  - apply example_connected_reachable, example_apart.
  - vm_compute. reflexivity.
  - by split.
  - reflexivity.
  - reflexivity.
  - reflexivity.
  - exact HT.
  - apply elem_of_cons. right. by apply list_elem_of_singleton.
  - by left.
Defined.
