(* ===== verification/AmdIommuSafe.v ===== *)
(** The AMD IOMMU as a device: in every state that the guest and its devices
    can reach, the registers are words, memory holds bytes, and no operation
    panics. Reads give back what was written. *)

From stdpp Require Import gmap.
From S2P Require Import Prelude ChipsetDevice GuestMem AmdIommu AmdIommuSpec AmdIommuLog AmdIommuRemap.

Implicit Type m : GuestMemory.
Implicit Type s : IommuSharedState.
Implicit Type d : AmdIommuDevice.

(** * Types *)

Definition mem_typed m : Prop := map_Forall (fun _ b => is_u 8 b) m.

Definition registers (st : AmdIommuState) : list Z :=
  [dev_tab_base st; cmd_buf_base st; evt_log_base st; iommu_ctrl st; excl_base st; excl_limit st; cmd_buf_head st;
   cmd_buf_tail st; evt_log_head st; evt_log_tail st; iommu_status st; gen_xt_int_ctrl st; ppr_xt_int_ctrl st].

Definition typed s : Prop := Forall (is_u 64) (registers (state s)) /\ mem_typed (guest_memory s).

(** Solves the registers that an update keeps. *)
Ltac typed_regs := unfold registers in *; cbn in *; rewrite ?Forall_cons_iff in *; intuition.

Lemma write_at_typed a l m m' : mem_typed m -> Forall (is_u 8) l -> write_at a l m = Some m' -> mem_typed m'.
Proof.
  intros Hm Hl [-> _]%write_at_spec x b. rewrite store_lookup. destruct (decide _); [|apply Hm].
  intros Hb. by apply (Forall_lookup_1 _ _ _ _ Hl Hb).
Qed.

Lemma event_bytes_u8 e : Forall (is_u 8) (event_bytes e).
Proof. unfold event_bytes. rewrite !Forall_app. split_and!; apply le_bytes_u8. Qed.

Lemma with_bit_u64 n b x : 0 <= n < 64 -> is_u 64 x -> is_u 64 (with_bit n b x).
Proof. intros. unfold with_bit. destruct b; auto using is_u_lor, is_u_ldiff, is_u_pow2 with lia. Qed.

Lemma set_status_typed bit b s : 0 <= bit < 64 -> typed s -> typed (set_status bit b s).
Proof. intros Hb [Hr Hm]. split; [|done]. typed_regs. by apply with_bit_u64. Qed.

Lemma deliver_typed (b : bool) s : typed s -> typed (if b then deliver_interrupt s else s).
Proof. by destruct b. Qed.

Lemma logged_typed (b : bool) s :
  typed s -> typed (if b then deliver_interrupt (set_status EVT_LOG_INT true s) else s).
Proof. destruct b; [|done]. by apply (set_status_typed EVT_LOG_INT true). Qed.

Lemma ring_ptr_u64 size off : ring_ok size -> slot_ok size off -> is_u 64 (with_ring_ptr (Z.shiftr off 4)).
Proof.
  intros Hs [Ho _]. pose proof (ring_bounds size Hs) as (Hb & _). unfold with_ring_ptr, is_u.
  rewrite Z.shiftr_div_pow2, Z.shiftl_mul_pow2 by lia. div_lia.
Qed.

Lemma write_event_typed {E} e s s' : typed s -> write_event_inner e s = Ok (E:=E) s' -> typed s'.
Proof.
  intros HT. unfold write_event_inner. destruct (_ || _); [by intros [= <-]|].
  destruct (Z.testbit _ _); [by intros [= <-]|]. destruct (evt_log_size_bytes (state s)) as [size|] eqn:Hsize; [|by intros [= <-]].
  assert (ring_ok size) as Hs by (by apply (ring_size_ok (evt_log_base (state s)))).
  pose proof (ring_offset_ok size (evt_log_tail (state s)) Hs) as [Ht Ht16].
  set (tail := ring_offset (evt_log_tail (state s)) size) in *. destruct (_ =? _).
  { intros [= <-]. by apply deliver_typed, set_status_typed. }
  destruct (uadd _ _ _) as [gpa| |]; [|done|done]. cbn [res_bind].
  destruct (write_at gpa (event_bytes e) (guest_memory s)) as [m|] eqn:Hw; [|by intros [= <-]]. intros [= <-].
  set (s1 := _ <| state := _ |>). assert (typed s1) as HT1; [|by apply logged_typed].
  destruct HT as [Hr Hm]. split; [|by apply (write_at_typed gpa (event_bytes e) (guest_memory s)); [|apply event_bytes_u8|]].
  typed_regs. apply (ring_ptr_u64 size); [done|]. apply ring_mod; [done|].
  rewrite <-Z.add_mod_idemp_l, Ht16 by lia. done.
Qed.

Lemma completion_typed e s : typed s -> typed (process_completion_wait e s).
Proof.
  intros HT. unfold process_completion_wait. set (s1 := if cw_s (completion_wait e) then _ else s).
  assert (typed s1) as HT1.
  { unfold s1. destruct (cw_s _); [|done]. destruct (write_at _ _ (guest_memory s)) as [m|] eqn:Hw; [|done].
    split; [apply HT|]. eapply write_at_typed; [apply HT|apply le_bytes_u8|exact Hw]. }
  destruct (cw_i _); [|done]. cbn zeta. by apply deliver_typed, set_status_typed.
Qed.

Lemma process_command_typed e p s s' p' : typed s -> process_command e p s = Some (s', p') -> typed s'.
Proof.
  intros HT. unfold process_command. destruct (_ =? CommandOpcode.COMPLETION_WAIT).
  { intros [= <- _]. by apply completion_typed. }
  destruct (_ || _ || _ || _); [by intros [= <- _]|]. destruct (_ =? CommandOpcode.INVALIDATE_INTERRUPT_TABLE); [by intros [= <- _]|].
  destruct (_ =? CommandOpcode.INVALIDATE_IOMMU_ALL); [by intros [= <- _]|done].
Qed.

Lemma takes_typed size s p cmds s' p' : ring_ok size -> typed s -> takes size s p cmds s' p' -> typed s'.
Proof.
  intros Hs HT. induction 1 as [s p|s p e s1 p1 cmds s' p' Hne He Hp Ht IH]; [done|]. apply IH.
  pose proof (process_command_typed e p s s1 p1 HT Hp) as [Hr Hm]. split; [|done]. typed_regs.
  apply (ring_ptr_u64 size); [done|]. apply slot_after_ok; [done|]. apply (ring_offset_ok size); done.
Qed.

(** The commands are processed without a panic, and keep the types. *)
Lemma process_commands_typed {E} s :
  typed s -> exists s' p, process_commands s = Ok (E:=E) (s', p) /\ typed s'.
Proof.
  intros HT. unfold process_commands. destruct (_ || _); [by eexists _, _|].
  destruct (cmd_buf_size_bytes (state s)) as [size|] eqn:Hsize.
  2: { eexists _, _. split; [done|]. by apply set_status_typed. }
  assert (ring_ok size) as Hs by (by apply (ring_size_ok (cmd_buf_base (state s)))).
  pose proof (distance_bounds size (cmd_head size s) (cmd_tail size s) Hs) as Hd.
  destruct (command_loop_takes (E:=E) (Z.to_nat (size / 16)) size NoInvalidation s Hs) as (cmds & s1 & p & s' & H1 & H2 & H3 & _);
    [lia|]. exists s', p. split; [done|]. apply takes_typed in H1; [|done|done].
  destruct H3 as [[_ ->]|(_ & ev & _ & Hh)]; [done|]. unfold halt_commands in Hh.
  destruct (write_event_inner ev s1) as [s2| |] eqn:Hw; [|done|done]. injection Hh as <-.
  apply set_status_typed; [done|]. by apply (write_event_typed (E:=void) ev s1).
Qed.

(** * Registers *)

Lemma update_status_typed st :
  Forall (is_u 64) (registers st) -> Forall (is_u 64) (registers (update_status_from_ctrl st)).
Proof. intros Hr. unfold update_status_from_ctrl. typed_regs. by repeat apply with_bit_u64. Qed.

Lemma cleared_status_u64 status value : is_u 64 (cleared_status status value).
Proof. unfold cleared_status. by repeat apply with_bit_u64. Qed.

Lemma write_register_typed {E} offset value s :
  is_u 64 value -> typed s -> exists s' p, write_register offset value s = Ok (E:=E) (s', p) /\ typed s'.
Proof.
  intros Hv HT. pose proof HT as [Hr Hm].
  assert (forall st, Forall (is_u 64) (registers st) -> exists s' p,
    Ok (s <| state := st |>, NoInvalidation) = Ok (E:=E) (s', p) /\ typed s') as Hdone.
  { intros st Hst. eexists _, _. by split. }
  assert (exists s' p, Ok (s, NoInvalidation) = Ok (E:=E) (s', p) /\ typed s') as Hsame by (by eexists _, _).
  unfold write_register. cbn zeta.
  repeat match goal with
  | |- context [if ?r =? ?c then _ else _] => destruct (r =? c)
  | |- context [if (?r =? ?c) || ?b then _ else _] => destruct ((r =? c) || b)
  end; try (apply Hdone; try (destruct (negb _); [|done]); typed_regs; done); try done.
  - match goal with |- context [process_commands ?s1] => assert (typed s1) as HT1 end.
    { split; [|done]. apply update_status_typed. typed_regs. }
    destruct (_ && _ && _); [by apply process_commands_typed|by eexists _, _].
  - apply process_commands_typed. split; [|done]. typed_regs.
  - apply Hdone. typed_regs. apply cleared_status_u64.
Qed.

(** While the IOMMU is enabled, a register write moves neither its tables nor
    its rings. *)
Lemma bases_locked {E} offset value s s' p :
  iommu_en (ctrl s) = true -> ucast 16 offset <> MmioRegister.IOMMU_CTRL ->
  ucast 16 offset <> MmioRegister.CMD_BUF_TAIL -> write_register offset value s = Ok (E:=E) (s', p) ->
  dev_tab_base (state s') = dev_tab_base (state s) /\ cmd_buf_base (state s') = cmd_buf_base (state s) /\
  evt_log_base (state s') = evt_log_base (state s) /\ guest_memory s' = guest_memory s /\ p = NoInvalidation.
Proof.
  intros Hen Hc%Z.eqb_neq Ht%Z.eqb_neq. unfold write_register. rewrite Hen, Hc, Ht. cbn [negb].
  repeat match goal with
  | |- context [if ?r =? ?c then _ else _] => destruct (r =? c)
  | |- context [if (?r =? ?c) || ?b then _ else _] => destruct ((r =? c) || b)
  end; by intros [= <- <-].
Qed.

(** * The device *)

Lemma le_value_u64 l : Forall (is_u 8) l -> length l = 8%nat -> is_u 64 (le_value l).
Proof. intros Hl Hlen. pose proof (le_value_bound l Hl) as Hb. by rewrite Hlen in Hb. Qed.

Lemma half_offset offset : Z.to_nat (Z.land offset 4) = 0%nat \/ Z.to_nat (Z.land offset 4) = 4%nat.
Proof.
  assert (Z.land offset 4 = if Z.testbit offset 2 then 4 else 0) as ->; [|destruct (Z.testbit offset 2); auto].
  apply Z.bits_inj'. intros i Hi. change 4 with (2 ^ 2). rewrite Z.land_spec, testbit_pow2 by lia.
  destruct (Z.eqb_spec 2 i) as [<-|Hne].
  - by destruct (Z.testbit offset 2).
  - rewrite andb_false_r. destruct (Z.testbit offset 2); [rewrite testbit_pow2 by lia|by rewrite Z.testbit_0_l].
    by destruct (Z.eqb_spec 2 i).
Qed.

Lemma set_half_ok half_offset data bytes :
  half_offset = 0%nat \/ half_offset = 4%nat -> length data = 4%nat -> length bytes = 8%nat ->
  Forall (is_u 8) data -> Forall (is_u 8) bytes ->
  length (set_half half_offset data bytes) = 8%nat /\ Forall (is_u 8) (set_half half_offset data bytes).
Proof.
  intros Hh Hd Hb Fd Fb. unfold set_half. split.
  - rewrite !length_app, length_take, length_drop. lia.
  - rewrite !Forall_app. auto using Forall_take, Forall_drop.
Qed.

(** A write of a supported size is done; others are refused. *)
Lemma iommu_write_ok addr data d :
  mmio_base d <= addr -> Forall (is_u 8) data -> typed (shared d) ->
  (exists d' p, mmio_write addr data d = Ok (d', p) /\ typed (shared d') /\ mmio_base d' = mmio_base d) \/
  mmio_write addr data d = Err InvalidAccessSize.
Proof.
  intros Ha Hd HT. unfold mmio_write. rewrite usub_ok by done. cbn [res_bind]. set (offset := addr - mmio_base d).
  assert (forall value, is_u 64 value -> exists d' p,
    (let! r := write_register (Z.land offset (unot 64 7)) value (shared d) in Ok (d <| shared := r.1 |>, r.2)) =
      Ok (E:=IoError) (d', p) /\ typed (shared d') /\ mmio_base d' = mmio_base d) as Hw.
  { intros value Hv. destruct (write_register_typed (E:=IoError) (Z.land offset (unot 64 7)) value (shared d) Hv HT)
      as (s' & p & -> & HT'). by eexists _, _. }
  destruct (length data) as [|[|[|[|[|[|[|[|[|n]]]]]]]]] eqn:Hlen; try (by right); left; apply Hw.
  - destruct (set_half_ok (Z.to_nat (Z.land offset 4)) data
      (le_bytes 8 (read_register (Z.land offset (unot 64 7)) (shared d)))) as [H1 H2]; try done.
    + apply half_offset.
    + apply le_bytes_u8.
    + by apply le_value_u64.
  - by apply le_value_u64.
Qed.

Lemma iommu_read_ok addr len d :
  mmio_base d <= addr ->
  (exists l, mmio_read addr len d = Ok l /\ length l = len /\ Forall (is_u 8) l) \/
  mmio_read addr len d = Err InvalidAccessSize.
Proof.
  intros Ha. unfold mmio_read. rewrite usub_ok by done. cbn [res_bind]. set (offset := addr - mmio_base d).
  set (l := le_bytes 8 _). assert (length l = 8%nat /\ Forall (is_u 8) l) as [Hl Hu] by (split; [done|apply le_bytes_u8]).
  destruct len as [|[|[|[|[|[|[|[|[|n]]]]]]]]]; try (by right); left; eexists; (split; [reflexivity|]); [|done].
  split; [|auto using Forall_take, Forall_drop]. rewrite length_take, length_drop. destruct (half_offset offset); lia.
Qed.

(** What happens to the device: accesses of the guest, translations for
    devices and interrupts, the guest's writes to memory, and a reset. *)
Inductive IommuOp : Type :=
| OpRead (addr : Z) (len : nat)
| OpWrite (addr : Z) (data : list Z)
| OpTranslate (rid iova : Z) (write : bool)
| OpMsi (devid : option Z) (address data : Z)
| OpMemory (m : GuestMemory)
| OpReset.

Definition iommu_op_ok (op : IommuOp) d : Prop :=
  match op with
  | OpRead addr _ => mmio_base d <= addr
  | OpWrite addr data => mmio_base d <= addr /\ Forall (is_u 8) data
  | OpTranslate rid iova _ => is_u 16 rid /\ is_u 64 iova
  | OpMsi _ _ _ | OpReset => True
  | OpMemory m => mem_typed m
  end.

Definition iommu_exec (op : IommuOp) d : res IoError AmdIommuDevice :=
  match op with
  | OpRead addr len => let! _ := mmio_read addr len d in Ok d
  | OpWrite addr data => let! r := mmio_write addr data d in Ok r.1
  | OpTranslate rid iova write => let! r := amd_translate rid iova write (shared d) in Ok (d <| shared := r.1 |>)
  | OpMsi devid address data => let! r := signal_msi devid address data (shared d) in Ok (d <| shared := r.1 |>)
  | OpMemory m => Ok (d <| shared := shared d <| guest_memory := m |> |>)
  | OpReset => Ok (d <| shared := iommu_reset (shared d) |>)
  end.

Inductive iommu_reachable : AmdIommuDevice -> Prop :=
| iommu_start base m interrupt : mem_typed m -> iommu_reachable (mkDevice base (shared_new m interrupt))
| iommu_then d op d' :
    iommu_reachable d -> iommu_op_ok op d -> iommu_exec op d = Ok d' -> iommu_reachable d'.

Lemma translate_typed {E} rid iova write s :
  is_u 16 rid -> is_u 64 iova -> typed s ->
  exists s' r, amd_translate rid iova write s = Ok (E:=E) (s', r) /\ typed s'.
Proof.
  intros Hr Hi HT. unfold amd_translate. pose proof (translate_ends rid iova write s Hr Hi) as He.
  destruct (translate_inner rid iova write s) as [g|f|]; [by eexists _, _| |done].
  destruct (write_event_frame (E:=E) (to_event_entry f) s) as (s' & Hw & _). unfold queue_event. rewrite Hw.
  eexists _, _. split; [done|]. by apply (write_event_typed (E:=E) (to_event_entry f) s).
Qed.

Lemma msi_typed {E} devid address data s :
  typed s -> exists s' r, signal_msi devid address data s = Ok (E:=E) (s', r) /\ typed s'.
Proof.
  intros HT. destruct devid as [id|]; [|by eexists _, _]. cbn [signal_msi]. unfold amd_remap_msi.
  destruct (remap_msi_inner_ok (ucast 16 id) address data s ltac:(apply is_u_ucast; lia)) as [Hp _].
  destruct (remap_msi_inner (ucast 16 id) address data s) as [r|f|]; [by eexists _, _| |done].
  destruct (write_event_frame (E:=E) (to_event_entry f) s) as (s' & Hw & _). unfold queue_event. rewrite Hw.
  eexists _, _. split; [done|]. by apply (write_event_typed (E:=E) (to_event_entry f) s).
Qed.

Lemma iommu_exec_typed op d :
  typed (shared d) -> iommu_op_ok op d ->
  iommu_exec op d <> Panic /\ forall d', iommu_exec op d = Ok d' -> typed (shared d').
Proof.
  intros HT Hop. destruct op as [addr len|addr data|rid iova write|devid address data|m|]; cbn [iommu_exec iommu_op_ok] in *.
  - destruct (iommu_read_ok addr len d Hop) as [(l & -> & _)| ->]; split; try done. by intros d' [= <-].
  - destruct Hop as [Ha Hd]. destruct (iommu_write_ok addr data d Ha Hd HT) as [(d1 & p & -> & HT1 & _)| ->];
      split; try done. by intros d' [= <-].
  - destruct Hop as [Hr Hi]. destruct (translate_typed (E:=IoError) rid iova write (shared d) Hr Hi HT) as (s' & r & -> & HT').
    split; [done|]. by intros d' [= <-].
  - destruct (msi_typed (E:=IoError) devid address data (shared d) HT) as (s' & r & -> & HT').
    split; [done|]. by intros d' [= <-].
  - split; [done|]. intros d' [= <-]. split; [apply HT|done].
  - split; [done|]. intros d' [= <-]. split; [|apply HT]. by repeat constructor.
Qed.

Lemma iommu_reachable_typed d : iommu_reachable d -> typed (shared d).
Proof.
  induction 1 as [base m interrupt Hm|d op d' _ IH Hop He].
  - split; [|done]. by repeat constructor.
  - by apply (iommu_exec_typed op d).
Qed.

(** C24: the IOMMU is safe and well typed. Whatever the guest writes to its
    registers, tables and rings, and whatever devices access through it, every
    register is a 64-bit word and memory holds bytes, a read returns as many
    bytes as were asked for, and no operation panics: it succeeds, or the access
    is refused for its size. *)
Theorem iommu_reachable_safe d op addr len :
  iommu_reachable d -> iommu_op_ok op d -> mmio_base d <= addr ->
  typed (shared d) /\ iommu_exec op d <> Panic /\
  (forall d', iommu_exec op d = Ok d' -> typed (shared d')) /\
  (forall l, mmio_read addr len d = Ok l -> length l = len /\ Forall (is_u 8) l).
Proof.
  intros Hd%iommu_reachable_typed Hop Ha. destruct (iommu_exec_typed op d Hd Hop) as [H1 H2]. split_and!; try done.
  intros l Hl. destruct (iommu_read_ok addr len d Ha) as [(l' & Hl' & H3)|]; [|congruence].
  rewrite Hl in Hl'. by injection Hl' as <-.
Qed.

(** * Defects *)

Lemma le_bytes_low v : is_u 32 v -> le_bytes 8 v = le_bytes 4 v ++ [0; 0; 0; 0].
Proof.
  intros Hv. unfold is_u in Hv. cbn [le_bytes app].
  assert (v / 256 / 256 / 256 / 256 = 0) as -> by (rewrite !Z.div_div by lia; apply Z.div_small; lia). done.
Qed.

(** A write to the upper half of the status register, which holds no status,
    acknowledges every pending interrupt and the overflow: the lower half is
    read back and written as if the guest had written ones. *)
Lemma upper_half_acknowledges d :
  is_u 32 (iommu_status (state (shared d))) ->
  exists d', mmio_write (mmio_base d + (MmioRegister.IOMMU_STATUS + 4)) [0; 0; 0; 0] d = Ok (d', NoInvalidation) /\
    Z.land (iommu_status (state (shared d'))) 0x7 = 0.
Proof.
  intros Hs. unfold mmio_write. rewrite usub_ok by (unfold MmioRegister.IOMMU_STATUS; lia). cbn [res_bind length].
  replace (mmio_base d + (MmioRegister.IOMMU_STATUS + 4) - mmio_base d) with 0x2024 by (unfold MmioRegister.IOMMU_STATUS; lia).
  change (Z.land 0x2024 (unot 64 7)) with MmioRegister.IOMMU_STATUS. change (Z.to_nat (Z.land 0x2024 4)) with 4%nat.
  change (read_register MmioRegister.IOMMU_STATUS (shared d)) with (iommu_status (state (shared d))).
  set (v := iommu_status (state (shared d))) in *. rewrite (le_bytes_low v Hs).
  assert (set_half 4 [0; 0; 0; 0] (le_bytes 4 v ++ [0; 0; 0; 0]) = le_bytes 8 v) as -> by (rewrite (le_bytes_low v Hs); done).
  rewrite le_value_bytes by (unfold is_u in Hs; cbn; lia). eexists. split; [reflexivity|].
  change (Z.land (cleared_status v v) 0x7 = 0). unfold cleared_status. rewrite !andb_negb_r.
  by destruct (Z.testbit v EVT_LOG_RUN), (Z.testbit v CMD_BUF_RUN).
Qed.

(** * Examples *)

Definition example_log : IommuSharedState :=
  shared_new (store 0x9000 (replicate 4096 0) ∅) (Some 0) <| state :=
    state_default <| evt_log_base := 0x9000 + 8 * 2 ^ 56 |> <| iommu_ctrl := 2 ^ 0 + 2 ^ 2 + 2 ^ 3 |> |>.

Lemma example_log_mapped : log_mapped 4096 example_log.
Proof.
  intros x Hx. change (log_base example_log) with 0x9000 in Hx.
  change (guest_memory example_log) with (store 0x9000 (replicate 4096 0) ∅).
  rewrite store_lookup, length_replicate. rewrite decide_True by done. unfold within in Hx.
  rewrite lookup_replicate_2 by lia. done.
Qed.

(** A command that is not known stops the command buffer, which says so; the
    next write of the tail runs it again. *)
Definition example_halted : IommuSharedState :=
  shared_new (store 0x8000 (replicate 16 0) ∅) None <| state :=
    state_default <| cmd_buf_base := 0x8000 + 8 * 2 ^ 56 |> <| iommu_ctrl := 2 ^ 0 + 2 ^ 12 |> |>.

Example halted_runs_again :
  exists s1, write_register MmioRegister.CMD_BUF_TAIL 0x10 example_halted = Ok (E:=void) (s1, NoInvalidation) /\
    Z.testbit (iommu_status (state s1)) CMD_BUF_RUN = false /\ cmd_buf_head (state s1) = 0 /\
    let s2 := s1 <| guest_memory := store 0x8000 (le_bytes 4 0 ++ le_bytes 4 (3 * 2 ^ 28) ++ le_bytes 8 0) (guest_memory s1) |> in
    exists s3, write_register MmioRegister.CMD_BUF_TAIL 0x10 s2 = Ok (E:=void) (s3, NoInvalidation) /\
      cmd_buf_head (state s3) = 0x10.
Proof. eexists. split; [vm_compute; reflexivity|]. do 2 (split; [reflexivity|]). eexists. split; vm_compute; reflexivity. Qed.

(** * Witnesses *)

Lemma event_log_queue_witness :
  (exists s', queue_event (dev_tab_hardware_error 8 0x1000) example_log = Ok (E:=void) s' /\
    if Z.of_nat (length (@nil (list Z))) + 1 =? 4096 / 16 then log_holds 4096 s' [] /\ overflowed s' = true
    else log_holds 4096 s' ([] ++ [event_bytes (dev_tab_hardware_error 8 0x1000)]) /\ overflowed s' = false) /\
  ((0 <= length (@nil (list Z)))%nat -> ring_offset 0 4096 = slot_after 4096 (log_head 4096 example_log) (Z.of_nat 0) ->
   exists s', write_register MmioRegister.EVT_LOG_HEAD 0 example_log = Ok (E:=void) (s', NoInvalidation) /\
     log_holds 4096 s' (drop 0 [])).
Proof.
  apply (event_log_queue (dev_tab_hardware_error 8 0x1000) example_log 4096 [] 0 0).
  - reflexivity.
  - apply example_log_mapped.
  - reflexivity.
  - split; [reflexivity|]. intros i b Hi. by rewrite lookup_nil in Hi.
Defined.

Lemma commands_processed_witness :
  let s := example_amd <| state := state example_amd <| cmd_buf_tail := 0x20 |> |> in
  exists cmds s1 p s', takes 4096 s NoInvalidation cmds s1 p /\ process_commands s = Ok (E:=void) (s', p) /\
    ended 4096 s1 p s' /\ Z.of_nat (length cmds) <= distance 4096 (cmd_head 4096 s) (cmd_tail 4096 s) /\
    Forall (fun e => includes (asks e) p) cmds /\
    (Forall (fun e => asks e = NoInvalidation) cmds -> p = NoInvalidation).
Proof. intros s. apply (commands_processed s 4096); reflexivity. Defined.

Definition example_iommu_device : AmdIommuDevice := mkDevice 0xfed80000 (shared_new ∅ None).

Lemma iommu_reachable_safe_witness :
  typed (shared example_iommu_device) /\ iommu_exec (OpWrite 0xfed80018 [1; 0; 0; 0]) example_iommu_device <> Panic /\
  (forall d', iommu_exec (OpWrite 0xfed80018 [1; 0; 0; 0]) example_iommu_device = Ok d' -> typed (shared d')) /\
  (forall l, mmio_read 0xfed80030 8 example_iommu_device = Ok l -> length l = 8%nat /\ Forall (is_u 8) l).
Proof.
  apply (iommu_reachable_safe example_iommu_device (OpWrite 0xfed80018 [1; 0; 0; 0]) 0xfed80030 8).
  - apply iommu_start. apply map_Forall_empty.
  - split; [by vm_compute|]. by repeat constructor.
  - by vm_compute.
Defined.
