(* ===== verification/VirtioQueue.v ===== *)
(** Virtio queues ([vm/devices/virtio/virtio/src/queue.rs], [queue/split.rs],
    [queue/packed.rs], [common.rs] and [in_order.rs]): fetching work from split
    and packed rings in guest memory, completing it, and the notifications.

    Operations read and write guest memory and may fail halfway, so they are in
    a monad of a state and an outcome. Memory fences have no model: operations
    are sequential, and the guest may change memory between them. *)

From stdpp Require Import gmap.
From S2P Require Import Prelude GuestMem.

(** * Views of guest memory *)

(** [subrange]: a view of [v_len] bytes from [v_base] on. *)
Record View : Type := mkView { v_base : Z; v_len : Z }.

(** [mem_len] is the end of the memory. *)
Definition subrange (mem_len offset len : Z) : option View :=
  if offset + len <=? mem_len then Some (mkView offset len) else None.

Definition view_read (n : nat) (v : View) (offset : Z) (m : GuestMemory) : option Z :=
  if offset + Z.of_nat n <=? v_len v then read_word n (v_base v + offset) m else None.

Definition view_write (v : View) (offset : Z) (l : list Z) (m : GuestMemory) : option GuestMemory :=
  if offset + Z.of_nat (length l) <=? v_len v then write_at (v_base v + offset) l m else None.

(** * Layouts ([virtio_spec]) *)

Definition AVAIL_OFFSET_FLAGS : Z := 0.
Definition AVAIL_OFFSET_IDX : Z := 2.
Definition AVAIL_OFFSET_RING : Z := 4.
Definition AVAIL_ELEMENT_SIZE : Z := 2.
Definition USED_OFFSET_FLAGS : Z := 0.
Definition USED_OFFSET_IDX : Z := 2.
Definition USED_OFFSET_RING : Z := 4.
Definition USED_ELEMENT_SIZE : Z := 8.
Definition DESCRIPTOR_SIZE : Z := 16.
Definition EVENT_SUPPRESSION_SIZE : Z := 4.

Record DescriptorFlags : Type := mkFlags {
  fl_next : bool;
  fl_write : bool;
  fl_indirect : bool;
  fl_available : bool;
  fl_used : bool;
}.

Definition DescriptorFlags_from (x : Z) : DescriptorFlags :=
  mkFlags (Z.testbit x 0) (Z.testbit x 1) (Z.testbit x 2) (Z.testbit x 7) (Z.testbit x 15).

(** The flags of a used packed descriptor. *)
Definition used_flags (wrapped_bit : bool) : Z := Z.lor (Z.shiftl (b2z wrapped_bit) 7) (Z.shiftl (b2z wrapped_bit) 15).

Inductive EventSuppressionFlags : Type :=
| EventsEnabled
| EventsDisabled
| EventsDescriptorIndex
| EventsReserved.

Record PackedEventSuppression : Type := mkSuppression {
  es_offset : Z;
  es_wrap : bool;
  es_flags : EventSuppressionFlags;
}.

Definition PackedEventSuppression_from (x : Z) : PackedEventSuppression :=
  mkSuppression (bits x 0 15) (Z.testbit x 15)
    (match bits x 16 2 with 0 => EventsEnabled | 1 => EventsDisabled | 2 => EventsDescriptorIndex | _ => EventsReserved end).

(** [PackedEventSuppression::new().with_flags] of the two that are written. *)
Definition suppression_bits (enabled : bool) : Z := if enabled then 0 else Z.shiftl 1 16.

Record VirtioDeviceFeatures : Type := mkFeatures {
  ring_packed : bool;
  ring_indirect_desc : bool;
  ring_event_idx : bool;
}.

(** * Errors and outcomes *)

Inductive QueueError : Type :=
| MemoryError
| DoubleIndirect
| TooLong
| InvalidQueueSize (size : Z)
| TooManyInFlightDescriptors (in_flight requested queue_size : Z)
| InvalidSavedState (avail_index used_index queue_size : Z).

(** An operation on memory and a state: it returns both also when it fails. *)
Definition QM (S A : Type) : Type := GuestMemory * S -> res void (GuestMemory * S * (QueueError + A)).

Definition qret {S A} (a : A) : QM S A := fun st => Ok (st, inr a).

Definition qbind {S A B} (p : QM S A) (k : A -> QM S B) : QM S B := fun st =>
  let! x := p st in
  match x.2 with
  | inl e => Ok (x.1, inl e)
  | inr a => k a x.1
  end.

Notation "'let?' x ':=' p 'in' k" := (qbind p (fun x => k))
  (at level 10, x pattern, k at level 200, format "'[v' let?  x  :=  p  in '/' k ']'") : vmm_scope.

Definition qget {S} : QM S S := fun st => Ok (st, inr st.2).

Definition qmodify {S} (f : S -> S) : QM S unit := fun st => Ok (st.1, f st.2, inr tt).

(** Memory is read, or written. *)
Definition qread {S A} (f : GuestMemory -> option A) : QM S A := fun st =>
  match f st.1 with Some a => Ok (st, inr a) | None => Ok (st, inl MemoryError) end.

Definition qwrite {S} (f : GuestMemory -> option GuestMemory) : QM S unit := fun st =>
  match f st.1 with Some m => Ok (m, st.2, inr tt) | None => Ok (st, inl MemoryError) end.

(** A computation that may panic, and one that may fail. *)
Definition qlift {S A} (r : res void A) : QM S A := fun st => let! a := r in Ok (st, inr a).

Definition qtry {S A} (f : GuestMemory -> res QueueError A) : QM S A := fun st =>
  match f st.1 with Ok a => Ok (st, inr a) | Err e => Ok (st, inl e) | Panic => Panic end.

(** * Queue parameters *)

Record QueueParams : Type := mkParams {
  params_size : Z;
  desc_addr : Z;
  avail_addr : Z;
  used_addr : Z;
}.

Record QueueState : Type := mkQueueState { avail_index : Z; used_index : Z }.

Definition descriptor_offset (index : Z) : Z := index * DESCRIPTOR_SIZE.

Definition split_in_flight (avail used queue_size : Z) : res QueueError Z :=
  let in_flight := ucast 16 (avail - used) in
  if queue_size <? in_flight then Err (InvalidSavedState avail used queue_size) else Ok in_flight.

Definition packed_in_flight (avail used queue_size : Z) : res QueueError Z :=
  if (queue_size <=? Z.land avail 0x7fff) || (queue_size <=? Z.land used 0x7fff) then
    Err (InvalidSavedState avail used queue_size)
  else
    let position cursor := Z.land cursor 0x7fff + b2z (negb (Z.land cursor 0x8000 =? 0)) * queue_size in
    let in_flight := (position avail - position used) mod (2 * queue_size) in
    if queue_size <? in_flight then Err (InvalidSavedState avail used queue_size) else Ok in_flight.

(** A view, or an error. *)
Definition subrange_err (mem_len offset len : Z) : res QueueError View :=
  match subrange mem_len offset len with Some v => Ok v | None => Err MemoryError end.

Definition avail_len (size : Z) : Z := AVAIL_OFFSET_RING + AVAIL_ELEMENT_SIZE * size + 2.
Definition used_len (size : Z) : Z := USED_OFFSET_RING + USED_ELEMENT_SIZE * size + 2.

(** * Split rings *)

Module SplitGet.

Record SplitQueueGetWork : Type := mk {
  queue_avail : View;
  queue_used : View;
  queue_size : Z;
  last_avail_index : Z;
  cached_avail_index : Z;
  use_ring_event_index : bool;
}.

#[global] Instance settable : Settable SplitQueueGetWork := fun q =>
  mk (queue_avail q) (queue_used q) (queue_size q) (last_avail_index q) (cached_avail_index q) (use_ring_event_index q).

Definition new (mem_len : Z) (features : VirtioDeviceFeatures) (params : QueueParams) (initial_avail_index : Z)
    : res QueueError SplitQueueGetWork :=
  let! queue_avail := subrange_err mem_len (avail_addr params) (avail_len (params_size params)) in
  let! queue_used := subrange_err mem_len (used_addr params) (used_len (params_size params)) in
  Ok (mk queue_avail queue_used (params_size params) initial_avail_index initial_avail_index (ring_event_idx features)).

Definition set_used_flags (flags : Z) : QM SplitQueueGetWork unit :=
  let? q := qget in
  qwrite (view_write (queue_used q) 0 (le_bytes 2 flags)).

Definition get_available_index : QM SplitQueueGetWork Z :=
  let? q := qget in
  qread (view_read 2 (queue_avail q) AVAIL_OFFSET_IDX).

Definition is_available : QM SplitQueueGetWork (option Z) :=
  let? q := qget in
  let wrapped := qlift (let! mask := usub (queue_size q) 1 in Ok (Some (Z.land (last_avail_index q) mask))) in
  if cached_avail_index q =? last_avail_index q then
    let? index := get_available_index in
    let? _ := qmodify (fun q => q <| cached_avail_index := index |>) in
    if index =? last_avail_index q then qret None else wrapped
  else wrapped.

Definition set_available_event (index : Z) : QM SplitQueueGetWork unit :=
  let? q := qget in
  qwrite (view_write (queue_used q) (USED_OFFSET_RING + USED_ELEMENT_SIZE * queue_size q) (le_bytes 2 index)).

(** [UsedFlags::new().with_no_notify(true)] is 1. *)
Definition suppress_kicks : QM SplitQueueGetWork unit :=
  let? q := qget in
  if negb (use_ring_event_index q) then set_used_flags 1 else qret tt.

Definition arm_kick : QM SplitQueueGetWork bool :=
  let? q := qget in
  let? _ := if use_ring_event_index q then set_available_event (last_avail_index q) else set_used_flags 0 in
  let? index := is_available in
  match index with
  | Some _ => let? _ := suppress_kicks in qret false
  | None => qret true
  end.

Definition advance (q : SplitQueueGetWork) : SplitQueueGetWork :=
  q <| last_avail_index := ucast 16 (last_avail_index q + 1) |>.

Definition get_available_descriptor_index (wrapped_index : Z) (q : SplitQueueGetWork) (m : GuestMemory) : option Z :=
  view_read 2 (queue_avail q) (AVAIL_OFFSET_RING + AVAIL_ELEMENT_SIZE * wrapped_index) m.

End SplitGet.

Module SplitComplete.

Record SplitQueueCompleteWork : Type := mk {
  queue_avail : View;
  queue_used : View;
  queue_size : Z;
  last_used_index : Z;
  use_ring_event_index : bool;
}.

#[global] Instance settable : Settable SplitQueueCompleteWork := fun q =>
  mk (queue_avail q) (queue_used q) (queue_size q) (last_used_index q) (use_ring_event_index q).

Definition new (mem_len : Z) (features : VirtioDeviceFeatures) (params : QueueParams) (initial_used_index : Z)
    : res QueueError SplitQueueCompleteWork :=
  let! queue_avail := subrange_err mem_len (avail_addr params) (avail_len (params_size params)) in
  let! queue_used := subrange_err mem_len (used_addr params) (used_len (params_size params)) in
  Ok (mk queue_avail queue_used (params_size params) initial_used_index (ring_event_idx features)).

(** The flag [no_interrupt]. *)
Definition get_available_flags : QM SplitQueueCompleteWork bool :=
  let? q := qget in
  let? flags := qread (view_read 2 (queue_avail q) AVAIL_OFFSET_FLAGS) in
  qret (Z.testbit flags 0).

Definition get_used_event : QM SplitQueueCompleteWork Z :=
  let? q := qget in
  qread (view_read 2 (queue_avail q) (AVAIL_OFFSET_RING + AVAIL_ELEMENT_SIZE * queue_size q)).

Definition set_used_descriptor (queue_last_used_index descriptor_index bytes_written : Z)
    : QM SplitQueueCompleteWork unit :=
  let? q := qget in
  let? mask := qlift (usub (queue_size q) 1) in
  let wrapped_index := Z.land queue_last_used_index mask in
  let addr := USED_OFFSET_RING + USED_ELEMENT_SIZE * wrapped_index in
  qwrite (view_write (queue_used q) addr (le_bytes 4 descriptor_index ++ le_bytes 4 bytes_written)).

Definition set_used_index (index : Z) : QM SplitQueueCompleteWork unit :=
  let? q := qget in
  qwrite (view_write (queue_used q) USED_OFFSET_IDX (le_bytes 2 index)).

Definition complete_descriptor (descriptor_index bytes_written : Z) : QM SplitQueueCompleteWork bool :=
  let? q := qget in
  let last := last_used_index q in
  let? _ := set_used_descriptor last descriptor_index bytes_written in
  let next := ucast 16 (last + 1) in
  let? _ := qmodify (fun q => q <| last_used_index := next |>) in
  let? _ := set_used_index next in
  if use_ring_event_index q then
    let? event := get_used_event in
    qret (last =? event)
  else
    let? no_interrupt := get_available_flags in
    qret (negb no_interrupt).

End SplitComplete.

(** * Packed rings *)

(** The cursor [index], moved by [count] descriptors: it wraps at most once. *)
Definition advance_cursor (index count queue_size : Z) (wrapped_bit : bool) : res void (Z * bool) :=
  let! raw := uadd 16 index count in
  if queue_size <=? raw then Ok (raw - queue_size, negb wrapped_bit) else Ok (raw, wrapped_bit).

Module PackedGet.

Record PackedQueueGetWork : Type := mk {
  queue_desc : View;
  device_event : View;
  queue_size : Z;
  next_avail_index : Z;
  wrapped_bit : bool;
  next_is_available : bool;
}.

#[global] Instance settable : Settable PackedQueueGetWork := fun q =>
  mk (queue_desc q) (device_event q) (queue_size q) (next_avail_index q) (wrapped_bit q) (next_is_available q).

Definition new (mem_len : Z) (params : QueueParams) (initial_index : Z) (initial_wrap : bool)
    : res QueueError PackedQueueGetWork :=
  let! queue_desc := subrange_err mem_len (desc_addr params) (descriptor_offset (params_size params)) in
  let! device_event := subrange_err mem_len (used_addr params) EVENT_SUPPRESSION_SIZE in
  Ok (mk queue_desc device_event (params_size params) initial_index initial_wrap false).

Definition avail_state (q : PackedQueueGetWork) : Z :=
  Z.lor (next_avail_index q) (Z.shiftl (b2z (wrapped_bit q)) 15).

(** The flags of a packed descriptor are its last two bytes. *)
Definition is_available : QM PackedQueueGetWork (option Z) :=
  let? q := qget in
  if negb (next_is_available q) then
    let? raw := qread (view_read 2 (queue_desc q) (descriptor_offset (next_avail_index q) + 14)) in
    let flags := DescriptorFlags_from raw in
    if negb (eqb (fl_available flags) (wrapped_bit q)) || eqb (fl_used flags) (wrapped_bit q) then qret None
    else
      let? _ := qmodify (fun q => q <| next_is_available := true |>) in
      qret (Some (next_avail_index q))
  else qret (Some (next_avail_index q)).

Definition set_device_event (enabled : bool) : QM PackedQueueGetWork unit :=
  let? q := qget in
  qwrite (view_write (device_event q) 0 (le_bytes 4 (suppression_bits enabled))).

Definition suppress_kicks : QM PackedQueueGetWork unit := set_device_event false.

Definition arm_kick : QM PackedQueueGetWork bool :=
  let? _ := set_device_event true in
  let? index := is_available in
  match index with
  | Some _ => let? _ := suppress_kicks in qret false
  | None => qret true
  end.

Definition advance (count : Z) (q : PackedQueueGetWork) : res void PackedQueueGetWork :=
  let! c := advance_cursor (next_avail_index q) count (queue_size q) (wrapped_bit q) in
  Ok (q <| next_avail_index := c.1 |> <| wrapped_bit := c.2 |> <| next_is_available := false |>).

End PackedGet.

Module PackedComplete.

Record PackedQueueCompleteWork : Type := mk {
  queue_desc : View;
  driver_event : View;
  queue_size : Z;
  next_index : Z;
  wrapped_bit : bool;
  use_event_index : bool;
}.

#[global] Instance settable : Settable PackedQueueCompleteWork := fun q =>
  mk (queue_desc q) (driver_event q) (queue_size q) (next_index q) (wrapped_bit q) (use_event_index q).

Definition new (mem_len : Z) (features : VirtioDeviceFeatures) (params : QueueParams) (initial_index : Z)
    (initial_wrap : bool) : res QueueError PackedQueueCompleteWork :=
  let! queue_desc := subrange_err mem_len (desc_addr params) (descriptor_offset (params_size params)) in
  let! driver_event := subrange_err mem_len (avail_addr params) EVENT_SUPPRESSION_SIZE in
  Ok (mk queue_desc driver_event (params_size params) initial_index initial_wrap (ring_event_idx features)).

Definition used_state (q : PackedQueueCompleteWork) : Z :=
  Z.lor (next_index q) (Z.shiftl (b2z (wrapped_bit q)) 15).

(** The descriptor written has no address. *)
Definition complete_descriptor (buffer_id descriptor_count bytes_written : Z) : QM PackedQueueCompleteWork bool :=
  let? q := qget in
  let descriptor :=
    le_bytes 8 0 ++ le_bytes 4 bytes_written ++ le_bytes 2 buffer_id ++ le_bytes 2 (used_flags (wrapped_bit q)) in
  let? _ := qwrite (view_write (queue_desc q) (descriptor_offset (next_index q)) descriptor) in
  let? raw := qread (view_read 4 (driver_event q) 0) in
  let event := PackedEventSuppression_from raw in
  let send_signal :=
    match es_flags event with
    | EventsDisabled => false
    | EventsDescriptorIndex =>
        if use_event_index q then (es_offset event =? next_index q) && eqb (es_wrap event) (wrapped_bit q) else true
    | _ => true
    end in
  let? c := qlift (advance_cursor (next_index q) descriptor_count (queue_size q) (wrapped_bit q)) in
  let? _ := qmodify (fun q => q <| next_index := c.1 |> <| wrapped_bit := c.2 |>) in
  qret send_signal.

End PackedComplete.

(** * Fetching work *)

Record QueueDescriptor : Type := mkDescriptor {
  qd_address : Z;
  qd_length : Z;
  qd_flags : DescriptorFlags;
  qd_buffer_id : option Z;
  qd_next : option Z;
}.

Inductive QueueCompletionContext : Type :=
| SplitContext
| PackedContext (buffer_id descriptor_count : Z).

Record QueueCompletion : Type := mkCompletion {
  qc_context : QueueCompletionContext;
  qc_descriptor_index : Z;
}.

Definition in_flight_cost (c : QueueCompletion) : Z :=
  match qc_context c with SplitContext => 1 | PackedContext _ count => count end.

Record VirtioQueuePayload : Type := mkPayload { writeable : bool; pl_address : Z; pl_length : Z }.

Record VirtioQueueCallbackWork : Type := mkWork {
  completion : QueueCompletion;
  payload : list VirtioQueuePayload;
}.

Inductive QueueGetWorkInner : Type :=
| GetSplit (q : SplitGet.SplitQueueGetWork)
| GetPacked (q : PackedGet.PackedQueueGetWork).

Record QueueCoreGetWork : Type := mkCore {
  mem_len : Z;
  queue_desc : View;
  queue_size : Z;
  features : VirtioDeviceFeatures;
  inner : QueueGetWorkInner;
  armed : bool;
  failed : bool;
  in_flight : Z;
}.

#[global] Instance core_settable : Settable QueueCoreGetWork := fun c =>
  mkCore (mem_len c) (queue_desc c) (queue_size c) (features c) (inner c) (armed c) (failed c) (in_flight c).

Definition is_split (c : QueueCoreGetWork) : bool := match inner c with GetSplit _ => true | GetPacked _ => false end.

(** The index and the wrap bit of a saved cursor. *)
Definition saved_cursor (saved : option Z) : Z * bool :=
  match saved with Some v => (Z.land v 0x7fff, negb (Z.shiftr v 15 =? 0)) | None => (0, true) end.

Definition is_power_of_two (x : Z) : bool := (0 <? x) && (Z.land x (x - 1) =? 0).

Definition get_new (mem_len : Z) (features : VirtioDeviceFeatures) (params : QueueParams)
    (initial_state : option QueueState) : res QueueError QueueCoreGetWork :=
  let size := params_size params in
  if (size =? 0) || (2 ^ 15 <? size) then Err (InvalidQueueSize size)
  else if negb (ring_packed features) && negb (is_power_of_two size) then Err (InvalidQueueSize size)
  else
    let! queue_desc := subrange_err mem_len (desc_addr params) (descriptor_offset size) in
    let! inner :=
      if ring_packed features then
        let '(index, wrap) := saved_cursor (avail_index <$> initial_state) in
        let! q := PackedGet.new mem_len params index wrap in
        Ok (GetPacked q)
      else
        let! q := SplitGet.new mem_len features params (default 0 (avail_index <$> initial_state)) in
        Ok (GetSplit q) in
    let! in_flight :=
      match initial_state with
      | None => Ok 0
      | Some state =>
          if ring_packed features then packed_in_flight (avail_index state) (used_index state) size
          else split_in_flight (avail_index state) (used_index state) size
      end in
    Ok (mkCore mem_len queue_desc size features inner false false in_flight).

(** An operation of the ring, on the queue. *)
Definition on_inner {A} (split : QM SplitGet.SplitQueueGetWork A) (packed : QM PackedGet.PackedQueueGetWork A)
    : QM QueueCoreGetWork A := fun st =>
  match inner st.2 with
  | GetSplit q => let! x := split (st.1, q) in Ok (x.1.1, st.2 <| inner := GetSplit x.1.2 |>, x.2)
  | GetPacked q => let! x := packed (st.1, q) in Ok (x.1.1, st.2 <| inner := GetPacked x.1.2 |>, x.2)
  end.

(** A descriptor of 16 bytes, as split and as packed rings read it. *)
Definition read_split_descriptor (v : View) (index : Z) (m : GuestMemory) : option QueueDescriptor :=
  let a := descriptor_offset index in
  address ← view_read 8 v a m;
  length ← view_read 4 v (a + 8) m;
  raw ← view_read 2 v (a + 12) m;
  next ← view_read 2 v (a + 14) m;
  let flags := DescriptorFlags_from raw in
  Some (mkDescriptor address length flags None (if fl_next flags then Some next else None)).

Definition read_packed_descriptor (v : View) (index queue_size : Z) (active_indirect_len : option Z) (m : GuestMemory)
    : option QueueDescriptor :=
  let a := descriptor_offset index in
  address ← view_read 8 v a m;
  length ← view_read 4 v (a + 8) m;
  buffer_id ← view_read 2 v (a + 12) m;
  raw ← view_read 2 v (a + 14) m;
  let flags := DescriptorFlags_from raw in
  let next := ucast 16 (index + 1) in
  Some (mkDescriptor address length flags (Some buffer_id)
    (match active_indirect_len with
     | Some len => if next <? len then Some next else None
     | None => if fl_next flags then Some (if queue_size <=? next then 0 else next) else None
     end)).

Definition descriptor (c : QueueCoreGetWork) (desc_queue : View) (index : Z) (active_indirect_len : option Z)
    (m : GuestMemory) : res QueueError QueueDescriptor :=
  match
    if is_split c then read_split_descriptor desc_queue index m
    else read_packed_descriptor desc_queue index (queue_size c) active_indirect_len m
  with
  | Some d => Ok d
  | None => Err MemoryError
  end.

Record DescriptorChain : Type := mkChain {
  indirect_queue : option View;
  indirect_table_len : option Z;
  descriptor_index : option Z;
  last_primary_desc_index : Z;
  num_read : Z;
}.

#[global] Instance chain_settable : Settable DescriptorChain := fun ch =>
  mkChain (indirect_queue ch) (indirect_table_len ch) (descriptor_index ch) (last_primary_desc_index ch) (num_read ch).

Definition chain_new (index : Z) : DescriptorChain := mkChain None None (Some index) index 0.

(** The descriptor at [index], or the first one of the table it points to. *)
Definition resolve_descriptor (c : QueueCoreGetWork) (m : GuestMemory) (index : Z) (ch : DescriptorChain)
    : res QueueError (DescriptorChain * QueueDescriptor) :=
  let! d := descriptor c (default (queue_desc c) (indirect_queue ch)) index (indirect_table_len ch) m in
  if negb (ring_indirect_desc (features c)) || negb (fl_indirect (qd_flags d)) then
    Ok (if bool_decide (indirect_queue ch = None) then ch <| last_primary_desc_index := index |> else ch, d)
  else if negb (bool_decide (indirect_queue ch = None)) then Err DoubleIndirect
  else
    let! table := subrange_err (mem_len c) (qd_address d) (qd_length d) in
    let indirect_len := ucast 16 (qd_length d / DESCRIPTOR_SIZE) in
    let! d := descriptor c table 0 (Some indirect_len) m in
    Ok (ch <| indirect_queue := Some table |> <| indirect_table_len := Some indirect_len |>
           <| descriptor_index := Some 0 |>, d).

Definition next_descriptor (c : QueueCoreGetWork) (m : GuestMemory) (ch : DescriptorChain)
    : res QueueError (DescriptorChain * option QueueDescriptor) :=
  match descriptor_index ch with
  | None => Ok (ch, None)
  | Some index =>
      let! x := resolve_descriptor c m index ch in
      let '(ch, d) := x in
      let! n := uadd 16 (num_read ch) 1 in
      let ch := ch <| num_read := n |> <| descriptor_index := qd_next d |> in
      if negb (bool_decide (descriptor_index ch = None)) && (n =? queue_size c) then Err TooLong
      else Ok (ch, Some d)
  end.

(** [DescriptorReader]: the payload of a descriptor. *)
Definition payload_of (d : QueueDescriptor) : VirtioQueuePayload :=
  mkPayload (fl_write (qd_flags d)) (qd_address d) (qd_length d).

(** [collect] of the reader; every descriptor is counted, so that there is one
    step more than the queue size at most. *)
Fixpoint collect_chain (fuel : nat) (c : QueueCoreGetWork) (m : GuestMemory) (ch : DescriptorChain)
    : res QueueError (list VirtioQueuePayload * DescriptorChain) :=
  match fuel with
  | O => Panic
  | S fuel =>
      let! x := next_descriptor c m ch in
      match x with
      | (ch, None) => Ok ([], ch)
      | (ch, Some d) =>
          let! r := collect_chain fuel c m ch in
          Ok (payload_of d :: r.1, r.2)
      end
  end.

Definition reader_collect (c : QueueCoreGetWork) (m : GuestMemory) (index : Z)
    : res QueueError (list VirtioQueuePayload * DescriptorChain) :=
  collect_chain (Z.to_nat (queue_size c) + 1) c m (chain_new index).

Definition work_from_index (c : QueueCoreGetWork) (index : Z) (m : GuestMemory)
    : res QueueError VirtioQueueCallbackWork :=
  match inner c with
  | GetSplit q =>
      let! descriptor_index :=
        match SplitGet.get_available_descriptor_index index q m with Some i => Ok i | None => Err MemoryError end in
      let! r := reader_collect c m descriptor_index in
      Ok (mkWork (mkCompletion SplitContext descriptor_index) r.1)
  | GetPacked _ =>
      let! r := reader_collect c m index in
      let last_index := last_primary_desc_index r.2 in
      let! last := descriptor c (queue_desc c) last_index None m in
      let! count :=
        if index <=? last_index then uadd 16 (last_index - index) 1
        else
          let! a := usub (queue_size c) index in
          let! b := uadd 16 a last_index in
          uadd 16 b 1 in
      match qd_buffer_id last with
      | None => Panic
      | Some buffer_id => Ok (mkWork (mkCompletion (PackedContext buffer_id count) index) r.1)
      end
  end.

Definition suppress_if_armed : QM QueueCoreGetWork unit := fun st =>
  if armed st.2 then
    let! x := on_inner SplitGet.suppress_kicks PackedGet.suppress_kicks (st.1, st.2 <| armed := false |>) in
    Ok (x.1, inr tt)
  else Ok (st, inr tt).

Definition try_peek_work_inner : QM QueueCoreGetWork (option VirtioQueueCallbackWork) :=
  let? index := on_inner SplitGet.is_available PackedGet.is_available in
  match index with
  | None => qret None
  | Some index =>
      let? _ := suppress_if_armed in
      let? c := qget in
      let? work := qtry (work_from_index c index) in
      let requested := in_flight_cost (completion work) in
      let? room := qlift (usub (queue_size c) (in_flight c)) in
      if room <? requested then qtry (fun _ => Err (TooManyInFlightDescriptors (in_flight c) requested (queue_size c)))
      else qret (Some work)
  end.

Definition try_peek_work : QM QueueCoreGetWork (option VirtioQueueCallbackWork) := fun st =>
  if failed st.2 then Ok (st, inr None)
  else
    let! x := try_peek_work_inner st in
    match x.2 with
    | inl e => Ok (x.1.1, x.1.2 <| failed := true |>, inl e)
    | inr r => Ok (x.1, inr r)
    end.

Definition arm_for_kick : QM QueueCoreGetWork bool := fun st =>
  if armed st.2 then Ok (st, inr true)
  else
    let! x := on_inner SplitGet.arm_kick PackedGet.arm_kick st in
    match x.2 with
    | inr false => Ok (x.1, inr false)
    | _ => Ok (x.1.1, x.1.2 <| armed := true |>, inr true)
    end.

Definition core_advance (comp : QueueCompletion) (c : QueueCoreGetWork) : res void QueueCoreGetWork :=
  let! i :=
    match inner c with
    | GetSplit q => Ok (GetSplit (SplitGet.advance q))
    | GetPacked q =>
        match qc_context comp with
        | SplitContext => Panic
        | PackedContext _ count => let! q := PackedGet.advance count q in Ok (GetPacked q)
        end
    end in
  let! n := uadd 16 (in_flight c) (in_flight_cost comp) in
  Ok (c <| inner := i |> <| in_flight := n |>).

Definition work_completed (comp : QueueCompletion) (c : QueueCoreGetWork) : res void QueueCoreGetWork :=
  let! n := usub (in_flight c) (in_flight_cost comp) in
  Ok (c <| in_flight := n |>).

Definition try_next_work : QM QueueCoreGetWork (option VirtioQueueCallbackWork) :=
  let? r := try_peek_work in
  match r with
  | Some work =>
      let? c := qget in
      let? c := qlift (core_advance (completion work) c) in
      let? _ := qmodify (fun _ => c) in
      qret (Some work)
  | None => qret None
  end.

Definition core_avail_index (c : QueueCoreGetWork) : Z :=
  match inner c with
  | GetSplit q => SplitGet.last_avail_index q
  | GetPacked q => PackedGet.avail_state q
  end.

(** * Completing work *)

Inductive QueueCoreCompleteWork : Type :=
| CompleteSplit (q : SplitComplete.SplitQueueCompleteWork)
| CompletePacked (q : PackedComplete.PackedQueueCompleteWork).

Definition complete_new (mem_len : Z) (features : VirtioDeviceFeatures) (params : QueueParams)
    (initial_state : option QueueState) : res QueueError QueueCoreCompleteWork :=
  if ring_packed features then
    let '(index, wrap) := saved_cursor (used_index <$> initial_state) in
    let! q := PackedComplete.new mem_len features params index wrap in
    Ok (CompletePacked q)
  else
    let! q := SplitComplete.new mem_len features params (default 0 (used_index <$> initial_state)) in
    Ok (CompleteSplit q).

Definition core_used_index (c : QueueCoreCompleteWork) : Z :=
  match c with
  | CompleteSplit q => SplitComplete.last_used_index q
  | CompletePacked q => PackedComplete.used_state q
  end.

Definition complete_descriptor (comp : QueueCompletion) (bytes_written : Z) : QM QueueCoreCompleteWork bool := fun st =>
  match st.2 with
  | CompleteSplit q =>
      let! x := SplitComplete.complete_descriptor (qc_descriptor_index comp) bytes_written (st.1, q) in
      Ok (x.1.1, CompleteSplit x.1.2, x.2)
  | CompletePacked q =>
      match qc_context comp with
      | SplitContext => Panic
      | PackedContext buffer_id count =>
          let! x := PackedComplete.complete_descriptor buffer_id count bytes_written (st.1, q) in
          Ok (x.1.1, CompletePacked x.1.2, x.2)
      end
  end.

(** * The queue ([common.rs]) *)

(** [notify_guest] counts the interrupts delivered. *)
Record VirtioQueue : Type := mkQueue {
  core : QueueCoreGetWork;
  complete : QueueCoreCompleteWork;
  notify_guest : Z;
}.

#[global] Instance VirtioQueue_settable : Settable VirtioQueue := fun q => mkQueue (core q) (complete q) (notify_guest q).

(** [VirtioQueue::new], with [new_queue]. *)
Definition new_queue (mem_len : Z) (features : VirtioDeviceFeatures) (params : QueueParams)
    (initial_state : option QueueState) : res QueueError VirtioQueue :=
  let! get_work := get_new mem_len features params initial_state in
  let! complete_work := complete_new mem_len features params initial_state in
  Ok (mkQueue get_work complete_work 0).

Definition queue_state (q : VirtioQueue) : QueueState :=
  mkQueueState (core_avail_index (core q)) (core_used_index (complete q)).

(** An operation of the fetching side. *)
Definition on_core {A} (p : QM QueueCoreGetWork A) : QM VirtioQueue A := fun st =>
  let! x := p (st.1, core st.2) in
  Ok (x.1.1, st.2 <| core := x.1.2 |>, x.2).

Definition try_next : QM VirtioQueue (option VirtioQueueCallbackWork) := on_core try_next_work.

Definition try_peek : QM VirtioQueue (option VirtioQueueCallbackWork) := on_core try_peek_work.

(** [PeekedWork::consume]. *)
Definition consume (work : VirtioQueueCallbackWork) : QM VirtioQueue VirtioQueueCallbackWork :=
  let? q := qget in
  let? c := qlift (core_advance (completion work) (core q)) in
  let? _ := qmodify (fun q => q <| core := c |>) in
  qret work.

(** [poll_kick]: whether it is ready; [kicked] is the state of the event. *)
Definition poll_kick (kicked : bool) : QM VirtioQueue bool :=
  let? q := qget in
  if failed (core q) then qret false
  else
    let? a := on_core arm_for_kick in
    qret (if a then kicked else true).

Definition complete_prepared (comp : QueueCompletion) (bytes_written : Z) : QM VirtioQueue unit := fun st =>
  let! c := work_completed comp (core st.2) in
  let q := st.2 <| core := c |> in
  let! x := complete_descriptor comp bytes_written (st.1, complete q) in
  let q := q <| complete := x.1.2 |> in
  let q := match x.2 with inr true => q <| notify_guest := notify_guest q + 1 |> | _ => q end in
  Ok (x.1.1, q, inr tt).

(** * Payload *)

Definition saturating_add_64 (a b : Z) : Z := Z.min (a + b) (2 ^ 64 - 1).

(** Reads up to [len] bytes, of a memory that fails past [2^64]. *)
Fixpoint read_from_payload_at_offset (pl : list VirtioQueuePayload) (skip : Z) (m : GuestMemory) (len : Z)
    : option (list Z) :=
  match pl with
  | [] => Some []
  | p :: pl =>
      if writeable p then read_from_payload_at_offset pl skip m len
      else if pl_length p <=? skip then read_from_payload_at_offset pl (skip - pl_length p) m len
      else
        let usable := pl_length p - skip in
        let size := Z.min usable len in
        l ← read_at (Z.to_nat size) (saturating_add_64 (pl_address p) skip) m;
        if len - size =? 0 then Some l
        else
          l' ← read_from_payload_at_offset pl 0 m (len - size);
          Some (l ++ l')
  end.

(** The reader without an offset, over the same memory. *)
Fixpoint read_from_payload (pl : list VirtioQueuePayload) (m : GuestMemory) (len : Z) : option (list Z) :=
  match pl with
  | [] => Some []
  | p :: pl =>
      if writeable p then read_from_payload pl m len
      else
        let size := Z.min (pl_length p) len in
        l ← read_at (Z.to_nat size) (pl_address p) m;
        if len - size =? 0 then Some l
        else
          l' ← read_from_payload pl m (len - size);
          Some (l ++ l')
  end.

Definition get_payload_length (pl : list VirtioQueuePayload) (w : bool) : Z :=
  foldr (fun p acc => if eqb (writeable p) w then acc + pl_length p else acc) 0 pl.

Inductive VirtioWriteError : Type :=
| WriteMemory
| NotAllWritten (len : Z).

(** The loop of [write_at_offset]: memory and the bytes left over. What a failed
    write leaves in memory is not modelled. *)
Fixpoint write_payload (pl : list VirtioQueuePayload) (skip_bytes : Z) (source : list Z) (m : GuestMemory)
    : option (GuestMemory * list Z) :=
  match pl with
  | [] => Some (m, source)
  | p :: pl =>
      if negb (writeable p) then write_payload pl skip_bytes source m
      else if pl_length p <=? skip_bytes then write_payload pl (skip_bytes - pl_length p) source m
      else
        let size := Z.to_nat (Z.min (pl_length p - skip_bytes) (Z.of_nat (length source))) in
        m ← write_at (saturating_add_64 (pl_address p) skip_bytes) (take size source) m;
        match drop size source with
        | [] => Some (m, [])
        | remaining => write_payload pl 0 remaining m
        end
  end.

Definition write_at_offset (pl : list VirtioQueuePayload) (offset : Z) (source : list Z) (m : GuestMemory)
    : res VirtioWriteError GuestMemory :=
  match write_payload pl offset source m with
  | None => Err WriteMemory
  | Some (m, []) => Ok m
  | Some (_, _) => Err (NotAllWritten (Z.of_nat (length source)))
  end.

(** * In-order completion ([in_order.rs]) *)

Module InOrder.

(** The work completed but not published, by descriptor index. *)
Record InOrderCompletion : Type := mk {
  order : list Z;
  completed : list (option (QueueCompletion * Z));
}.

#[global] Instance settable : Settable InOrderCompletion := fun o => mk (order o) (completed o).

Definition new (queue_size : Z) : InOrderCompletion := mk [] (replicate (Z.to_nat queue_size) None).

Definition try_next (o : InOrderCompletion) : QM VirtioQueue (option VirtioQueueCallbackWork * InOrderCompletion) :=
  let? work := try_next in
  match work with
  | None => qret (None, o)
  | Some w =>
      let idx := qc_descriptor_index (completion w) in
      let? _ := qlift (assert! idx <? Z.of_nat (length (completed o)) in Ok tt) in
      qret (Some w, o <| order := order o ++ [idx] |>)
  end.

(** Publishes the work completed at the front of the order. *)
Fixpoint drain_completed_prefix (l : list Z) (slots : list (option (QueueCompletion * Z)))
    : QM VirtioQueue InOrderCompletion :=
  match l with
  | [] => qret (mk [] slots)
  | front :: l' =>
      let? slot := qlift (vec_get slots front) in
      match slot with
      | None => qret (mk l slots)
      | Some (comp, bytes_written) =>
          let? _ := complete_prepared comp bytes_written in
          drain_completed_prefix l' (<[Z.to_nat front := None]> slots)
      end
  end.

Definition complete (comp : QueueCompletion) (bytes_written : Z) (o : InOrderCompletion)
    : QM VirtioQueue InOrderCompletion :=
  let idx := qc_descriptor_index comp in
  let slow :=
    let? slot := qlift (vec_get (completed o) idx) in
    let? _ := qlift (assert! bool_decide (slot = None) in Ok tt) in
    qret (o <| completed := <[Z.to_nat idx := Some (comp, bytes_written)]> (completed o) |>) in
  match order o with
  | front :: l =>
      if front =? idx then
        let? _ := complete_prepared comp bytes_written in
        drain_completed_prefix l (completed o)
      else slow
  | [] => slow
  end.

End InOrder.
