(* ===== verification/VirtioQueueSpec.v ===== *)
(** Fetching from virtio queues whose memory the guest writes as it likes: the
    work fetched is the descriptor chain in memory, its length is bounded, and
    nothing panics. *)

From stdpp Require Import gmap.
From S2P Require Import Prelude GuestMem VirtioQueue.

Implicit Type m : GuestMemory.
Implicit Type c : QueueCoreGetWork.

(** * Reasoning about operations *)

(** The operation returns, and [Q] holds of what it returns and leaves. *)
Definition wp {S A} (p : QM S A) (Q : GuestMemory * S -> QueueError + A -> Prop) (st : GuestMemory * S) : Prop :=
  match p st with Ok (st', r) => Q st' r | _ => False end.

Section Wp.

Context {S : Type}.

Lemma wp_bind {A B} (p : QM S A) (k : A -> QM S B) Q st :
  wp p (fun st' r => match r with inl e => Q st' (inl e) | inr a => wp (k a) Q st' end) st -> wp (qbind p k) Q st.
Proof.
  unfold wp, qbind. destruct (p st) as [[st' [e|a]]| |]; cbn; [done| |done|done]. done.
Qed.

Lemma wp_mono {A} (p : QM S A) (Q Q' : GuestMemory * S -> QueueError + A -> Prop) st :
  wp p Q st -> (forall st' r, Q st' r -> Q' st' r) -> wp p Q' st.
Proof. unfold wp. destruct (p st) as [[st' r]| |]; auto. Qed.

Lemma wp_ret {A} (a : A) (Q : GuestMemory * S -> QueueError + A -> Prop) st : Q st (inr a) -> wp (qret a) Q st.
Proof. done. Qed.

Lemma wp_get Q (st : GuestMemory * S) : Q st (inr st.2) -> wp qget Q st.
Proof. done. Qed.

Lemma wp_modify f Q (st : GuestMemory * S) : Q (st.1, f st.2) (inr tt) -> wp (qmodify f) Q st.
Proof. done. Qed.

Lemma wp_read {A} (f : GuestMemory -> option A) Q (st : GuestMemory * S) :
  match f st.1 with Some a => Q st (inr a) | None => Q st (inl MemoryError) end -> wp (qread f) Q st.
Proof. unfold wp, qread. by destruct (f st.1). Qed.

Lemma wp_write f Q (st : GuestMemory * S) :
  match f st.1 with Some m => Q (m, st.2) (inr tt) | None => Q st (inl MemoryError) end -> wp (qwrite f) Q st.
Proof. unfold wp, qwrite. by destruct (f st.1). Qed.

Lemma wp_lift {A} (r : res void A) a (Q : GuestMemory * S -> QueueError + A -> Prop) st :
  r = Ok a -> Q st (inr a) -> wp (qlift r) Q st.
Proof. unfold wp, qlift. by intros ->. Qed.

Lemma wp_try {A} (f : GuestMemory -> res QueueError A) Q (st : GuestMemory * S) :
  match f st.1 with Ok a => Q st (inr a) | Err e => Q st (inl e) | Panic => False end -> wp (qtry f) Q st.
Proof. unfold wp, qtry. by destruct (f st.1). Qed.

End Wp.

(** Steps through the operations that an operation is made of. *)
Ltac wp_step :=
  first [ apply wp_bind | apply wp_get | apply wp_ret | apply wp_modify | apply wp_read | apply wp_write | apply wp_try ];
  cbn [fst snd].

Lemma wp_bind_get {S B} (k : S -> QM S B) Q st : wp (k st.2) Q st -> wp (qbind qget k) Q st.
Proof. intros H. by apply wp_bind. Qed.

(** * Descriptors *)

Lemma view_read_bound n v off m x : view_read n v off m = Some x -> off + Z.of_nat n <= v_len v.
Proof. unfold view_read. by destruct (Z.leb_spec (off + Z.of_nat n) (v_len v)). Qed.

Lemma read_word_bound n a m x : (forall x b, m !! x = Some b -> is_u 8 b) -> read_word n a m = Some x -> 0 <= x < 256 ^ Z.of_nat n.
Proof.
  intros Hm. unfold read_word. destruct (read_at n a m) as [l|] eqn:Hr; [|done]. intros [= <-].
  apply read_at_spec in Hr as [Hl H]. rewrite <-Hl. apply le_value_bound. apply Forall_forall. intros b Hb.
  apply list_elem_of_In, list_elem_of_lookup in Hb as [i Hi]. apply (Hm (a + Z.of_nat i)). rewrite H; [done|].
  apply lookup_lt_Some in Hi. lia.
Qed.

(** A descriptor that was read is in its table. *)
Lemma descriptor_in_view c v index len m d : descriptor c v index len m = Ok d -> index * 16 + 16 <= v_len v.
Proof.
  unfold descriptor, read_split_descriptor, read_packed_descriptor, descriptor_offset, DESCRIPTOR_SIZE.
  destruct (is_split c);
    (destruct (view_read 8 v _ m); [|done]); (destruct (view_read 4 v _ m); [|done]);
    (destruct (view_read 2 v (_ + 12) m); [|done]);
    (destruct (view_read 2 v (_ + 14) m) eqn:Hr; [|done]); intros _; apply view_read_bound in Hr; lia.
Qed.

Lemma descriptor_no_panic c v index len m : descriptor c v index len m <> Panic.
Proof. unfold descriptor. by destruct (if is_split c then _ else _). Qed.

(** The descriptor is a buffer, not a table. *)
Definition plain c (d : QueueDescriptor) : bool :=
  negb (ring_indirect_desc (features c)) || negb (fl_indirect (qd_flags d)).

(** * Chains *)

(** The descriptors from the entry [i] of a table on. *)
Inductive table_chain c m (v : View) (len : Z) : Z -> list QueueDescriptor -> Prop :=
| table_last i d :
    descriptor c v i (Some len) m = Ok d -> plain c d = true -> qd_next d = None -> table_chain c m v len i [d]
| table_next i d j l :
    descriptor c v i (Some len) m = Ok d -> plain c d = true -> qd_next d = Some j ->
    table_chain c m v len j l -> table_chain c m v len i (d :: l).

(** The descriptors from the entry [i] of the ring on; one that points to a
    table stands for the descriptors of the table, and ends the chain. The first
    descriptor of the table is one that [first] holds of. *)
Inductive chain_with (first : QueueDescriptor -> bool) c m : Z -> list QueueDescriptor -> Prop :=
| chain_last i d :
    descriptor c (queue_desc c) i None m = Ok d -> plain c d = true -> qd_next d = None -> chain_with first c m i [d]
| chain_next i d j l :
    descriptor c (queue_desc c) i None m = Ok d -> plain c d = true -> qd_next d = Some j ->
    chain_with first c m j l -> chain_with first c m i (d :: l)
| chain_table i d v d0 l :
    descriptor c (queue_desc c) i None m = Ok d -> plain c d = false ->
    subrange (mem_len c) (qd_address d) (qd_length d) = Some v ->
    let len := ucast 16 (qd_length d / 16) in
    descriptor c v 0 (Some len) m = Ok d0 -> first d0 = true ->
    match qd_next d0 with None => l = [] | Some j => table_chain c m v len j l end ->
    chain_with first c m i (d0 :: l).

(** A chain as the driver must make it: no descriptor of a table points to a
    table. *)
Definition chain c m : Z -> list QueueDescriptor -> Prop := chain_with (plain c) c m.

(** The same, whatever the first descriptor of a table is: the ones that the
    code takes. *)
Definition followed c m : Z -> list QueueDescriptor -> Prop := chain_with (fun _ => true) c m.

(** There is a table, and its first descriptor points to a table. *)
Inductive nested c m : Z -> Prop :=
| nested_next i d j :
    descriptor c (queue_desc c) i None m = Ok d -> plain c d = true -> qd_next d = Some j -> nested c m j -> nested c m i
| nested_table i d v d0 :
    descriptor c (queue_desc c) i None m = Ok d -> plain c d = false ->
    subrange (mem_len c) (qd_address d) (qd_length d) = Some v ->
    descriptor c v 0 (Some (ucast 16 (qd_length d / 16))) m = Ok d0 -> plain c d0 = false -> nested c m i.

Lemma chain_followed c m i l : chain c m i l -> followed c m i l /\ ~ nested c m i.
Proof.
  unfold chain, followed. induction 1 as [i d Hd Hp Hn|i d j l Hd Hp Hn Hc [IH1 IH2]|i d v d0 l Hd Hp Hs len Hd0 H0 Hl].
  - split; [by apply chain_last|]. inversion 1; congruence.
  - split; [by eapply chain_next|]. inversion 1; congruence.
  - split; [by eapply chain_table|]. inversion 1 as [|i' d' v' d0' Hd' _ Hs' Hd0' Hp']; try congruence. subst i'.
    rewrite Hd in Hd'. injection Hd' as <-. rewrite Hs in Hs'. injection Hs' as <-. fold len in Hd0'. congruence.
Qed.

Lemma followed_chain c m i l : followed c m i l -> chain c m i l \/ nested c m i /\ forall l', ~ chain c m i l'.
Proof.
  intros H. assert (chain c m i l \/ nested c m i) as [Hc|Hn]; [|by left|right; split; [done|by intros l' [_ ?]%chain_followed]].
  unfold chain, followed in *. induction H as [i d Hd Hp Hn|i d j l Hd Hp Hn Hc [IH|IH]|i d v d0 l Hd Hp Hs len Hd0 H0 Hl].
  - left. by apply chain_last.
  - left. by eapply chain_next.
  - right. by eapply nested_next.
  - destruct (plain c d0) eqn:Hp0; [left; by eapply chain_table|right; by eapply nested_table].
Qed.

(** The rest of the chain that [ch] has read a part of. *)
Definition chain_rest c m (ch : DescriptorChain) (l : list QueueDescriptor) : Prop :=
  match descriptor_index ch with
  | None => l = []
  | Some i =>
      match indirect_queue ch, indirect_table_len ch with
      | None, None => followed c m i l
      | Some v, Some len => table_chain c m v len i l
      | _, _ => False
      end
  end.

Record chain_ok c (ch : DescriptorChain) : Prop := {
  co_num : 0 <= num_read ch <= queue_size c;
  co_more : descriptor_index ch <> None -> num_read ch < queue_size c;
  co_table : is_Some (indirect_queue ch) <-> is_Some (indirect_table_len ch);
}.

(** One descriptor is read: it is the first one of the rest. *)
Lemma resolve_spec c m ch i :
  chain_ok c ch -> descriptor_index ch = Some i ->
  match resolve_descriptor c m i ch with
  | Ok (ch', d) =>
      num_read ch' = num_read ch /\ (is_Some (indirect_queue ch') <-> is_Some (indirect_table_len ch')) /\
      forall l, chain_rest c m ch l <->
        exists l', l = d :: l' /\ chain_rest c m (ch' <| descriptor_index := qd_next d |>) l'
  | Err _ => forall l, ~ chain_rest c m ch l
  | Panic => False
  end.
Proof.
  intros [_ _ Hb] Hi. unfold resolve_descriptor, chain_rest. rewrite Hi.
  destruct (indirect_queue ch) as [v|] eqn:Hv, (indirect_table_len ch) as [len|] eqn:Hlen.
  2: { destruct Hb as [[? [=]] _]. by eexists. }
  2: { destruct Hb as [_ [? [=]]]. by eexists. }
  - change (default (queue_desc c) (Some v)) with v. destruct (descriptor c v i (Some len) m) as [d|e|] eqn:Hd; cbn [res_bind].
    2: { intros l Hl. inversion Hl; congruence. }
    2: { by apply descriptor_no_panic in Hd. }
    fold (plain c d). destruct (plain c d) eqn:Hp.
    + rewrite bool_decide_eq_false_2 by done. rewrite Hv, Hlen. split_and!; try done. cbn. rewrite Hv, Hlen. intros l. split.
      * intros Hl. inversion Hl as [i' d' Hd' _ Hn|i' d' j l' Hd' _ Hn Hl']; subst; rewrite Hd in Hd'; injection Hd' as <-;
          rewrite Hn; eauto.
      * intros (l' & -> & Hl'). destruct (qd_next d) as [j|] eqn:Hn; [by eapply table_next|subst l'; by apply table_last].
    + rewrite bool_decide_eq_false_2 by done. cbn [negb]. intros l Hl. inversion Hl; congruence.
  - change (default (queue_desc c) None) with (queue_desc c). destruct (descriptor c (queue_desc c) i None m) as [d|e|] eqn:Hd; cbn [res_bind].
    2: { intros l Hl. inversion Hl; congruence. }
    2: { by apply descriptor_no_panic in Hd. }
    fold (plain c d). rewrite bool_decide_eq_true_2 by done. destruct (plain c d) eqn:Hp.
    + cbn. rewrite Hv, Hlen. split_and!; try done. intros l. split.
      * intros Hl. inversion Hl as [i' d' Hd' _ Hn|i' d' j l' Hd' _ Hn Hl'|]; subst; try congruence; rewrite Hd in Hd';
          injection Hd' as <-; rewrite Hn; eauto.
      * intros (l' & -> & Hl'). destruct (qd_next d) as [j|] eqn:Hn; [by eapply chain_next|subst l'; by apply chain_last].
    + cbn [negb]. unfold subrange_err. destruct (subrange (mem_len c) (qd_address d) (qd_length d)) as [v|] eqn:Hs; cbn [res_bind].
      2: { intros l Hl. inversion Hl; congruence. }
      unfold DESCRIPTOR_SIZE. set (len := ucast 16 (qd_length d / 16)).
      destruct (descriptor c v 0 (Some len) m) as [d0|e|] eqn:Hd0; cbn [res_bind].
      2: { intros l Hl. inversion Hl as [| |i' d' v' d0' l' Hd' _ Hs' len' Hd0' _ _]; try congruence. subst i' l.
           rewrite Hd in Hd'. injection Hd' as <-. rewrite Hs in Hs'. injection Hs' as <-.
           change len' with len in Hd0'. congruence. }
      2: { by apply descriptor_no_panic in Hd0. }
      cbn. split_and!; [done|split; by eexists|]. intros l. split.
      * intros Hl. inversion Hl as [| |i' d' v' d0' l' Hd' _ Hs' len' Hd0' _ Hl']; try congruence. subst i' l.
        rewrite Hd in Hd'. injection Hd' as <-. rewrite Hs in Hs'. injection Hs' as <-.
        change len' with len in Hd0', Hl'. rewrite Hd0 in Hd0'. injection Hd0' as <-. eauto.
      * intros (l' & -> & Hl'). eapply chain_table; eauto.
Qed.

Lemma next_spec c m ch :
  queue_size c <= 2 ^ 15 -> chain_ok c ch ->
  match next_descriptor c m ch with
  | Ok (ch', None) => ch' = ch /\ descriptor_index ch = None
  | Ok (ch', Some d) =>
      chain_ok c ch' /\ num_read ch' = num_read ch + 1 /\ (exists i, descriptor_index ch = Some i) /\
      forall l, chain_rest c m ch l <-> exists l', l = d :: l' /\ chain_rest c m ch' l'
  | Err _ => forall l, chain_rest c m ch l -> queue_size c < num_read ch + Z.of_nat (length l)
  | Panic => False
  end.
Proof.
  intros Hsz Hok. unfold next_descriptor. destruct (descriptor_index ch) as [i|] eqn:Hi; [|done].
  pose proof (resolve_spec c m ch i Hok Hi) as HR. destruct (resolve_descriptor c m i ch) as [[ch1 d]|e|]; cbn [res_bind].
  2: { intros l Hl. by apply HR in Hl. }
  2: done.
  destruct HR as (Hn & Hb & HR). pose proof (co_more c ch Hok ltac:(congruence)) as Hlt. pose proof (co_num c ch Hok).
  rewrite uadd_ok by lia. cbn [res_bind]. set (ch2 := ch1 <| num_read := _ |> <| descriptor_index := _ |>).
  change (descriptor_index ch2) with (qd_next d).
  destruct (decide (qd_next d = None)) as [Hnext|Hnext].
  - rewrite bool_decide_eq_true_2 by done. cbn [negb andb]. split_and!; [|cbn; lia|by eexists|].
    + split; [cbn; lia| |done]. cbn. by rewrite Hnext.
    + exact HR.
  - rewrite bool_decide_eq_false_2 by done. cbn [negb andb]. destruct (Z.eqb_spec (num_read ch1 + 1) (queue_size c)) as [Hfull|Hfull].
    + intros l (l' & -> & Hl')%HR. cbn [length]. destruct l' as [|d' l'']; [|cbn [length]; lia]. exfalso.
      unfold chain_rest in Hl'. cbn in Hl'. destruct (qd_next d) as [j|]; [|done].
      destruct (indirect_queue ch1), (indirect_table_len ch1); try done; inversion Hl'.
    + split_and!; [|cbn; lia|by eexists|exact HR]. split; [cbn; lia|cbn; lia|done].
Qed.

Lemma collect_spec fuel c m ch :
  queue_size c <= 2 ^ 15 -> chain_ok c ch -> queue_size c - num_read ch < Z.of_nat fuel ->
  match collect_chain fuel c m ch with
  | Ok (pl, _) =>
      exists l, chain_rest c m ch l /\ num_read ch + Z.of_nat (length l) <= queue_size c /\ pl = map payload_of l
  | Err _ => forall l, chain_rest c m ch l -> queue_size c < num_read ch + Z.of_nat (length l)
  | Panic => False
  end.
Proof.
  intros Hsz. revert ch. induction fuel as [|fuel IH]; intros ch Hok Hf; [pose proof (co_num c ch Hok); lia|].
  cbn [collect_chain]. pose proof (next_spec c m ch Hsz Hok) as HN.
  destruct (next_descriptor c m ch) as [[ch1 [d|]]|e|]; cbn [res_bind]; [| |done|done].
  - destruct HN as (Hok1 & Hn & _ & HR). specialize (IH ch1 Hok1 ltac:(lia)).
    destruct (collect_chain fuel c m ch1) as [[pl ch2]|e|]; cbn [res_bind]; [| |done].
    + destruct IH as (l & Hl & Hlen & ->). exists (d :: l). split; [apply HR; eauto|]. split; [cbn [length]; lia|done].
    + intros l (l' & -> & Hl')%HR. specialize (IH l' Hl'). cbn [length]. lia.
  - destruct HN as [-> Hi]. exists []. unfold chain_rest. rewrite Hi. pose proof (co_num c ch Hok). cbn. split_and!; [done|lia|done].
Qed.

(** What holds of a queue whatever the guest does. *)
Record core_ok c : Prop := {
  ck_size : 1 <= queue_size c <= 2 ^ 15;
  ck_flight : 0 <= in_flight c <= queue_size c;
  ck_desc : v_len (queue_desc c) = descriptor_offset (queue_size c);
  ck_inner :
    match inner c with
    | GetSplit q =>
        SplitGet.queue_size q = queue_size c /\ (exists n, 0 <= n /\ queue_size c = 2 ^ n) /\
        is_u 16 (SplitGet.last_avail_index q)
    | GetPacked q =>
        PackedGet.queue_size q = queue_size c /\ 0 <= PackedGet.next_avail_index q < queue_size c
    end;
}.

Lemma chain_new_ok c index : core_ok c -> chain_ok c (chain_new index).
Proof. intros [Hs _ _ _]. split; cbn; [lia|lia|]. split; by intros [? [=]]. Qed.

(** C10: the buffers of a work item are the descriptor chain in guest memory.
    Whatever the guest wrote there, reading a chain ends without a panic. If it
    gives buffers, they are those of the chain there, through a table of indirect
    descriptors if the chain has one, and no more than the queue is long. If it
    gives an error, there is no chain, or only one that is longer than the queue.
    A chain has one table of indirect descriptors at most, and no descriptor of
    the table may point to another table; the code sees to that for all
    descriptors of the table but the first one. If the first one points to a table
    ([nested]) the code may give buffers though there is no chain; that is the
    only such case, and the first one then is a buffer like the others. *)
Theorem chain_exact c m index :
  core_ok c ->
  match reader_collect c m index with
  | Ok (pl, _) =>
      exists l, followed c m index l /\ (chain c m index l \/ nested c m index /\ forall l', ~ chain c m index l') /\
        Z.of_nat (length l) <= queue_size c /\ pl = map payload_of l
  | Err _ => forall l, chain c m index l \/ followed c m index l -> queue_size c < Z.of_nat (length l)
  | Panic => False
  end.
Proof.
  intros Hok. pose proof (ck_size c Hok). unfold reader_collect.
  pose proof (collect_spec (Z.to_nat (queue_size c) + 1) c m (chain_new index) ltac:(lia) (chain_new_ok c index Hok)
    ltac:(cbn; lia)) as HC.
  destruct (collect_chain _ c m (chain_new index)) as [[pl ch]|e|]; [| |done].
  - destruct HC as (l & Hl & Hlen & ->). exists l. split; [exact Hl|]. split; [by apply followed_chain|done].
  - intros l Hl. apply (HC l). destruct Hl as [[Hl _]%chain_followed|Hl]; exact Hl.
Qed.

(** * The extent of a chain *)

Lemma chain_head c m index l : core_ok c -> followed c m index l -> index < queue_size c.
Proof.
  intros Hok Hc. assert (exists d, descriptor c (queue_desc c) index None m = Ok d) as [d Hd%descriptor_in_view].
  { by inversion Hc; eauto. }
  rewrite (ck_desc c Hok) in Hd. unfold descriptor_offset, DESCRIPTOR_SIZE in Hd. lia.
Qed.

Lemma packed_next c v i m d :
  is_split c = false -> descriptor c v i None m = Ok d ->
  is_Some (qd_buffer_id d) /\
  forall j, qd_next d = Some j -> j = if queue_size c <=? ucast 16 (i + 1) then 0 else ucast 16 (i + 1).
Proof.
  intros Hs. unfold descriptor. rewrite Hs. unfold read_packed_descriptor.
  destruct (view_read 8 v _ m); [|done]. destruct (view_read 4 v _ m); [|done].
  destruct (view_read 2 v (_ + 12) m); [|done]. destruct (view_read 2 v (_ + 14) m); [|done]. intros [= <-]. cbn.
  split; [by eexists|]. intros j. destruct (Z.testbit _ 0); [|done]. by intros [= <-].
Qed.

(** The descriptors of the ring that were read are consecutive. *)
Record packed_chain c (index : Z) (ch : DescriptorChain) : Prop := {
  pc_last : exists k, 0 <= k < queue_size c /\ last_primary_desc_index ch = (index + k) mod queue_size c;
  pc_next : indirect_queue ch = None -> forall i, descriptor_index ch = Some i -> i = (index + num_read ch) mod queue_size c;
}.

Lemma next_packed c m index ch ch' d :
  core_ok c -> is_split c = false -> chain_ok c ch -> packed_chain c index ch ->
  next_descriptor c m ch = Ok (ch', Some d) -> packed_chain c index ch'.
Proof.
  intros Hck Hs Hok [(k & Hk & HL) HN]. pose proof (ck_size c Hck) as Hsz. unfold next_descriptor.
  destruct (descriptor_index ch) as [i|] eqn:Hi; [|done].
  pose proof (co_more c ch Hok ltac:(congruence)) as Hlt. pose proof (co_num c ch Hok) as Hnum.
  assert (forall ch1 d1, num_read ch1 = num_read ch -> packed_chain c index (ch1 <| num_read := num_read ch + 1 |> <| descriptor_index := qd_next d1 |>) ->
    (let! n := uadd 16 (num_read ch1) 1 in
     let ch2 := ch1 <| num_read := n |> <| descriptor_index := qd_next d1 |> in
     if negb (bool_decide (descriptor_index ch2 = None)) && (n =? queue_size c) then Err TooLong else Ok (ch2, Some d1)) =
      Ok (ch', Some d) -> packed_chain c index ch') as Hfin.
  { intros ch1 d1 Hn HP. rewrite Hn, uadd_ok by lia. cbn [res_bind]. destruct (_ && _); [done|]. by intros [= <- <-]. }
  unfold resolve_descriptor. destruct (descriptor c _ i _ m) as [d1|e|] eqn:Hd; [|done|done]. cbn [res_bind].
  destruct (negb (ring_indirect_desc (features c)) || negb (fl_indirect (qd_flags d1))).
  - destruct (decide (indirect_queue ch = None)) as [Hq|Hq]; cbn [res_bind].
    + rewrite bool_decide_eq_true_2 by done. specialize (HN Hq i eq_refl). apply Hfin; [done|]. split; cbn.
      * exists (num_read ch). split; [lia|done].
      * intros _ j Hj. pose proof (Z.mod_pos_bound (index + num_read ch) (queue_size c) ltac:(lia)) as Hb. rewrite <-HN in Hb.
        rewrite Hq in Hd. assert (indirect_table_len ch = None) as Hlen.
        { destruct (indirect_table_len ch) eqn:Hl; [|done]. pose proof (co_table c ch Hok) as [_ Ht]. rewrite Hl, Hq in Ht.
          destruct Ht as [? [=]]. by eexists. }
        rewrite Hlen in Hd. destruct (packed_next c _ i m d1 Hs Hd) as [_ Hj']. specialize (Hj' j Hj).
        unfold ucast in Hj'. rewrite Z.mod_small in Hj' by lia. rewrite Z.add_assoc, <-Zplus_mod_idemp_l, <-HN.
        destruct (Z.leb_spec (queue_size c) (i + 1)).
        -- subst j. replace (i + 1) with (queue_size c) by lia. symmetry. apply Z.mod_same. lia.
        -- subst j. symmetry. apply Z.mod_small. lia.
    + rewrite bool_decide_eq_false_2 by done. apply Hfin; [done|]. split; cbn; [by exists k|done].
  - destruct (decide (indirect_queue ch = None)) as [Hq|Hq]; cbn [res_bind].
    + rewrite bool_decide_eq_true_2 by done. cbn [negb]. destruct (subrange_err _ _ _) as [v|e|]; [|done|done].
      cbn [res_bind]. destruct (descriptor c v 0 _ m) as [d0|e|]; [|done|done]. cbn [res_bind].
      apply Hfin; [done|]. split; cbn; [by exists k|done].
    + by rewrite bool_decide_eq_false_2.
Qed.

Lemma collect_packed fuel c m index ch pl ch' :
  core_ok c -> is_split c = false -> chain_ok c ch -> packed_chain c index ch ->
  collect_chain fuel c m ch = Ok (pl, ch') -> packed_chain c index ch'.
Proof.
  intros Hck Hs. revert ch pl. induction fuel as [|fuel IH]; intros ch pl Hok HP; [done|]. cbn [collect_chain].
  pose proof (ck_size c Hck) as Hsz. pose proof (next_spec c m ch ltac:(lia) Hok) as HN.
  destruct (next_descriptor c m ch) as [[ch1 [d|]]|e|] eqn:Hnext; cbn [res_bind]; [| |done|done].
  - destruct HN as (Hok1 & _). pose proof (next_packed c m index ch ch1 d Hck Hs Hok HP Hnext) as HP1.
    destruct (collect_chain fuel c m ch1) as [[pl1 ch2]|e|] eqn:Hc; cbn [res_bind]; [|done|done].
    intros [= <- <-]. by apply (IH ch1 pl1).
  - destruct HN as [-> _]. by intros [= <- <-].
Qed.

Definition completion_ok c (comp : QueueCompletion) : Prop :=
  match inner c with
  | GetSplit _ => qc_context comp = SplitContext /\ qc_descriptor_index comp < queue_size c
  | GetPacked _ =>
      (exists id k, qc_context comp = PackedContext id k /\ 1 <= k <= queue_size c) /\
      0 <= qc_descriptor_index comp < queue_size c
  end.

Lemma completion_cost c comp : core_ok c -> completion_ok c comp -> 1 <= in_flight_cost comp <= queue_size c.
Proof.
  intros [Hs _ _ _] Hok. unfold completion_ok in Hok. unfold in_flight_cost.
  destruct (inner c); [destruct Hok as [-> _]; lia|]. by destruct Hok as ((id & k & -> & Hk) & _).
Qed.

(** The number of slots of the ring that a chain takes. *)
Lemma packed_count c index k :
  core_ok c -> 0 <= index < queue_size c -> 0 <= k < queue_size c ->
  let last_index := (index + k) mod queue_size c in
  (if index <=? last_index then uadd 16 (last_index - index) 1
   else let! a := usub (queue_size c) index in let! b := uadd 16 a last_index in uadd 16 b 1) = Ok (E:=QueueError) (k + 1).
Proof.
  intros Hck Hi Hk last_index. pose proof (ck_size c Hck) as Hsz.
  assert (last_index = index + k \/ last_index = index + k - queue_size c /\ queue_size c <= index + k) as Hl.
  { subst last_index. destruct (Z.ltb_spec (index + k) (queue_size c)); [left; apply Z.mod_small; lia|right].
    split; [|done]. symmetry. apply (Z.mod_unique _ _ 1); lia. }
  pose proof (Z.mod_pos_bound (index + k) (queue_size c) ltac:(lia)) as Hb. fold last_index in Hb.
  destruct (Z.leb_spec index last_index).
  - rewrite uadd_ok by lia. f_equal. lia.
  - rewrite usub_ok by lia. cbn [res_bind]. rewrite uadd_ok by lia. cbn [res_bind]. rewrite uadd_ok by lia. f_equal. lia.
Qed.

(** The chain of [comp] starts at what the available index [index] says. *)
Definition head_at c (index : Z) m (comp : QueueCompletion) : Prop :=
  match inner c with
  | GetSplit q => SplitGet.get_available_descriptor_index index q m = Some (qc_descriptor_index comp)
  | GetPacked _ => qc_descriptor_index comp = index
  end.

(** The work at an available index. *)
Lemma work_spec c index m :
  core_ok c -> (is_split c = false -> 0 <= index < queue_size c) ->
  match work_from_index c index m with
  | Ok w =>
      completion_ok c (completion w) /\ head_at c index m (completion w) /\
      exists l, followed c m (qc_descriptor_index (completion w)) l /\ Z.of_nat (length l) <= queue_size c /\
        payload w = map payload_of l
  | Err _ => True
  | Panic => False
  end.
Proof.
  intros Hck Hidx. pose proof (ck_size c Hck) as Hsz. unfold work_from_index, completion_ok, head_at.
  assert (forall i, match reader_collect c m i with
    | Ok (pl, _) => exists l, followed c m i l /\ Z.of_nat (length l) <= queue_size c /\ pl = map payload_of l
    | Err _ => True | Panic => False end) as Hread.
  { intros i. pose proof (collect_spec (Z.to_nat (queue_size c) + 1) c m (chain_new i) ltac:(lia) (chain_new_ok c i Hck)
      ltac:(cbn; lia)) as HC. unfold reader_collect. by destruct (collect_chain _ c m (chain_new i)) as [[pl ch]|e|]. }
  destruct (inner c) as [q|q] eqn:Hin.
  - destruct (SplitGet.get_available_descriptor_index index q m) as [i|] eqn:Hg; [|done]. cbn [res_bind]. specialize (Hread i).
    destruct (reader_collect c m i) as [[pl ch]|e|]; cbn [res_bind]; [|done|done]. destruct Hread as (l & Hl & Hn & ->).
    cbn. split; [split; [done|by eapply chain_head]|]. split; [done|eauto].
  - assert (is_split c = false) as Hs by (unfold is_split; by rewrite Hin). specialize (Hidx Hs). specialize (Hread index).
    assert (packed_chain c index (chain_new index)) as HP0.
    { split; cbn.
      - exists 0. split; [lia|]. rewrite Z.add_0_r. symmetry. by apply Z.mod_small.
      - intros _ i [= <-]. rewrite Z.add_0_r. symmetry. by apply Z.mod_small. }
    destruct (reader_collect c m index) as [[pl ch]|e|] eqn:Hc; cbn [res_bind]; [|done|done].
    destruct (collect_packed _ c m index _ pl ch Hck Hs (chain_new_ok c index Hck) HP0 Hc) as [(k & Hk & HL) _].
    cbn [snd fst]. destruct (descriptor c (queue_desc c) (last_primary_desc_index ch) None m) as [last|e|] eqn:Hd;
      cbn [res_bind]; [|done|by apply descriptor_no_panic in Hd].
    rewrite HL, (packed_count c index k Hck Hidx Hk). cbn [res_bind].
    destruct (packed_next c _ _ m last Hs Hd) as [[id ->] _]. destruct Hread as (l & Hl & Hn & ->). cbn.
    split; [|eauto]. split; [|done]. exists id, (k + 1). split; [done|lia].
Qed.

(** * The operations of the rings *)

Lemma split_available_eq m q :
  1 <= SplitGet.queue_size q ->
  let wrapped := Z.land (SplitGet.last_avail_index q) (SplitGet.queue_size q - 1) in
  SplitGet.is_available (m, q) =
    if SplitGet.cached_avail_index q =? SplitGet.last_avail_index q then
      match view_read 2 (SplitGet.queue_avail q) AVAIL_OFFSET_IDX m with
      | None => Ok (m, q, inl MemoryError)
      | Some a =>
          Ok (m, q <| SplitGet.cached_avail_index := a |>,
              inr (if a =? SplitGet.last_avail_index q then None else Some wrapped))
      end
    else Ok (m, q, inr (Some wrapped)).
Proof.
  intros Hs wrapped. unfold SplitGet.is_available, SplitGet.get_available_index, qbind, qget. cbn [res_bind snd fst].
  destruct (_ =? _).
  - unfold qread. cbn [fst]. destruct (view_read 2 _ _ m) as [a|]; cbn [res_bind snd fst]; [|done].
    unfold qmodify. cbn [res_bind snd fst]. destruct (a =? _); [done|]. unfold qlift. by rewrite usub_ok by lia.
  - unfold qlift. by rewrite usub_ok by lia.
Qed.

Lemma packed_available_eq m q :
  PackedGet.is_available (m, q) =
    if PackedGet.next_is_available q then Ok (m, q, inr (Some (PackedGet.next_avail_index q)))
    else
      match view_read 2 (PackedGet.queue_desc q) (descriptor_offset (PackedGet.next_avail_index q) + 14) m with
      | None => Ok (m, q, inl MemoryError)
      | Some raw =>
          let flags := DescriptorFlags_from raw in
          if eqb (fl_available flags) (PackedGet.wrapped_bit q) && negb (eqb (fl_used flags) (PackedGet.wrapped_bit q)) then
            Ok (m, q <| PackedGet.next_is_available := true |>, inr (Some (PackedGet.next_avail_index q)))
          else Ok (m, q, inr None)
      end.
Proof.
  unfold PackedGet.is_available, qbind, qget. cbn [res_bind snd fst]. destruct (PackedGet.next_is_available q); [done|].
  cbn [negb]. unfold qread. cbn [fst]. destruct (view_read 2 _ _ m) as [raw|]; cbn [res_bind snd fst]; [|done].
  cbn zeta. destruct (eqb (fl_available _) _), (eqb (fl_used _) _); done.
Qed.
