(* ===== verification/VirtioQueueOps.v ===== *)
(** The operations of virtio queues, each with what it returns, what it changes
    of the queue, and where it writes in memory: looking for work, fetching it,
    completing it, and arming notifications. *)

From stdpp Require Import gmap.
From S2P Require Import Prelude GuestMem VirtioQueue VirtioQueueSpec.

Implicit Type m : GuestMemory.
Implicit Type c : QueueCoreGetWork.

(** * The fixed part of a queue *)

Definition fixed_inner (i : QueueGetWorkInner) : QueueGetWorkInner :=
  match i with
  | GetSplit q => GetSplit (q <| SplitGet.last_avail_index := 0 |> <| SplitGet.cached_avail_index := 0 |>)
  | GetPacked q =>
      GetPacked (q <| PackedGet.next_avail_index := 0 |> <| PackedGet.wrapped_bit := true |>
        <| PackedGet.next_is_available := false |>)
  end.

Definition fixed_core c : QueueCoreGetWork :=
  c <| inner := fixed_inner (inner c) |> <| armed := false |> <| failed := false |> <| in_flight := 0 |>.

Definition fixed_complete (k : QueueCoreCompleteWork) : QueueCoreCompleteWork :=
  match k with
  | CompleteSplit q => CompleteSplit (q <| SplitComplete.last_used_index := 0 |>)
  | CompletePacked q => CompletePacked (q <| PackedComplete.next_index := 0 |> <| PackedComplete.wrapped_bit := true |>)
  end.

(** The views, the size and the features of a queue. *)
Definition fixed (q : VirtioQueue) : QueueCoreGetWork * QueueCoreCompleteWork :=
  (fixed_core (core q), fixed_complete (complete q)).

(** * What looking for work changes *)

Definition inner_step (i i' : QueueGetWorkInner) : Prop :=
  match i, i' with
  | GetSplit q, GetSplit q' => exists a, q' = q <| SplitGet.cached_avail_index := a |>
  | GetPacked q, GetPacked q' => exists b, q' = q <| PackedGet.next_is_available := b |>
  | _, _ => False
  end.

(** The queue [c'] after looking for work in [c]. *)
Record core_step c c' : Prop := {
  cs_mem_len : mem_len c' = mem_len c;
  cs_desc : queue_desc c' = queue_desc c;
  cs_size : queue_size c' = queue_size c;
  cs_features : features c' = features c;
  cs_flight : in_flight c' = in_flight c;
  cs_failed : failed c' = failed c;
  cs_inner : inner_step (inner c) (inner c');
}.

Lemma inner_step_refl i : inner_step i i.
Proof. destruct i as [[]|[]]; cbn; by eexists. Qed.

Lemma inner_step_trans i i' i'' : inner_step i i' -> inner_step i' i'' -> inner_step i i''.
Proof.
  destruct i, i', i''; try done; intros [a ->] [b ->]; by eexists.
Qed.

Lemma core_step_refl c : core_step c c.
Proof. split; try done. apply inner_step_refl. Qed.

Lemma core_step_trans c c' c'' : core_step c c' -> core_step c' c'' -> core_step c c''.
Proof. intros [] []. split; try congruence. by eapply inner_step_trans. Qed.

Lemma core_step_split c c' : core_step c c' -> is_split c' = is_split c.
Proof. intros [_ _ _ _ _ _ Hi]. unfold is_split. by destruct (inner c), (inner c'). Qed.

Lemma core_step_ok c c' : core_step c c' -> core_ok c -> core_ok c'.
Proof.
  intros [E1 E2 E3 E4 E5 E6 Hi] [C1 C2 C3 C4]. split; rewrite ?E2, ?E3, ?E5; try done.
  destruct (inner c), (inner c'); try done; destruct Hi as [x ->]; exact C4.
Qed.

Lemma core_step_completion c c' comp : core_step c c' -> completion_ok c comp -> completion_ok c' comp.
Proof.
  intros [_ _ E _ _ _ Hi]. unfold completion_ok. rewrite E. by destruct (inner c), (inner c').
Qed.

Lemma core_step_fixed c c' b : core_step c c' -> fixed_core (c' <| failed := b |>) = fixed_core c.
Proof.
  destruct c, c'. intros [? ? ? ? ? ? Hi]. cbn in *. subst. unfold fixed_core. cbn. f_equal.
  destruct inner, inner0; try done; by destruct Hi as [x ->].
Qed.

Lemma wp_on_inner {A} (split : QM SplitGet.SplitQueueGetWork A) (packed : QM PackedGet.PackedQueueGetWork A) Q m c :
  match inner c with
  | GetSplit q => wp split (fun st r => Q (st.1, c <| inner := GetSplit st.2 |>) r) (m, q)
  | GetPacked q => wp packed (fun st r => Q (st.1, c <| inner := GetPacked st.2 |>) r) (m, q)
  end -> wp (on_inner split packed) Q (m, c).
Proof.
  unfold wp, on_inner. cbn [fst snd]. destruct (inner c) as [q|q].
  - by destruct (split (m, q)) as [[[m' q'] r]| |].
  - by destruct (packed (m, q)) as [[[m' q'] r]| |].
Qed.

(** The index found is the next one. *)
Definition next_index c (i : Z) : Prop :=
  match inner c with
  | GetSplit q => i = Z.land (SplitGet.last_avail_index q) (queue_size c - 1)
  | GetPacked q => i = PackedGet.next_avail_index q
  end.

(** The guest has offered the next descriptor of a packed ring. *)
Definition offered m (q : PackedGet.PackedQueueGetWork) : Prop :=
  exists raw, view_read 2 (PackedGet.queue_desc q) (descriptor_offset (PackedGet.next_avail_index q) + 14) m = Some raw /\
    fl_available (DescriptorFlags_from raw) = PackedGet.wrapped_bit q /\
    fl_used (DescriptorFlags_from raw) <> PackedGet.wrapped_bit q.

(** Looking for work in [m] leads from [i] to [i'], and finds some or not. *)
Definition looked (i : QueueGetWorkInner) m (i' : QueueGetWorkInner) (found : bool) : Prop :=
  match i, i' with
  | GetSplit q, GetSplit q' =>
      (if SplitGet.cached_avail_index q =? SplitGet.last_avail_index q
       then view_read 2 (SplitGet.queue_avail q) AVAIL_OFFSET_IDX m = Some (SplitGet.cached_avail_index q')
       else SplitGet.cached_avail_index q' = SplitGet.cached_avail_index q) /\
      found = negb (SplitGet.cached_avail_index q' =? SplitGet.last_avail_index q)
  | GetPacked q, GetPacked q' =>
      found = PackedGet.next_is_available q' /\
      (found = true <-> PackedGet.next_is_available q = true \/ offered m q)
  | _, _ => False
  end.

(** What tells whether there is work can be read. *)
Definition readable m (i : QueueGetWorkInner) : Prop :=
  match i with
  | GetSplit q => is_Some (view_read 2 (SplitGet.queue_avail q) AVAIL_OFFSET_IDX m)
  | GetPacked q => is_Some (view_read 2 (PackedGet.queue_desc q) (descriptor_offset (PackedGet.next_avail_index q) + 14) m)
  end.

Definition is_some {A} (o : option A) : bool := match o with Some _ => true | None => false end.

(** What looking for work gives, for a ring that is seen as [inj]. *)
Definition look_post {S} (inj : S -> QueueGetWorkInner) (index : S -> Z) m (s : S) (st : GuestMemory * S)
    (r : QueueError + option Z) : Prop :=
  st.1 = m /\ inner_step (inj s) (inj st.2) /\
  match r with
  | inl _ => st.2 = s /\ ~ readable m (inj s)
  | inr o => looked (inj s) m (inj st.2) (is_some o) /\ forall i, o = Some i -> i = index s
  end.

Lemma split_look m q :
  1 <= SplitGet.queue_size q ->
  wp SplitGet.is_available
    (look_post GetSplit (fun q => Z.land (SplitGet.last_avail_index q) (SplitGet.queue_size q - 1)) m q) (m, q).
Proof.
  intros Hs. unfold wp, look_post, looked. rewrite split_available_eq by done.
  destruct (SplitGet.cached_avail_index q =? SplitGet.last_avail_index q) eqn:Hc.
  - destruct (view_read 2 _ _ m) as [a|] eqn:Hr; cbn [fst snd].
    2: { split_and!; [done|apply inner_step_refl|done|]. cbn. rewrite Hr. by intros [? [=]]. }
    split_and!; [done|by eexists|done| |]; cbn; by destruct (a =? SplitGet.last_avail_index q); try intros i [= <-].
  - cbn [fst snd]. split_and!; [done|apply inner_step_refl|done|by rewrite Hc|by intros i [= <-]].
Qed.

Lemma packed_look m q : wp PackedGet.is_available (look_post GetPacked PackedGet.next_avail_index m q) (m, q).
Proof.
  unfold wp, look_post, looked, offered. rewrite packed_available_eq. destruct (PackedGet.next_is_available q) eqn:Hna.
  { cbn [fst snd]. split_and!; [done|apply inner_step_refl|by rewrite Hna|by split; auto|by intros i [= <-]]. }
  destruct (view_read 2 _ _ m) as [raw|] eqn:Hr.
  2: { split_and!; [done|apply inner_step_refl|done|]. cbn. rewrite Hr. by intros [? [=]]. }
  cbn zeta. destruct (_ && _) eqn:Hf; cbn [fst snd is_some]; (split_and!; [done| | | |by intros i [= <-]]);
    try (by eexists); try apply inner_step_refl; try done; (split; [|done]) || (split; [done|]).
  - intros _. right. exists raw. apply andb_prop in Hf as [Ha%eqb_prop Hu%negb_true_iff]. split_and!; [done|done|].
    intros E. by rewrite E, Bool.eqb_reflx in Hu.
  - intros [?|(raw' & [= <-] & Ha & Hu)]; [done|]. rewrite Ha, Bool.eqb_reflx in Hf.
    by apply negb_false_iff, eqb_prop in Hf.
Qed.

Lemma core_step_of c i : inner_step (inner c) i -> core_step c (c <| inner := i |>).
Proof. intros Hi. by split. Qed.

Lemma available_wp m c :
  core_ok c ->
  wp (on_inner SplitGet.is_available PackedGet.is_available) (fun st r =>
    st.1 = m /\ core_step c st.2 /\
    forall o, r = inr o -> looked (inner c) m (inner st.2) (is_some o) /\ forall i, o = Some i -> next_index c i) (m, c).
Proof.
  intros Hck. apply wp_on_inner. pose proof (ck_size c Hck) as Hsz. pose proof (ck_inner c Hck) as Hin.
  pose proof (core_step_of c) as Hstep. unfold next_index. destruct (inner c) as [q|q].
  - destruct Hin as (Hq & _). eapply wp_mono; [apply split_look; lia|]. intros [m1 q1] r (-> & Hs & Hr). rewrite Hq in Hr.
    cbn [fst snd inner] in *. split_and!; [done|by apply Hstep|]. by intros o ->.
  - eapply wp_mono; [apply packed_look|]. intros [m1 q1] r (-> & Hs & Hr).
    cbn [fst snd inner] in *. split_and!; [done|by apply Hstep|]. by intros o ->.
Qed.

(** The two memories map the same addresses. *)
Definition mapped_same m m' : Prop := forall x, is_Some (m' !! x) <-> is_Some (m !! x).

#[global] Instance mapped_same_equivalence : Equivalence mapped_same.
Proof. unfold mapped_same. split; [done| |]; [intros m m' H x; by rewrite H|intros m m' m'' H H' x; by rewrite H', H]. Qed.

(** Memory changed in [A] only, and is mapped as before. *)
Definition changed_in (A : Z -> Prop) m m' : Prop := mapped_same m m' /\ forall x, ~ A x -> m' !! x = m !! x.

#[global] Instance changed_in_preorder A : PreOrder (changed_in A).
Proof.
  split; [by intros m; split|]. intros m m' m'' [H1 H2] [H3 H4]. split; [by etransitivity|]. intros x Hx. by rewrite H4, H2.
Qed.

Lemma changed_in_mono (A A' : Z -> Prop) m m' : (forall x, A x -> A' x) -> changed_in A m m' -> changed_in A' m m'.
Proof. intros HA [H1 H2]. split; [done|]. intros x Hx. apply H2. auto. Qed.

Definition in_view (v : View) (x : Z) : Prop := within (v_base v) (v_len v) x.

Lemma view_write_changed v off l m m' :
  view_write v off l m = Some m' -> changed_in (within (v_base v + off) (Z.of_nat (length l))) m m'.
Proof.
  unfold view_write. destruct (_ <=? _); [|done]. intros Hw.
  split; [intros x; by eapply write_mapped|]. intros x Hx. by eapply write_frame.
Qed.

(** What was written can be written again. *)
Lemma view_write_again v off l l' m m1 :
  view_write v off l m = Some m1 -> length l' = length l -> is_Some (view_write v off l' m1).
Proof.
  unfold view_write. intros Hw E. rewrite E. destruct (_ <=? _); [|done]. apply read_write in Hw.
  unfold write_at. rewrite E, Hw. by eexists.
Qed.

Lemma wp_view_write {S} v off l Q m (s : S) :
  (forall m' r, changed_in (within (v_base v + off) (Z.of_nat (length l))) m m' -> Q (m', s) r) ->
  wp (qwrite (view_write v off l)) Q (m, s).
Proof.
  intros H. wp_step. destruct (view_write v off l m) eqn:Hw; apply H; [by eapply view_write_changed|done].
Qed.

(** Where fetching writes: the flags and the event index of the used ring, or
    the event of a packed ring. *)
Definition get_area (i : QueueGetWorkInner) : Z -> Prop :=
  match i with
  | GetSplit q => fun x =>
      within (v_base (SplitGet.queue_used q) + USED_OFFSET_FLAGS) 2 x \/
      within (v_base (SplitGet.queue_used q) + (USED_OFFSET_RING + USED_ELEMENT_SIZE * SplitGet.queue_size q)) 2 x
  | GetPacked q => within (v_base (PackedGet.device_event q) + 0) 4
  end.

Lemma get_area_step c c' : core_step c c' -> get_area (inner c') = get_area (inner c).
Proof. intros [_ _ _ _ _ _ Hi]. destruct (inner c), (inner c'); try done; by destruct Hi as [x ->]. Qed.

Lemma suppress_split_wp m q :
  wp SplitGet.suppress_kicks (fun st _ => st.2 = q /\ changed_in (get_area (GetSplit q)) m st.1) (m, q).
Proof.
  unfold SplitGet.suppress_kicks, SplitGet.set_used_flags. apply wp_bind_get. cbn [snd].
  destruct (SplitGet.use_ring_event_index q); cbn [negb]; [by split|]. apply wp_bind_get.
  apply wp_view_write. intros m' r Hm. split; [done|]. eapply changed_in_mono; [|exact Hm]. by left.
Qed.

Lemma device_event_wp m q b :
  wp (PackedGet.set_device_event b) (fun st _ => st.2 = q /\ changed_in (get_area (GetPacked q)) m st.1) (m, q).
Proof. unfold PackedGet.set_device_event. apply wp_bind_get. by apply wp_view_write. Qed.

Lemma core_step_inner c c' i' :
  core_step c (c' <| inner := inner c |>) -> inner_step (inner c) i' -> core_step c (c' <| inner := i' |>).
Proof. intros [] ?. by split. Qed.

Lemma suppress_wp m c : wp suppress_if_armed (fun st r =>
  core_step c st.2 /\ inner st.2 = inner c /\ changed_in (get_area (inner c)) m st.1 /\ r = inr tt) (m, c).
Proof.
  unfold wp, suppress_if_armed. cbn [fst snd]. destruct (armed c); [|by split_and!; [apply core_step_refl| | |]].
  assert (wp (on_inner SplitGet.suppress_kicks PackedGet.suppress_kicks)
    (fun st _ => core_step c st.2 /\ inner st.2 = inner c /\ changed_in (get_area (inner c)) m st.1) (m, c <| armed := false |>)) as Hw.
  { apply wp_on_inner. cbn. destruct (inner c) as [q|q] eqn:Hi; (eapply wp_mono; [apply suppress_split_wp || apply device_event_wp|]);
      intros st r [-> Hm]; (split; [split; try done; cbn; rewrite Hi; apply inner_step_refl|done]). }
  unfold wp in Hw. destruct (on_inner _ _ _) as [[st r]| |]; [|done|done]. by destruct Hw as (? & ? & ?).
Qed.

(** * Fetching *)

(** Work fetched from [c]: there is room for it, and it is what memory says. *)
Record work_ok c m (w : VirtioQueueCallbackWork) : Prop := {
  wo_head : exists i, next_index c i /\ head_at c i m (completion w);
  wo_completion : completion_ok c (completion w);
  wo_room : in_flight c + in_flight_cost (completion w) <= queue_size c;
  wo_chain : exists l, followed c m (qc_descriptor_index (completion w)) l /\ Z.of_nat (length l) <= queue_size c /\
    payload w = map payload_of l;
}.

Lemma peek_inner_wp m c :
  core_ok c ->
  wp try_peek_work_inner (fun st r =>
    core_step c st.2 /\ changed_in (get_area (inner c)) m st.1 /\
    forall o, r = inr o -> looked (inner c) m (inner st.2) (is_some o) /\ forall w, o = Some w -> work_ok st.2 st.1 w) (m, c).
Proof.
  intros Hck. unfold try_peek_work_inner. apply wp_bind. eapply wp_mono; [by apply available_wp|].
  intros [m1 c1] r (Hm1 & Hs1 & Hnext). cbn [fst snd] in *. subst m1.
  destruct r as [e|[i|]]; [by split_and!| |].
  2: { apply wp_ret. cbn [fst snd]. split_and!; [done|done|]. intros o [= <-]. by destruct (Hnext None eq_refl). }
  destruct (Hnext (Some i) eq_refl) as [Hlook Hi']. specialize (Hi' i eq_refl). apply wp_bind. eapply wp_mono; [apply suppress_wp|].
  intros [m2 c2] r (Hs2 & Hin2 & Hm & ->). cbn [fst snd] in *. assert (core_step c c2) as Hs by (by eapply core_step_trans).
  rewrite (get_area_step c c1 Hs1) in Hm.
  pose proof (core_step_ok c c2 Hs Hck) as Hck2. apply wp_bind_get. cbn [snd]. apply wp_bind, wp_try. cbn [fst].
  assert (next_index c2 i) as Hnx.
  { unfold next_index in *. pose proof (cs_inner c c2 Hs) as Hin. rewrite (cs_size c c2 Hs). unfold inner_step in Hin.
    destruct (inner c), (inner c2); try done; by destruct Hin as [x ->]. }
  assert (is_split c2 = false -> 0 <= i < queue_size c2) as Hi.
  { unfold is_split. pose proof (ck_inner c2 Hck2) as Hin. unfold next_index in Hnx. destruct (inner c2); [done|]. intros _.
    subst i. apply Hin. }
  pose proof (work_spec c2 i m2 Hck2 Hi) as Hw. destruct (work_from_index c2 i m2) as [w|e|]; [|by split_and!|done].
  destruct Hw as (Hcomp & Hhead & Hl). pose proof (completion_cost c2 _ Hck2 Hcomp) as Hcost. pose proof (ck_flight c2 Hck2).
  apply wp_bind. eapply wp_lift; [apply usub_ok; lia|]. destruct (Z.ltb_spec (queue_size c2 - in_flight c2) (in_flight_cost (completion w))).
  - by apply wp_try; split_and!.
  - apply wp_ret. cbn [fst snd]. split_and!; [done|done|]. intros o [= <-]. split.
    + by rewrite Hin2.
    + intros w' [= <-]. split; [by exists i|done|lia|done].
Qed.

(** An error fails the queue. *)
Lemma peek_wp m c :
  core_ok c ->
  wp try_peek_work (fun st r =>
    changed_in (get_area (inner c)) m st.1 /\
    match r with
    | inl _ => failed c = false /\ exists c', core_step c c' /\ st.2 = c' <| failed := true |>
    | inr o =>
        core_step c st.2 /\
        if failed c then st = (m, c) /\ o = None
        else looked (inner c) m (inner st.2) (is_some o) /\ forall w, o = Some w -> work_ok st.2 st.1 w
    end) (m, c).
Proof.
  intros Hck. unfold wp, try_peek_work. cbn [fst snd]. destruct (failed c) eqn:Hf; [by split; [|split; [apply core_step_refl|]]|].
  pose proof (peek_inner_wp m c Hck) as Hw. unfold wp in Hw. destruct (try_peek_work_inner (m, c)) as [[[m1 c1] r]| |]; [|done|done].
  cbn [res_bind fst snd] in *. destruct Hw as (Hs & Hm & Hw). destruct r as [e|o]; cbn; [by eauto|]. by split_and!; try apply Hw.
Qed.

(** * Cursors *)

Lemma advance_cursor_ok index count size w :
  0 <= index < size -> 0 <= count <= size -> size <= 2 ^ 15 ->
  exists index' w', advance_cursor index count size w = Ok (index', w') /\ 0 <= index' < size /\
    (index' + b2z w' * size - (index + b2z w * size) - count) mod (2 * size) = 0.
Proof.
  intros Hi Hc Hs. unfold advance_cursor. rewrite uadd_ok by lia. cbn [res_bind].
  destruct (Z.leb_spec size (index + count)).
  - eexists _, _. split; [done|]. split; [lia|]. destruct w; cbn [negb b2z].
    + replace (_ - _ - _) with (-1 * (2 * size)) by lia. apply Z.mod_mul. lia.
    + replace (_ - _ - _) with 0 by lia. apply Z.mod_0_l. lia.
  - eexists _, _. split; [done|]. split; [lia|]. replace (_ - _ - _) with 0 by lia. apply Z.mod_0_l. lia.
Qed.

Lemma power_of_two_spec x : is_power_of_two x = true -> exists n, 0 <= n /\ x = 2 ^ n.
Proof.
  unfold is_power_of_two. intros [Hx%Z.ltb_lt Hl%Z.eqb_eq]%andb_prop. exists (Z.log2 x).
  split; [apply Z.log2_nonneg|]. destruct (Z.log2_spec x Hx) as [H1 H2]. destruct (decide (x = 2 ^ Z.log2 x)) as [|Hne]; [done|].
  exfalso. assert (Z.log2 (x - 1) = Z.log2 x) as E by (apply Z.log2_unique; [apply Z.log2_nonneg|lia]).
  assert (Z.testbit (Z.land x (x - 1)) (Z.log2 x) = true) as Ht.
  { rewrite Z.land_spec, Z.bit_log2 by done. rewrite <-E, Z.bit_log2; [done|]. pose proof (Z.pow_pos_nonneg 2 (Z.log2 x)) as Hp.
    specialize (Hp ltac:(lia) (Z.log2_nonneg x)). lia. }
  by rewrite Hl, Z.testbit_0_l in Ht.
Qed.

(** * The completing side *)

(** It has the same ring and the same size as the fetching side. *)
Definition complete_ok (size : Z) (split : bool) (k : QueueCoreCompleteWork) : Prop :=
  match k with
  | CompleteSplit q =>
      split = true /\ SplitComplete.queue_size q = size /\ is_u 16 (SplitComplete.last_used_index q) /\
      v_len (SplitComplete.queue_used q) = used_len size
  | CompletePacked q =>
      split = false /\ PackedComplete.queue_size q = size /\ 0 <= PackedComplete.next_index q < size /\
      v_len (PackedComplete.queue_desc q) = descriptor_offset size /\
      v_len (PackedComplete.driver_event q) = EVENT_SUPPRESSION_SIZE
  end.

Definition view_mapped m (v : View) : Prop := forall x, within (v_base v) (v_len v) x -> is_Some (m !! x).

(** The memory that completing writes and needs is there. *)
Definition complete_mapped m (k : QueueCoreCompleteWork) : Prop :=
  match k with
  | CompleteSplit q => view_mapped m (SplitComplete.queue_used q)
  | CompletePacked q => view_mapped m (PackedComplete.queue_desc q) /\ view_mapped m (PackedComplete.driver_event q)
  end.

Lemma view_mapped_same m m' v : mapped_same m m' -> view_mapped m v -> view_mapped m' v.
Proof. intros H Hv x Hx. apply H. by apply Hv. Qed.

Lemma complete_mapped_same m m' k : mapped_same m m' -> complete_mapped m k -> complete_mapped m' k.
Proof. intros H. destruct k; cbn; [by apply view_mapped_same|]. intros []. split; by eapply view_mapped_same. Qed.

Lemma view_write_total m v off l :
  view_mapped m v -> 0 <= off -> off + Z.of_nat (length l) <= v_len v -> is_Some (view_write v off l m).
Proof.
  intros Hm Ho Hl. unfold view_write. rewrite (proj2 (Z.leb_le _ _) Hl). exists (store (v_base v + off) l m).
  apply write_at_spec. split; [done|]. intros x Hx. apply Hm. unfold within in *. lia.
Qed.

Lemma view_read_total m v off n :
  view_mapped m v -> 0 <= off -> off + Z.of_nat n <= v_len v -> is_Some (view_read n v off m).
Proof.
  intros Hm Ho Hl. unfold view_read, read_word. rewrite (proj2 (Z.leb_le _ _) Hl).
  destruct (read_at_total n (v_base v + off) m) as [l ->]; [|by eexists]. intros i Hi. apply Hm. unfold within. lia.
Qed.

(** Where completing writes: the index and the ring of the used ring, or the
    descriptors of a packed ring. *)
Definition complete_area (k : QueueCoreCompleteWork) : Z -> Prop :=
  match k with
  | CompleteSplit q =>
      within (v_base (SplitComplete.queue_used q) + USED_OFFSET_IDX) (2 + USED_ELEMENT_SIZE * SplitComplete.queue_size q)
  | CompletePacked q => in_view (PackedComplete.queue_desc q)
  end.

(** Where the next work is completed: after [count] slots more. *)
Definition used_moved (size count : Z) (k k' : QueueCoreCompleteWork) : Prop :=
  match k, k' with
  | CompleteSplit q, CompleteSplit q' =>
      SplitComplete.last_used_index q' = ucast 16 (SplitComplete.last_used_index q + count)
  | CompletePacked q, CompletePacked q' =>
      (PackedComplete.next_index q' + b2z (PackedComplete.wrapped_bit q') * size
        - (PackedComplete.next_index q + b2z (PackedComplete.wrapped_bit q) * size) - count) mod (2 * size) = 0
  | _, _ => False
  end.

Lemma split_complete_wp m q i n size :
  (exists e, 0 <= e /\ size = 2 ^ e) -> 1 <= size -> complete_ok size true (CompleteSplit q) ->
  wp (SplitComplete.complete_descriptor i n) (fun st _ =>
    changed_in (complete_area (CompleteSplit q)) m st.1 /\ complete_ok size true (CompleteSplit st.2) /\
    fixed_complete (CompleteSplit st.2) = fixed_complete (CompleteSplit q) /\
    (view_mapped m (SplitComplete.queue_used q) -> used_moved size 1 (CompleteSplit q) (CompleteSplit st.2))) (m, q).
Proof.
  intros (e & He & Hsz) Hpos (_ & Hq & Hu & Hv). unfold SplitComplete.complete_descriptor.
  apply wp_bind_get. cbn [snd]. apply wp_bind. unfold SplitComplete.set_used_descriptor. apply wp_bind_get. cbn [snd].
  apply wp_bind. eapply wp_lift; [rewrite Hq; apply usub_ok; lia|]. apply wp_write. cbn [fst snd].
  set (off := USED_OFFSET_RING + _). set (bytes := le_bytes 4 i ++ le_bytes 4 n).
  assert (4 <= off <= 4 + 8 * (size - 1)) as Hoff.
  { subst off. unfold USED_OFFSET_RING, USED_ELEMENT_SIZE. rewrite Hsz, land_mask by done.
    pose proof (Z.mod_pos_bound (SplitComplete.last_used_index q) (2 ^ e) ltac:(lia)). lia. }
  destruct (view_write (SplitComplete.queue_used q) off bytes m) as [m1|] eqn:Hw1.
  2: { split_and!; try done. intros Hm. exfalso. apply eq_None_not_Some in Hw1. apply Hw1, view_write_total; [done|lia|].
       subst bytes. rewrite length_app, !length_le_bytes, Hv. unfold used_len, USED_OFFSET_RING, USED_ELEMENT_SIZE. lia. }
  assert (changed_in (complete_area (CompleteSplit q)) m m1) as Hm1.
  { eapply changed_in_mono; [|by eapply view_write_changed]. intros x. unfold complete_area. rewrite Hq.
    change (Z.of_nat (length bytes)) with 8. unfold within, USED_OFFSET_IDX, USED_ELEMENT_SIZE. lia. }
  clear off bytes Hoff Hw1. apply wp_bind, wp_modify. cbn [fst snd]. apply wp_bind.
  unfold SplitComplete.set_used_index. apply wp_bind_get. cbn [snd]. apply wp_view_write. intros m2 r Hw2.
  assert (changed_in (complete_area (CompleteSplit q)) m m2) as Hm2.
  { etransitivity; [exact Hm1|]. eapply changed_in_mono; [|exact Hw2]. intros x. unfold complete_area. rewrite Hq.
    rewrite length_le_bytes. cbn. unfold within, USED_OFFSET_IDX, USED_ELEMENT_SIZE. lia. }
  set (q' := q <| SplitComplete.last_used_index := _ |>).
  assert (complete_ok size true (CompleteSplit q')) as Hok.
  { split_and!; try done. cbn. apply is_u_ucast. lia. }
  destruct r as [err|[]]; [by split_and!|]. destruct (SplitComplete.use_ring_event_index q); apply wp_bind.
  - unfold SplitComplete.get_used_event. apply wp_bind_get, wp_read. cbn [fst snd].
    by destruct (view_read _ _ _ m2); [apply wp_ret|]; split_and!.
  - unfold SplitComplete.get_available_flags. apply wp_bind_get, wp_bind, wp_read. cbn [fst snd].
    by destruct (view_read _ _ _ m2); [apply wp_ret, wp_ret|]; split_and!.
Qed.

Lemma packed_complete_wp m q id count n size :
  1 <= count <= size -> size <= 2 ^ 15 -> complete_ok size false (CompletePacked q) ->
  wp (PackedComplete.complete_descriptor id count n) (fun st _ =>
    changed_in (complete_area (CompletePacked q)) m st.1 /\ complete_ok size false (CompletePacked st.2) /\
    fixed_complete (CompletePacked st.2) = fixed_complete (CompletePacked q) /\
    (complete_mapped m (CompletePacked q) -> used_moved size count (CompletePacked q) (CompletePacked st.2))) (m, q).
Proof.
  intros Hc Hs (_ & Hq & Hi & Hd & Hv). unfold PackedComplete.complete_descriptor. apply wp_bind_get. cbn [snd].
  apply wp_bind, wp_write. cbn [fst snd]. set (bytes := le_bytes 8 0 ++ _).
  destruct (view_write (PackedComplete.queue_desc q) (descriptor_offset (PackedComplete.next_index q)) bytes m) as [m1|] eqn:Hw1.
  2: { split_and!; try done. intros [Hm _]. exfalso. apply eq_None_not_Some in Hw1. apply Hw1, view_write_total; [done| |].
       all: unfold descriptor_offset, DESCRIPTOR_SIZE.
       { lia. }
       subst bytes. rewrite !length_app, !length_le_bytes, Hd.
       unfold descriptor_offset, DESCRIPTOR_SIZE. lia. }
  assert (changed_in (complete_area (CompletePacked q)) m m1) as Hm1.
  { eapply changed_in_mono; [|by eapply view_write_changed]. intros x. unfold complete_area, in_view, within. rewrite Hd.
    change (Z.of_nat (length bytes)) with 16. unfold descriptor_offset, DESCRIPTOR_SIZE. lia. }
  apply wp_bind, wp_read. cbn [fst snd].
  destruct (view_read 4 (PackedComplete.driver_event q) 0 m1) as [raw|] eqn:Hr.
  2: { split_and!; try done. intros [_ Hm]. exfalso. apply eq_None_not_Some in Hr. apply Hr, view_read_total; [|lia|by rewrite Hv].
       by eapply view_mapped_same; [apply Hm1|]. }
  apply wp_bind. destruct (advance_cursor_ok (PackedComplete.next_index q) count size (PackedComplete.wrapped_bit q))
    as (i' & w' & Ha & Hi' & Hpos); try lia. rewrite Hq. eapply wp_lift; [exact Ha|].
  apply wp_bind, wp_modify, wp_ret. cbn. split_and!; try done; lia.
Qed.

(** * Arming *)

(** Memory with notifications turned on. *)
Definition armed_memory m (i : QueueGetWorkInner) : option GuestMemory :=
  match i with
  | GetSplit q =>
      if SplitGet.use_ring_event_index q
      then view_write (SplitGet.queue_used q) (USED_OFFSET_RING + USED_ELEMENT_SIZE * SplitGet.queue_size q)
             (le_bytes 2 (SplitGet.last_avail_index q)) m
      else view_write (SplitGet.queue_used q) 0 (le_bytes 2 0) m
  | GetPacked q => view_write (PackedGet.device_event q) 0 (le_bytes 4 (suppression_bits true)) m
  end.

(** Notifications were turned on in [m1]: they are left on if no work was found
    after that. *)
Definition armed_post (i : QueueGetWorkInner) m1 m' (i' : QueueGetWorkInner) (r : QueueError + bool) : Prop :=
  match r with
  | inr true => m' = m1 /\ looked i m1 i' false
  | inr false => looked i m1 i' true
  | inl _ => i' = i /\ ~ readable m1 i
  end.

Definition arm_post m (i : QueueGetWorkInner) m' (i' : QueueGetWorkInner) (r : QueueError + bool) : Prop :=
  changed_in (get_area i) m m' /\ inner_step i i' /\
  match armed_memory m i with
  | None => i' = i /\ exists e, r = inl e
  | Some m1 => changed_in (get_area i) m m1 /\ armed_post i m1 m' i' r
  end.

Section ArmTail.

Context {S : Type} (inj : S -> QueueGetWorkInner) (index : S -> Z) (avail : QM S (option Z)) (suppress : QM S unit).

Lemma arm_tail m1 s :
  wp avail (look_post inj index m1 s) (m1, s) ->
  (forall s', inner_step (inj s) (inj s') ->
    wp suppress (fun st r => st.2 = s' /\ changed_in (get_area (inj s')) m1 st.1 /\ r = inr tt) (m1, s')) ->
  wp (let? o := avail in match o with Some _ => let? _ := suppress in qret false | None => qret true end)
    (fun st r => changed_in (get_area (inj s)) m1 st.1 /\ inner_step (inj s) (inj st.2) /\
      armed_post (inj s) m1 st.1 (inj st.2) r) (m1, s).
Proof.
  intros Ha Hs. apply wp_bind. eapply wp_mono; [exact Ha|]. intros [m2 s2] r (E & Hi & Hr). cbn [fst snd] in *. subst m2.
  destruct r as [e|[o|]]; [destruct Hr as [-> Hr]; split_and!; [done|apply inner_step_refl|done]| |by apply wp_ret; destruct Hr].
  destruct Hr as [Hl _]. apply wp_bind. eapply wp_mono; [by apply Hs|]. intros [m3 s3] r (E & Hm & ->). cbn [fst snd] in *. subst s3.
  assert (get_area (inj s2) = get_area (inj s)) as Harea.
  { destruct (inj s), (inj s2); try done; by destruct Hi as [x ->]. }
  rewrite Harea in Hm. by apply wp_ret.
Qed.

End ArmTail.

Lemma split_arm_wp m q :
  1 <= SplitGet.queue_size q ->
  wp SplitGet.arm_kick (fun st r => arm_post m (GetSplit q) st.1 (GetSplit st.2) r) (m, q).
Proof.
  intros Hs. unfold SplitGet.arm_kick. apply wp_bind_get, wp_bind. cbn [snd].
  assert (forall off l, armed_memory m (GetSplit q) = view_write (SplitGet.queue_used q) off l m ->
    (SplitGet.use_ring_event_index q = false -> off = 0 /\ l = le_bytes 2 0) ->
    (forall x, within (v_base (SplitGet.queue_used q) + off) (Z.of_nat (length l)) x -> get_area (GetSplit q) x) ->
    wp (qwrite (view_write (SplitGet.queue_used q) off l)) (fun st r =>
      match r with
      | inl e => arm_post m (GetSplit q) st.1 (GetSplit st.2) (inl e)
      | inr _ => wp (let? index := SplitGet.is_available in
          match index with Some _ => let? _ := SplitGet.suppress_kicks in qret false | None => qret true end)
          (fun st r => arm_post m (GetSplit q) st.1 (GetSplit st.2) r) st
      end) (m, q)) as Hk.
  { intros off l E Hplain Harea. apply wp_write. cbn [fst snd]. unfold arm_post. rewrite E.
    destruct (view_write (SplitGet.queue_used q) off l m) as [m1|] eqn:Hw.
    - pose proof Hw as Hw'. assert (changed_in (get_area (GetSplit q)) m m1) as Hm1.
      { eapply changed_in_mono; [|by eapply view_write_changed]. exact Harea. }
      eapply wp_mono; [eapply (arm_tail GetSplit); [by apply split_look|]|].
      { intros q' [x ->]. unfold SplitGet.suppress_kicks. apply wp_bind_get. cbn [snd].
        change (SplitGet.use_ring_event_index (q <| SplitGet.cached_avail_index := x |>)) with (SplitGet.use_ring_event_index q).
        destruct (SplitGet.use_ring_event_index q) eqn:Hev; cbn [negb]; [by apply wp_ret|].
        unfold SplitGet.set_used_flags. apply wp_bind_get, wp_write. cbn [fst snd].
        change (SplitGet.queue_used (q <| SplitGet.cached_avail_index := x |>)) with (SplitGet.queue_used q).
        destruct (Hplain eq_refl) as [-> ->]. destruct (view_write_again _ _ _ (le_bytes 2 1) _ _ Hw' eq_refl) as [m2 Hw2].
        rewrite Hw2. split_and!; [done| |done]. eapply changed_in_mono; [|by eapply view_write_changed]. by left. }
      intros st r (H1 & H2 & H3). split_and!; [by etransitivity|done|done|done].
    - split_and!; [done|apply inner_step_refl|done|by eexists]. }
  unfold armed_memory in Hk. destruct (SplitGet.use_ring_event_index q).
  - apply wp_bind_get. cbn [snd]. apply Hk; [done|done|]. by right.
  - apply wp_bind_get. apply Hk; [done|done|]. by left.
Qed.

Lemma packed_arm_wp m q : wp PackedGet.arm_kick (fun st r => arm_post m (GetPacked q) st.1 (GetPacked st.2) r) (m, q).
Proof.
  unfold PackedGet.arm_kick, PackedGet.set_device_event. apply wp_bind, wp_bind_get, wp_write. cbn [fst snd].
  unfold arm_post, armed_memory. destruct (view_write (PackedGet.device_event q) 0 _ m) as [m1|] eqn:Hw.
  - pose proof Hw as Hw'. apply view_write_changed in Hw. eapply wp_mono; [eapply (arm_tail GetPacked); [apply packed_look|]|].
    { intros q' [x ->]. unfold PackedGet.suppress_kicks, PackedGet.set_device_event. apply wp_bind_get, wp_write. cbn [fst snd].
      change (PackedGet.device_event (q <| PackedGet.next_is_available := x |>)) with (PackedGet.device_event q).
      destruct (view_write_again _ _ _ (le_bytes 4 (suppression_bits false)) _ _ Hw' eq_refl) as [m2 Hw2]. rewrite Hw2.
      split_and!; [done| |done]. exact (view_write_changed _ _ _ _ _ Hw2). }
    intros st r (H1 & H2 & H3). split_and!; [by etransitivity|done|done|done].
  - split_and!; [done|apply inner_step_refl|done|by eexists].
Qed.

(** An error counts as armed. *)
Lemma arm_wp m c :
  core_ok c ->
  wp arm_for_kick (fun st r => core_step c st.2 /\
    if armed c then st = (m, c) /\ r = inr true
    else exists r', arm_post m (inner c) st.1 (inner st.2) r' /\ r = inr (match r' with inr false => false | _ => true end) /\
      armed st.2 = match r' with inr false => false | _ => true end) (m, c).
Proof.
  intros Hck. unfold wp, arm_for_kick. cbn [fst snd]. destruct (armed c) eqn:Harm; [by split; [apply core_step_refl|]|].
  assert (wp (on_inner SplitGet.arm_kick PackedGet.arm_kick) (fun st r =>
    core_step c st.2 /\ arm_post m (inner c) st.1 (inner st.2) r /\ armed st.2 = false) (m, c)) as Hw.
  { apply wp_on_inner. pose proof (ck_inner c Hck) as Hin. pose proof (ck_size c Hck). pose proof (core_step_of c) as Hstep.
    destruct (inner c) as [q|q].
    - eapply wp_mono; [apply split_arm_wp; lia|]. intros st r Hp. split_and!; [apply Hstep, Hp|exact Hp|done].
    - eapply wp_mono; [apply packed_arm_wp|]. intros st r Hp. split_and!; [apply Hstep, Hp|exact Hp|done]. }
  unfold wp in Hw. destruct (on_inner _ _ _) as [[st r]| |]; [|done|done]. destruct Hw as (Hs & Hp & Ha). cbn [res_bind fst snd].
  assert (core_step c (st.2 <| armed := true |>)) by (by destruct Hs; split).
  destruct r as [e|[]]; cbn; (split; [done|]); by eexists; split; [exact Hp|].
Qed.

(** * Advancing *)

(** Where the next work is fetched: [count] slots after. *)
Definition avail_moved c c' (count : Z) : Prop :=
  match inner c, inner c' with
  | GetSplit q, GetSplit q' => SplitGet.last_avail_index q' = ucast 16 (SplitGet.last_avail_index q + count)
  | GetPacked q, GetPacked q' =>
      (PackedGet.next_avail_index q' + b2z (PackedGet.wrapped_bit q') * queue_size c
        - (PackedGet.next_avail_index q + b2z (PackedGet.wrapped_bit q) * queue_size c) - count) mod (2 * queue_size c) = 0
  | _, _ => False
  end.

Lemma advance_ok c comp :
  core_ok c -> completion_ok c comp -> in_flight c + in_flight_cost comp <= queue_size c ->
  exists c', core_advance comp c = Ok c' /\ core_ok c' /\ queue_size c' = queue_size c /\ is_split c' = is_split c /\
    fixed_core c' = fixed_core c /\ in_flight c' = in_flight c + in_flight_cost comp /\ avail_moved c c' (in_flight_cost comp).
Proof.
  intros Hck Hcomp Hroom. pose proof (completion_cost c comp Hck Hcomp) as Hcost. destruct Hck as [Hs Hf Hd Hin].
  unfold core_advance, avail_moved, is_split, fixed_core. unfold completion_ok in Hcomp. destruct (inner c) as [q|q] eqn:Hi.
  - destruct Hcomp as [Hctx _]. cbn [res_bind]. rewrite uadd_ok by lia. eexists. split; [done|]. cbn.
    destruct Hin as (Hq & Hp & Hu). unfold in_flight_cost in *. rewrite Hctx in *. split_and!; try done. split; cbn; try done; [lia|].
    split_and!; try done. apply is_u_ucast. lia.
  - destruct Hcomp as ((id & k & Hctx & Hk) & _). destruct Hin as (Hq & Hn). unfold in_flight_cost in *. rewrite Hctx in *.
    unfold PackedGet.advance. rewrite Hq. destruct (advance_cursor_ok (PackedGet.next_avail_index q) k (queue_size c)
      (PackedGet.wrapped_bit q)) as (i' & w' & Ha & Hi' & Hpos); try lia.
    rewrite Ha. cbn [res_bind]. rewrite uadd_ok by lia. eexists. split; [done|]. cbn. split_and!; try done.
    split; cbn; try done; lia.
Qed.

(** Completions do not depend on the rest of the queue. *)
Lemma completion_ok_same c c' comp :
  queue_size c' = queue_size c -> is_split c' = is_split c -> completion_ok c comp -> completion_ok c' comp.
Proof. unfold completion_ok, is_split. intros ->. by destruct (inner c), (inner c'). Qed.
