(* ===== verification/VirtioQueueSafe.v ===== *)
(** Virtio queues as a transition system: the device fetches and completes work
    while the guest changes memory as it likes. Nothing panics, the work in
    flight fits the queue, an error retires the queue, and the queue can be
    saved and restored at any time. *)

From stdpp Require Import gmap.
From S2P Require Import Prelude GuestMem VirtioQueue VirtioQueueSpec VirtioQueueOps.

Implicit Type m : GuestMemory.
Implicit Type c : QueueCoreGetWork.

(** * The distance of the cursors *)

Lemma mod_ahead M a a' b f k :
  0 < M -> (a - b) mod M = f -> (a' - a - k) mod M = 0 -> 0 <= f + k < M -> (a' - b) mod M = f + k.
Proof.
  intros HM Hf Hk Hb. replace (a' - b) with ((a - b) + (a' - a - k) + k) by lia.
  rewrite Zplus_mod, (Zplus_mod (a - b)), Hf, Hk, Z.add_0_r, <-Zplus_mod. by apply Z.mod_small.
Qed.

Lemma mod_behind M a b b' f k :
  0 < M -> (a - b) mod M = f -> (b' - b - k) mod M = 0 -> 0 <= f - k < M -> (a - b') mod M = f - k.
Proof.
  intros HM Hf Hk Hb. replace (a - b') with ((a - b) - (b' - b - k) - k) by lia.
  rewrite Zminus_mod, (Zminus_mod (a - b)), Hf, Hk, Z.sub_0_r, <-Zminus_mod. by apply Z.mod_small.
Qed.

Lemma ucast_moved x k : (ucast 16 (x + k) - x - k) mod 2 ^ 16 = 0.
Proof.
  unfold ucast. replace (_ - x - k) with ((x + k) mod 2 ^ 16 - (x + k)) by lia. rewrite Zminus_mod_idemp_l, Z.sub_diag. done.
Qed.

(** The slots between what was completed and what was fetched. *)
Definition distance c (k : QueueCoreCompleteWork) : Z :=
  match inner c, k with
  | GetSplit q, CompleteSplit u => ucast 16 (SplitGet.last_avail_index q - SplitComplete.last_used_index u)
  | GetPacked q, CompletePacked u =>
      (PackedGet.next_avail_index q + b2z (PackedGet.wrapped_bit q) * queue_size c
        - (PackedComplete.next_index u + b2z (PackedComplete.wrapped_bit u) * queue_size c)) mod (2 * queue_size c)
  | _, _ => -1
  end.

Lemma distance_step c c' k : core_step c c' -> distance c' k = distance c k.
Proof.
  intros [_ _ E _ _ _ Hi]. unfold distance. rewrite E. destruct (inner c), (inner c'); try done; by destruct Hi as [x ->].
Qed.

Lemma distance_avail c c' k n :
  1 <= queue_size c <= 2 ^ 15 -> queue_size c' = queue_size c -> complete_ok (queue_size c) (is_split c) k ->
  avail_moved c c' n -> 0 <= distance c k + n <= queue_size c -> distance c' k = distance c k + n.
Proof.
  unfold avail_moved, distance, is_split, complete_ok. intros Hs -> Hk Hm Hd.
  destruct (inner c) as [q|q], (inner c') as [q'|q'], k as [u|u]; try done; try (by destruct Hk).
  - unfold ucast in *. eapply mod_ahead; [lia|done| |lia]. rewrite Hm. apply (ucast_moved (SplitGet.last_avail_index q) n).
  - eapply mod_ahead; [lia|done|exact Hm|lia].
Qed.

Lemma distance_used c k k' n :
  1 <= queue_size c <= 2 ^ 15 -> complete_ok (queue_size c) (is_split c) k ->
  used_moved (queue_size c) n k k' -> 0 <= distance c k - n <= queue_size c -> distance c k' = distance c k - n.
Proof.
  unfold used_moved, distance, is_split, complete_ok. intros Hs Hk Hm Hd.
  destruct (inner c) as [q|q], k as [u|u], k' as [u'|u']; try done; try (by destruct Hk).
  - unfold ucast in *. eapply mod_behind; [lia|done| |lia]. rewrite Hm. apply (ucast_moved (SplitComplete.last_used_index u) n).
  - eapply mod_behind; [lia|done|exact Hm|lia].
Qed.

(** * The device and the guest *)

(** [outstanding]: the work fetched and not completed. *)
Record World : Type := mkWorld {
  memory : GuestMemory;
  queue : VirtioQueue;
  outstanding : list QueueCompletion;
}.

Definition fetched (r : QueueError + option VirtioQueueCallbackWork) : list QueueCompletion :=
  match r with inr (Some work) => [completion work] | _ => [] end.

Inductive event : Type :=
| Fetched (comp : QueueCompletion)
| Completed (comp : QueueCompletion) (bytes : Z).

(** The guest sets memory to anything that [guest] allows, also between a peek
    and the use of what it found; the device completes any outstanding work. A
    step is labelled with the work that it fetches or completes. *)
Inductive lstep (guest : GuestMemory -> Prop) (w : World) : list event -> World -> Prop :=
| step_guest m : guest m -> lstep guest w [] (mkWorld m (queue w) (outstanding w))
| step_next m q r :
    try_next (memory w, queue w) = Ok (m, q, r) -> 
    lstep guest w (map Fetched (fetched r)) (mkWorld m q (outstanding w ++ fetched r))
| step_peek m q r : try_peek (memory w, queue w) = Ok (m, q, r) -> lstep guest w [] (mkWorld m q (outstanding w))
| step_consume m q work m1 m2 q2 r :
    try_peek (memory w, queue w) = Ok (m, q, inr (Some work)) -> guest m1 -> consume work (m1, q) = Ok (m2, q2, r) ->
    lstep guest w [Fetched (completion work)] (mkWorld m2 q2 (outstanding w ++ [completion work]))
| step_kick kicked m q r :
    poll_kick kicked (memory w, queue w) = Ok (m, q, r) -> lstep guest w [] (mkWorld m q (outstanding w))
| step_complete l1 comp l2 bytes m q r :
    outstanding w = l1 ++ comp :: l2 -> complete_prepared comp bytes (memory w, queue w) = Ok (m, q, r) ->
    lstep guest w [Completed comp bytes] (mkWorld m q (l1 ++ l2)).

Definition step (guest : GuestMemory -> Prop) (w w' : World) : Prop := exists l, lstep guest w l w'.

Definition total_cost (l : list QueueCompletion) : Z := foldr (fun comp n => in_flight_cost comp + n) 0 l.

Lemma total_cost_app l l' : total_cost (l ++ l') = total_cost l + total_cost l'.
Proof. induction l as [|comp l IH]; cbn; [done|]. fold (total_cost (l ++ l')). rewrite IH. unfold total_cost. lia. Qed.

(** [n0] slots were in flight at the start. *)
Record inv (n0 : Z) (w : World) : Prop := {
  iv_core : core_ok (core (queue w));
  iv_sides : complete_ok (queue_size (core (queue w))) (is_split (core (queue w))) (complete (queue w));
  iv_out : Forall (completion_ok (core (queue w))) (outstanding w);
  iv_start : 0 <= n0;
  iv_flight : in_flight (core (queue w)) = n0 + total_cost (outstanding w);
}.

(** The queue can be saved: its cursors tell what is in flight. *)
Definition savable (q : VirtioQueue) : Prop := distance (core q) (complete q) = in_flight (core q).

(** Where the device writes. *)
Definition area (q : VirtioQueue) (x : Z) : Prop := get_area (inner (core q)) x \/ complete_area (complete q) x.

(** What an operation of the device that leads from [w] to [w'] keeps. *)
Record op_ok (n0 : Z) (w w' : World) : Prop := {
  oo_inv : inv n0 w';
  oo_changed : changed_in (area (queue w)) (memory w) (memory w');
  oo_fixed : fixed (queue w') = fixed (queue w);
  oo_savable : complete_mapped (memory w) (complete (queue w)) -> savable (queue w) -> savable (queue w');
}.

Lemma wp_on_core {A} (p : QM QueueCoreGetWork A) Q m (q : VirtioQueue) :
  wp p (fun st r => Q (st.1, q <| core := st.2 |>) r) (m, core q) -> wp (on_core p) Q (m, q).
Proof. unfold wp, on_core. cbn [fst snd]. by destruct (p (m, core q)) as [[[m' c'] r]| |]. Qed.

Section Operations.

Context (n0 : Z) (w : World) (Hinv : inv n0 w).

Let m := memory w.
Let q := queue w.
Let c := core q.

Lemma get_changed m' : changed_in (get_area (inner c)) m m' -> changed_in (area q) m m'.
Proof. apply changed_in_mono. by left. Qed.

(** Looking for work. *)
Lemma core_step_op m' c1 b :
  changed_in (area q) m m' -> core_step c c1 ->
  op_ok n0 w (mkWorld m' (q <| core := c1 <| failed := b |> |>) (outstanding w)).
Proof.
  intros Hm Hs. destruct Hinv as [H1 H2 H3 H4 H5]. pose proof (core_step_ok c c1 Hs H1) as [K1 K2 K3 K4].
  split; [|done|unfold fixed; cbn; f_equal; by apply core_step_fixed|].
  - split; cbn; [by split| | |done|].
    + change (is_split (c1 <| failed := b |>)) with (is_split c1). by rewrite (core_step_split c c1 Hs), (cs_size c c1 Hs).
    + eapply Forall_impl; [|exact H3]. intros comp Hc. by apply (core_step_completion c c1 comp Hs).
    + by rewrite (cs_flight c c1 Hs).
  - unfold savable. cbn. intros _ Hd. change (distance (c1 <| failed := b |>)) with (distance c1).
    by rewrite (distance_step c c1 _ Hs), (cs_flight c c1 Hs).
Qed.

Lemma failed_same c1 : c1 <| failed := failed c1 |> = c1.
Proof. by destruct c1. Qed.

Lemma core_step_op' m' c1 :
  changed_in (area q) m m' -> core_step c c1 -> op_ok n0 w (mkWorld m' (q <| core := c1 |>) (outstanding w)).
Proof. intros Hm Hs. rewrite <-(failed_same c1). by apply core_step_op. Qed.

(** The work found is fetched. *)
Lemma advance_op m1 m2 c1 work c2 :
  changed_in (area q) m m2 -> core_step c c1 -> work_ok c1 m1 work -> core_advance (completion work) c1 = Ok c2 ->
  op_ok n0 w (mkWorld m2 (q <| core := c2 |>) (outstanding w ++ [completion work])).
Proof.
  intros Hm Hs [_ W1 W2 _] Ha. destruct Hinv as [H1 H2 H3 H4 H5]. pose proof (core_step_ok c c1 Hs H1) as Hck1.
  destruct (advance_ok c1 (completion work) Hck1 W1 W2) as (c2' & E & Hck2 & Hsz & Hsp & Hfix & Hf & Hmv).
  rewrite Ha in E. injection E as <-.
  pose proof (completion_cost c1 _ Hck1 W1) as Hcost. pose proof (ck_flight c1 Hck1) as Hfl.
  assert (queue_size c2 = queue_size c) as Hsz' by (rewrite Hsz; apply (cs_size c c1 Hs)).
  assert (is_split c2 = is_split c) as Hsp' by (rewrite Hsp; apply (core_step_split c c1 Hs)).
  rewrite <-(failed_same c1), (core_step_fixed c c1 _ Hs) in Hfix.
  split; [|done|by unfold fixed; cbn; rewrite Hfix|].
  - split; cbn; [done|by rewrite Hsz', Hsp'| |done|].
    + apply Forall_app. split; [eapply Forall_impl; [|exact H3]; intros comp; by apply completion_ok_same|].
      constructor; [by apply (completion_ok_same c1)|done].
    + rewrite Hf, (cs_flight c c1 Hs), total_cost_app. cbn. unfold c, q. lia.
  - unfold savable. cbn. intros _ Hd. rewrite Hf.
    fold q c in Hd. rewrite <-(distance_step c c1 _ Hs), <-(cs_flight c c1 Hs) in Hd.
    rewrite (distance_avail c1 c2 (complete q) (in_flight_cost (completion work))); [by rewrite Hd|apply Hck1|done| |done|lia].
    rewrite (cs_size c c1 Hs), (core_step_split c c1 Hs). exact H2.
Qed.

Lemma peek_op : wp try_peek (fun st r =>
  op_ok n0 w (mkWorld st.1 st.2 (outstanding w)) /\
  if failed c then st = (m, q) /\ r = inr None
  else
    match r with
    | inl _ => failed (core st.2) = true
    | inr o => exists c1, st.2 = q <| core := c1 |> /\ core_step c c1 /\ looked (inner c) m (inner c1) (is_some o) /\
        forall work, o = Some work -> work_ok c1 st.1 work
    end) (m, q).
Proof.
  apply wp_on_core. eapply wp_mono; [apply peek_wp, (iv_core n0 w Hinv)|]. intros [m1 c1] r [Hm%get_changed Hr]. cbn [fst snd] in *.
  fold c in Hr. destruct r as [e|o].
  - destruct Hr as (Hf & c2 & Hs & ->). rewrite Hf. split; [by apply core_step_op|done].
  - destruct Hr as (Hs & Hr). split; [by apply core_step_op'|].
    destruct (failed c); [destruct Hr as [[= -> ->] ->]; unfold c; by destruct q|]. exists c1. by split_and!; try apply Hr.
Qed.

Lemma next_op : wp try_next (fun st r =>
  op_ok n0 w (mkWorld st.1 st.2 (outstanding w ++ fetched r)) /\
  if failed c then st = (m, q) /\ r = inr None
  else
    match r with
    | inl _ => failed (core st.2) = true
    | inr None => core_step c (core st.2) /\ looked (inner c) m (inner (core st.2)) false
    | inr (Some work) => exists c1, core_step c c1 /\ looked (inner c) m (inner c1) true /\ work_ok c1 st.1 work /\
        core_advance (completion work) c1 = Ok (core st.2)
    end) (m, q).
Proof.
  apply wp_on_core. unfold try_next_work. apply wp_bind. eapply wp_mono; [apply peek_wp, (iv_core n0 w Hinv)|].
  intros [m1 c1] r [Hm%get_changed Hr]. cbn [fst snd] in *. fold c in Hr. destruct r as [e|o]; cbn [fetched].
  - rewrite app_nil_r. destruct Hr as (Hf & c2 & Hs & ->). rewrite Hf. by split; [apply core_step_op|].
  - destruct Hr as (Hs & Hr). destruct o as [work|].
    + destruct (failed c); [by destruct Hr|]. destruct Hr as [Hl Hw]. specialize (Hw work eq_refl). apply wp_bind_get, wp_bind. cbn [snd].
      pose proof (core_step_ok c c1 Hs (iv_core n0 w Hinv)) as Hck1.
      destruct (advance_ok c1 (completion work) Hck1 (wo_completion _ _ _ Hw) (wo_room _ _ _ Hw)) as (c2 & E & _).
      eapply wp_lift; [exact E|]. apply wp_bind, wp_modify, wp_ret. cbn [fst snd fetched].
      split; [by eapply advance_op|]. by exists c1.
    + apply wp_ret. cbn [fst snd fetched]. rewrite app_nil_r. split; [by apply core_step_op'|].
      destruct (failed c); [destruct Hr as [[= -> ->] _]; unfold c; by destruct q|]. by split; [|apply Hr].
Qed.

Lemma consume_op m1 work :
  work_ok c m1 work ->
  wp (consume work) (fun st _ => op_ok n0 w (mkWorld st.1 st.2 (outstanding w ++ [completion work]))) (m, q).
Proof.
  intros Hw. unfold consume. apply wp_bind_get, wp_bind. cbn [snd].
  destruct (advance_ok c (completion work) (iv_core n0 w Hinv) (wo_completion _ _ _ Hw) (wo_room _ _ _ Hw)) as (c2 & E & _).
  eapply wp_lift; [exact E|]. apply wp_bind, wp_modify, wp_ret. eapply advance_op; [done|apply core_step_refl|done|done].
Qed.

Lemma kick_op kicked : wp (poll_kick kicked) (fun st r =>
  op_ok n0 w (mkWorld st.1 st.2 (outstanding w)) /\
  if failed c then st = (m, q) /\ r = inr false
  else if armed c then st = (m, q) /\ r = inr kicked
  else exists c1 r', st.2 = q <| core := c1 |> /\ core_step c c1 /\ arm_post m (inner c) st.1 (inner c1) r' /\
    r = inr (match r' with inr false => true | _ => kicked end)) (m, q).
Proof.
  unfold poll_kick. apply wp_bind_get. cbn [snd]. assert (op_ok n0 w (mkWorld m q (outstanding w))) as Hsame.
  { split; try done. destruct Hinv. by split. }
  change (core q) with c. destruct (failed c); [by apply wp_ret|]. apply wp_bind, wp_on_core.
  eapply wp_mono; [apply arm_wp, (iv_core n0 w Hinv)|]. intros [m1 c1] r [Hs Ha]. cbn [fst snd] in *.
  fold c in Ha. destruct (armed c).
  - destruct Ha as [[= -> ->] ->]. apply wp_ret. cbn [fst snd]. replace (q <| core := c |>) with q by (unfold c; by destruct q). done.
  - destruct Ha as (r' & Hp & -> & _). apply wp_ret. cbn [fst snd]. split.
    + apply core_step_op'; [|done]. apply get_changed, Hp.
    + exists c1, r'. split_and!; [done|done|done|]. by destruct r' as [|[]].
Qed.

Lemma complete_op l1 comp l2 bytes :
  outstanding w = l1 ++ comp :: l2 ->
  wp (complete_prepared comp bytes) (fun st r => op_ok n0 w (mkWorld st.1 st.2 (l1 ++ l2)) /\ inner (core st.2) = inner c /\ failed (core st.2) = failed c) (m, q).
Proof.
  intros Hout. destruct Hinv as [H1 H2 H3 H4 H5]. fold q c in H1, H2, H3, H5. rewrite Hout in H3, H5.
  apply Forall_app in H3 as [F1 F2]. inversion_clear F2 as [|? ? Hcomp F3].
  pose proof (completion_cost c comp H1 Hcomp) as Hcost. rewrite total_cost_app in H5.
  change (total_cost (comp :: l2)) with (in_flight_cost comp + total_cost l2) in H5.
  assert (forall l, Forall (completion_ok c) l -> 0 <= total_cost l) as Hnn.
  { induction 1 as [|x l Hx _ IH]; cbn; [lia|]. pose proof (completion_cost c x H1 Hx). unfold total_cost in IH. lia. }
  pose proof (Hnn l1 F1). pose proof (Hnn l2 F3). destruct H1 as [C1 C2 C3 C4].
  unfold wp, complete_prepared, work_completed. cbn [fst snd]. fold c. rewrite usub_ok by lia. cbn [res_bind].
  set (c' := c <| in_flight := _ |>). set (q' := q <| core := c' |>).
  assert (forall m' k', changed_in (complete_area (complete q)) m m' -> complete_ok (queue_size c) (is_split c) k' ->
    fixed_complete k' = fixed_complete (complete q) ->
    (complete_mapped m (complete q) -> used_moved (queue_size c) (in_flight_cost comp) (complete q) k') ->
    forall n, op_ok n0 w (mkWorld m' (mkQueue c' k' n) (l1 ++ l2))) as Hfin.
  { intros m' k' Hm Hk Hv Hmv n. split; [|eapply changed_in_mono; [|exact Hm]; by right|by unfold fixed; cbn; rewrite Hv|].
    - split; cbn; [split; cbn; try done; lia|done| |done|rewrite total_cost_app; lia]. by apply Forall_app.
    - unfold savable. cbn. intros Hcm Hd. fold q c in Hd. change (distance c' k') with (distance c k').
      rewrite (distance_used c (complete q) k' (in_flight_cost comp) C1 H2 (Hmv Hcm)); [by rewrite Hd|]. fold c in Hd. lia. }
  assert (wp (complete_descriptor comp bytes) (fun st _ => forall n, op_ok n0 w (mkWorld st.1 (mkQueue c' st.2 n) (l1 ++ l2)))
    (m, complete q)) as Hw.
  { unfold wp, complete_descriptor. cbn [fst snd]. unfold completion_ok in Hcomp. unfold is_split in *.
    destruct (complete q) as [u|u] eqn:Hu.
    - destruct (inner c) as [g|g]; [|by destruct H2]. destruct C4 as (_ & Hp & _). destruct Hcomp as [Hctx _].
      pose proof (split_complete_wp m u (qc_descriptor_index comp) bytes (queue_size c) Hp ltac:(lia) H2) as Hs. unfold wp in Hs.
      destruct (SplitComplete.complete_descriptor _ _ _) as [[[m' u'] r]| |]; [|done|done]. cbn [res_bind fst snd] in *.
      destruct Hs as (Hm & Hk & Hv & Hmv). apply Hfin; [done|done|done|].
      unfold in_flight_cost. rewrite Hctx. exact Hmv.
    - destruct (inner c) as [g|g]; [by destruct H2|]. destruct Hcomp as [(id & k & Hctx & Hk) _]. rewrite Hctx.
      pose proof (packed_complete_wp m u id k bytes (queue_size c) Hk ltac:(lia) H2) as Hs. unfold wp in Hs.
      destruct (PackedComplete.complete_descriptor _ _ _ _) as [[[m' u'] r]| |]; [|done|done]. cbn [res_bind fst snd] in *.
      destruct Hs as (Hm & Hk' & Hv & Hmv). apply Hfin; [done|done|done|].
      unfold in_flight_cost. rewrite Hctx. exact Hmv. }
  unfold wp in Hw. change (complete q') with (complete q). destruct (complete_descriptor comp bytes (m, complete q)) as [[[m' k'] r]| |];
    [|done|done]. cbn [res_bind fst snd] in *. by destruct r as [|[]]; split; [apply Hw| |apply Hw| |apply Hw|].
Qed.

End Operations.

(** * New queues *)

Definition state_u16 (s : QueueState) : Prop := is_u 16 (avail_index s) /\ is_u 16 (used_index s).

(** The cursor with an index and a wrap bit, as it is saved. *)
Definition cursor_bits (index : Z) (wrap : bool) : Z := Z.lor index (Z.shiftl (b2z wrap) 15).

Lemma cursor_bits_eq index wrap : is_u 15 index -> cursor_bits index wrap = index + b2z wrap * 2 ^ 15.
Proof. intros Hi. unfold cursor_bits. rewrite Z.lor_comm, lor_shiftl_add by (done || lia). lia. Qed.

Lemma saved_cursor_eq v :
  is_u 16 v ->
  exists index wrap, saved_cursor (Some v) = (index, wrap) /\ is_u 15 index /\ Z.land v 0x7fff = index /\
    negb (Z.land v 0x8000 =? 0) = wrap /\ v = cursor_bits index wrap.
Proof.
  intros Hv. unfold saved_cursor. eexists _, _. split; [done|]. change 0x7fff with (2 ^ 15 - 1). rewrite !land_mask by lia.
  split; [by apply is_u_mod|]. split; [done|]. rewrite cursor_bits_eq by (by apply is_u_mod).
  rewrite Z.shiftr_div_pow2 by lia.
  assert (Z.land v 0x8000 = v / 2 ^ 15 * 2 ^ 15) as ->.
  { apply Z.bits_inj'. intros i Hi. change 0x8000 with (2 ^ 15). rewrite Z.land_spec, Z.pow2_bits_eqb, Z.mul_pow2_bits by lia.
    destruct (Z.eqb_spec 15 i) as [<-|Hne].
    - rewrite andb_true_r, <-Z.shiftr_div_pow2, Z.shiftr_spec by lia. f_equal; lia.
    - rewrite andb_false_r. symmetry. destruct (Z.ltb_spec i 15); [apply Z.testbit_neg_r; lia|].
      rewrite <-Z.shiftr_div_pow2, Z.shiftr_spec by lia. apply (is_u_testbit_high 16); [done|lia]. }
  unfold is_u in Hv. assert (v / 2 ^ 15 = 0 \/ v / 2 ^ 15 = 1) as [E|E] by div_lia; rewrite E; cbn [b2z negb Z.eqb]; split; try done.
  all: pose proof (Z.div_mod v (2 ^ 15) ltac:(lia)); cbn -[Z.modulo Z.pow]; lia.
Qed.

(** The queue at [params] with the cursors of a state. *)
Definition queue_at (ml : Z) (f : VirtioDeviceFeatures) (params : QueueParams) (s : option QueueState) (n : Z) : VirtioQueue :=
  let size := params_size params in
  let desc := mkView (desc_addr params) (descriptor_offset size) in
  if ring_packed f then
    let '(index, wrap) := saved_cursor (avail_index <$> s) in
    let '(index', wrap') := saved_cursor (used_index <$> s) in
    mkQueue
      (mkCore ml desc size f (GetPacked (PackedGet.mk desc (mkView (used_addr params) EVENT_SUPPRESSION_SIZE) size index wrap false))
        false false n)
      (CompletePacked (PackedComplete.mk desc (mkView (avail_addr params) EVENT_SUPPRESSION_SIZE) size index' wrap' (ring_event_idx f))) 0
  else
    let avail := mkView (avail_addr params) (avail_len size) in
    let used := mkView (used_addr params) (used_len size) in
    let index := default 0 (avail_index <$> s) in
    mkQueue (mkCore ml desc size f (GetSplit (SplitGet.mk avail used size index index (ring_event_idx f))) false false n)
      (CompleteSplit (SplitComplete.mk avail used size (default 0 (used_index <$> s)) (ring_event_idx f))) 0.

(** What a state says is in flight. *)
Definition state_in_flight (f : VirtioDeviceFeatures) (size : Z) (s : option QueueState) : res QueueError Z :=
  match s with
  | None => Ok 0
  | Some s =>
      if ring_packed f then packed_in_flight (avail_index s) (used_index s) size
      else split_in_flight (avail_index s) (used_index s) size
  end.

Definition params_ok (ml : Z) (f : VirtioDeviceFeatures) (params : QueueParams) : bool :=
  let size := params_size params in
  let inside a n := match subrange ml a n with Some _ => true | None => false end in
  negb (size =? 0) && (size <=? 2 ^ 15) && (ring_packed f || is_power_of_two size) && inside (desc_addr params) (descriptor_offset size)
  && (if ring_packed f then inside (used_addr params) EVENT_SUPPRESSION_SIZE && inside (avail_addr params) EVENT_SUPPRESSION_SIZE
      else inside (used_addr params) (used_len size) && inside (avail_addr params) (avail_len size)).

Lemma new_queue_eq ml f params s n :
  params_ok ml f params = true -> state_in_flight f (params_size params) s = Ok n ->
  new_queue ml f params s = Ok (queue_at ml f params s n).
Proof.
  unfold params_ok, new_queue, get_new, complete_new, state_in_flight, queue_at, PackedGet.new, PackedComplete.new, SplitGet.new,
    SplitComplete.new, subrange_err, subrange.
  intros H. repeat (apply andb_prop in H as [H ?]). rewrite Z.ltb_antisym.
  destruct (params_size params =? 0); [done|]. destruct (params_size params <=? 2 ^ 15); [|done]. cbn [orb negb].
  destruct (desc_addr params + _ <=? ml); [|done]. destruct (ring_packed f); cbn [negb andb orb] in *.
  - destruct (used_addr params + _ <=? ml); [|done]. destruct (avail_addr params + _ <=? ml); [|done]. intros Hs.
    destruct (saved_cursor (avail_index <$> s)) as [i w], (saved_cursor (used_index <$> s)) as [i' w']. cbn [res_bind].
    by rewrite Hs.
  - destruct (is_power_of_two (params_size params)); [|done]. destruct (used_addr params + _ <=? ml); [|done].
    destruct (avail_addr params + _ <=? ml); [|done]. intros Hs. cbn [res_bind negb]. by rewrite Hs.
Qed.

Lemma new_queue_inv ml f params s q :
  new_queue ml f params s = Ok q ->
  params_ok ml f params = true /\ exists n, state_in_flight f (params_size params) s = Ok n.
Proof.
  unfold params_ok, new_queue, get_new, complete_new, state_in_flight, PackedGet.new, PackedComplete.new, SplitGet.new,
    SplitComplete.new, subrange_err, subrange. rewrite Z.ltb_antisym.
  destruct (params_size params =? 0); [done|]. destruct (params_size params <=? 2 ^ 15); [|done]. cbn [orb negb andb].
  destruct (desc_addr params + _ <=? ml); [|by destruct (negb _ && _)]. destruct (ring_packed f); cbn [negb andb orb].
  - cbn [res_bind]. destruct (saved_cursor (avail_index <$> s)) as [i w], (saved_cursor (used_index <$> s)) as [i' w'].
    destruct (used_addr params + _ <=? ml); [|done]. cbn [res_bind].
    destruct (match s with Some _ => _ | None => _ end); [|done|done]. cbn [res_bind].
    destruct (avail_addr params + _ <=? ml); [|done]. eauto.
  - destruct (is_power_of_two (params_size params)); [|done]. cbn [negb]. destruct (avail_addr params + _ <=? ml); [|done].
    destruct (used_addr params + _ <=? ml); [|done]. cbn [res_bind andb].
    destruct (match s with Some _ => _ | None => _ end); [|done|done]. eauto.
Qed.

Lemma params_ok_size ml f params :
  0 <= params_size params -> params_ok ml f params = true ->
  1 <= params_size params <= 2 ^ 15 /\ (ring_packed f = false -> exists n, 0 <= n /\ params_size params = 2 ^ n).
Proof.
  unfold params_ok. intros Hp H. repeat (apply andb_prop in H as [H ?]). split.
  - destruct (Z.eqb_spec (params_size params) 0); [done|]. destruct (Z.leb_spec (params_size params) (2 ^ 15)); [lia|done].
  - intros Hf. rewrite Hf in *. by apply power_of_two_spec.
Qed.

Lemma cursor_position index wrap size :
  is_u 15 index -> let v := cursor_bits index wrap in
  Z.land v 0x7fff = index /\ negb (Z.land v 0x8000 =? 0) = wrap /\ saved_cursor (Some v) = (index, wrap) /\ is_u 16 v /\
  Z.land v 0x7fff + b2z (negb (Z.land v 0x8000 =? 0)) * size = index + b2z wrap * size.
Proof.
  intros Hi v. assert (v = index + b2z wrap * 2 ^ 15) as Ev by (by apply cursor_bits_eq).
  assert (is_u 16 v) as Hv by (rewrite Ev; unfold is_u in *; destruct wrap; cbn [b2z]; lia).
  destruct (saved_cursor_eq v Hv) as (i & w & E & Hi' & E1 & E2 & E3). rewrite cursor_bits_eq in E3 by done.
  assert (i = index /\ w = wrap) as [-> ->].
  { unfold is_u in *. destruct w, wrap; cbn [b2z] in *; split; done || lia. }
  rewrite E1, E2. by split_and!.
Qed.

Lemma packed_in_flight_eq index wrap index' wrap' size n :
  is_u 15 index -> is_u 15 index' ->
  packed_in_flight (cursor_bits index wrap) (cursor_bits index' wrap') size = Ok n <->
  index < size /\ index' < size /\ n <= size /\ n = (index + b2z wrap * size - (index' + b2z wrap' * size)) mod (2 * size).
Proof.
  intros Hi Hi'. destruct (cursor_position index wrap size Hi) as (E1 & _ & _ & _ & E2).
  destruct (cursor_position index' wrap' size Hi') as (E1' & _ & _ & _ & E2').
  unfold packed_in_flight. rewrite E2, E2', E1, E1'.
  destruct (Z.leb_spec size index); cbn [orb]; [split; [done|lia]|]. destruct (Z.leb_spec size index'); [split; [done|lia]|].
  set (d := _ mod _). destruct (Z.ltb_spec size d); split; try done; try lia; [|intros (_ & _ & _ & ->); done].
  intros [= <-]. by split_and!.
Qed.

Lemma new_queue_ok ml f params s n m :
  0 <= params_size params -> params_ok ml f params = true ->
  match s with Some s => state_u16 s | None => True end -> state_in_flight f (params_size params) s = Ok n ->
  let q := queue_at ml f params s n in inv n (mkWorld m q []) /\ savable q.
Proof.
  intros Hp Hok Hs Hn q. destruct (params_ok_size ml f params Hp Hok) as [Hsz Hpow]. subst q. unfold queue_at, savable.
  unfold state_in_flight in Hn. destruct (ring_packed f).
  - set (size := params_size params) in *.
    assert (exists index wrap index' wrap', saved_cursor (avail_index <$> s) = (index, wrap) /\
      saved_cursor (used_index <$> s) = (index', wrap') /\ 0 <= index < size /\ 0 <= index' < size /\ 0 <= n <= size /\
      n = (index + b2z wrap * size - (index' + b2z wrap' * size)) mod (2 * size)) as (i & b & i' & b' & -> & -> & Hi & Hi' & Hnb & Hd).
    { destruct s as [s|]; cbn [fmap option_fmap option_map].
      - destruct Hs as [Ha Hu]. destruct (saved_cursor_eq _ Ha) as (i & b & E & Hi & _ & _ & Ea).
        destruct (saved_cursor_eq _ Hu) as (i' & b' & E' & Hi' & _ & _ & Eu). rewrite Ea, Eu in Hn.
        apply packed_in_flight_eq in Hn as (L1 & L2 & L3 & Hd); [|done|done]. exists i, b, i', b'. unfold is_u in *.
        pose proof (Z.mod_pos_bound (i + b2z b * size - (i' + b2z b' * size)) (2 * size) ltac:(lia)). split_and!; try done; lia.
      - exists 0, true, 0, true. injection Hn as <-. cbn [saved_cursor]. split_and!; try done; try lia.
        rewrite Z.sub_diag. by rewrite Z.mod_0_l by lia. }
    split; [|done]. split; cbn; [|split_and!; done || lia|constructor|lia|lia]. by split.
  - assert (is_u 16 (default 0 (avail_index <$> s)) /\ is_u 16 (default 0 (used_index <$> s)) /\ 0 <= n <= params_size params /\
      n = ucast 16 (default 0 (avail_index <$> s) - default 0 (used_index <$> s))) as (Ha & Hu & Hnb & Hd).
    { destruct s as [s|]; cbn [fmap option_fmap option_map default].
      - destruct Hs as [Ha Hu]. unfold split_in_flight in Hn. pose proof (is_u_ucast 16 (avail_index s - used_index s) ltac:(lia)).
        destruct (Z.ltb_spec (params_size params) (ucast 16 (avail_index s - used_index s))); [done|].
        injection Hn as <-. unfold is_u, id in *. split_and!; done || lia.
      - injection Hn as <-. by split_and!; try lia. }
    split; [|done]. split; cbn; [|by split_and!|constructor|lia|lia]. split; try done. cbn. by split_and!; auto.
Qed.

(** * Runs *)

Lemma wp_result {S A} (p : QM S A) Q st st' r : wp p Q st -> p st = Ok (st', r) -> Q st' r.
Proof. unfold wp. intros H E. by rewrite E in H. Qed.

Lemma wp_returns {S A} (p : QM S A) Q st : wp p Q st -> exists x, p st = Ok x.
Proof. unfold wp. destruct (p st) as [x| |]; [eauto|done|done]. Qed.

Lemma fixed_mapped m k k' : fixed_complete k' = fixed_complete k -> complete_mapped m k -> complete_mapped m k'.
Proof.
  intros E. destruct k, k'; try done.
  - injection E as ? E ? ?. cbn. by rewrite E.
  - injection E as E1 E2 ? ?. cbn. by rewrite E1, E2.
Qed.

Lemma inv_memory n0 w m : inv n0 w -> inv n0 (mkWorld m (queue w) (outstanding w)).
Proof. intros []. by split. Qed.

(** What the guest may do keeps the mapping of memory. *)
Definition keeps_mapping (guest : GuestMemory -> Prop) m : Prop := forall m', guest m' -> mapped_same m m'.

(** What a step keeps. *)
Record step_ok (guest : GuestMemory -> Prop) (n0 : Z) (w w' : World) : Prop := {
  so_inv : inv n0 w';
  so_fixed : fixed (queue w') = fixed (queue w);
  so_savable : keeps_mapping guest (memory w) -> complete_mapped (memory w) (complete (queue w)) ->
    mapped_same (memory w) (memory w') /\ (savable (queue w) -> savable (queue w'));
}.

Lemma op_step_ok guest n0 w w' : op_ok n0 w w' -> step_ok guest n0 w w'.
Proof. intros [? [] ? ?]. split; auto. Qed.

(** A peek, a change of memory, and then the use of the work. *)
Lemma consume_step_ok guest n0 w m q work m1 m2 q2 r :
  inv n0 w -> try_peek (memory w, queue w) = Ok (m, q, inr (Some work)) -> guest m1 ->
  consume work (m1, q) = Ok (m2, q2, r) -> step_ok guest n0 w (mkWorld m2 q2 (outstanding w ++ [completion work])).
Proof.
  intros Hinv Hp Hg Hc. destruct (wp_result _ _ _ _ _ (peek_op n0 w Hinv) Hp) as [[I1 M1 F1 S1] Hw].
  destruct (failed (core (queue w))); [by destruct Hw|]. destruct Hw as (c1 & Hq & _ & _ & Hok). specialize (Hok work eq_refl).
  cbn [fst snd] in *. set (w1 := mkWorld m1 q (outstanding w)).
  pose proof (inv_memory n0 _ m1 I1) as I2. cbn in I2.
  assert (work_ok (core (queue w1)) m work) as Hok' by (by subst w1 q).
  destruct (wp_result _ _ _ _ _ (consume_op n0 w1 I2 m work Hok') Hc) as [I3 M3 F3 S3]. cbn in *.
  split; cbn; [done|by rewrite F3|]. intros Hk Hm. specialize (Hk m1 Hg). split; [by rewrite Hk; apply M3|].
  intros Hsv. apply S3; [|auto]. apply (complete_mapped_same (memory w)); [done|].
  eapply fixed_mapped; [|exact Hm]. by injection F1.
Qed.

Lemma step_keeps guest n0 w l w' : inv n0 w -> lstep guest w l w' -> step_ok guest n0 w w'.
Proof.
  intros Hinv [m Hg|m q r H|m q r H|m q work m1 m2 q2 r H1 Hg H2|kicked m q r H|l1 comp l2 bytes m q r Hout H].
  - split; cbn; [by apply inv_memory|done|]. intros Hk _. auto.
  - by apply op_step_ok, (wp_result _ _ _ _ _ (next_op n0 w Hinv) H).
  - by apply op_step_ok, (wp_result _ _ _ _ _ (peek_op n0 w Hinv) H).
  - by eapply consume_step_ok.
  - by apply op_step_ok, (wp_result _ _ _ _ _ (kick_op n0 w Hinv kicked) H).
  - by apply op_step_ok, (wp_result _ _ _ _ _ (complete_op n0 w Hinv l1 comp l2 bytes Hout) H).
Qed.

Lemma run_keeps guest n0 w w' :
  inv n0 w -> rtc (step guest) w w' ->
  inv n0 w' /\ fixed (queue w') = fixed (queue w) /\
  (keeps_mapping guest (memory w) -> complete_mapped (memory w) (complete (queue w)) -> savable (queue w) -> savable (queue w')).
Proof.
  intros Hinv Hr. revert Hinv. induction Hr as [w|w w1 w' Hs _ IH]; intros Hinv; [done|].
  destruct Hs as [l Hs]. destruct (step_keeps guest n0 w l w1 Hinv Hs) as [I1 F1 S1]. destruct (IH I1) as (I2 & F2 & S2).
  split_and!; [done|by rewrite F2|]. intros Hk Hm Hsv. destruct (S1 Hk Hm) as [M1 Hsv1]. apply S2; [| |auto].
  - intros m' Hg. etransitivity; [symmetry; exact M1|by apply Hk].
  - apply (complete_mapped_same (memory w)); [done|]. eapply fixed_mapped; [|exact Hm]. by injection F1.
Qed.

(** The device can do any of its operations. *)
Record no_panic (w : World) : Prop := {
  np_next : exists x, try_next (memory w, queue w) = Ok x;
  np_peek : exists x, try_peek (memory w, queue w) = Ok x;
  np_consume : forall m q work m', try_peek (memory w, queue w) = Ok (m, q, inr (Some work)) ->
    exists x, consume work (m', q) = Ok x;
  np_kick : forall kicked, exists x, poll_kick kicked (memory w, queue w) = Ok x;
  np_complete : forall comp bytes, comp ∈ outstanding w -> exists x, complete_prepared comp bytes (memory w, queue w) = Ok x;
}.

Lemma inv_no_panic n0 w : inv n0 w -> no_panic w.
Proof.
  intros Hinv. split.
  - eapply wp_returns, next_op, Hinv.
  - eapply wp_returns, peek_op, Hinv.
  - intros m q work m' Hp. destruct (wp_result _ _ _ _ _ (peek_op n0 w Hinv) Hp) as [[I1 _ _ _] Hw].
    destruct (failed (core (queue w))); [by destruct Hw|]. destruct Hw as (c1 & Hq & _ & _ & Hok). specialize (Hok work eq_refl). cbn in *.
    eapply wp_returns, (consume_op n0 (mkWorld m' q (outstanding w)) (inv_memory n0 _ m' I1) m work). by subst q.
  - intros kicked. eapply wp_returns, kick_op, Hinv.
  - intros comp bytes (l1 & l2 & Hout)%list_elem_of_split. eapply wp_returns, (complete_op n0 w Hinv l1 comp l2 bytes Hout).
Qed.

Lemma fixed_area q q' x : fixed q' = fixed q -> area q' x -> area q x.
Proof.
  intros E. unfold area. pose proof (f_equal (fun y => get_area (inner y.1) x) E) as E1.
  pose proof (f_equal (fun y => complete_area y.2 x) E) as E2. unfold fixed in E1, E2. cbn in E1, E2.
  replace (get_area (inner (core q')) x) with (get_area (inner (core q)) x) by (by destruct (inner (core q)), (inner (core q'))).
  by replace (complete_area (complete q') x) with (complete_area (complete q) x) by (by destruct (complete q), (complete q')).
Qed.

(** A step of the device alone. *)
Lemma device_step_changed n0 w l w' :
  inv n0 w -> lstep (fun _ => False) w l w' -> changed_in (area (queue w)) (memory w) (memory w').
Proof.
  intros Hinv [m []|m q r H|m q r H|m q work m1 m2 q2 r H1 [] H2|kicked m q r H|l1 comp l2 bytes m q r Hout H].
  - apply (oo_changed _ _ _ (proj1 (wp_result _ _ _ _ _ (next_op n0 w Hinv) H))).
  - apply (oo_changed _ _ _ (proj1 (wp_result _ _ _ _ _ (peek_op n0 w Hinv) H))).
  - apply (oo_changed _ _ _ (proj1 (wp_result _ _ _ _ _ (kick_op n0 w Hinv kicked) H))).
  - apply (oo_changed _ _ _ (proj1 (wp_result _ _ _ _ _ (complete_op n0 w Hinv l1 comp l2 bytes Hout) H))).
Qed.

Lemma failed_next m q : failed (core q) = true -> try_next (m, q) = Ok (m, q, inr None).
Proof.
  intros Hf. unfold try_next, on_core, try_next_work, qbind, try_peek_work. cbn [fst snd]. rewrite Hf. cbn. by destruct q.
Qed.

Lemma new_world ml f params s q m :
  is_u 16 (params_size params) -> match s with Some s => state_u16 s | None => True end ->
  new_queue ml f params s = Ok q -> inv (in_flight (core q)) (mkWorld m q []) /\ savable q.
Proof.
  intros Hp Hs Hq. destruct (new_queue_inv ml f params s q Hq) as (Hok & n & Hn).
  rewrite (new_queue_eq ml f params s n Hok Hn) in Hq. injection Hq as <-. unfold is_u in Hp.
  destruct (new_queue_ok ml f params s n m ltac:(lia) Hok Hs Hn) as [Hi Hsv].
  replace (in_flight (core (queue_at ml f params s n))) with n; [done|]. pose proof (iv_flight _ _ Hi) as E. cbn in E. lia.
Qed.

Lemma queue_at_size ml f params s n : queue_size (core (queue_at ml f params s n)) = params_size params.
Proof.
  unfold queue_at. destruct (ring_packed f); [|done]. by destruct (saved_cursor (avail_index <$> s)), (saved_cursor (used_index <$> s)).
Qed.

Lemma new_queue_size ml f params s q : new_queue ml f params s = Ok q -> queue_size (core q) = params_size params.
Proof.
  intros Hq. destruct (new_queue_inv ml f params s q Hq) as (Hok & n & Hn).
  rewrite (new_queue_eq ml f params s n Hok Hn) in Hq. injection Hq as <-. apply queue_at_size.
Qed.

(** C5: a device with a virtio queue never panics, whatever the guest has in
    memory and changes there at any time, whatever parameters and saved state
    the queue was made with, and in whatever order the device fetches, peeks,
    waits and completes. The queue's count of slots in flight is always what
    the outstanding work takes, over what the saved state had, and never more
    than the size of the queue. The device writes only to the used ring, or to
    its event and the descriptors of a packed ring, and a queue that failed
    gives no more work. *)
Theorem virtqueue_safe ml f params s q m w :
  is_u 16 (params_size params) -> match s with Some s => state_u16 s | None => True end ->
  new_queue ml f params s = Ok q -> rtc (step (fun _ => True)) (mkWorld m q []) w ->
  no_panic w /\
  in_flight (core q) + total_cost (outstanding w) = in_flight (core (queue w)) /\
  in_flight (core (queue w)) <= params_size params /\
  (forall l w', lstep (fun _ => False) w l w' -> changed_in (area q) (memory w) (memory w')) /\
  (failed (core (queue w)) = true -> try_next (memory w, queue w) = Ok (memory w, queue w, inr None)).
Proof.
  intros Hp Hs Hq Hr. destruct (new_world ml f params s q m Hp Hs Hq) as [Hinv _].
  destruct (run_keeps _ _ _ _ Hinv Hr) as (Hw & Hfix & _). split_and!.
  - by eapply inv_no_panic.
  - symmetry. apply (iv_flight _ _ Hw).
  - pose proof (ck_flight _ (iv_core _ _ Hw)) as [_ Hle]. pose proof (f_equal (fun x => queue_size x.1) Hfix) as E. cbn in E.
    by rewrite E, (new_queue_size _ _ _ _ _ Hq) in Hle.
  - intros l w' Hl. eapply changed_in_mono; [|by eapply device_step_changed]. intros x. by apply fixed_area.
  - apply failed_next.
Qed.

(** * Saving and restoring *)

Lemma queue_at_fixed ml f params s n s' n' : fixed (queue_at ml f params s n) = fixed (queue_at ml f params s' n').
Proof.
  unfold queue_at. destruct (ring_packed f); [|done].
  by destruct (saved_cursor (avail_index <$> s)), (saved_cursor (used_index <$> s)), (saved_cursor (avail_index <$> s')),
    (saved_cursor (used_index <$> s')).
Qed.

Lemma queue_at_packed ml f params s n : is_split (core (queue_at ml f params s n)) = negb (ring_packed f).
Proof.
  unfold queue_at. destruct (ring_packed f); [|done]. by destruct (saved_cursor (avail_index <$> s)), (saved_cursor (used_index <$> s)).
Qed.

Lemma fixed_split q q' : fixed q = fixed q' -> is_split (core q) = is_split (core q') /\ queue_size (core q) = queue_size (core q').
Proof.
  intros E. split; [|by apply (f_equal (fun x => queue_size x.1)) in E].
  apply (f_equal (fun x => is_split x.1)) in E. revert E. unfold fixed, is_split, fixed_core. cbn [fst inner].
  by destruct (inner (core q)), (inner (core q')).
Qed.

(** The state of a queue tells what is in flight, and what its cursors are. *)
Lemma saved_state n0 w ml f params n :
  inv n0 w -> savable (queue w) -> is_split (core (queue w)) = negb (ring_packed f) ->
  queue_size (core (queue w)) = params_size params ->
  let s := queue_state (queue w) in
  state_in_flight f (params_size params) (Some s) = Ok (in_flight (core (queue w))) /\
  queue_state (queue_at ml f params (Some s) n) = s.
Proof.
  intros [[C1 C2 _ C4] H2 _ _ _] Hsv Hsp Hsz s. unfold savable, distance in Hsv. unfold is_split in *. rewrite Hsz in *.
  unfold state_in_flight, queue_at, s, queue_state, core_avail_index, core_used_index.
  destruct (inner (core (queue w))) as [g|g], (complete (queue w)) as [u|u]; cbn in H2; try (by destruct H2);
    destruct (ring_packed f); try done; cbn [avail_index used_index fmap option_fmap option_map].
  - split; [|done]. unfold split_in_flight. rewrite Hsv. destruct (Z.ltb_spec (params_size params) (in_flight (core (queue w)))); [lia|done].
  - destruct C4 as [_ Hi]. destruct H2 as (_ & _ & Hi' & _).
    assert (is_u 15 (PackedGet.next_avail_index g)) as U by (unfold is_u; lia).
    assert (is_u 15 (PackedComplete.next_index u)) as U' by (unfold is_u; lia).
    fold (cursor_bits (PackedGet.next_avail_index g) (PackedGet.wrapped_bit g)).
    unfold PackedGet.avail_state, PackedComplete.used_state.
    fold (cursor_bits (PackedGet.next_avail_index g) (PackedGet.wrapped_bit g)).
    fold (cursor_bits (PackedComplete.next_index u) (PackedComplete.wrapped_bit u)). split.
    + apply packed_in_flight_eq; [done|done|]. split_and!; lia.
    + destruct (cursor_position _ (PackedGet.wrapped_bit g) 0 U) as (_ & _ & -> & _).
      by destruct (cursor_position _ (PackedComplete.wrapped_bit u) 0 U') as (_ & _ & -> & _).
Qed.

(** C38: a queue can be saved and restored at any time. As long as the rings
    are mapped, the two cursors of a queue that ran for any time are accepted as
    the saved state of a new queue with the same parameters; the new queue has
    the same rings, cursors and count of slots in flight, and is not failed. *)
Theorem virtqueue_save_restore guest ml f params s q m w :
  is_u 16 (params_size params) -> match s with Some s => state_u16 s | None => True end ->
  new_queue ml f params s = Ok q -> keeps_mapping guest m -> complete_mapped m (complete q) ->
  rtc (step guest) (mkWorld m q []) w ->
  exists q', new_queue ml f params (Some (queue_state (queue w))) = Ok q' /\
    queue_state q' = queue_state (queue w) /\ fixed q' = fixed (queue w) /\
    in_flight (core q') = in_flight (core (queue w)) /\ failed (core q') = false.
Proof.
  intros Hp Hs Hq Hk Hm Hr. destruct (new_world ml f params s q m Hp Hs Hq) as [Hinv Hsv].
  destruct (run_keeps _ _ _ _ Hinv Hr) as (Hw & Hfix & Hsvw). specialize (Hsvw Hk Hm Hsv).
  destruct (new_queue_inv ml f params s q Hq) as (Hok & n & Hn).
  rewrite (new_queue_eq ml f params s n Hok Hn) in Hq. injection Hq as <-. cbn in Hfix.
  destruct (fixed_split _ _ Hfix) as [Hsp Hsz]. rewrite queue_at_packed in Hsp. rewrite queue_at_size in Hsz.
  destruct (saved_state _ w ml f params (in_flight (core (queue w))) Hw Hsvw Hsp Hsz) as [Hn' Hst].
  eexists. split; [by apply new_queue_eq|]. split; [exact Hst|]. split; [by rewrite Hfix; apply queue_at_fixed|].
  unfold queue_at. destruct (ring_packed f); [|done]. by destruct (saved_cursor _), (saved_cursor _).
Qed.

(** * Runs that can be computed *)

Inductive op : Type :=
| OpGuest (m : GuestMemory)
| OpNext
| OpPeek
| OpConsume (m : GuestMemory)
| OpKick (kicked : bool)
| OpComplete (n : nat) (bytes : Z).

Definition do_op (w : World) (o : op) : option World :=
  let st := (memory w, queue w) in
  match o with
  | OpGuest m => Some (mkWorld m (queue w) (outstanding w))
  | OpNext => match try_next st with Ok (m, q, r) => Some (mkWorld m q (outstanding w ++ fetched r)) | _ => None end
  | OpPeek => match try_peek st with Ok (m, q, r) => Some (mkWorld m q (outstanding w)) | _ => None end
  | OpConsume m1 =>
      match try_peek st with
      | Ok (m, q, inr (Some work)) =>
          match consume work (m1, q) with
          | Ok (m2, q2, r) => Some (mkWorld m2 q2 (outstanding w ++ [completion work]))
          | _ => None
          end
      | _ => None
      end
  | OpKick kicked => match poll_kick kicked st with Ok (m, q, r) => Some (mkWorld m q (outstanding w)) | _ => None end
  | OpComplete n bytes =>
      match outstanding w !! n with
      | Some comp =>
          match complete_prepared comp bytes st with
          | Ok (m, q, r) => Some (mkWorld m q (take n (outstanding w) ++ drop (S n) (outstanding w)))
          | _ => None
          end
      | None => None
      end
  end.

(** The memory that the guest sets. *)
Definition op_memory (o : op) : option GuestMemory :=
  match o with OpGuest m | OpConsume m => Some m | _ => None end.

Definition op_allowed (guest : GuestMemory -> Prop) (o : op) : Prop := forall m, op_memory o = Some m -> guest m.

(** What the operation fetches or completes. *)
Definition op_events (w : World) (o : op) : list event :=
  let st := (memory w, queue w) in
  match o with
  | OpNext => match try_next st with Ok (_, r) => map Fetched (fetched r) | _ => [] end
  | OpConsume _ => match try_peek st with Ok (_, inr (Some work)) => [Fetched (completion work)] | _ => [] end
  | OpComplete n bytes => match outstanding w !! n with Some comp => [Completed comp bytes] | None => [] end
  | _ => []
  end.

Lemma do_op_step guest w o w' : op_allowed guest o -> do_op w o = Some w' -> lstep guest w (op_events w o) w'.
Proof.
  unfold do_op, op_events, op_allowed. destruct o; cbn [op_memory]; intros Hg.
  - intros [= <-]. apply step_guest. by apply Hg.
  - destruct (try_next _) as [[[m q] r]| |] eqn:E; [|done|done]. intros [= <-]. by apply step_next.
  - destruct (try_peek _) as [[[m q] r]| |] eqn:E; [|done|done]. intros [= <-]. by eapply step_peek.
  - destruct (try_peek _) as [[[m1 q] [e|[work|]]]| |] eqn:E; try done.
    destruct (consume work (m, q)) as [[[m2 q2] r]| |] eqn:E2; [|done|done]. intros [= <-].
    eapply step_consume; [exact E|by apply Hg|exact E2].
  - destruct (poll_kick _ _) as [[[m q] r]| |] eqn:E; [|done|done]. intros [= <-]. by eapply step_kick.
  - destruct (outstanding w !! n) as [comp|] eqn:Hn; [|done]. destruct (complete_prepared _ _ _) as [[[m q] r]| |] eqn:E; [|done|done].
    intros [= <-]. eapply step_complete; [|exact E]. by rewrite take_drop_middle.
Qed.

Definition run (w : World) (l : list op) : option World := foldl (fun w o => w ← w; do_op w o) (Some w) l.

Lemma run_none l : foldl (fun w o => w ← w; do_op w o) None l = None.
Proof. by induction l. Qed.

Lemma run_snoc w l o : run w (l ++ [o]) = w' ← run w l; do_op w' o.
Proof. unfold run. by rewrite foldl_app. Qed.

Lemma run_rtc guest w l w' : Forall (op_allowed guest) l -> run w l = Some w' -> rtc (step guest) w w'.
Proof.
  intros Hl. revert w. induction Hl as [|o l Ho _ IH]; intros w; cbn; [by intros [= <-]|]. unfold run in *.
  destruct (do_op w o) as [w1|] eqn:E; [|by rewrite run_none]. intros H. eapply rtc_l; [eexists; by eapply do_op_step|by apply IH].
Qed.

(** * Example: a split queue of four descriptors

    The descriptors are at 0, the available ring at 64, the used ring at 80. The
    guest offers a chain of a buffer to read and a buffer to write. *)

Definition example_params : QueueParams := mkParams 4 0 64 80.

Definition example_descriptor (address length flags next : Z) : list Z :=
  le_bytes 8 address ++ le_bytes 4 length ++ le_bytes 2 flags ++ le_bytes 2 next.

Definition example_memory : GuestMemory :=
  store 64 (le_bytes 2 0 ++ le_bytes 2 1 ++ le_bytes 2 2)
    (store 0 (example_descriptor 0 0 0 0 ++ example_descriptor 144 8 2 0 ++ example_descriptor 128 16 1 1)
       (store 0 (replicate 256 0) ∅)).

Definition example_queue (f : VirtioDeviceFeatures) : VirtioQueue := queue_at 256 f example_params None 0.

Definition split_features : VirtioDeviceFeatures := mkFeatures false true false.

(** The device takes the chain, waits for more, and completes it. *)
Definition example_ops : list op := [OpPeek; OpNext; OpKick false; OpComplete 0 8].

Definition example_start (f : VirtioDeviceFeatures) : World := mkWorld example_memory (example_queue f) [].

Definition example_end (l : list op) : World := default (example_start split_features) (run (example_start split_features) l).

Lemma device_ops_allowed guest l : forallb (fun o => bool_decide (op_memory o = None)) l = true -> Forall (op_allowed guest) l.
Proof.
  induction l as [|o l IH]; cbn; [constructor|]. intros [Ho%bool_decide_eq_true Hl]%andb_prop. constructor; [|by apply IH].
  intros m. by rewrite Ho.
Qed.

Lemma example_run guest l :
  forallb (fun o => bool_decide (op_memory o = None)) l = true -> is_some (run (example_start split_features) l) = true ->
  rtc (step guest) (example_start split_features) (example_end l).
Proof.
  intros Hl Hr. unfold example_end. destruct (run (example_start split_features) l) as [w|] eqn:Hw; [|done].
  by eapply run_rtc; [apply device_ops_allowed|].
Qed.

(** One more operation. *)
Lemma example_snoc l o :
  is_some (run (example_start split_features) (l ++ [o])) = true -> do_op (example_end l) o = Some (example_end (l ++ [o])).
Proof.
  unfold example_end. rewrite run_snoc. destruct (run (example_start split_features) l) as [w|]; [|done].
  cbn. by destruct (do_op w o).
Qed.

Lemma example_new : new_queue 256 split_features example_params None = Ok (example_queue split_features).
Proof. by vm_compute. Qed.

(** It has no table. *)
Lemma example_not_nested : ~ nested (core (example_queue split_features)) example_memory 2.
Proof.
  assert (forall i, nested (core (example_queue split_features)) example_memory i -> i = 2 \/ i = 1 -> False) as H; [|eauto].
  induction 1 as [i d j Hd Hp Hj _ IH|i d v d0 Hd Hp _ _ _]; intros [-> | ->]; vm_compute in Hd; injection Hd as <-.
  - apply IH. right. vm_compute in Hj. by injection Hj.
  - by vm_compute in Hj.
  - by vm_compute in Hp.
  - by vm_compute in Hp.
Qed.

(** The chain of the example has its two buffers. *)
Lemma chain_exact_witness :
  exists l, chain (core (example_queue split_features)) example_memory 2 l /\
    map payload_of l = [mkPayload false 128 16; mkPayload true 144 8].
Proof.
  destruct (new_world 256 split_features example_params None _ example_memory ltac:(done) I example_new) as [Hinv _].
  pose proof (chain_exact (core (example_queue split_features)) example_memory 2 (iv_core _ _ Hinv)) as H.
  destruct (reader_collect (core (example_queue split_features)) example_memory 2) as [[pl ch]|e|] eqn:E.
  - destruct H as (l & _ & Hl & _ & Hpl). exists l. split; [|rewrite <-Hpl; vm_compute in E; by injection E as <- _].
    destruct Hl as [Hl|[Hn _]]; [exact Hl|]. by destruct example_not_nested.
  - by vm_compute in E.
  - by vm_compute in E.
Defined.

(** One slot is in flight while the chain is outstanding. *)
Lemma virtqueue_safe_witness :
  no_panic (example_end [OpPeek; OpNext]) /\ in_flight (core (queue (example_end [OpPeek; OpNext]))) = 1.
Proof.
  destruct (virtqueue_safe 256 split_features example_params None _ example_memory (example_end [OpPeek; OpNext])
    ltac:(done) I example_new) as (Hp & Hf & _).
  - by apply example_run; vm_compute.
  - split; [exact Hp|]. rewrite <-Hf. by vm_compute.
Defined.

(** Saved with the chain outstanding. *)
Lemma virtqueue_save_restore_witness :
  exists q, new_queue 256 split_features example_params (Some (mkQueueState 1 0)) = Ok q /\
    queue_state q = mkQueueState 1 0 /\ in_flight (core q) = 1.
Proof.
  destruct (virtqueue_save_restore (fun m => m = example_memory) 256 split_features example_params None _ example_memory
    (example_end [OpNext]) ltac:(done) I example_new) as (q & Hq & Hs & _ & Hf & _).
  - by intros m ->.
  - intros x Hx. change (within 80 38 x) in Hx. unfold within in Hx.
    assert (is_Some (example_memory !! (80 + Z.of_nat (Z.to_nat (x - 80))))) as H; [|by replace x with (80 + Z.of_nat (Z.to_nat (x - 80))) by lia].
    assert (Z.to_nat (x - 80) < 38)%nat as Hn by lia. revert Hn. generalize (Z.to_nat (x - 80)). intros n Hn.
    do 38 (destruct n as [|n]; [by vm_compute; eexists|]). lia.
  - by apply example_run; vm_compute.
  - exists q. split; [exact Hq|]. split; [exact Hs|]. rewrite Hf. by vm_compute.
Defined.
