(* ===== verification/VirtioFifo.v ===== *)
(** Split rings as queues: a driver that follows the protocol publishes heads in
    the available ring, and the device takes them in that order, each once,
    while indices wrap and either side runs ahead. *)

From stdpp Require Import gmap.
From S2P Require Import Prelude GuestMem VirtioQueue VirtioQueueSpec VirtioQueueOps VirtioQueueSafe.

Implicit Type m : GuestMemory.

(** * The driver *)

(** What the driver has published and the device has taken since the start. *)
Record FifoWorld : Type := mkFifo {
  fw : World;
  published : list Z;
  taken : list Z;
}.

(** The heads that events fetch. *)
Definition heads (l : list event) : list Z :=
  flat_map (fun e => match e with Fetched comp => [qc_descriptor_index comp] | Completed _ _ => [] end) l.

Section Fifo.

(** A queue at [params], with [a0] as the first available index. *)
Context (ml : Z) (f : VirtioDeviceFeatures) (params : QueueParams) (s : option QueueState).

Let size := params_size params.
Let avail_view := mkView (avail_addr params) (avail_len size).
Let used_view := mkView (used_addr params) (used_len size).
Let a0 := default 0 (avail_index <$> s).

Definition avail_idx m : option Z := view_read 2 avail_view AVAIL_OFFSET_IDX m.

Definition avail_slot m (j : Z) : option Z := view_read 2 avail_view (AVAIL_OFFSET_RING + AVAIL_ELEMENT_SIZE * j) m.

(** The guest changes anything but the index and the slots of the ring. *)
Definition same_ring m m' : Prop :=
  avail_idx m' = avail_idx m /\ forall j, 0 <= j < size -> avail_slot m' j = avail_slot m j.

(** The driver publishes [h] after [n] others: it fills the next slot, and moves
    the index. *)
Definition publishes m (n : Z) (h : Z) m' : Prop :=
  avail_idx m' = Some ((a0 + n + 1) mod 2 ^ 16) /\
  forall j, 0 <= j < size -> avail_slot m' j = if j =? (a0 + n) mod size then Some h else avail_slot m j.

Inductive fifo_step : FifoWorld -> FifoWorld -> Prop :=
| fifo_publish w P F h m' :
    Z.of_nat (length P) - Z.of_nat (length F) < size -> publishes (memory w) (Z.of_nat (length P)) h m' ->
    fifo_step (mkFifo w P F) (mkFifo (mkWorld m' (queue w) (outstanding w)) (P ++ [h]) F)
| fifo_device w P F l w' :
    lstep (same_ring (memory w)) w l w' -> fifo_step (mkFifo w P F) (mkFifo w' P (F ++ heads l)).

(** * Invariant *)

Context (Hsize : is_u 16 size) (Hstate : match s with Some s => state_u16 s | None => True end).
Context (Hpacked : ring_packed f = false).
Context (q0 : VirtioQueue) (Hq0 : new_queue ml f params s = Ok q0).
Context (Hdisjoint : forall x, in_view used_view x -> ~ in_view avail_view x).

Lemma size_pow : exists e, 0 <= e <= 15 /\ size = 2 ^ e.
Proof.
  destruct (new_queue_inv ml f params s q0 Hq0) as (Hok & _). unfold is_u in Hsize.
  destruct (params_ok_size ml f params ltac:(subst size; lia) Hok) as [Hb He]. destruct (He Hpacked) as (e & He0 & E).
  exists e. split; [|done]. split; [done|]. destruct (Z.leb_spec e 15); [done|]. subst size. rewrite E in Hb.
  pose proof (Z.pow_le_mono_r 2 16 e ltac:(lia) ltac:(lia)). lia.
Qed.

Lemma size_bound : 1 <= size <= 2 ^ 15.
Proof.
  clear Hdisjoint Hstate.
  destruct size_pow as (e & He & ->). pose proof (Z.pow_le_mono_r 2 e 15 ltac:(lia) ltac:(lia)).
  pose proof (Z.pow_pos_nonneg 2 e ltac:(lia) ltac:(lia)). lia.
Qed.

(** The slot of a 16-bit index. *)
Lemma slot_eq x : Z.land (x mod 2 ^ 16) (size - 1) = x mod size.
Proof.
  clear Hdisjoint Hstate.
  destruct size_pow as (e & He & ->). rewrite land_mask by lia.
  rewrite <-!Z.land_ones by lia. rewrite <-Z.land_assoc. f_equal. apply Z.bits_inj'. intros i Hi.
  rewrite Z.land_spec, !Z.testbit_ones_nonneg by lia. destruct (Z.ltb_spec i e), (Z.ltb_spec i 16); try done. lia.
Qed.

Lemma index_inj i j : 0 <= j - i <= size -> (a0 + i) mod 2 ^ 16 = (a0 + j) mod 2 ^ 16 -> i = j.
Proof.
  pose proof size_bound. intros Hij E.
  assert ((j - i) mod 2 ^ 16 = 0) as Hm.
  { replace (j - i) with ((a0 + j) - (a0 + i)) by lia. by rewrite Zminus_mod, E, Z.sub_diag. }
  rewrite Z.mod_small in Hm by lia. lia.
Qed.

Lemma slot_inj i j : 0 < j - i < size -> (a0 + i) mod size <> (a0 + j) mod size.
Proof.
  intros Hij E. assert ((j - i) mod size = 0) as Hm.
  { replace (j - i) with ((a0 + j) - (a0 + i)) by lia. by rewrite Zminus_mod, E, Z.sub_diag. }
  rewrite Z.mod_small in Hm by lia. lia.
Qed.

(** The ring holds what was published and not taken. *)
Definition ring_holds m (P F : list Z) : Prop :=
  avail_idx m = Some ((a0 + Z.of_nat (length P)) mod 2 ^ 16) /\
  forall i, (length F <= i < length P)%nat -> avail_slot m ((a0 + Z.of_nat i) mod size) = P !! i.

(** The device is at the end of what it took, and has seen a part of what was
    published. *)
Definition cursors (i : QueueGetWorkInner) (P F : list Z) : Prop :=
  match i with
  | GetSplit q =>
      SplitGet.queue_avail q = avail_view /\ SplitGet.queue_used q = used_view /\ SplitGet.queue_size q = size /\
      SplitGet.last_avail_index q = (a0 + Z.of_nat (length F)) mod 2 ^ 16 /\
      exists k, (length F <= k <= length P)%nat /\ SplitGet.cached_avail_index q = (a0 + Z.of_nat k) mod 2 ^ 16
  | GetPacked _ => False
  end.

Record fifo_inv (w : World) (P F : list Z) : Prop := {
  fi_inv : inv (in_flight (core q0)) w;
  fi_fixed : fixed (queue w) = fixed q0;
  fi_cursors : failed (core (queue w)) = false -> cursors (inner (core (queue w))) P F;
  fi_prefix : F = take (length F) P;
  fi_room : Z.of_nat (length P) - Z.of_nat (length F) <= size;
  fi_ring : ring_holds (memory w) P F;
}.

Lemma prefix_length w P F : fifo_inv w P F -> (length F <= length P)%nat.
Proof. intros H. rewrite (fi_prefix w P F H), length_take. lia. Qed.

Lemma same_ring_holds m m' P F : same_ring m m' -> ring_holds m P F -> ring_holds m' P F.
Proof.
  intros [E1 E2] [H1 H2]. pose proof size_bound. split; [by rewrite E1|]. intros i Hi.
  rewrite E2 by (apply Z.mod_pos_bound; lia). by apply H2.
Qed.

Lemma area_used x : area q0 x -> in_view used_view x.
Proof.
  pose proof size_bound. destruct (new_queue_inv ml f params s q0 Hq0) as (Hok & n & Hn). pose proof Hq0 as E.
  rewrite (new_queue_eq ml f params s n Hok Hn) in E. injection E as <-.
  unfold queue_at, area, in_view, used_view, used_len, size in *. rewrite Hpacked. cbn.
  unfold within, USED_OFFSET_FLAGS, USED_OFFSET_IDX, USED_OFFSET_RING, USED_ELEMENT_SIZE. lia.
Qed.

(** What the device writes is not in the available ring. *)
Lemma area_same_ring w m m' :
  fixed (queue w) = fixed q0 -> changed_in (area (queue w)) m m' -> same_ring m m'.
Proof.
  intros Hfix [_ Hc]. assert (forall x, in_view avail_view x -> m' !! x = m !! x) as Hsame.
  { intros x Hx. apply Hc. intros Ha. apply (fixed_area q0 _ _ Hfix) in Ha. apply (Hdisjoint x); [by apply area_used|done]. }
  assert (forall off, 0 <= off -> view_read 2 avail_view off m' = view_read 2 avail_view off m) as Hr.
  { intros off Ho. unfold view_read. destruct (Z.leb_spec (off + Z.of_nat 2) (v_len avail_view)); [|done]. apply read_word_agree.
    intros x Hx. apply Hsame. unfold in_view, within in *. lia. }
  split; [by apply Hr|]. intros j Hj. apply Hr. unfold AVAIL_OFFSET_RING, AVAIL_ELEMENT_SIZE. lia.
Qed.

(** The device has seen work that it has not taken. *)
Definition seen (i : QueueGetWorkInner) : Prop :=
  match i with GetSplit q => SplitGet.cached_avail_index q <> SplitGet.last_avail_index q | GetPacked _ => False end.

(** Looking for work sees what is published, and finds some if there is some. *)
Lemma looked_cursors i i' m P F found :
  cursors i P F -> inner_step i i' -> looked i m i' found -> ring_holds m P F -> (length F <= length P)%nat ->
  Z.of_nat (length P) - Z.of_nat (length F) <= size ->
  cursors i' P F /\ (found = true <-> (length F < length P)%nat) /\ (found = true -> seen i').
Proof.
  intros Hc Hi Hl [Hidx _] HFP Hroom. destruct i as [q|], i' as [q'|]; try done.
  destruct Hc as (E1 & E2 & E3 & E4 & k & Hk & E5). destruct Hi as [a ->]. destruct Hl as [Hl ->]. cbn in *.
  rewrite E1 in Hl. fold (avail_idx m) in Hl. rewrite Hidx, E5, E4 in Hl.
  assert (exists k', (length F <= k' <= length P)%nat /\ a = (a0 + Z.of_nat k') mod 2 ^ 16 /\
    (k' = length F -> length F = length P)) as (k' & Hk' & -> & Hend).
  { destruct (Z.eqb_spec ((a0 + Z.of_nat k) mod 2 ^ 16) ((a0 + Z.of_nat (length F)) mod 2 ^ 16)) as [E|E].
    - injection Hl as <-. exists (length P). split; [lia|done].
    - exists k. split; [lia|]. split; [done|]. intros ->. done. }
  split; [split_and!; try done; by exists k'|]. rewrite E4, negb_true_iff, Z.eqb_neq. split; [split|done].
  - intros Hne. destruct (decide (k' = length F)) as [->|]; [done|lia].
  - intros Hlt E. assert (Z.of_nat (length F) = Z.of_nat k') as E' by (apply index_inj; [lia|done]). lia.
Qed.

Lemma publish_inv w P F h m' :
  fifo_inv w P F -> Z.of_nat (length P) - Z.of_nat (length F) < size -> publishes (memory w) (Z.of_nat (length P)) h m' ->
  fifo_inv (mkWorld m' (queue w) (outstanding w)) (P ++ [h]) F.
Proof.
  intros Hinv Hroom [Hidx Hslots]. pose proof (prefix_length w P F Hinv) as HFP. pose proof size_bound.
  destruct Hinv as [H1 H2 H3 H4 H5 [_ H6]]. split; cbn; try done.
  - by apply inv_memory.
  - intros Hf. specialize (H3 Hf). destruct (inner (core (queue w))) as [q|]; [|done]. destruct H3 as (E1 & E2 & E3 & E4 & k & Hk & E5).
    split_and!; try done. exists k. rewrite length_app. split; [cbn; lia|done].
  - by rewrite take_app_le by lia.
  - rewrite length_app. cbn. lia.
  - split; [rewrite Hidx, length_app; cbn; do 2 f_equal; lia|]. intros i Hi. rewrite length_app in Hi. cbn in Hi.
    rewrite Hslots by (apply Z.mod_pos_bound; lia). destruct (decide (i = length P)) as [->|Hne].
    + rewrite Z.eqb_refl, lookup_app_r, Nat.sub_diag by lia. done.
    + rewrite (proj2 (Z.eqb_neq _ _)) by (apply slot_inj; lia). rewrite lookup_app_l by lia. apply H6. lia.
Qed.

(** The work found is the first head that was not taken. *)
Lemma work_head c m P F work :
  core_ok c -> cursors (inner c) P F -> work_ok c m work -> ring_holds m P F -> (length F < length P)%nat ->
  P !! length F = Some (qc_descriptor_index (completion work)).
Proof.
  intros Hck Hc [(i & Hi & Hh) _ _ _] [_ Hr] HFP. pose proof (ck_inner c Hck) as Hin. unfold next_index, head_at in *.
  destruct (inner c) as [q|]; [|done]. destruct Hc as (E1 & E2 & E3 & E4 & _). destruct Hin as (E & _ & _).
  rewrite <-Hr by lia. rewrite <-Hh. unfold SplitGet.get_available_descriptor_index, avail_slot. rewrite E1, Hi.
  do 3 f_equal. rewrite <-E, E3, E4. symmetry. apply slot_eq.
Qed.

Lemma advance_cursors c c' comp P F h :
  cursors (inner c) P F -> seen (inner c) -> core_advance comp c = Ok c' -> cursors (inner c') P (F ++ [h]).
Proof.
  unfold core_advance. intros Hc Hs. destruct (inner c) as [q|]; [|done]. cbn [res_bind].
  destruct (uadd 16 _ _) as [n|[]|]; [|done]. cbn [res_bind]. intros [= <-]. cbn.
  destruct Hc as (E1 & E2 & E3 & E4 & k & Hk & E5). cbn in Hs. split_and!; try done.
  - unfold ucast. rewrite E4, Zplus_mod_idemp_l, length_app. cbn. f_equal. lia.
  - exists k. rewrite length_app. cbn. split; [|done]. destruct (decide (k = length F)) as [->|]; [congruence|lia].
Qed.

Lemma prefix_snoc (P F : list Z) h : F = take (length F) P -> P !! length F = Some h -> F ++ [h] = take (length (F ++ [h])) P.
Proof. intros HF Hh. rewrite length_app, Nat.add_1_r. by rewrite (take_S_r _ _ h), <-HF. Qed.

Lemma fetch_inv w P F c1 c2 m2 q2 work :
  fifo_inv w P F -> core_ok c1 -> cursors (inner c1) P F -> seen (inner c1) -> work_ok c1 m2 work ->
  core_advance (completion work) c1 = Ok c2 -> core q2 = c2 -> (length F < length P)%nat -> same_ring (memory w) m2 ->
  forall m3 out, inv (in_flight (core q0)) (mkWorld m3 q2 out) -> fixed q2 = fixed q0 -> same_ring (memory w) m3 ->
  fifo_inv (mkWorld m3 q2 out) P (F ++ [qc_descriptor_index (completion work)]).
Proof.
  intros [H1 H2 H3 H4 H5 H6] Hck Hc Hs Hw Ha <- HFP Hm2 m3 out Hinv Hfix Hm3.
  pose proof (work_head c1 m2 P F work Hck Hc Hw (same_ring_holds _ _ _ _ Hm2 H6) HFP) as Hhead.
  split; cbn; try done.
  - intros _. by eapply advance_cursors.
  - by apply prefix_snoc.
  - rewrite length_app. cbn. lia.
  - apply (same_ring_holds _ _ _ _ Hm3) in H6 as [H7 H8]. split; [done|]. intros i Hi. apply H8. rewrite length_app in Hi. lia.
Qed.

Lemma quiet_inv w P F w' :
  fifo_inv w P F -> inv (in_flight (core q0)) w' -> fixed (queue w') = fixed (queue w) -> same_ring (memory w) (memory w') ->
  (failed (core (queue w')) = false -> cursors (inner (core (queue w'))) P F) -> fifo_inv w' P F.
Proof. intros [H1 H2 H3 H4 H5 H6] I Hfix Hm Hc. split; try done; [by rewrite Hfix|by eapply same_ring_holds]. Qed.

Lemma op_quiet w P F w' :
  fifo_inv w P F -> op_ok (in_flight (core q0)) w w' ->
  (failed (core (queue w')) = false -> cursors (inner (core (queue w'))) P F) -> fifo_inv w' P F.
Proof.
  intros Hinv [I Hm Hfix _] Hc. eapply quiet_inv; try done. by eapply area_same_ring; [apply (fi_fixed w P F Hinv)|].
Qed.

(** What a look from [w] says. *)
Lemma inv_looked w P F i' m' found :
  fifo_inv w P F -> failed (core (queue w)) = false -> inner_step (inner (core (queue w))) i' ->
  looked (inner (core (queue w))) m' i' found -> same_ring (memory w) m' ->
  cursors i' P F /\ (found = true <-> (length F < length P)%nat) /\ (found = true -> seen i').
Proof.
  intros Hinv Hf Hi Hl Hm. pose proof (prefix_length w P F Hinv). destruct Hinv as [H1 H2 H3 H4 H5 H6].
  eapply looked_cursors; eauto. by eapply same_ring_holds.
Qed.

Lemma same_ring_refl m : same_ring m m.
Proof. by split. Qed.

Lemma next_inv w P F m q r :
  fifo_inv w P F -> try_next (memory w, queue w) = Ok (m, q, r) ->
  fifo_inv (mkWorld m q (outstanding w ++ fetched r)) P (F ++ heads (map Fetched (fetched r))) /\
  match r with
  | inr (Some work) => P !! length F = Some (qc_descriptor_index (completion work))
  | inr None => failed (core (queue w)) = true \/ F = P
  | inl _ => failed (core q) = true
  end.
Proof.
  intros Hinv Hn. pose proof (fi_inv w P F Hinv) as I.
  destruct (wp_result _ _ _ _ _ (next_op _ w I) Hn) as [Hop Hr]. cbn [fst snd] in *.
  assert (same_ring (memory w) m) as Hm by (eapply area_same_ring; [apply (fi_fixed w P F Hinv)|apply (oo_changed _ _ _ Hop)]).
  assert (fixed q = fixed q0) as Hfix by (rewrite (oo_fixed _ _ _ Hop : fixed q = _); apply (fi_fixed w P F Hinv)).
  destruct (failed (core (queue w))) eqn:Hf.
  { destruct Hr as [[= -> ->] ->]. cbn [fetched map heads flat_map app] in *. rewrite !app_nil_r in *. split; [|by left].
    eapply op_quiet; [done|done|]. cbn. congruence. }
  destruct r as [e|[work|]]; cbn [fetched map heads flat_map app] in *.
  - rewrite !app_nil_r in *. split; [|done]. eapply op_quiet; [done|done|]. cbn. congruence.
  - destruct Hr as (c1 & Hs & Hl & Hw & Ha).
    destruct (inv_looked w P F _ _ _ Hinv Hf (cs_inner _ _ Hs) Hl (same_ring_refl _)) as (Hc & Hlt & Hseen).
    pose proof (core_step_ok _ _ Hs (iv_core _ _ I)) as Hck. specialize (Hseen eq_refl). apply proj1 in Hlt. specialize (Hlt eq_refl). split.
    + eapply fetch_inv; try done. apply Hop.
    + eapply work_head; try done. eapply same_ring_holds; [exact Hm|apply (fi_ring w P F Hinv)].
  - rewrite !app_nil_r in *. destruct Hr as [Hs Hl].
    destruct (inv_looked w P F _ _ _ Hinv Hf (cs_inner _ _ Hs) Hl (same_ring_refl _)) as (Hc & Hlt & _). split; [by eapply op_quiet|].
    right. pose proof (prefix_length w P F Hinv). rewrite (fi_prefix w P F Hinv). apply take_ge.
    destruct (decide (length F < length P)%nat) as [Hlt'|]; [by apply Hlt in Hlt'|lia].
Qed.

Lemma peek_inv w P F m q r :
  fifo_inv w P F -> try_peek (memory w, queue w) = Ok (m, q, r) ->
  fifo_inv (mkWorld m q (outstanding w)) P F /\ same_ring (memory w) m /\
  forall work, r = inr (Some work) -> work_ok (core q) m work /\ seen (inner (core q)) /\ cursors (inner (core q)) P F /\
    (length F < length P)%nat.
Proof.
  intros Hinv Hp. pose proof (fi_inv w P F Hinv) as I.
  destruct (wp_result _ _ _ _ _ (peek_op _ w I) Hp) as [Hop Hr]. cbn [fst snd] in *.
  assert (same_ring (memory w) m) as Hm by (eapply area_same_ring; [apply (fi_fixed w P F Hinv)|apply (oo_changed _ _ _ Hop)]).
  destruct (failed (core (queue w))) eqn:Hf.
  { destruct Hr as [[= -> ->] ->]. split_and!; [|done|done]. eapply op_quiet; [done|done|]. cbn. congruence. }
  destruct r as [e|o]; [split_and!; [|done|done]; eapply op_quiet; [done|done|]; cbn; congruence|].
  destruct Hr as (c1 & -> & Hs & Hl & Hw).
  destruct (inv_looked w P F _ _ _ Hinv Hf (cs_inner _ _ Hs) Hl (same_ring_refl _)) as (Hc & Hlt & Hseen).
  split_and!; [by eapply op_quiet|done|]. intros work [= ->]. split_and!; [by apply Hw|by apply Hseen|done|by apply Hlt].
Qed.

Lemma kick_inv w P F kicked m q r :
  fifo_inv w P F -> poll_kick kicked (memory w, queue w) = Ok (m, q, r) -> fifo_inv (mkWorld m q (outstanding w)) P F.
Proof.
  intros Hinv Hp. pose proof (fi_inv w P F Hinv) as I.
  destruct (wp_result _ _ _ _ _ (kick_op _ w I kicked) Hp) as [Hop Hr]. cbn [fst snd] in *. eapply op_quiet; [done|done|]. cbn.
  destruct (failed (core (queue w))) eqn:Hfail; [destruct Hr as [[= -> ->] _]; by apply (fi_cursors w P F Hinv)|].
  destruct (armed (core (queue w))); [destruct Hr as [[= -> ->] _]; by apply (fi_cursors w P F Hinv)|].
  destruct Hr as (c1 & r' & -> & Hs & (Hm & Hi & Ha) & _). cbn. rewrite (cs_failed _ _ Hs).
  intros Hf. assert (forall m1 found, changed_in (get_area (inner (core (queue w)))) (memory w) m1 ->
    looked (inner (core (queue w))) m1 (inner c1) found -> cursors (inner c1) P F) as Hl.
  { intros m1 found Hm1 Hl. eapply (inv_looked w P F); try done. eapply area_same_ring; [apply (fi_fixed w P F Hinv)|].
    eapply changed_in_mono; [|exact Hm1]. by left. }
  destruct (armed_memory _ _) as [m1|]; [destruct Ha as [Hm1 Ha]|destruct Ha as [-> _]; by apply (fi_cursors w P F Hinv)].
  destruct r' as [e|[]]; [destruct Ha as [-> _]; by apply (fi_cursors w P F Hinv)|destruct Ha as [_ Ha]; by eapply Hl|by eapply Hl].
Qed.

Lemma complete_inv w P F l1 comp l2 bytes m q r :
  fifo_inv w P F -> outstanding w = l1 ++ comp :: l2 -> complete_prepared comp bytes (memory w, queue w) = Ok (m, q, r) ->
  fifo_inv (mkWorld m q (l1 ++ l2)) P F.
Proof.
  intros Hinv Ho Hp. pose proof (fi_inv w P F Hinv) as I.
  destruct (wp_result _ _ _ _ _ (complete_op _ w I l1 comp l2 bytes Ho) Hp) as (Hop & Hi & Hf). cbn [fst snd] in *.
  eapply op_quiet; [done|done|]. cbn. rewrite Hi, Hf. apply (fi_cursors w P F Hinv).
Qed.

Lemma consume_inv w P F m q work m1 m2 q2 r :
  fifo_inv w P F -> try_peek (memory w, queue w) = Ok (m, q, inr (Some work)) -> same_ring (memory w) m1 ->
  consume work (m1, q) = Ok (m2, q2, r) ->
  fifo_inv (mkWorld m2 q2 (outstanding w ++ [completion work])) P (F ++ [qc_descriptor_index (completion work)]).
Proof.
  intros Hinv Hp Hg Hc. destruct (peek_inv w P F _ _ _ Hinv Hp) as (Hinv1 & Hm & Hw).
  destruct (Hw work eq_refl) as (Hok & Hseen & Hcur & Hlt).
  destruct (consume_step_ok _ _ w m q work m1 m2 q2 r (fi_inv w P F Hinv) Hp Hg Hc) as [I2 Hfix _]. cbn in *.
  unfold consume, qbind, qget, qlift, qmodify in Hc. cbn [res_bind fst snd] in Hc.
  destruct (core_advance (completion work) (core q)) as [c2|[]|] eqn:Ha; [|done]. cbn [res_bind fst snd] in Hc. injection Hc as <- <- _.
  eapply (fetch_inv w); try done.
  - apply (iv_core _ _ (fi_inv _ _ _ Hinv1)).
  - by rewrite Hfix, (fi_fixed w P F Hinv).
Qed.

Lemma fifo_step_inv x y :
  fifo_inv (fw x) (published x) (taken x) -> fifo_step x y -> fifo_inv (fw y) (published y) (taken y).
Proof.
  intros Hinv Hxy. revert Hinv. destruct Hxy as [w P F h m' Hroom Hp|w P F l w' Hs]; cbn; intros Hinv; [by apply publish_inv|].
  destruct Hs as [m Hg|m q r H|m q r H|m q work m1 m2 q2 r H1 Hg H2|kicked m q r H|l1 comp l2 bytes m q r Hout H].
  - rewrite app_nil_r. eapply quiet_inv; [done|apply inv_memory, Hinv|done|done|apply Hinv].
  - by apply next_inv.
  - rewrite app_nil_r. by eapply peek_inv.
  - by eapply consume_inv.
  - rewrite app_nil_r. by eapply kick_inv.
  - rewrite app_nil_r. by eapply complete_inv.
Qed.

Lemma fifo_run x y :
  rtc fifo_step x y -> fifo_inv (fw x) (published x) (taken x) -> fifo_inv (fw y) (published y) (taken y).
Proof. induction 1 as [|x y z Hxy _ IH]; [done|]. intros Hx. apply IH. by eapply fifo_step_inv. Qed.

Lemma fifo_start m : avail_idx m = Some a0 -> fifo_inv (mkWorld m q0 []) [] [].
Proof.
  intros Hidx. pose proof size_bound. destruct (new_world ml f params s q0 m Hsize Hstate Hq0) as [I _]. split; cbn; try done; [|lia|].
  - intros _. destruct (new_queue_inv ml f params s q0 Hq0) as (Hok & n & Hn). pose proof Hq0 as E.
    rewrite (new_queue_eq ml f params s n Hok Hn) in E. injection E as <-. unfold queue_at. rewrite Hpacked. cbn.
    assert (is_u 16 a0) as Ha. { subst a0. destruct s as [st|]; [apply Hstate|by vm_compute]. }
    unfold is_u in Ha. split_and!; try done; [|exists 0%nat; split; [lia|]]; fold a0; rewrite Z.add_0_r, Z.mod_small; done.
  - split; [|intros i Hi; cbn in Hi; lia]. rewrite Hidx. f_equal. rewrite Z.add_0_r, Z.mod_small; [done|].
    subst a0. destruct s as [st|]; [apply Hstate|cbn; lia].
Qed.

End Fifo.

(** The rings of [params] do not overlap. *)
Definition rings_disjoint (params : QueueParams) : Prop :=
  forall x, in_view (mkView (used_addr params) (used_len (params_size params))) x ->
    ~ in_view (mkView (avail_addr params) (avail_len (params_size params))) x.

(** C6: a split queue is a first-in first-out queue. Let a driver publish heads
    in the available ring, at most a ring of them ahead of the device, while the
    guest changes everything but that ring and the device does what it likes.
    Then what the device has taken is always a prefix of what was published; the
    next work is that of the first head not taken; and the device finds none
    only if it has taken all, or has failed. Indices wrap at 16 bits, and the
    first one may be any saved one. *)
Theorem split_fifo ml f params s q m x :
  is_u 16 (params_size params) -> match s with Some s => state_u16 s | None => True end ->
  ring_packed f = false -> new_queue ml f params s = Ok q -> rings_disjoint params ->
  avail_idx params m = Some (default 0 (avail_index <$> s)) ->
  rtc (fifo_step params s) (mkFifo (mkWorld m q []) [] []) x ->
  (exists l, published x = taken x ++ l /\ Z.of_nat (length l) <= params_size params) /\
  exists m' q' r, try_next (memory (fw x), queue (fw x)) = Ok (m', q', r) /\
    match r with
    | inr (Some work) => published x !! length (taken x) = Some (qc_descriptor_index (completion work))
    | inr None => failed (core (queue (fw x))) = true \/ taken x = published x
    | inl _ => failed (core q') = true
    end.
Proof.
  intros Hu Hs Hp Hq Hd Hidx Hr.
  assert (fifo_inv params s q (fw x) (published x) (taken x)) as Hinv.
  { apply (fifo_run ml f params s Hu Hp q Hq Hd _ _ Hr). by apply (fifo_start ml f params s Hu Hs Hp q Hq). }
  split.
  - exists (drop (length (taken x)) (published x)). split.
    + rewrite (fi_prefix _ _ _ _ _ _ Hinv) at 1. by rewrite take_drop.
    + rewrite length_drop. pose proof (prefix_length _ _ _ _ _ _ Hinv). pose proof (fi_room _ _ _ _ _ _ Hinv). lia.
  - destruct (np_next _ (inv_no_panic _ _ (fi_inv _ _ _ _ _ _ Hinv))) as [[[m' q'] r] E]. exists m', q', r. split; [done|].
    by eapply (next_inv ml f params s).
Qed.

(** * Example *)

(** The memory before the guest publishes the chain of the example. *)
Definition unpublished_memory : GuestMemory := store 64 (replicate 6 0) example_memory.

Lemma example_published :
  fifo_step example_params None (mkFifo (mkWorld unpublished_memory (example_queue split_features) []) [] [])
    (mkFifo (mkWorld example_memory (example_queue split_features) []) [2] []).
Proof.
  apply (fifo_publish example_params None (mkWorld unpublished_memory (example_queue split_features) []) [] [] 2); [done|].
  split; [by vm_compute|]. intros j Hj. cbn in Hj. assert (j = 0 \/ j = 1 \/ j = 2 \/ j = 3) as Hc by lia.
  by destruct Hc as [-> | [-> | [-> | ->]]]; vm_compute.
Qed.

Lemma example_disjoint : rings_disjoint example_params.
Proof. intros x. change (80 <= x < 80 + 38 -> ~ (64 <= x < 64 + 14)). lia. Qed.

(** The chain that was published is taken. *)
Lemma split_fifo_witness :
  exists m q work, try_next (example_memory, example_queue split_features) = Ok (m, q, inr (Some work)) /\
    [2] !! 0%nat = Some (qc_descriptor_index (completion work)).
Proof.
  destruct (split_fifo 256 split_features example_params None (example_queue split_features) unpublished_memory
    (mkFifo (mkWorld example_memory (example_queue split_features) []) [2] [])) as [_ (m & q & r & E & Hr)].
  - done.
  - done.
  - done.
  - exact example_new.
  - exact example_disjoint.
  - by vm_compute.
  - apply rtc_once, example_published.
  - cbn [fw memory queue published taken length] in E, Hr. assert (match try_next (example_memory, example_queue split_features) with
      Ok (_, inr (Some _)) => True | _ => False end) as Hk by (vm_compute; exact I).
    rewrite E in Hk. destruct r as [e|[work|]]; try destruct Hk. exists m, q, work. split; [exact E|exact Hr].
Defined.
