(* ===== verification/VirtioKick.v ===== *)
(** Notifications of virtio queues: the device sleeps only when nothing is
    waiting and the driver is asked to notify it of the next work, and the
    driver is interrupted when it asked for it. *)

From stdpp Require Import gmap.
From S2P Require Import Prelude GuestMem VirtioQueue VirtioQueueSpec VirtioQueueOps VirtioQueueSafe.

Implicit Type m : GuestMemory.

(** * Kicks *)

(** Nothing is waiting in memory. *)
Definition no_work m (i : QueueGetWorkInner) : Prop :=
  match i with
  | GetSplit q => view_read 2 (SplitGet.queue_avail q) AVAIL_OFFSET_IDX m = Some (SplitGet.last_avail_index q)
  | GetPacked q => ~ offered m q
  end.

(** The rule of the virtio specification for event indices: the step from [old]
    to [new] passes [event]. *)
Definition vring_need_event (event new old : Z) : bool := (new - event - 1) mod 2 ^ 16 <? (new - old) mod 2 ^ 16.

(** A driver that makes available the [n] descriptors after those that the
    device has taken has to notify it. *)
Definition driver_notifies m (i : QueueGetWorkInner) (n : Z) : Prop :=
  match i with
  | GetSplit q =>
      if SplitGet.use_ring_event_index q
      then exists event,
        view_read 2 (SplitGet.queue_used q) (USED_OFFSET_RING + USED_ELEMENT_SIZE * SplitGet.queue_size q) m = Some event /\
        vring_need_event event (SplitGet.last_avail_index q + n) (SplitGet.last_avail_index q) = true
      else exists flags, view_read 2 (SplitGet.queue_used q) USED_OFFSET_FLAGS m = Some flags /\ Z.testbit flags 0 = false
  | GetPacked q =>
      exists raw, view_read 4 (PackedGet.device_event q) 0 m = Some raw /\
        es_flags (PackedEventSuppression_from raw) = EventsEnabled
  end.

Lemma view_read_write v off l m m' :
  0 <= off -> Forall (is_u 8) l -> view_write v off l m = Some m' -> view_read (length l) v off m' = Some (le_value l).
Proof.
  intros Ho Hl. unfold view_write, view_read, read_word. destruct (_ <=? _); [|done]. intros Hw. by rewrite (read_write _ _ _ _ Hw).
Qed.

Lemma view_read_same n v off m m' :
  (forall x, within (v_base v + off) (Z.of_nat n) x -> m' !! x = m !! x) -> view_read n v off m' = view_read n v off m.
Proof. intros Hs. unfold view_read. destruct (_ <=? _); [|done]. by apply read_word_agree. Qed.

Lemma need_event_self a n : 1 <= n <= 2 ^ 15 -> vring_need_event a (a + n) a = true.
Proof.
  intros Hn. unfold vring_need_event. apply Z.ltb_lt. replace (a + n - a - 1) with (n - 1) by lia.
  replace (a + n - a) with n by lia. rewrite !Z.mod_small by lia. lia.
Qed.

(** After arming, the driver notifies. *)
Lemma armed_notifies c m m1 i' n m' :
  core_ok c -> armed_memory m (inner c) = Some m1 -> inner_step (inner c) i' -> 1 <= n <= queue_size c ->
  (forall x, get_area (inner c) x -> m' !! x = m1 !! x) -> driver_notifies m' i' n.
Proof.
  intros Hck Ha Hi Hn Hm. pose proof (ck_size c Hck) as Hs. pose proof (ck_inner c Hck) as Hin. unfold armed_memory in Ha.
  destruct (inner c) as [q|q], i' as [q'|q']; try done; destruct Hi as [x ->]; cbn.
  - destruct Hin as (Hq & _ & Hu). destruct (SplitGet.use_ring_event_index q).
    + exists (SplitGet.last_avail_index q). split; [|by apply need_event_self; lia].
      rewrite (view_read_same _ _ _ m1) by (intros y Hy; apply Hm; by right).
      apply view_read_write in Ha; [|unfold USED_OFFSET_RING, USED_ELEMENT_SIZE; lia|apply le_bytes_u8].
      rewrite length_le_bytes in Ha. rewrite Ha, le_value_bytes; [done|]. unfold is_u in Hu. cbn. lia.
    + exists 0. split; [|done]. rewrite (view_read_same _ _ _ m1) by (intros y Hy; apply Hm; by left).
      apply (view_read_write _ _ (le_bytes 2 0)) in Ha; [exact Ha|done|apply le_bytes_u8].
  - exists 0. split; [|done]. rewrite (view_read_same _ _ _ m1) by done.
    apply (view_read_write _ _ (le_bytes 4 0)) in Ha; [exact Ha|done|apply le_bytes_u8].
Qed.

Lemma looked_no_work i m i' : inner_step i i' -> looked i m i' false -> no_work m i'.
Proof.
  destruct i as [q|q], i' as [q'|q']; try done; intros [x ->]; cbn.
  - intros [Hr Hf]. symmetry in Hf. apply negb_false_iff, Z.eqb_eq in Hf. subst x.
    destruct (Z.eqb_spec (SplitGet.cached_avail_index q) (SplitGet.last_avail_index q)); [done|congruence].
  - intros [_ Hf] Ho. destruct Hf as [_ Hf]. assert (false = true) as [=] by (apply Hf; by right).
Qed.

(** Work that was found is still there. *)
Lemma looked_again i m i' m2 i2 found :
  inner_step i i' -> looked i m i' true -> looked i' m2 i2 found -> found = true.
Proof.
  destruct i as [q|q], i' as [q'|q'], i2 as [q2|q2]; try done; intros [x ->]; cbn.
  - intros [_ Hf] [Hr ->]. symmetry in Hf. apply negb_true_iff in Hf. rewrite Hf in Hr. rewrite Hr. by rewrite Hf.
  - intros [Hx _] [_ Hf]. apply Hf. by left.
Qed.

Lemma view_read_mapped n v off m m' :
  mapped_same m m' -> is_Some (view_read n v off m) -> is_Some (view_read n v off m').
Proof.
  intros Hm. unfold view_read, read_word. destruct (_ <=? _); [|done].
  destruct (read_at n (v_base v + off) m) as [l|] eqn:Hr; [|by intros [? [=]]]. intros _. apply read_at_spec in Hr as [Hl Hr].
  destruct (read_at_total n (v_base v + off) m') as [l' ->]; [|by eexists].
  intros i Hi. apply Hm. rewrite Hr by done. apply lookup_lt_is_Some. lia.
Qed.

Lemma readable_mapped m m' i : mapped_same m m' -> readable m i -> readable m' i.
Proof. intros Hm. destruct i; apply (view_read_mapped _ _ _ _ _ Hm). Qed.

(** Work that was found is fetched, or fails. *)
Lemma waiting_fetched n0 w i m :
  inv n0 w -> failed (core (queue w)) = false -> inner_step i (inner (core (queue w))) ->
  looked i m (inner (core (queue w))) true ->
  exists m3 q3 r, try_next (memory w, queue w) = Ok (m3, q3, r) /\ r <> inr None.
Proof.
  intros Hw Hf Hi Hl. destruct (np_next _ (inv_no_panic _ _ Hw)) as [[[m3 q3] r] E]. exists m3, q3, r. split; [done|]. intros ->.
  destruct (wp_result _ _ _ _ _ (next_op _ w Hw) E) as [_ Hn]. rewrite Hf in Hn. destruct Hn as [_ Hn].
  by apply (looked_again _ _ _ _ _ _ Hi Hl) in Hn.
Qed.

(** C8: no kick is lost. Suppose that a queue that ran for any time, in whatever
    memory the guest made, is about to wait, and that the available index and
    its notification area are mapped. If it does not sleep, work is waiting: the
    next fetch gives it, or an error. If it sleeps, nothing is waiting in memory;
    and as long as the guest does not write to the notification area, a driver
    that makes any number of further descriptors available has to notify the
    device, by the flags or by the event index that the device left, whichever
    was negotiated. *)
Theorem kick_not_lost ml f params s q m w m' q' ready :
  is_u 16 (params_size params) -> match s with Some s => state_u16 s | None => True end ->
  new_queue ml f params s = Ok q -> rtc (step (fun _ => True)) (mkWorld m q []) w ->
  failed (core (queue w)) = false -> armed (core (queue w)) = false ->
  is_Some (armed_memory (memory w) (inner (core (queue w)))) -> readable (memory w) (inner (core (queue w))) ->
  poll_kick false (memory w, queue w) = Ok (m', q', inr ready) ->
  if ready then forall m2, exists m3 q3 r, try_next (m2, q') = Ok (m3, q3, r) /\ r <> inr None
  else
    no_work m' (inner (core q')) /\
    forall m2 n, (forall x, area q x -> m2 !! x = m' !! x) -> 1 <= n <= params_size params ->
      driver_notifies m2 (inner (core q')) n.
Proof.
  intros Hp Hs Hq Hr Hf Ha [m1 Hm1] Hread Hk. destruct (new_world ml f params s q m Hp Hs Hq) as [Hinv _].
  destruct (run_keeps _ _ _ _ Hinv Hr) as (Hw & Hfix & _). cbn in Hfix.
  destruct (wp_result _ _ _ _ _ (kick_op _ w Hw false) Hk) as [Hop Hpost]. rewrite Hf, Ha in Hpost. cbn [fst snd] in *.
  destruct Hpost as (c1 & r' & -> & Hcs & (_ & Hi & Harm) & Hready). rewrite Hm1 in Harm. destruct Harm as [[Hmap _] Harm].
  injection Hready as ->. destruct r' as [e|[]].
  - destruct Harm as [_ []]. by eapply readable_mapped.
  - destruct Harm as [-> Hl]. split; [by eapply looked_no_work|]. intros m2 n Hm2 Hn.
    eapply (armed_notifies (core (queue w))); try done; [apply Hw| |].
    + rewrite (proj2 (fixed_split _ _ Hfix)), (new_queue_size _ _ _ _ _ Hq). done.
    + intros x Hx. apply Hm2. eapply fixed_area; [exact Hfix|by left].
  - intros m2. pose proof (waiting_fetched (in_flight (core q)) (mkWorld m2 (queue w <| core := c1 |>) (outstanding w)) (inner (core (queue w))) m1) as Hwt.
    cbn [memory queue] in Hwt. eapply Hwt.
    + apply (inv_memory _ _ m2 (oo_inv _ _ _ Hop)).
    + cbn. by rewrite (cs_failed _ _ Hcs).
    + exact Hi.
    + exact Harm.
Qed.

(** * Example *)

Lemma example_u16 : is_u 16 (params_size example_params).
Proof. by split. Qed.

Lemma example_fetched : rtc (step (fun _ => True)) (example_start split_features) (example_end [OpNext]).
Proof. by apply example_run; vm_compute. Qed.

(** The queue of the example, after its chain was fetched. *)
Lemma kick_not_lost_witness :
  exists m q, poll_kick false (memory (example_end [OpNext]), queue (example_end [OpNext])) = Ok (m, q, inr false) /\
    no_work m (inner (core q)) /\ driver_notifies m (inner (core q)) 1.
Proof.
  assert (match poll_kick false (memory (example_end [OpNext]), queue (example_end [OpNext])) with
    Ok (_, inr false) => True | _ => False end) as Hk by (vm_compute; exact I).
  destruct (poll_kick false (memory (example_end [OpNext]), queue (example_end [OpNext]))) as [[[m q] [e|[|]]]| |] eqn:E;
    try destruct Hk.
  exists m, q. split; [reflexivity|].
  destruct (kick_not_lost 256 split_features example_params None (example_queue split_features) example_memory (example_end [OpNext])
    m q false) as [H1 H2].
  - exact example_u16.
  - exact I.
  - exact example_new.
  - exact example_fetched.
  - vm_compute. reflexivity.
  - vm_compute. reflexivity.
  - exists (default ∅ (armed_memory (memory (example_end [OpNext])) (inner (core (queue (example_end [OpNext])))))).
    vm_compute. reflexivity.
  - vm_compute. eexists. reflexivity.
  - exact E.
  - split; [exact H1|]. apply H2; [intros x _; reflexivity|cbn; lia].
Defined.
