(* ===== verification/VirtioUsed.v ===== *)
(** Completion of split rings: the used ring holds what the device completed, in
    that order, and the driver is interrupted when it asked for it. *)

From stdpp Require Import gmap.
From S2P Require Import Prelude GuestMem VirtioQueue VirtioQueueSpec VirtioQueueOps VirtioQueueSafe VirtioFifo VirtioKick.

Implicit Type m : GuestMemory.

(** * One completion *)

Section Complete.

Context (size : Z) (e : Z) (He : 0 <= e) (Hsize : size = 2 ^ e) (Hpos : 1 <= size).

(** The element of the used ring for a completed chain. *)
Definition used_element (x : Z * Z) : list Z := le_bytes 4 x.1 ++ le_bytes 4 x.2.

(** Whether the driver wants an interrupt for the completion at [last]: by the
    event index, or by the flags of the available ring. *)
Definition interrupt_wanted (event_idx : bool) (avail : View) m (last : Z) : option bool :=
  if event_idx
  then
    event ← view_read 2 avail (AVAIL_OFFSET_RING + AVAIL_ELEMENT_SIZE * size) m;
    Some (vring_need_event event (last + 1) last)
  else
    flags ← view_read 2 avail AVAIL_OFFSET_FLAGS m;
    Some (negb (Z.testbit flags 0)).

Lemma need_event_next event last :
  is_u 16 event -> is_u 16 last -> vring_need_event event (last + 1) last = (last =? event).
Proof.
  unfold is_u, vring_need_event. intros He' Hl. replace (last + 1 - event - 1) with (last - event) by lia.
  replace (last + 1 - last) with 1 by lia. rewrite (Z.mod_small 1) by lia. destruct (Z.eqb_spec last event) as [->|Hne].
  - by rewrite Z.sub_diag.
  - apply Z.ltb_ge. pose proof (Z.mod_pos_bound (last - event) (2 ^ 16) ltac:(lia)).
    assert ((last - event) mod 2 ^ 16 <> 0) as Hz; [|lia]. intros Hz%Z.mod_divide; [|lia]. destruct Hz as [k Hk]. lia.
Qed.

Lemma complete_exact m u i n :
  complete_ok size true (CompleteSplit u) -> view_mapped m (SplitComplete.queue_used u) ->
  let last := SplitComplete.last_used_index u in
  let next := ucast 16 (last + 1) in
  exists m1 m2 r, SplitComplete.complete_descriptor i n (m, u) = Ok (m2, u <| SplitComplete.last_used_index := next |>, r) /\
    view_write (SplitComplete.queue_used u) (USED_OFFSET_RING + USED_ELEMENT_SIZE * (last mod size)) (used_element (i, n)) m = Some m1 /\
    view_write (SplitComplete.queue_used u) USED_OFFSET_IDX (le_bytes 2 next) m1 = Some m2 /\
    forall b, (forall x, in_view (SplitComplete.queue_avail u) x -> m2 !! x = m !! x) ->
      (forall x b, m !! x = Some b -> is_u 8 b) ->
      interrupt_wanted (SplitComplete.use_ring_event_index u) (SplitComplete.queue_avail u) m last = Some b -> r = inr b.
Proof.
  intros (_ & Hq & Hu & Hv) Hm last next. pose proof (Z.mod_pos_bound last size ltac:(lia)) as Hl.
  destruct (view_write_total m (SplitComplete.queue_used u) (USED_OFFSET_RING + USED_ELEMENT_SIZE * (last mod size)) (used_element (i, n)))
    as [m1 Hw1]; [done|unfold USED_OFFSET_RING, USED_ELEMENT_SIZE; lia| |].
  { change (Z.of_nat (length (used_element (i, n)))) with 8. rewrite Hv. unfold used_len, USED_OFFSET_RING, USED_ELEMENT_SIZE. lia. }
  assert (mapped_same m m1) as Hm1 by apply (view_write_changed _ _ _ _ _ Hw1).
  destruct (view_write_total m1 (SplitComplete.queue_used u) USED_OFFSET_IDX (le_bytes 2 next)) as [m2 Hw2];
    [by eapply view_mapped_same|done| |].
  { rewrite length_le_bytes, Hv. unfold used_len, USED_OFFSET_RING, USED_OFFSET_IDX, USED_ELEMENT_SIZE. lia. }
  exists m1, m2. unfold SplitComplete.complete_descriptor, SplitComplete.set_used_descriptor, SplitComplete.set_used_index, qbind, qget,
    qlift, qwrite, qmodify. cbn [res_bind fst snd]. rewrite Hq, usub_ok by lia. cbn [res_bind fst snd].
  fold last next. rewrite Hsize, land_mask, <-Hsize by done. change (le_bytes 4 i ++ le_bytes 4 n) with (used_element (i, n)).
  rewrite Hw1. cbn [res_bind fst snd].
  change (SplitComplete.queue_used (u <| SplitComplete.last_used_index := next |>)) with (SplitComplete.queue_used u).
  rewrite Hw2. cbn [res_bind fst snd]. unfold interrupt_wanted.
  assert (forall off, 0 <= off -> (forall x, in_view (SplitComplete.queue_avail u) x -> m2 !! x = m !! x) ->
    view_read 2 (SplitComplete.queue_avail u) off m2 = view_read 2 (SplitComplete.queue_avail u) off m) as Hsame.
  { intros off Hoff Hs. unfold view_read. destruct (Z.leb_spec (off + Z.of_nat 2) (v_len (SplitComplete.queue_avail u))); [|done].
    apply read_word_agree. intros x Hx. apply Hs. unfold in_view, within in *. lia. }
  destruct (SplitComplete.use_ring_event_index u).
  - unfold SplitComplete.get_used_event, qbind, qget, qread. cbn [res_bind fst snd].
    change (SplitComplete.queue_avail (u <| SplitComplete.last_used_index := next |>)) with (SplitComplete.queue_avail u).
    change (SplitComplete.queue_size (u <| SplitComplete.last_used_index := next |>)) with (SplitComplete.queue_size u).
    rewrite Hq. assert (0 <= AVAIL_OFFSET_RING + AVAIL_ELEMENT_SIZE * size) as Hoff by (unfold AVAIL_OFFSET_RING, AVAIL_ELEMENT_SIZE; lia).
    specialize (Hsame _ Hoff).
    destruct (view_read 2 _ _ m2) as [event|]; cbn [res_bind fst snd]; eexists; split; try done; (split; [done|]); (split; [done|]);
      intros b Hs Hb; rewrite <-(Hsame Hs); cbn; [|done].
    intros [= <-]. rewrite need_event_next; [done| |done]. specialize (Hsame Hs). symmetry in Hsame.
    unfold view_read in Hsame. destruct (_ <=? _); [|done]. by apply read_word_bound in Hsame.
  - unfold SplitComplete.get_available_flags, qbind, qget, qread. cbn [res_bind fst snd].
    change (SplitComplete.queue_avail (u <| SplitComplete.last_used_index := next |>)) with (SplitComplete.queue_avail u).
    specialize (Hsame AVAIL_OFFSET_FLAGS ltac:(done)).
    destruct (view_read 2 _ _ m2) as [flags|]; cbn [res_bind fst snd]; eexists; split; try done; (split; [done|]); (split; [done|]);
      intros b Hs _; rewrite <-(Hsame Hs); cbn; [by intros [= <-]|done].
Qed.

End Complete.

(** * The used ring *)

(** What events complete: heads and numbers of bytes. *)
Definition completed (l : list event) : list (Z * Z) :=
  flat_map (fun e => match e with Fetched _ => [] | Completed comp bytes => [(qc_descriptor_index comp, bytes)] end) l.

Section Used.

Context (ml : Z) (f : VirtioDeviceFeatures) (params : QueueParams) (s : option QueueState).

Let size := params_size params.
Let used_view := mkView (used_addr params) (used_len size).
Let u0 := default 0 (used_index <$> s).

Definition used_idx m : option Z := view_read 2 used_view USED_OFFSET_IDX m.

Definition used_slot m (j : Z) : option (list Z) := read_at 8 (used_addr params + USED_OFFSET_RING + USED_ELEMENT_SIZE * j) m.

(** The guest does not write to the used ring. *)
Definition same_used m m' : Prop := forall x, in_view used_view x -> m' !! x = m !! x.

(** The device has completed [C] since the start. *)
Inductive used_step : World * list (Z * Z) -> World * list (Z * Z) -> Prop :=
| used_step_intro w C l w' : lstep (same_used (memory w)) w l w' -> used_step (w, C) (w', C ++ completed l).

(** The ring shows the last of [C]. *)
Definition used_holds m (C : list (Z * Z)) : Prop :=
  used_idx m = Some ((u0 + Z.of_nat (length C)) mod 2 ^ 16) /\
  forall i x, C !! i = Some x -> Z.of_nat (length C) - size <= Z.of_nat i ->
    used_slot m ((u0 + Z.of_nat i) mod size) = Some (used_element x).

Context (Hsize : is_u 16 size) (Hstate : match s with Some s => state_u16 s | None => True end).
Context (Hpacked : ring_packed f = false).
Context (q0 : VirtioQueue) (Hq0 : new_queue ml f params s = Ok q0).

Definition used_cursor (k : QueueCoreCompleteWork) (C : list (Z * Z)) : Prop :=
  match k with
  | CompleteSplit u => SplitComplete.last_used_index u = (u0 + Z.of_nat (length C)) mod 2 ^ 16
  | CompletePacked _ => False
  end.

Record used_inv (w : World) (C : list (Z * Z)) : Prop := {
  ui_inv : inv (in_flight (core q0)) w;
  ui_fixed : fixed (queue w) = fixed q0;
  ui_mapped : view_mapped (memory w) used_view;
  ui_cursor : used_cursor (complete (queue w)) C;
  ui_holds : used_holds (memory w) C;
}.

Lemma used_size : exists e, 0 <= e <= 15 /\ size = 2 ^ e /\ 1 <= size <= 2 ^ 15.
Proof.
  pose proof (size_bound ml f params s Hsize Hpacked q0 Hq0). destruct (size_pow ml f params s Hsize Hpacked q0 Hq0) as (e & He & E).
  exists e. split; [done|]. split; [exact E|exact H].
Qed.

Lemma fixed_used w u :
  fixed (queue w) = fixed q0 -> complete (queue w) = CompleteSplit u ->
  SplitComplete.queue_used u = used_view /\ SplitComplete.queue_avail u = mkView (avail_addr params) (avail_len size) /\
  SplitComplete.queue_size u = size /\ SplitComplete.use_ring_event_index u = ring_event_idx f.
Proof.
  intros E Hu. destruct (new_queue_inv ml f params s q0 Hq0) as (Hok & n & Hn). pose proof Hq0 as E0.
  rewrite (new_queue_eq ml f params s n Hok Hn) in E0. injection E0 as E0. rewrite <-E0 in E.
  apply (f_equal snd) in E. unfold fixed, queue_at in E. rewrite Hpacked in E. cbn in E. rewrite Hu in E. cbn in E.
  injection E as E1 E2 E3 E4. by rewrite E1, E2, E3, E4.
Qed.

(** What is written elsewhere does not matter. *)
Lemma used_holds_same m m' C :
  (forall x, within (used_addr params + 2) (2 + 8 * size) x -> m' !! x = m !! x) -> used_holds m C -> used_holds m' C.
Proof.
  destruct used_size as (e & _ & _ & Hs). intros Hm [H1 H2]. split.
  - rewrite <-H1. unfold used_idx. apply view_read_same. intros x Hx. apply Hm. unfold within in *. cbn in Hx. unfold USED_OFFSET_IDX in Hx. lia.
  - intros i x Hi Hlen. rewrite <-(H2 i x Hi Hlen). apply read_at_agree. intros y Hy. apply Hm.
    pose proof (Z.mod_pos_bound (u0 + Z.of_nat i) size ltac:(lia)). unfold within, USED_OFFSET_RING, USED_ELEMENT_SIZE in *. lia.
Qed.

Lemma used_quiet w C w' :
  used_inv w C -> inv (in_flight (core q0)) w' -> fixed (queue w') = fixed (queue w) -> complete (queue w') = complete (queue w) ->
  mapped_same (memory w) (memory w') ->
  (forall x, within (used_addr params + 2) (2 + 8 * size) x -> memory w' !! x = memory w !! x) -> used_inv w' C.
Proof.
  intros [H1 H2 H3 H4 H5] I Hf Hc Hm Hs. split; [done|by rewrite Hf|by eapply view_mapped_same|by rewrite Hc|by eapply used_holds_same].
Qed.

(** The completed chain is in the ring, and the others are still there. *)
Lemma used_push m u C i n m1 m2 :
  SplitComplete.queue_used u = used_view -> SplitComplete.last_used_index u = (u0 + Z.of_nat (length C)) mod 2 ^ 16 ->
  view_write used_view (USED_OFFSET_RING + USED_ELEMENT_SIZE * (SplitComplete.last_used_index u mod size)) (used_element (i, n)) m = Some m1 ->
  view_write used_view USED_OFFSET_IDX (le_bytes 2 (ucast 16 (SplitComplete.last_used_index u + 1))) m1 = Some m2 ->
  used_holds m C -> used_holds m2 (C ++ [(i, n)]).
Proof.
  destruct used_size as (e & He & Hs & Hb). intros Hv Hl Hw1 Hw2 [_ Hslots]. rewrite Hl in *.
  assert (forall x, ((u0 + x) mod 2 ^ 16) mod size = (u0 + x) mod size) as Hmod.
  { intros x. pose proof (slot_eq ml f params s Hsize Hpacked q0 Hq0 (u0 + x)) as E. fold size in E.
    rewrite Hs, land_mask in E by lia. rewrite Hs. exact E. }
  rewrite Hmod in Hw1. pose proof (Z.mod_pos_bound (u0 + Z.of_nat (length C)) size ltac:(lia)) as Hj.
  assert (forall j, 0 <= j < size -> used_slot m2 j =
    if j =? (u0 + Z.of_nat (length C)) mod size then Some (used_element (i, n)) else used_slot m j) as Hread.
  { intros j Hjb. transitivity (used_slot m1 j).
    - apply read_at_agree. intros x Hx. apply (view_write_changed _ _ _ _ _ Hw2). rewrite length_le_bytes.
      unfold within, USED_OFFSET_IDX, USED_OFFSET_RING, USED_ELEMENT_SIZE in *. cbn in *. lia.
    - destruct (Z.eqb_spec j ((u0 + Z.of_nat (length C)) mod size)) as [->|Hne].
      + unfold view_write in Hw1. destruct (_ <=? _); [|done]. apply read_write in Hw1. unfold used_slot. rewrite <-Hw1.
        change (length (used_element (i, n))) with 8%nat. f_equal. cbn. lia.
      + apply read_at_agree. intros x Hx. apply (view_write_changed _ _ _ _ _ Hw1). change (Z.of_nat (length (used_element (i, n)))) with 8.
        unfold within, USED_OFFSET_RING, USED_ELEMENT_SIZE in *. cbn [v_base used_view] in *. subst used_view. cbn in *. lia. }
  split.
  - apply view_read_write in Hw2; [|done|apply le_bytes_u8]. rewrite length_le_bytes in Hw2. unfold used_idx. rewrite Hw2. f_equal.
    unfold ucast. rewrite le_value_bytes, Zplus_mod_idemp_l, length_app by (apply Z.mod_pos_bound; lia). cbn. f_equal. lia.
  - intros k x Hk Hlen. rewrite length_app in Hlen. cbn in Hlen. rewrite Hread by (apply Z.mod_pos_bound; lia).
    apply lookup_app_Some in Hk as [Hk|[Hk Hx]].
    + pose proof (lookup_lt_Some _ _ _ Hk). rewrite (proj2 (Z.eqb_neq _ _)); [apply Hslots; [done|lia]|].
      intros E. assert ((Z.of_nat (length C) - Z.of_nat k) mod size = 0) as Hz.
      { replace (Z.of_nat (length C) - Z.of_nat k) with ((u0 + Z.of_nat (length C)) - (u0 + Z.of_nat k)) by lia.
        by rewrite Zminus_mod, E, Z.sub_diag. }
      rewrite Z.mod_small in Hz by lia. lia.
    + apply list_lookup_singleton_Some in Hx as [Hk' <-]. replace k with (length C) by lia. by rewrite Z.eqb_refl.
Qed.

(** Fetching leaves the used ring and the completing side as they are. *)
Definition fetch_only (w : World) (st : GuestMemory * VirtioQueue) : Prop :=
  changed_in (get_area (inner (core (queue w)))) (memory w) st.1 /\ complete st.2 = complete (queue w).

Lemma peek_fetch_only n0 w : inv n0 w -> wp try_peek (fun st _ => fetch_only w st) (memory w, queue w).
Proof.
  intros I. apply wp_on_core. eapply wp_mono; [apply peek_wp, (iv_core _ _ I)|]. intros [m1 c1] r [Hm _]. by split.
Qed.

Lemma next_fetch_only n0 w : inv n0 w -> wp try_next (fun st _ => fetch_only w st) (memory w, queue w).
Proof.
  intros I. apply wp_on_core, wp_bind. eapply wp_mono; [apply peek_wp, (iv_core _ _ I)|]. intros [m1 c1] r [Hm Hr]. cbn [fst snd] in *.
  destruct r as [err|[work|]]; [by split| |by apply wp_ret; split]. destruct Hr as [Hs Hr].
  destruct (failed (core (queue w))); [by destruct Hr|]. destruct Hr as [_ Hw]. specialize (Hw work eq_refl).
  pose proof (core_step_ok _ _ Hs (iv_core _ _ I)) as Hck.
  destruct (advance_ok c1 (completion work) Hck (wo_completion _ _ _ Hw) (wo_room _ _ _ Hw)) as (c2 & E & _).
  apply wp_bind_get, wp_bind. eapply wp_lift; [exact E|]. apply wp_bind, wp_modify, wp_ret. by split.
Qed.

Lemma kick_fetch_only n0 w kicked : inv n0 w -> wp (poll_kick kicked) (fun st _ => fetch_only w st) (memory w, queue w).
Proof.
  intros I. eapply wp_mono; [apply (kick_op _ _ I)|]. intros [m1 q1] r [_ Hr]. cbn [fst snd] in *. unfold fetch_only. cbn [fst snd].
  destruct (failed (core (queue w))); [by destruct Hr as [[= -> ->] _]|].
  destruct (armed (core (queue w))); [by destruct Hr as [[= -> ->] _]|].
  destruct Hr as (c1 & r' & -> & _ & (Hm & _) & _). by split.
Qed.

Lemma fetch_quiet w C w' :
  used_inv w C -> inv (in_flight (core q0)) w' -> fixed (queue w') = fixed (queue w) -> fetch_only w (memory w', queue w') ->
  used_inv w' C.
Proof.
  intros Hinv I Hf [Hm Hc]. eapply used_quiet; try done; [apply Hm|]. cbn in Hm. intros x Hx. apply Hm.
  destruct used_size as (e & _ & _ & Hs). intros Ha.
  pose proof (ui_fixed w C Hinv) as E. destruct (new_queue_inv ml f params s q0 Hq0) as (Hok & n & Hn). pose proof Hq0 as E0.
  rewrite (new_queue_eq ml f params s n Hok Hn) in E0. injection E0 as E0. rewrite <-E0 in E.
  pose proof (f_equal (fun y => get_area (inner y.1) x) E) as E1. unfold fixed, queue_at in E1. rewrite Hpacked in E1. cbn in E1.
  pose proof (proj1 (fixed_split _ _ E)) as Hsp. rewrite queue_at_packed, Hpacked in Hsp. unfold is_split in Hsp.
  destruct (inner (core (queue w))) as [g|g]; [|done].
  cbn in E1, Ha. rewrite E1 in Ha. revert Ha Hx. unfold within, USED_OFFSET_FLAGS, USED_OFFSET_RING, USED_ELEMENT_SIZE. fold size. lia.
Qed.

(** A completion, with the work that was outstanding. *)
Lemma complete_prepared_exact w C l1 comp l2 bytes m' q' r :
  used_inv w C -> outstanding w = l1 ++ comp :: l2 -> complete_prepared comp bytes (memory w, queue w) = Ok (m', q', r) ->
  used_inv (mkWorld m' q' (l1 ++ l2)) (C ++ [(qc_descriptor_index comp, bytes)]) /\ r = inr tt /\
  forall b, rings_disjoint params -> (forall x b, memory w !! x = Some b -> is_u 8 b) ->
    interrupt_wanted size (ring_event_idx f) (mkView (avail_addr params) (avail_len size)) (memory w)
      ((u0 + Z.of_nat (length C)) mod 2 ^ 16) = Some b ->
    notify_guest q' = notify_guest (queue w) + b2z b.
Proof.
  intros Hinv Hout Hc. destruct used_size as (e & He & Hs & Hb). pose proof (ui_inv w C Hinv) as I.
  destruct (wp_result _ _ _ _ _ (complete_op _ w I l1 comp l2 bytes Hout) Hc) as ([I' Hch Hfix' _] & _ & _). cbn [fst snd] in *.
  destruct Hinv as [_ Hfix Hmap Hcur Hholds]. unfold used_cursor in Hcur. destruct (complete (queue w)) as [u|] eqn:Hu; [|done].
  destruct (fixed_used w u Hfix Hu) as (Hv & Hav & Hsz & Hev).
  pose proof (iv_sides _ _ I) as Hok. rewrite Hu in Hok.
  assert (complete_ok size true (CompleteSplit u)) as Hok'. { destruct Hok as (_ & E & H2 & H3). rewrite Hsz in E. by rewrite <-E in H3. }
  assert (view_mapped (memory w) (SplitComplete.queue_used u)) as Hmu by (by rewrite Hv).
  destruct (complete_exact size e ltac:(lia) Hs ltac:(lia) (memory w) u (qc_descriptor_index comp) bytes Hok' Hmu)
    as (m1 & m2 & r' & E & Hw1 & Hw2 & Hint).
  unfold complete_prepared in Hc. cbn [fst snd] in Hc. destruct (work_completed comp (core (queue w))) as [c'|[]|]; [|done].
  cbn [res_bind] in Hc. unfold complete_descriptor in Hc. cbn [fst snd] in Hc.
  change (complete (queue w <| core := c' |>)) with (complete (queue w)) in Hc. rewrite Hu, E in Hc. cbn [res_bind fst snd] in Hc.
  injection Hc as <- Hq' <-.
  assert (complete q' = CompleteSplit (u <| SplitComplete.last_used_index := ucast 16 (SplitComplete.last_used_index u + 1) |>) /\
    notify_guest q' = notify_guest (queue w) + match r' with inr true => 1 | _ => 0 end) as [Hcq Hnq].
  { rewrite <-Hq'. destruct r' as [err|[]]; cbn; split; done || lia. }
  split_and!; [|done|].
  - rewrite Hv in Hw1, Hw2. cbn in Hfix'. split; cbn; [done|by rewrite Hfix'|by eapply view_mapped_same; [apply Hch|]| |by eapply used_push].
    rewrite Hcq. cbn. unfold ucast. rewrite Hcur, Zplus_mod_idemp_l, length_app. cbn. f_equal. lia.
  - intros b Hd Hb8 Hw. rewrite Hnq. rewrite (Hint b); [by destruct b| |done|by rewrite Hev, Hav, Hcur].
    intros x Hx. rewrite Hav in Hx. assert (~ in_view (SplitComplete.queue_used u) x) as Hnx.
    { rewrite Hv. intros Hx'. by apply (Hd x). }
    rewrite (proj2 (view_write_changed _ _ _ _ _ Hw2)), (proj2 (view_write_changed _ _ _ _ _ Hw1)); [done| |].
    + intros Hy. apply Hnx. revert Hy. rewrite Hv. change (Z.of_nat (length (used_element (qc_descriptor_index comp, bytes)))) with 8.
      pose proof (Z.mod_pos_bound (SplitComplete.last_used_index u) size ltac:(lia)).
      unfold in_view, within, used_view, used_len, USED_OFFSET_RING, USED_ELEMENT_SIZE. cbn. lia.
    + intros Hy. apply Hnx. revert Hy. rewrite Hv, length_le_bytes.
      unfold in_view, within, used_view, used_len, USED_OFFSET_IDX, USED_OFFSET_RING, USED_ELEMENT_SIZE. cbn. lia.
Qed.

Lemma same_used_quiet w C m : used_inv w C -> same_used (memory w) m -> used_inv (mkWorld m (queue w) (outstanding w)) C.
Proof.
  intros [H1 H2 H3 H4 H5] Hs. split; cbn; [by apply inv_memory|done| |done|].
  - intros x Hx. rewrite Hs by done. by apply H3.
  - eapply used_holds_same; [|done]. intros x Hx. apply Hs. revert Hx.
    unfold in_view, within, used_view, used_len, USED_OFFSET_RING, USED_ELEMENT_SIZE. cbn. lia.
Qed.

Lemma used_step_inv x y : used_inv x.1 x.2 -> used_step x y -> used_inv y.1 y.2.
Proof.
  intros Hinv Hxy. revert Hinv. destruct Hxy as [w C l w' Hs]. cbn. intros Hinv. pose proof (ui_inv w C Hinv) as I.
  destruct Hs as [m Hg|m q r H|m q r H|m q work m1 m2 q2 r H1 Hg H2|kicked m q r H|l1 comp l2 bytes m q r Hout H].
  - rewrite app_nil_r. by apply same_used_quiet.
  - destruct (wp_result _ _ _ _ _ (next_op _ w I) H) as [[I' _ Hfix _] _].
    replace (C ++ completed (map Fetched (fetched r))) with C by (by destruct r as [|[]]; cbn; rewrite app_nil_r).
    eapply fetch_quiet; try done. apply (wp_result _ _ _ _ _ (next_fetch_only _ w I) H).
  - rewrite app_nil_r. destruct (wp_result _ _ _ _ _ (peek_op _ w I) H) as [[I' _ Hfix _] _].
    eapply fetch_quiet; try done. apply (wp_result _ _ _ _ _ (peek_fetch_only _ w I) H).
  - rewrite app_nil_r. destruct (consume_step_ok _ _ w m q work m1 m2 q2 r I H1 Hg H2) as [I' Hfix _]. cbn in Hfix.
    pose proof (wp_result _ _ _ _ _ (peek_fetch_only _ w I) H1) as [_ Hcq]. cbn in Hcq.
    unfold consume, qbind, qget, qlift, qmodify in H2. cbn [res_bind fst snd] in H2.
    destruct (core_advance (completion work) (core q)) as [c2|[]|]; [|done]. cbn [res_bind fst snd] in H2. injection H2 as <- <- _.
    destruct (same_used_quiet w C m1 Hinv Hg) as [_ _ H3 _ H5]. split; cbn; [done|by rewrite Hfix; apply Hinv|done| |done].
    rewrite Hcq. apply Hinv.
  - rewrite app_nil_r. destruct (wp_result _ _ _ _ _ (kick_op _ w I kicked) H) as [[I' _ Hfix _] _].
    eapply fetch_quiet; try done. apply (wp_result _ _ _ _ _ (kick_fetch_only _ w kicked I) H).
  - by eapply complete_prepared_exact.
Qed.

Lemma used_run x y : rtc used_step x y -> used_inv x.1 x.2 -> used_inv y.1 y.2.
Proof. induction 1 as [|x y z Hxy _ IH]; [done|]. intros Hx. apply IH. by eapply used_step_inv. Qed.

Lemma used_start m : view_mapped m used_view -> used_idx m = Some u0 -> used_inv (mkWorld m q0 []) [].
Proof.
  intros Hm Hidx. destruct (new_world ml f params s q0 m Hsize Hstate Hq0) as [I _]. split; cbn; try done.
  - destruct (new_queue_inv ml f params s q0 Hq0) as (Hok & n & Hn). pose proof Hq0 as E.
    rewrite (new_queue_eq ml f params s n Hok Hn) in E. injection E as <-. unfold queue_at. rewrite Hpacked. cbn.
    fold u0. rewrite Z.add_0_r, Z.mod_small; [done|]. subst u0. destruct s as [st|]; [apply Hstate|cbn; lia].
  - split; [|by intros i x Hi]. rewrite Hidx. cbn. rewrite Z.add_0_r, Z.mod_small; [done|].
    subst u0. destruct s as [st|]; [apply Hstate|cbn; lia].
Qed.

End Used.

(** C14: the used ring of a split queue shows what the device completed, in that
    order: at any time, its index is the number of completions, and its slots
    hold the heads and lengths of the last ones, a full ring of them; as long as
    the guest does not write to it, and whatever else guest and device do. Every
    outstanding chain can be completed, and then the driver is interrupted if
    and only if it asked for it: by the virtio rule for the event index that it
    left in the available ring, or by the flags there. *)
Theorem split_used ml f params s q m w C :
  is_u 16 (params_size params) -> match s with Some s => state_u16 s | None => True end ->
  ring_packed f = false -> new_queue ml f params s = Ok q ->
  view_mapped m (mkView (used_addr params) (used_len (params_size params))) ->
  used_idx params m = Some (default 0 (used_index <$> s)) ->
  rtc (used_step params) (mkWorld m q [], []) (w, C) ->
  let size := params_size params in
  let at_index i := default 0 (used_index <$> s) + Z.of_nat i in
  used_idx params (memory w) = Some (at_index (length C) mod 2 ^ 16) /\
  (forall i x, C !! i = Some x -> Z.of_nat (length C) - size <= Z.of_nat i ->
    used_slot params (memory w) (at_index i mod size) = Some (used_element x)) /\
  forall comp bytes, comp ∈ outstanding w ->
    exists m' q', complete_prepared comp bytes (memory w, queue w) = Ok (m', q', inr tt) /\
      forall b, rings_disjoint params -> (forall x b, memory w !! x = Some b -> is_u 8 b) ->
        interrupt_wanted size (ring_event_idx f) (mkView (avail_addr params) (avail_len size)) (memory w)
          (at_index (length C) mod 2 ^ 16) = Some b ->
        notify_guest q' = notify_guest (queue w) + b2z b.
Proof.
  intros Hu Hs Hp Hq Hmap Hidx Hr size at_index.
  assert (used_inv params s q w C) as Hinv.
  { apply (used_run ml f params s Hu Hp q Hq _ _ Hr). by apply (used_start ml f params s Hu Hs Hp q Hq). }
  destruct (ui_holds _ _ _ _ _ Hinv) as [H1 H2]. split_and!; [done|done|]. intros comp bytes Hcomp.
  destruct (np_complete _ (inv_no_panic _ _ (ui_inv _ _ _ _ _ Hinv)) comp bytes Hcomp) as [[[m' q'] r] E].
  apply list_elem_of_split in Hcomp as (l1 & l2 & Hout).
  destruct (complete_prepared_exact ml f params s Hu Hp q Hq w C l1 comp l2 bytes m' q' r Hinv Hout E) as (_ & -> & Hint).
  exists m', q'. split; [done|exact Hint].
Qed.

(** * Example *)

Lemma example_used_step l o C C' :
  op_memory o = None -> is_some (run (example_start split_features) (l ++ [o])) = true ->
  C' = C ++ completed (op_events (example_end l) o) ->
  used_step example_params (example_end l, C) (example_end (l ++ [o]), C').
Proof.
  intros Ho Hr ->. apply used_step_intro, do_op_step; [|by apply example_snoc]. intros m. by rewrite Ho.
Qed.

Lemma example_completed :
  rtc (used_step example_params) (example_start split_features, []) (example_end [OpNext; OpComplete 0 8], [(2, 8)]).
Proof.
  change (example_start split_features) with (example_end []). eapply (rtc_l _ _ (example_end [OpNext], [])); [|apply rtc_once].
  - by apply (example_used_step [] OpNext); vm_compute.
  - by apply (example_used_step [OpNext] (OpComplete 0 8)); vm_compute.
Qed.

Lemma example_used_mapped : view_mapped example_memory (mkView 80 38).
Proof.
  intros x Hx. change (80 <= x < 80 + 38) in Hx.
  assert (forallb (fun n => match example_memory !! (80 + Z.of_nat n) with Some _ => true | None => false end) (seq 0 38) = true) as Ht
    by (by vm_compute).
  rewrite forallb_forall in Ht. specialize (Ht (Z.to_nat (x - 80)) ltac:(apply in_seq; lia)).
  replace (80 + Z.of_nat (Z.to_nat (x - 80))) with x in Ht by lia. by destruct (example_memory !! x).
Qed.

(** The used ring after the chain of the example was completed with 8 bytes. *)
Lemma split_used_witness :
  used_idx example_params (memory (example_end [OpNext; OpComplete 0 8])) = Some 1 /\
  used_slot example_params (memory (example_end [OpNext; OpComplete 0 8])) 0 = Some [2; 0; 0; 0; 8; 0; 0; 0].
Proof.
  destruct (split_used 256 split_features example_params None (example_queue split_features) example_memory
    (example_end [OpNext; OpComplete 0 8]) [(2, 8)]) as (H1 & H2 & _).
  - done.
  - done.
  - done.
  - exact example_new.
  - exact example_used_mapped.
  - by vm_compute.
  - exact example_completed.
  - split; [exact H1|]. apply (H2 0%nat (2, 8)); [done|by vm_compute].
Defined.
