(* ===== verification/VirtioInOrder.v ===== *)
(** In-order completion: work completed in any order is published in the order
    in which it was fetched, as early as that allows. *)

From stdpp Require Import gmap.
From S2P Require Import Prelude GuestMem VirtioQueue VirtioQueueSpec VirtioQueueOps VirtioQueueSafe.

Implicit Type m : GuestMemory.

(** * The abstract tracker *)

(** The work fetched and not published, in order, with the bytes written where
    it is completed. *)
Definition Waiting : Type := list (QueueCompletion * option Z).

Implicit Type A : Waiting.

Definition head_of (x : QueueCompletion * option Z) : Z := qc_descriptor_index x.1.

(** The work with the head [h] is completed. *)
Definition mark (h bytes : Z) A : Waiting := map (fun x => if head_of x =? h then (x.1, Some bytes) else x) A.

(** The completed work at the front is released. *)
Fixpoint release A : list (QueueCompletion * Z) * Waiting :=
  match A with
  | (comp, Some bytes) :: A => let '(l, A) := release A in ((comp, bytes) :: l, A)
  | _ => ([], A)
  end.

(** Publishing in order. *)
Fixpoint publish_all (l : list (QueueCompletion * Z)) : QM VirtioQueue unit :=
  match l with
  | [] => qret tt
  | (comp, bytes) :: l => let? _ := complete_prepared comp bytes in publish_all l
  end.

(** * The tracker *)

Fixpoint slot_of A (h : Z) : option (QueueCompletion * Z) :=
  match A with
  | [] => None
  | x :: A => if head_of x =? h then (fun bytes => (x.1, bytes)) <$> x.2 else slot_of A h
  end.

Record tracks (o : InOrder.InOrderCompletion) A : Prop := {
  tr_order : InOrder.order o = map head_of A;
  tr_distinct : NoDup (map head_of A);
  tr_range : Forall (fun x => 0 <= head_of x < Z.of_nat (length (InOrder.completed o))) A;
  tr_slots : forall h, 0 <= h < Z.of_nat (length (InOrder.completed o)) ->
    InOrder.completed o !! Z.to_nat h = Some (slot_of A h);
}.

Lemma slot_of_absent A h : h ∉ map head_of A -> slot_of A h = None.
Proof.
  induction A as [|x A IH]; cbn; [done|]. rewrite elem_of_cons. intros Hh. destruct (Z.eqb_spec (head_of x) h) as [<-|]; [tauto|]. tauto.
Qed.

Lemma tracks_get o A h :
  tracks o A -> 0 <= h < Z.of_nat (length (InOrder.completed o)) -> vec_get (InOrder.completed o) h = Ok (E:=void) (slot_of A h).
Proof.
  intros Ht Hh. unfold vec_get. rewrite (tr_slots o A Ht h Hh). by destruct (Z.leb_spec 0 h); [|lia].
Qed.

(** The work at the front is gone. *)
Lemma tracks_tail o x A slots :
  tracks o (x :: A) -> length slots = length (InOrder.completed o) ->
  (forall h, 0 <= h < Z.of_nat (length slots) ->
    slots !! Z.to_nat h = if head_of x =? h then Some None else InOrder.completed o !! Z.to_nat h) ->
  tracks (InOrder.mk (map head_of A) slots) A.
Proof.
  intros [H1 H2 H3 H4] Hlen Hs. inversion_clear H2 as [|? ? Hx HA]. inversion_clear H3 as [|? ? _ HR]. split; cbn; rewrite ?Hlen; try done.
  intros h Hh. rewrite Hs by lia. destruct (Z.eqb_spec (head_of x) h) as [<-|Hne].
  - by rewrite slot_of_absent.
  - rewrite H4 by done. cbn. by rewrite (proj2 (Z.eqb_neq _ _) Hne).
Qed.

(** Draining releases what is completed at the front. *)
Lemma drain_refines A slots l A' :
  tracks (InOrder.mk (map head_of A) slots) A -> release A = (l, A') ->
  exists o', tracks o' A' /\ length (InOrder.completed o') = length slots /\
    forall st, InOrder.drain_completed_prefix (map head_of A) slots st = (let? _ := publish_all l in qret o') st.
Proof.
  revert slots l. induction A as [|[comp [bytes|]] A IH]; intros slots l Ht; cbn [release].
  - intros [= <- <-]. by exists (InOrder.mk [] slots).
  - destruct (release A) as [l1 A1] eqn:Hr. intros [= <- <-].
    pose proof (Forall_inv (tr_range _ _ Ht)) as Hx. cbn in Hx.
    pose proof (tracks_get _ _ _ Ht Hx) as Hg. cbn in Hg. change (head_of (comp, Some bytes)) with (qc_descriptor_index comp) in *.
    rewrite Z.eqb_refl in Hg. cbn in Hg.
    destruct (IH (<[Z.to_nat (qc_descriptor_index comp) := None]> slots) l1) as (o' & Ho' & Hlen & Hd); [|done|].
    { apply (tracks_tail _ _ _ _ Ht); [apply length_insert|]. rewrite length_insert. intros h Hh. cbn.
      change (head_of (comp, Some bytes)) with (qc_descriptor_index comp).
      destruct (Z.eqb_spec (qc_descriptor_index comp) h) as [<-|Hne]; [apply list_lookup_insert_eq; lia|].
      apply list_lookup_insert_ne. lia. }
    rewrite length_insert in Hlen. exists o'. split_and!; [done|done|]. intros st. cbn [map InOrder.drain_completed_prefix]. change (head_of (comp, Some bytes)) with (qc_descriptor_index comp).
    unfold qbind at 1. unfold qlift at 1. rewrite Hg. cbn [res_bind snd fst]. cbn [publish_all].
    unfold qbind at 1 2 3. destruct (complete_prepared comp bytes st) as [[st' [e|[]]]| |]; cbn [res_bind fst snd]; [done| |done|done].
    apply Hd.
  - intros [= <- <-]. exists (InOrder.mk (map head_of ((comp, None) :: A)) slots). split_and!; [done|done|]. intros st.
    pose proof (Forall_inv (tr_range _ _ Ht)) as Hx. cbn in Hx. pose proof (tracks_get _ _ _ Ht Hx) as Hg. cbn in Hg.
    rewrite Z.eqb_refl in Hg. cbn [map InOrder.drain_completed_prefix]. unfold qbind at 1. unfold qlift at 1. by rewrite Hg.
Qed.

Lemma mark_head h bytes A : map head_of (mark h bytes A) = map head_of A.
Proof. unfold mark. rewrite map_map. apply map_ext. intros x. by destruct (_ =? _). Qed.

Lemma mark_absent h bytes A : h ∉ map head_of A -> mark h bytes A = A.
Proof.
  induction A as [|x A IH]; cbn; [done|]. rewrite elem_of_cons. intros Hh. destruct (Z.eqb_spec (head_of x) h) as [<-|]; [tauto|].
  f_equal. tauto.
Qed.

Lemma slot_of_mark A h bytes h' comp :
  NoDup (map head_of A) -> (comp, None) ∈ A -> head_of (comp, None) = h ->
  slot_of (mark h bytes A) h' = if h =? h' then Some (comp, bytes) else slot_of A h'.
Proof.
  induction A as [|x A IH]; [by intros _ ?%not_elem_of_nil|]. intros Hnd Hin Hh. inversion_clear Hnd as [|? ? Hx HA]. cbn.
  apply elem_of_cons in Hin as [<-|Hin].
  - subst h. rewrite Z.eqb_refl. pose proof (mark_absent _ bytes A Hx) as Hm. unfold mark in Hm. rewrite Hm.
    change (head_of ((comp, None).1, Some bytes)) with (head_of (comp, None)). by destruct (_ =? h').
  - destruct (Z.eqb_spec (head_of x) h) as [E|Hne].
    { destruct Hx. rewrite E, <-Hh. apply list_elem_of_In, in_map. by apply list_elem_of_In. }
    destruct (Z.eqb_spec (head_of x) h') as [<-|]; [by rewrite (proj2 (Z.eqb_neq _ _)) by done|]. by apply IH.
Qed.

(** Nothing completed is held back. *)
Definition released A : Prop := match A with (_, Some _) :: _ => False | _ => True end.

Lemma release_released A l A' : release A = (l, A') -> released A'.
Proof.
  revert l. induction A as [|[comp [bytes|]] A IH]; intros l; cbn; [by intros [= <- <-]| |by intros [= <- <-]].
  destruct (release A) as [l1 A1]. intros [= <- <-]. by apply (IH l1).
Qed.

Lemma release_split A l A' : release A = (l, A') -> A = map (fun x => (x.1, Some x.2)) l ++ A'.
Proof.
  revert l. induction A as [|[comp [bytes|]] A IH]; intros l; cbn; [by intros [= <- <-]| |by intros [= <- <-]].
  destruct (release A) as [l1 A1]. intros [= <- <-]. cbn. f_equal. by apply IH.
Qed.

(** Completing is marking, and releasing what can be published. *)
Lemma complete_refines o A comp bytes l A' :
  tracks o A -> released A -> (comp, None) ∈ A -> release (mark (qc_descriptor_index comp) bytes A) = (l, A') ->
  exists o', tracks o' A' /\ length (InOrder.completed o') = length (InOrder.completed o) /\
    forall st, InOrder.complete comp bytes o st = (let? _ := publish_all l in qret o') st.
Proof.
  intros Ht Hr Hin Hl. pose proof (proj1 (Forall_forall _ _) (tr_range o A Ht) _ (proj1 (list_elem_of_In _ _) Hin)) as Hb.
  change (0 <= qc_descriptor_index comp < Z.of_nat (length (InOrder.completed o))) in Hb.
  pose proof (tr_order o A Ht) as Ho. pose proof (tr_distinct o A Ht) as Hnd. unfold InOrder.complete. rewrite Ho.
  destruct A as [|x A]; [by apply not_elem_of_nil in Hin|]. cbn [map].
  destruct (Z.eqb_spec (head_of x) (qc_descriptor_index comp)) as [E|Hne].
  - assert (x = (comp, None)) as ->.
    { apply elem_of_cons in Hin as [<-|Hin]; [done|]. inversion_clear Hnd as [|? ? Hx _]. destruct Hx. rewrite E.
      apply list_elem_of_In. by apply (in_map head_of _ (comp, None)), list_elem_of_In. }
    cbn in Hl. rewrite Z.eqb_refl in Hl. inversion_clear Hnd as [|? ? Hx _].
    fold (mark (qc_descriptor_index comp) bytes A) in Hl. rewrite mark_absent in Hl by done.
    destruct (release A) as [l1 A1] eqn:Hl1. injection Hl as <- <-.
    destruct (drain_refines A (InOrder.completed o) l1 A1) as (o' & Ho' & Hlen & Hd); [|done|].
    { apply (tracks_tail _ _ _ _ Ht); [done|]. intros h Hh. destruct (Z.eqb_spec (head_of (comp, None)) h) as [<-|]; [|done].
      rewrite (tr_slots _ _ Ht) by done. cbn. by rewrite Z.eqb_refl. }
    exists o'. split_and!; [done|done|]. intros st. cbn [publish_all]. unfold qbind at 1 2 3.
    destruct (complete_prepared comp bytes st) as [[st' [e|[]]]| |]; cbn [res_bind fst snd]; [done| |done|done]. apply Hd.
  - assert (slot_of (x :: A) (qc_descriptor_index comp) = None) as Hslot.
    { clear -Hin Hnd. induction (x :: A) as [|y B IH]; [done|]. inversion_clear Hnd as [|? ? Hy HB]. cbn.
      apply elem_of_cons in Hin as [<-|Hin]; [by rewrite Z.eqb_refl|].
      destruct (Z.eqb_spec (head_of y) (qc_descriptor_index comp)) as [E|]; [|by apply IH]. destruct Hy. rewrite E.
      apply list_elem_of_In. by apply (in_map head_of _ (comp, None)), list_elem_of_In. }
    assert (l = [] /\ A' = mark (qc_descriptor_index comp) bytes (x :: A)) as [-> ->].
    { cbn in Hl |- *. rewrite (proj2 (Z.eqb_neq _ _) Hne) in *. by destruct x as [c [b|]]; [|injection Hl as <- <-]. }
    exists (InOrder.mk (InOrder.order o) (<[Z.to_nat (qc_descriptor_index comp) := Some (comp, bytes)]> (InOrder.completed o))). split_and!; [|apply length_insert|].
    + split; cbn [InOrder.order InOrder.completed]; rewrite ?length_insert.
      * rewrite Ho. symmetry. apply mark_head.
      * by rewrite mark_head.
      * unfold mark. apply Forall_map. eapply Forall_impl; [|exact (tr_range _ _ Ht)]. intros y. by destruct (_ =? _).
      * intros h Hh. rewrite (slot_of_mark _ _ _ _ comp) by done.
        destruct (Z.eqb_spec (qc_descriptor_index comp) h) as [<-|Hne']; [rewrite list_lookup_insert_eq; [done|lia]|].
        rewrite list_lookup_insert_ne by lia. by apply (tr_slots _ _ Ht).
    + intros st. unfold qbind, qlift. rewrite (tracks_get _ _ _ Ht Hb), Hslot. cbn. done.
Qed.

(** * A queue completed in order *)

Definition fetched_by (l : list event) : list QueueCompletion :=
  flat_map (fun e => match e with Fetched comp => [comp] | Completed _ _ => [] end) l.

Definition completed_by (l : list event) : list (QueueCompletion * Z) :=
  flat_map (fun e => match e with Fetched _ => [] | Completed comp bytes => [(comp, bytes)] end) l.

(** A run, with its events. *)
Inductive traced : World * list event -> World * list event -> Prop :=
| traced_intro w L l w' : lstep (fun _ => True) w l w' -> traced (w, L) (w', L ++ l).

(** The queue and its tracker, with the work that waits and the work that was
    published. *)
Record IoWorld : Type := mkIo {
  io_world : World;
  io_tracker : InOrder.InOrderCompletion;
  io_waiting : Waiting;
  io_published : list (QueueCompletion * Z);
}.

(** The guest changes memory, and the device fetches, waits, and completes what
    it has fetched, once. The heads that it holds are distinct, which it sees to
    itself. *)
Inductive io_step : IoWorld -> IoWorld -> Prop :=
| io_guest w o A P m : io_step (mkIo w o A P) (mkIo (mkWorld m (queue w) (outstanding w)) o A P)
| io_next w o A P m q r o' :
    InOrder.try_next o (memory w, queue w) = Ok (m, q, inr (r, o')) ->
    (forall work, r = Some work -> 0 <= qc_descriptor_index (completion work) /\ qc_descriptor_index (completion work) ∉ map head_of A) ->
    io_step (mkIo w o A P)
      (mkIo (mkWorld m q (outstanding w ++ fetched (inr r))) o' (A ++ map (fun comp => (comp, None)) (fetched (inr r))) P)
| io_error w o A P m q e :
    InOrder.try_next o (memory w, queue w) = Ok (m, q, inl e) ->
    io_step (mkIo w o A P) (mkIo (mkWorld m q (outstanding w)) o A P)
| io_kick w o A P kicked m q r :
    poll_kick kicked (memory w, queue w) = Ok (m, q, r) -> io_step (mkIo w o A P) (mkIo (mkWorld m q (outstanding w)) o A P)
| io_complete w o A P comp bytes m q o' l A' :
    (comp, None) ∈ A -> InOrder.complete comp bytes o (memory w, queue w) = Ok (m, q, inr o') ->
    release (mark (qc_descriptor_index comp) bytes A) = (l, A') ->
    io_step (mkIo w o A P) (mkIo (mkWorld m q (map fst A')) o' A' (P ++ l)).

Record io_inv (n0 : Z) (w0 : World) (x : IoWorld) : Prop := {
  io_ok : inv n0 (io_world x);
  io_out : outstanding (io_world x) = map fst (io_waiting x);
  io_tracks : tracks (io_tracker x) (io_waiting x);
  io_released : released (io_waiting x);
  io_size : Z.of_nat (length (InOrder.completed (io_tracker x))) = queue_size (core (queue (io_world x)));
  io_trace : exists L, rtc traced (w0, []) (io_world x, L) /\
    fetched_by L = map fst (io_published x) ++ map fst (io_waiting x) /\ completed_by L = io_published x;
}.

Lemma complete_prepared_unit comp bytes st st' r : complete_prepared comp bytes st = Ok (st', r) -> r = inr tt.
Proof.
  unfold complete_prepared. destruct (work_completed comp (core st.2)) as [c|[]|]; [|done]. cbn [res_bind].
  destruct (complete_descriptor _ _ _) as [[[m k] r']|[]|]; [|done]. by intros [= _ <-].
Qed.

Lemma fetched_by_app l l' : fetched_by (l ++ l') = fetched_by l ++ fetched_by l'.
Proof. apply flat_map_app. Qed.

Lemma completed_by_app l l' : completed_by (l ++ l') = completed_by l ++ completed_by l'.
Proof. apply flat_map_app. Qed.

Lemma completed_by_map l : completed_by (map (fun x => Completed x.1 x.2) l) = l /\ fetched_by (map (fun x => Completed x.1 x.2) l) = [].
Proof. induction l as [|[comp bytes] l [IH1 IH2]]; [done|]. cbn. split; [f_equal; exact IH1|exact IH2]. Qed.

(** Publishing the first of the outstanding work. *)
Lemma publish_run n0 l w rest L :
  inv n0 w -> outstanding w = map fst l ++ rest ->
  exists m q, publish_all l (memory w, queue w) = Ok (m, q, inr tt) /\ inv n0 (mkWorld m q rest) /\ fixed q = fixed (queue w) /\
    rtc traced (w, L) (mkWorld m q rest, L ++ map (fun x => Completed x.1 x.2) l).
Proof.
  revert w L. induction l as [|[comp bytes] l IH]; intros w L Hinv Hout.
  - exists (memory w), (queue w). cbn in *. rewrite app_nil_r, <-Hout. destruct w. by split_and!.
  - cbn in Hout. destruct (np_complete _ (inv_no_panic _ _ Hinv) comp bytes) as [[[m1 q1] r] E]; [rewrite Hout; apply elem_of_cons; by left|].
    pose proof (complete_prepared_unit _ _ _ _ _ E) as ->.
    pose proof (step_complete (fun _ => True) w [] comp (map fst l ++ rest) bytes m1 q1 (inr tt) Hout E) as Hs.
    destruct (step_keeps _ _ _ _ _ Hinv Hs) as [I1 F1 _]. cbn in F1.
    destruct (IH (mkWorld m1 q1 (map fst l ++ rest)) (L ++ [Completed comp bytes]) I1 eq_refl) as (m & q & Hp & I2 & F2 & Hr).
    exists m, q. split_and!; [|done|by rewrite F2|].
    + cbn [publish_all]. unfold qbind. rewrite E. exact Hp.
    + eapply rtc_l; [by apply traced_intro|]. rewrite <-app_assoc in Hr. exact Hr.
Qed.

Lemma fixed_size q q' : fixed q = fixed q' -> queue_size (core q) = queue_size (core q').
Proof. intros E. exact (f_equal (fun x => queue_size x.1) E). Qed.

(** A step of the queue that neither publishes nor completes: what it fetched
    waits. *)
Lemma io_lstep n0 w0 w o A P o' comps w' :
  io_inv n0 w0 (mkIo w o A P) -> lstep (fun _ => True) w (map Fetched comps) w' -> outstanding w' = outstanding w ++ comps ->
  tracks o' (A ++ map (fun comp => (comp, None)) comps) -> InOrder.completed o' = InOrder.completed o ->
  io_inv n0 w0 (mkIo w' o' (A ++ map (fun comp => (comp, None)) comps) P).
Proof.
  intros [Hi Ho Ht Hr Hn (L & HL & Hf & Hc)] Hs Hout Ht' Hsame. cbn in *. destruct (step_keeps _ _ _ _ _ Hi Hs) as [I1 F1 _].
  assert (map fst (map (fun comp => (comp, @None Z)) comps) = comps) as Hm by (rewrite map_map; apply map_id).
  split; cbn; try done.
  - by rewrite Hout, Ho, map_app, Hm.
  - destruct A as [|[? [?|]] A]; [|done|done]. cbn. by destruct comps.
  - by rewrite Hsame, Hn, (fixed_size _ _ F1).
  - exists (L ++ map Fetched comps). split_and!.
    + eapply rtc_r; [exact HL|by apply traced_intro].
    + rewrite fetched_by_app, Hf, map_app, Hm, <-app_assoc. do 2 f_equal. clear. induction comps; [done|]. cbn. by f_equal.
    + rewrite completed_by_app, Hc. replace (completed_by (map Fetched comps)) with (@nil (QueueCompletion * Z)); [apply app_nil_r|].
      clear. by induction comps.
Qed.

Lemma tracks_fetch o A comp :
  tracks o A -> 0 <= qc_descriptor_index comp < Z.of_nat (length (InOrder.completed o)) -> qc_descriptor_index comp ∉ map head_of A ->
  tracks (o <| InOrder.order := InOrder.order o ++ [qc_descriptor_index comp] |>) (A ++ [(comp, None)]).
Proof.
  intros [H1 H2 H3 H4] Hb Hn. split; cbn.
  - by rewrite H1, map_app.
  - rewrite map_app. apply list.NoDup_app. split_and!; [done| |apply NoDup_singleton].
    intros h Hh Hin. apply list_elem_of_singleton in Hin. cbn in Hin. by subst.
  - apply Forall_app. split; [done|]. by constructor.
  - intros h Hh. rewrite (H4 h Hh). f_equal. clear. induction A as [|x A IH]; cbn; [by destruct (_ =? _)|].
    destruct (_ =? _); [done|exact IH].
Qed.

(** What [try_next] of the tracker does, from what the queue does. *)
Lemma io_try_next o w m q r o' :
  InOrder.try_next o (memory w, queue w) = Ok (m, q, inr (r, o')) ->
  try_next (memory w, queue w) = Ok (m, q, inr r) /\
  match r with
  | None => o' = o
  | Some work => o' = o <| InOrder.order := InOrder.order o ++ [qc_descriptor_index (completion work)] |> /\
      qc_descriptor_index (completion work) < Z.of_nat (length (InOrder.completed o))
  end.
Proof.
  unfold InOrder.try_next, qbind. destruct (try_next _) as [[st [e|[work|]]]| |] eqn:E; try done.
  - unfold qlift. cbn [res_bind fst snd]. destruct (Z.ltb_spec (qc_descriptor_index (completion work)) (Z.of_nat (length (InOrder.completed o)))); [|done].
    cbn. by intros [= -> <- <-].
  - by intros [= -> <- <-].
Qed.

(** Completing publishes what was released. *)
Lemma io_complete_run n0 w0 w o A P comp bytes l A' :
  io_inv n0 w0 (mkIo w o A P) -> (comp, None) ∈ A -> release (mark (qc_descriptor_index comp) bytes A) = (l, A') ->
  exists m q o', InOrder.complete comp bytes o (memory w, queue w) = Ok (m, q, inr o') /\
    io_inv n0 w0 (mkIo (mkWorld m q (map fst A')) o' A' (P ++ l)).
Proof.
  intros [Hi Ho Ht Hr Hn (L & HL & Hf & Hc)] Hin Hl. cbn in *.
  destruct (complete_refines o A comp bytes l A' Ht Hr Hin Hl) as (o' & Ht' & Hlen & Hrun).
  assert (map fst A = map fst l ++ map fst A') as Hsplit.
  { replace (map fst A) with (map fst (mark (qc_descriptor_index comp) bytes A)).
    - rewrite (release_split _ _ _ Hl), map_app, map_map. done.
    - unfold mark. rewrite map_map. apply map_ext. intros y. by destruct (_ =? _). }
  destruct (publish_run n0 l w (map fst A') L Hi ltac:(by rewrite Ho)) as (m & q & Hp & Hi' & Hfix & Htr).
  exists m, q, o'. split; [rewrite Hrun; unfold qbind; by rewrite Hp|].
  destruct (completed_by_map l) as [Hcl Hfl]. split; cbn; try done.
  - by eapply release_released.
  - by rewrite Hlen, Hn, (fixed_size _ _ Hfix).
  - exists (L ++ map (fun x => Completed x.1 x.2) l). split_and!.
    + by etrans.
    + rewrite fetched_by_app, Hfl, app_nil_r, Hf, Hsplit, map_app. by rewrite app_assoc.
    + by rewrite completed_by_app, Hc, Hcl.
Qed.

Lemma io_complete_keeps n0 w0 w o A P comp bytes m q o' l A' :
  io_inv n0 w0 (mkIo w o A P) -> (comp, None) ∈ A -> InOrder.complete comp bytes o (memory w, queue w) = Ok (m, q, inr o') ->
  release (mark (qc_descriptor_index comp) bytes A) = (l, A') -> io_inv n0 w0 (mkIo (mkWorld m q (map fst A')) o' A' (P ++ l)).
Proof.
  intros Hx Hin E Hl. destruct (io_complete_run _ _ _ _ _ _ _ bytes _ _ Hx Hin Hl) as (m1 & q1 & o1 & E1 & H).
  rewrite E1 in E. by injection E as -> -> ->.
Qed.

Lemma io_keeps n0 w0 x x' : io_inv n0 w0 x -> io_step x x' -> io_inv n0 w0 x'.
Proof.
  intros Hx Hs. revert Hx.
  destruct Hs as [w o A P m|w o A P m q r o' E Hg|w o A P m q e E|w o A P kicked m q r E|w o A P comp bytes m q o' l A' Hin E Hl];
    intros Hx.
  - rewrite <-(app_nil_r A). eapply (io_lstep n0 w0 w o A P o []); [done|by apply step_guest|by rewrite app_nil_r| |done].
    rewrite app_nil_r. apply (io_tracks _ _ _ Hx).
  - apply io_try_next in E as [E Ho]. eapply io_lstep; [exact Hx|by apply step_next|done| |].
    + destruct r as [work|]; cbn; [|subst; rewrite app_nil_r; apply (io_tracks _ _ _ Hx)]. destruct Ho as [-> Hlt].
      destruct (Hg work eq_refl). apply tracks_fetch; [apply (io_tracks _ _ _ Hx)|lia|done].
    + by destruct r; [destruct Ho as [-> _]|subst].
  - assert (try_next (memory w, queue w) = Ok (m, q, inl e)) as En.
    { revert E. unfold InOrder.try_next, qbind. destruct (try_next _) as [[st [e'|[work|]]]| |]; try done.
      - by intros [= -> ->].
      - unfold qlift. cbn [res_bind fst snd]. by destruct (_ <? _). }
    rewrite <-(app_nil_r A). eapply (io_lstep n0 w0 w o A P o []); [done| |by rewrite app_nil_r| |done].
    + pose proof (step_next (fun _ => True) w m q (inl e) En) as Hs. cbn in Hs. rewrite app_nil_r in Hs. exact Hs.
    + rewrite app_nil_r. apply (io_tracks _ _ _ Hx).
  - rewrite <-(app_nil_r A). eapply (io_lstep n0 w0 w o A P o []); [done|by eapply step_kick|by rewrite app_nil_r| |done].
    rewrite app_nil_r. apply (io_tracks _ _ _ Hx).
  - by eapply io_complete_keeps.
Qed.

Lemma io_start ml f params s q m :
  is_u 16 (params_size params) -> match s with Some s => state_u16 s | None => True end -> new_queue ml f params s = Ok q ->
  io_inv (in_flight (core q)) (mkWorld m q []) (mkIo (mkWorld m q []) (InOrder.new (params_size params)) [] []).
Proof.
  intros Hu Hs Hq. destruct (new_world ml f params s q m Hu Hs Hq) as [Hinv _]. unfold is_u in Hu. split; cbn; try done.
  - split; cbn; [done|constructor|constructor|]. intros h Hh. rewrite length_replicate in Hh. apply lookup_replicate. split; [done|lia].
  - rewrite length_replicate, (new_queue_size _ _ _ _ _ Hq). lia.
  - by exists [].
Qed.

Lemma io_next_returns n0 w0 x : io_inv n0 w0 x -> exists r, InOrder.try_next (io_tracker x) (memory (io_world x), queue (io_world x)) = Ok r.
Proof.
  intros [Hi _ _ _ Hn _]. destruct (np_next _ (inv_no_panic _ _ Hi)) as [[[m q] r] E].
  unfold InOrder.try_next, qbind. rewrite E. cbn [res_bind fst snd]. destruct r as [e|[work|]]; [by eexists| |by eexists].
  destruct (step_keeps _ _ _ _ _ Hi (step_next (fun _ => True) _ _ _ _ E)) as [I1 F1 _]. apply fixed_size in F1. cbn in F1.
  pose proof (iv_out _ _ I1) as Hout. cbn in Hout. apply Forall_app in Hout as [_ Hok%Forall_inv].
  assert (qc_descriptor_index (completion work) < queue_size (core q)) as Hlt.
  { unfold completion_ok in Hok. destruct (inner (core q)); [apply Hok|]. by destruct Hok as [_ [_ ?]]. }
  unfold qlift. destruct (Z.ltb_spec (qc_descriptor_index (completion work)) (Z.of_nat (length (InOrder.completed (io_tracker x)))));
    [by eexists|lia].
Qed.

(** C12: a device that completes in order, with any guest, publishes work in
    exactly the order in which it fetched it, whatever the order in which it
    completes. What it fetched is what it published followed by what waits, and
    each piece of work is published once, with the bytes it was completed with.
    Nothing waits needlessly: the work at the front of what waits is not
    completed. The tracker never panics, as long as the device completes each
    piece of work once and holds no head twice. *)
Theorem in_order_exact ml f params s q m x :
  is_u 16 (params_size params) -> match s with Some s => state_u16 s | None => True end -> new_queue ml f params s = Ok q ->
  rtc io_step (mkIo (mkWorld m q []) (InOrder.new (params_size params)) [] []) x ->
  (exists L, rtc traced (mkWorld m q [], []) (io_world x, L) /\
    fetched_by L = map fst (io_published x) ++ map fst (io_waiting x) /\ completed_by L = io_published x) /\
  released (io_waiting x) /\ InOrder.order (io_tracker x) = map head_of (io_waiting x) /\
  (exists r, InOrder.try_next (io_tracker x) (memory (io_world x), queue (io_world x)) = Ok r) /\
  (forall comp bytes, (comp, None) ∈ io_waiting x ->
    exists m' q' o', InOrder.complete comp bytes (io_tracker x) (memory (io_world x), queue (io_world x)) = Ok (m', q', inr o')).
Proof.
  intros Hu Hs Hq Hr. assert (io_inv (in_flight (core q)) (mkWorld m q []) x) as Hx.
  { pose proof (io_start ml f params s q m Hu Hs Hq) as H0. induction Hr as [x|x y z Hxy _ IH]; [done|]. by eapply IH, io_keeps. }
  split_and!.
  - apply (io_trace _ _ _ Hx).
  - apply (io_released _ _ _ Hx).
  - apply (tr_order _ _ (io_tracks _ _ _ Hx)).
  - by eapply io_next_returns.
  - intros comp bytes Hin. destruct (release (mark (qc_descriptor_index comp) bytes (io_waiting x))) as [l A'] eqn:Hl.
    destruct x as [w o A P]. destruct (io_complete_run _ _ _ _ _ _ _ bytes _ _ Hx Hin Hl) as (m1 & q1 & o1 & E & _). by exists m1, q1, o1.
Qed.

(** * Example: two chains, the second of them completed first *)

Inductive io_op : Type := IoNext | IoComplete (i : nat) (bytes : Z).

Definition do_io (x : IoWorld) (i : io_op) : option IoWorld :=
  let '(mkIo w o A P) := x in
  match i with
  | IoNext =>
      match InOrder.try_next o (memory w, queue w) with
      | Ok (m, q, inr (Some work, o')) =>
          let h := qc_descriptor_index (completion work) in
          if (0 <=? h) && negb (bool_decide (h ∈ map head_of A))
          then Some (mkIo (mkWorld m q (outstanding w ++ [completion work])) o' (A ++ [(completion work, None)]) P) else None
      | _ => None
      end
  | IoComplete i bytes =>
      match A !! i with
      | Some (comp, None) =>
          match InOrder.complete comp bytes o (memory w, queue w) with
          | Ok (m, q, inr o') =>
              let '(l, A') := release (mark (qc_descriptor_index comp) bytes A) in Some (mkIo (mkWorld m q (map fst A')) o' A' (P ++ l))
          | _ => None
          end
      | _ => None
      end
  end.

Lemma do_io_step x i x' : do_io x i = Some x' -> io_step x x'.
Proof.
  destruct x as [w o A P], i as [|i bytes]; cbn [do_io].
  - destruct (InOrder.try_next _ _) as [[[m q] [e|[[work|] o']]]| |] eqn:E; try done.
    destruct (Z.leb_spec 0 (qc_descriptor_index (completion work))), (bool_decide_reflect (qc_descriptor_index (completion work) ∈ map head_of A));
      try done. intros [= <-]. apply (io_next w o A P m q (Some work) o' E). by intros ? [= <-].
  - destruct (A !! i) as [[comp [|]]|] eqn:Hi; try done. destruct (InOrder.complete _ _ _ _) as [[[m q] [e|o']]| |] eqn:E; try done.
    destruct (release _) as [l A'] eqn:Hl. intros [= <-]. eapply io_complete; [by eapply list_elem_of_lookup_2|exact E|exact Hl].
Qed.

Definition run_io (x : IoWorld) (l : list io_op) : option IoWorld := foldl (fun x i => x ≫= fun x => do_io x i) (Some x) l.

Lemma run_io_rtc x l x' : run_io x l = Some x' -> rtc io_step x x'.
Proof.
  unfold run_io. revert x. induction l as [|i l IH]; intros x; cbn; [by intros [= <-]|]. destruct (do_io x i) as [x1|] eqn:E.
  - intros H. eapply rtc_l; [by eapply do_io_step|by apply IH].
  - intros H. exfalso. clear -H. by induction l.
Qed.

(** The guest offers the chains of the heads 2 and 0. *)
Definition two_chains : IoWorld :=
  mkIo (mkWorld (store 64 (le_bytes 2 0 ++ le_bytes 2 2 ++ le_bytes 2 2 ++ le_bytes 2 0) example_memory) (example_queue split_features) [])
    (InOrder.new 4) [] [].

Definition two_end : IoWorld := default two_chains (run_io two_chains [IoNext; IoNext; IoComplete 1 5; IoComplete 0 8]).

(** They are published in the order in which they were offered. *)
Lemma in_order_exact_witness :
  exists L, rtc traced (io_world two_chains, []) (io_world two_end, L) /\
    completed_by L = [(mkCompletion SplitContext 2, 8); (mkCompletion SplitContext 0, 5)].
Proof.
  destruct (in_order_exact 256 split_features example_params None _
    (store 64 (le_bytes 2 0 ++ le_bytes 2 2 ++ le_bytes 2 2 ++ le_bytes 2 0) example_memory) two_end ltac:(done) I example_new)
    as ((L & HL & _ & Hc) & _).
  - apply (run_io_rtc two_chains [IoNext; IoNext; IoComplete 1 5; IoComplete 0 8]). unfold two_end.
    assert (is_some (run_io two_chains [IoNext; IoNext; IoComplete 1 5; IoComplete 0 8]) = true) as H by (vm_compute; reflexivity).
    destruct (run_io two_chains _); [reflexivity|discriminate H].
  - exists L. split; [exact HL|]. rewrite Hc. vm_compute. reflexivity.
Defined.
