(* ===== verification/VirtioPayload.v ===== *)
(** The payload of a chain: buffers scattered over guest memory, read and written
    as one sequence of bytes. *)

From stdpp Require Import gmap.
From S2P Require Import Prelude GuestMem VirtioQueue VirtioQueueSpec VirtioQueueOps VirtioQueueSafe.

Implicit Type m : GuestMemory.

(** * Sequences of addresses *)

Fixpoint span (a : Z) (n : nat) : list Z := match n with O => [] | S n => a :: span (a + 1) n end.

(** The addresses of the bytes that the device may read, or of those that it may
    write, in the order of the chain. *)
Definition places (w : bool) (pl : list VirtioQueuePayload) : list Z :=
  flat_map (fun p => if eqb (writeable p) w then span (pl_address p) (Z.to_nat (pl_length p)) else []) pl.

(** The bytes at these addresses, if all of them are mapped. *)
Definition gather (l : list Z) m : option (list Z) := mapM (fun x => m !! x) l.

Definition mapped m (x : Z) : bool := is_some (m !! x).

(** A byte to every address, in turn. *)
Fixpoint put (l source : list Z) m : GuestMemory :=
  match l, source with
  | x :: l, b :: source => put l source (<[x := b]> m)
  | _, _ => m
  end.

Lemma span_length a n : length (span a n) = n.
Proof. revert a. induction n as [|n IH]; intros a; cbn; [done|]. by rewrite IH. Qed.

Lemma span_drop a n k : drop k (span a n) = span (a + Z.of_nat k) (n - k).
Proof.
  revert a n. induction k as [|k IH]; intros a n; [by rewrite drop_0, Nat.sub_0_r, Z.add_0_r|].
  destruct n as [|n]; [done|]. cbn [span drop Nat.sub]. rewrite IH. f_equal. lia.
Qed.

Lemma span_take a n k : take k (span a n) = span a (k `min` n).
Proof. revert a n. induction k as [|k IH]; intros a [|n]; cbn; [done|done|done|]. by rewrite IH. Qed.

Lemma gather_app l l' m : gather (l ++ l') m = (x ← gather l m; y ← gather l' m; Some (x ++ y)).
Proof.
  unfold gather. induction l as [|a l IH]; cbn; [by destruct (mapM _ l')|]. destruct (m !! a) as [b|]; cbn; [|done].
  rewrite IH. destruct (mapM _ l); cbn; [|done]. by destruct (mapM _ l').
Qed.

Lemma read_gather n a m : read_at n a m = gather (span a n) m.
Proof.
  unfold gather. revert a. induction n as [|n IH]; intros a; cbn; [done|]. destruct (m !! a); cbn; [|done]. rewrite IH.
  by destruct (mapM _ _).
Qed.

Lemma store_put a l m : store a l m = put (span a (length l)) l m.
Proof. revert a m. induction l as [|b l IH]; intros a m; cbn; [done|]. apply IH. Qed.

Lemma put_app l l' source m : put (l ++ l') source m = put l' (drop (length l) source) (put l source m).
Proof.
  revert source m. induction l as [|x l IH]; intros source m; [by rewrite drop_0|].
  destruct source as [|b source]; cbn; [by destruct l'|apply IH].
Qed.

Lemma put_take l source m : put l (take (length l) source) m = put l source m.
Proof. revert source m. induction l as [|x l IH]; intros [|b source] m; cbn; [done|done|done|apply IH]. Qed.

Lemma put_mapped l source m x : forallb (mapped m) l = true -> mapped (put l source m) x = mapped m x.
Proof.
  revert source m. induction l as [|y l IH]; intros source m; [done|]. destruct source as [|b source]; [done|]. cbn [forallb put].
  intros [Hy Hl]%andb_prop. assert (forall z, mapped (<[y := b]> m) z = mapped m z) as E.
  { intros z. unfold mapped in *. destruct (decide (y = z)) as [<-|]; [by rewrite lookup_insert_eq|by rewrite lookup_insert_ne]. }
  rewrite IH; [apply E|]. rewrite <-Hl. clear -E. induction l as [|z l IH]; cbn; [done|]. by rewrite E, IH.
Qed.

Lemma gather_mapped l m : is_some (gather l m) = forallb (mapped m) l.
Proof.
  unfold gather, mapped. induction l as [|x l IH]; cbn; [done|]. destruct (m !! x); cbn; [|done]. rewrite <-IH. by destruct (mapM _ l).
Qed.

Lemma write_put a l m : write_at a l m = if forallb (mapped m) (span a (length l)) then Some (put (span a (length l)) l m) else None.
Proof.
  unfold write_at. rewrite <-gather_mapped, <-read_gather. destruct (read_at _ _ _); cbn; [|done]. by rewrite store_put.
Qed.

(** * Reading and writing *)

(** Nothing is mapped at the last address or above, where a sum that saturates
    ends. *)
Definition bounded m : Prop := forall x, 2 ^ 64 - 1 <= x -> m !! x = None.

Definition lengths_ok (pl : list VirtioQueuePayload) : Prop := Forall (fun p => 0 <= pl_length p) pl.

(** A sum that saturates is out of range, as the sum itself is. *)
Lemma gather_saturating a k n m : bounded m -> gather (span (saturating_add_64 a k) n) m = gather (span (a + k) n) m.
Proof.
  intros Hm. unfold saturating_add_64. destruct (Z.le_gt_cases (a + k) (2 ^ 64 - 1)); [by rewrite Z.min_l|]. rewrite Z.min_r by lia.
  destruct n as [|n]; [done|]. cbn. by rewrite !Hm by lia.
Qed.

Lemma mapped_saturating a k n m :
  bounded m -> forallb (mapped m) (span (saturating_add_64 a k) n) = forallb (mapped m) (span (a + k) n).
Proof. intros Hm. by rewrite <-!gather_mapped, gather_saturating. Qed.

(** The first [len] of the bytes from [skip] on, where they begin in the first
    buffer. *)
Lemma places_first a k skip len (rest : list Z) :
  0 <= skip < k -> 0 <= len ->
  take (Z.to_nat len) (drop (Z.to_nat skip) (span a (Z.to_nat k) ++ rest)) =
  span (a + skip) (Z.to_nat (Z.min (k - skip) len)) ++ take (Z.to_nat (len - Z.min (k - skip) len)) rest.
Proof.
  intros Hs Hl. rewrite drop_app_le by (rewrite span_length; lia). rewrite span_drop, take_app, span_length, span_take.
  f_equal; [f_equal; lia|]. f_equal. lia.
Qed.

Lemma places_skip a k skip (rest : list Z) :
  0 <= k <= skip -> drop (Z.to_nat skip) (span a (Z.to_nat k) ++ rest) = drop (Z.to_nat (skip - k)) rest.
Proof. intros H. rewrite drop_app_ge by (rewrite span_length; lia). rewrite span_length. f_equal. lia. Qed.

Lemma read_exact pl skip m len :
  bounded m -> lengths_ok pl -> 0 <= skip -> 0 <= len ->
  read_from_payload_at_offset pl skip m len = gather (take (Z.to_nat len) (drop (Z.to_nat skip) (places false pl))) m.
Proof.
  intros Hm Hpl. revert skip len. induction Hpl as [|p pl Hp _ IH]; intros skip len Hs Hl;
    [change (places false []) with (@nil Z); by rewrite drop_nil, take_nil|].
  cbn [read_from_payload_at_offset places flat_map]. fold (places false pl). destruct (writeable p); cbn [eqb app]; [by apply IH|].
  destruct (Z.leb_spec (pl_length p) skip).
  - rewrite places_skip by lia. apply IH; lia.
  - rewrite places_first, gather_app, read_gather, gather_saturating by (done || lia).
    destruct (gather (span _ _) m) as [l|]; cbn [mbind option_bind]; [|done].
    destruct (Z.eqb_spec (len - Z.min (pl_length p - skip) len) 0) as [->|]; [by rewrite take_0; change (gather [] m) with (Some (@nil Z)); cbn [mbind option_bind]; rewrite app_nil_r|].
    by rewrite IH, drop_0 by lia.
Qed.

Lemma read_from_payload_offset pl m len :
  bounded m -> lengths_ok pl -> 0 <= len -> Forall (fun p => pl_address p <= 2 ^ 64 - 1) pl ->
  read_from_payload pl m len = read_from_payload_at_offset pl 0 m len.
Proof.
  intros Hm Hpl Hl Ha. revert len Hl. induction Hpl as [|p pl Hp Hpl IH]; intros len Hl; [done|]. inversion_clear Ha as [|? ? Hpa Hpla].
  cbn [read_from_payload read_from_payload_at_offset]. destruct (writeable p); [by apply IH|].
  destruct (Z.leb_spec (pl_length p) 0) as [Hz|Hz].
  - rewrite Z.min_l by lia. replace (pl_length p) with 0 by lia. rewrite !Z.sub_0_r.
    change (read_at (Z.to_nat 0) (pl_address p) m) with (Some (@nil Z)). cbn [mbind option_bind app].
    destruct (Z.eqb_spec len 0) as [->|].
    + rewrite read_exact by (done || lia). done.
    + rewrite IH by done. by destruct (read_from_payload_at_offset _ _ _ _).
  - rewrite Z.sub_0_r. unfold saturating_add_64. rewrite Z.add_0_r, Z.min_l with (m := 2 ^ 64 - 1) by done.
    destruct (read_at _ _ _) as [l|]; cbn [mbind option_bind]; [|done]. destruct (_ =? 0); [done|]. by rewrite IH by (done || lia).
Qed.

Lemma bounded_put l source m : bounded m -> forallb (mapped m) l = true -> bounded (put l source m).
Proof.
  intros Hm Hl x Hx. pose proof (put_mapped l source m x Hl) as E. unfold mapped in E. rewrite (Hm x Hx) in E.
  by destruct (put l source m !! x).
Qed.

Lemma forallb_mapped_put l l' source m :
  forallb (mapped m) l = true -> forallb (mapped (put l source m)) l' = forallb (mapped m) l'.
Proof. intros Hl. induction l' as [|x l' IH]; [done|]. cbn [forallb]. by rewrite IH, put_mapped. Qed.

Lemma write_exact pl skip source m :
  bounded m -> lengths_ok pl -> 0 <= skip ->
  let l := take (length source) (drop (Z.to_nat skip) (places true pl)) in
  write_payload pl skip source m = if forallb (mapped m) l then Some (put l source m, drop (length l) source) else None.
Proof.
  intros Hm Hpl. revert skip source m Hm. induction Hpl as [|p pl Hp _ IH]; intros skip source m Hm Hs; cbn zeta.
  { change (places true []) with (@nil Z). by rewrite drop_nil, take_nil. }
  cbn [write_payload places flat_map]. fold (places true pl). destruct (writeable p); cbn [eqb negb app]; [|by apply IH].
  destruct (Z.leb_spec (pl_length p) skip); [rewrite places_skip by lia; apply IH; (done || lia)|].
  set (size := Z.min (pl_length p - skip) (Z.of_nat (length source))).
  pose proof (places_first (pl_address p) (pl_length p) skip (Z.of_nat (length source)) (places true pl) ltac:(lia) ltac:(lia)) as E.
  rewrite Nat2Z.id in E. rewrite E. fold size. set (first := span (pl_address p + skip) (Z.to_nat size)).
  assert (length (take (Z.to_nat size) source) = Z.to_nat size) as Hlen by (rewrite length_take; lia).
  assert (length first = Z.to_nat size) as Hfirst by apply span_length.
  rewrite write_put, Hlen, mapped_saturating, forallb_app by done. fold first.
  destruct (forallb (mapped m) first) eqn:Hmap; cbn [mbind option_bind andb]; [|done].
  assert (put (span (saturating_add_64 (pl_address p) skip) (Z.to_nat size)) (take (Z.to_nat size) source) m = put first source m) as ->.
  { rewrite <-(put_take first source), Hfirst. unfold first, saturating_add_64. destruct (Z.to_nat size) as [|n] eqn:Hn; [done|].
    rewrite Z.min_l; [done|]. unfold first in Hmap. cbn in Hmap. apply andb_prop in Hmap as [Hx _].
    unfold mapped in Hx. destruct (Z.le_gt_cases (pl_address p + skip) (2 ^ 64 - 1)); [done|]. by rewrite Hm in Hx by lia. }
  rewrite put_app, Hfirst, length_app, Hfirst, <-drop_drop.
  assert (length (drop (Z.to_nat size) source) = Z.to_nat (Z.of_nat (length source) - size)) as Hrest by (rewrite length_drop; lia).
  rewrite <-Hrest. destruct (drop (Z.to_nat size) source) as [|b rest] eqn:Hd; [by rewrite take_0, drop_nil|].
  rewrite (IH 0) by (try lia; by apply bounded_put). rewrite drop_0.
  rewrite (forallb_mapped_put _ _ _ _ Hmap). done.
Qed.

(** C18: the buffers of a chain are one sequence of bytes to the device. A read
    at an offset, of a given length, gives the bytes of the readable buffers from
    there, as many as there are, if all of them are mapped; without an offset, it
    is a read at zero. A write puts its bytes at the addresses of the writeable
    buffers from the offset on: it fails if one that it needs is not mapped, or
    if there are too few, and otherwise changes memory there and nowhere else.
    The lengths that the device is told are those of the two sequences. *)
Theorem payload_exact pl offset len source m :
  bounded m -> lengths_ok pl -> Forall (fun p => pl_address p <= 2 ^ 64 - 1) pl -> 0 <= offset -> 0 <= len ->
  let to_write := take (length source) (drop (Z.to_nat offset) (places true pl)) in
  read_from_payload_at_offset pl offset m len = gather (take (Z.to_nat len) (drop (Z.to_nat offset) (places false pl))) m /\
  read_from_payload pl m len = gather (take (Z.to_nat len) (places false pl)) m /\
  write_at_offset pl offset source m =
    (if negb (forallb (mapped m) to_write) then Err WriteMemory
     else if bool_decide (length to_write = length source) then Ok (put to_write source m)
     else Err (NotAllWritten (Z.of_nat (length source)))) /\
  (forall x, x ∉ to_write -> put to_write source m !! x = m !! x) /\
  (forall w, get_payload_length pl w = Z.of_nat (length (places w pl))).
Proof.
  intros Hm Hpl Ha Ho Hl. cbn zeta. split_and!.
  - by apply read_exact.
  - by rewrite read_from_payload_offset, read_exact, drop_0 by (done || lia).
  - unfold write_at_offset. rewrite write_exact by done. cbn zeta. destruct (forallb _ _); cbn [negb]; [|done].
    set (l := take _ _). assert (length l <= length source)%nat by (unfold l; rewrite length_take; lia).
    destruct (drop (length l) source) as [|b rest] eqn:E; pose proof (f_equal length E) as E'; rewrite length_drop in E'; cbn in E'.
    + by rewrite bool_decide_eq_true_2 by lia.
    + by rewrite bool_decide_eq_false_2 by lia.
  - intros x. generalize (take (length source) (drop (Z.to_nat offset) (places true pl))). intros l. clear. revert source m.
    induction l as [|y l IH]; intros [|b source] m; cbn; try done. rewrite not_elem_of_cons. intros [Hne Hx].
    by rewrite IH, lookup_insert_ne by done.
  - intros w. clear -Hpl. induction Hpl as [|p pl Hp _ IH]; [done|]. cbn [get_payload_length foldr places flat_map].
    fold (get_payload_length pl w) (places w pl). rewrite IH, length_app. destruct (eqb _ _); [rewrite span_length|]; cbn; lia.
Qed.

(** Two bytes across the writeable buffers of a chain of four. *)
Lemma payload_exact_witness :
  write_at_offset [mkPayload true 4 2; mkPayload false 0 4; mkPayload true 9 0; mkPayload true 7 1] 1 [5; 6] (store 0 (replicate 8 0) ∅)
  = Ok (store 0 [0; 0; 0; 0; 0; 5; 0; 6] ∅).
Proof.
  destruct (payload_exact [mkPayload true 4 2; mkPayload false 0 4; mkPayload true 9 0; mkPayload true 7 1] 1 2 [5; 6]
    (store 0 (replicate 8 0) ∅)) as (_ & _ & Hw & _).
  - intros x Hx. rewrite store_lookup, decide_False; [apply lookup_empty|]. unfold within. cbn. lia.
  - repeat constructor; cbn; lia.
  - repeat constructor; cbn; lia.
  - lia.
  - lia.
  - rewrite Hw. vm_compute. reflexivity.
Defined.
