(* ===== verification/VirtioDefects.v ===== *)
(** Chains that a packed queue, or a queue with indirect descriptors, treats in
    unexpected ways, as runs of the operations on concrete memory. *)

From stdpp Require Import gmap.
From S2P Require Import Prelude GuestMem VirtioQueue VirtioQueueSpec VirtioQueueOps VirtioQueueSafe.

Implicit Type m : GuestMemory.

(** A packed queue of four descriptors at 0, the driver's event at 64 and the
    device's at 80. *)
Definition packed_features : VirtioDeviceFeatures := mkFeatures true true true.

Definition packed_descriptor (address length id flags : Z) : list Z :=
  le_bytes 8 address ++ le_bytes 4 length ++ le_bytes 2 id ++ le_bytes 2 flags.

Definition packed_memory (l : list (list Z)) (event : Z) : GuestMemory :=
  store 64 (le_bytes 4 event) (store 0 (concat l) (store 0 (replicate 256 0) ∅)).

Definition packed_start m : World := mkWorld m (example_queue packed_features) [].

(** Flags: 1 is NEXT, 4 INDIRECT and 128 available, in the first round. *)

(** A chain of two descriptors, of which the driver wants to hear when the ring
    reaches the second. *)
Definition crossed_start : World :=
  packed_start (packed_memory [packed_descriptor 128 8 7 129; packed_descriptor 136 8 7 128] (1 + 2 ^ 15 + 2 * 2 ^ 16)).

(** The chain is completed, the ring is past the descriptor, and the driver was
    not notified. *)
Lemma packed_event_crossed :
  match run crossed_start [OpNext; OpComplete 0 0] with
  | Some w => (core_used_index (complete (queue w)), notify_guest (queue w)) = (2 + 2 ^ 15, 0)
  | None => False
  end.
Proof. vm_compute. reflexivity. Qed.

(** A chain of a buffer and a table of indirect descriptors at 192. *)
Definition mixed_start : World :=
  packed_start (store 192 (packed_descriptor 144 16 0 2)
    (packed_memory [packed_descriptor 128 8 7 129; packed_descriptor 192 16 9 132] 0)).

(** It is fetched as a chain of one slot, with both buffers; and the table is
    fetched once more as a chain of its own. *)
Lemma packed_mixed_fetched_twice :
  match run mixed_start [OpNext; OpNext] with
  | Some w => outstanding w = [mkCompletion (PackedContext 7 1) 0; mkCompletion (PackedContext 9 1) 1]
  | None => False
  end.
Proof. vm_compute. reflexivity. Qed.

(** A split queue, with a table of indirect descriptors at 192 that has two
    entries, the flag INDIRECT at the first or at the second. *)
Definition double_memory (first second : Z) : GuestMemory :=
  store 192 (example_descriptor 128 8 first 1 ++ example_descriptor 136 8 second 0)
    (store 0 (example_descriptor 192 32 4 0) (store 0 (replicate 256 0) ∅)).

(** Only the second is refused. *)
Lemma double_indirect_first :
  (exists ch, reader_collect (core (example_queue split_features)) (double_memory 5 0) 0
    = Ok ([mkPayload false 128 8; mkPayload false 136 8], ch)) /\
  reader_collect (core (example_queue split_features)) (double_memory 1 4) 0 = Err DoubleIndirect.
Proof. split; [eexists|]; vm_compute; reflexivity. Qed.
